(* ===== verification/_CoqProject ===== *)
-Q . S2P
Prelude.v
External.v
Address.v
Heap.v
Sev.v
SevHeap.v
SevVisible.v
HeapInit.v
PageTable.v
PageTableWf.v
PageTableOps.v
PageTableProps.v
SevTable.v
Ownership.v
OwnershipProps.v
Isolation.v
Lifecycle.v
CompartmentSpec.v
CompartmentLife.v
Tlb.v
Compartment.v
CompartmentProps.v
Backend.v
Ghcb.v
GuestRequest.v
SevSetup.v
Locks.v
LockSystem.v
RecursiveMutex.v
Semaphore.v
Barrier.v
Acpi.v
Cpu.v
HvCore.v
SevCore.v
Threads.v
ThreadPool.v
Verona.v
Logging.v
Console.v
Random.v
Arrays.v
SharedMemory.v
QemuHost.v
HcsHost.v
HcsPlatform.v
Transition.v
CompartmentCalls.v
Interrupts.v
Idt.v
CoreStart.v
Bootloader.v
Libc.v
Boot.v
Platform.v
