(* ===== verification/Prelude.v ===== *)
(** * Monza: a verification development

    Monza is a unikernel runtime that runs C++ programs directly in a virtual
    machine, in particular in a confidential AMD SEV-SNP machine whose host is not
    trusted, and that divides a program into compartments which run in user mode
    with a page table each. A program on the host starts such a machine and talks to it
    through ring buffers in shared memory. This library models the runtime
    (src/guest-verona-rt) and the host and guest sides of the application framework
    (src/app-framework, src/windows/app-framework), and proves the properties that
    their security and correctness rest on.

    ** Parts and files

    - [Prelude] (this file): machine integers with explicit truncation, the
      [outcome] of code that may stop the machine ([Kabort]) or loop ([Hang]),
      loops with fuel, shared lemmas and tactics.
    - [External]: the helpers of snmalloc (a submodule) as a class of operations
      with a class of laws and a reference instance that meets them.
    - [Address], [Heap]: include/public/address.h, include/private/heap.h and
      arch/x86_64/heap_generic.cc. A range is a record of two addresses, the heap is
      the record of the static members of [HeapRanges].
    - [Sev], [SevHeap], [SevVisible]: the GHCB MSR protocol and page layout
      (inc/sev_msr.h, inc/sev_ghcb.h, inc/sev.h) and the platform code of
      arch/x86_64/hv_sev.cc. The host is a function from the history to its answer;
      [SevState] is the GHCB MSR and the trace of instructions the host can see.
    - [HeapInit]: [MonzaGlobals] of include/public/snmalloc/snmalloc.h and
      arch/x86_64/main64.cc. The state is the heap size recorded, the blocks handed to
      the allocator and the ranges zeroed for its tables.
    - [PageTable], [PageTableWf], [PageTableOps], [PageTableProps]:
      inc/pagetable_arch.h and arch/x86_64/pagetable.cc, for 4 kB and 2 MB pages.
      Node memory is a finite map from node addresses to 512 entries, the node
      allocators are a class with laws. [PageTableWf] labels every node with the
      table and the address prefix it serves, [PageTableOps] shows what a table
      operation does to the page walk, [PageTableProps] states it as access rights.
    - [SevTable]: the kernel's table under SEV ([setup_pagetable_sev] of hv_sev.cc).
    - [Ownership], [OwnershipProps]: [MonzaCompartmentOwnership] of
      include/public/snmalloc/snmalloc.h. The intrusive doubly linked list is a store
      of next and prev pointers; [list_repr] relates it to a duplicate-free list.
    - [Isolation]: arch/x86_64/trap.cc and the system of compartments that allocate,
      free and fault, as a step relation.
    - [Lifecycle]: construction of a compartment's table and allocator state
      (arch_compartment.h, [LocalState] of snmalloc.h), destruction, and the system in
      which compartments come and go. The invariant joins the lists, owners and tables
      of all compartments; an operation on one list leaves the others alone
      ([same_outside]).
    - [CompartmentSpec]: the memory of compartments specified as a machine of sets of
      chunks that are granted and taken back, and the simulation of [Lifecycle] by it.
    - [CompartmentLife]: destruction of compartments and of the memories made for them
      (arch_compartment.h, compartment.h, compartment_utils.h), which share the allocator
      state by reference count; an executable system of events.
    - [Tlb]: the translations that cores cache, under the switches of tables that
      compartment.asm makes, on top of the system of [Lifecycle].
    - [Compartment], [CompartmentProps]: experimental/include (arch_compartment.h,
      compartment.h, compartment_utils.h, callback.h), crt/compartment.cc and
      crt/output.cc. What a compartment does when entered is a parameter.
    - [CompartmentCalls]: both ends of the calls, callbacks and the constructor of a
      compartment (callback.h, compartment_callback.h, compartment.h), with the contents
      of the memory it is given.
    - [Backend]: the system calls that stand for the allocator's backend inside a
      compartment (snmalloc.h, crt/compartment.cc): chunks and metadata handed out, chunks
      given back. What snmalloc's own backend asks of the range component is a list of
      calls that are run on it, so owners and mappings are those of [Ownership].
    - [Transition]: arch/x86_64/compartment.asm with inc/macros.asm and
      inc/syscall.h. Entry, system call, resumption and exit are lists of instructions
      on a machine of registers, flags (the status flags of arithmetic included) and words
      of memory.
    - [Interrupts], [Idt]: exceptions.asm, cores.asm and the macros around a handler on the
      same machine, as programs with branches, with the processor's delivery through a gate;
      the table of gates byte by byte; and the same programs run with each access checked
      against the page table in CR3 ([Idt.check]).
    - [CoreStart], [Bootloader]: the first instructions of each core (main64.asm,
      cores.asm), [init_cpu_generic] of cores_generic.cc against the core it starts, and
      the wrapper of the QEMU boot loader (bootloader/pure64/emulate.asm).
    - [Ghcb], [GuestRequest]: requests through the GHCB page (hv_sev.cc) and the
      encrypted messages to the security processor
      (arch/x86_64/hv_sev_guest_request.cc). AES-GCM of OpenSSL is a class with laws, the
      host a function, and the firmware a class whose laws state its message interface by
      byte offsets, independently of the guest's layout functions. The log of key uses is
      made of what the cipher was called with.
    - [SevSetup]: the pages that the platform shares with the host, for each core and for
      guest requests, and the initialisation of the cipher.
    - [Locks], [LockSystem]: monza-libcxx/src/threading.cc. [Locks] has the sections
      of the mutexes and the run-once flag; [LockSystem] the system of any number of
      threads, mutexes and condition variables that share the semaphores of the
      threads. [LockSystem.step] is executable; its invariant counts tokens: a thread
      that waits has exactly one queue entry, pending wake-up or semaphore count.
    - [RecursiveMutex]: the recursive mutex of the same file, each access to shared memory a
      step, as a refinement of the plain one for threads that do not nest.
    - [Semaphore]: spin lock and single waiter semaphore of crt/thread.cc with the
      halting loop of arch/x86_64/cores.asm; each atomic access and each instruction
      of the loop is a step.
    - [Barrier]: the notifications between cores (arch/x86_64/cores.cc, cores_sev.cc) on
      cores with store buffers, and [flush_process_write_buffers].
    - [Logging]: include/public/logging.h. The buffer is a list of bytes and a
      position, the stream the buffer and the entries that were output.
    - [Console]: levels and the choice of the stream (logging.h), the output lock of
      crt/output.cc and the host that takes the characters (hv_sev.cc).
    - [Random]: arch/x86_64/random.cc and crt/random.cc.
    - [Acpi], [Cpu]: arch/x86_64/cores_generic.cc, inc/per_core_data.h, inc/gdt.h,
      inc/hv.h, hv.cc and cores_sev.cc: ACPI tables on bytes of memory, descriptors,
      hypercall words and the start of cores.
    - [HvCore], [SevCore]: the start of a core under Hyper-V (hv.cc, inc/hv.h) and under
      SEV (cores_sev.cc, inc/sev.h), the context of the new core being bytes that the
      hypervisor or the processor reads.
    - [Threads], [ThreadPool]: crt/thread.cc, crt/tls.cc and crt/time.cc. [Threads]
      has the TLS slots and blocks and the clock, [ThreadPool] the cores and the
      threads that share them, as interleaved steps.
    - [Verona]: the threads of the Verona runtime on that pool
      (include/public/verona_external_threading.h), with the heap blocks of their
      arguments.
    - [Arrays]: include/public/arrays.h, a heap of blocks and the objects that own
      them.
    - [SharedMemory]: the allocator of shared memory and the description of the ring
      buffers, written by the host and validated by the guest
      (app-framework/include/host and include/guest).
    - [QemuHost], [HcsHost], [HcsPlatform]: the platforms of the host, for QEMU
      (enclave_platform.h) and for Windows (hcs_enclave.cc). Host code is a trace of
      calls that may succeed or fail, with exceptions and destructors.
    - [Libc]: monza-libc and crt/monza_main.cc.
    - [Boot]: detection of the platform, installation of its functions, and the order
      of the boot (arch/x86_64: hypervisor.cc, kvm.cc, hv.cc, hv_sev.cc, gdt.cc,
      compartment.cc, shared.cc, confidential.cc, serial.cc, main64.cc).
    - [Platform]: what the allocator and the runtime call of the platform (the hooks and
      pools of snmalloc.h, crt/early_alloc.cc, hypervisor.cc, hv.cc, gdt.cc), on a heap that
      is a class with laws.

    ** How the parts interact

    The boot ([Boot.startcc]) detects the platform and installs its functions, finds
    the heap ([SevHeap.setup_heap_sev] or [Heap.setup_heap_generic]),
    maps it in the kernel's table ([PageTable.create_kernel_page_table]) and, under
    SEV, accepts it ([SevHeap.accept_private_memory]). A compartment gets a table of
    its own ([PageTable.create_compartment_pagetable]); its memory comes through the
    range component ([Ownership.alloc_range]), which keeps the owner of each chunk,
    the compartment's list of chunks and its table in step. A fault in user mode goes
    to [Isolation.page_fault_handler], which consults the heap ranges and the owners
    and extends the table. System calls ([Compartment]) check pointers with
    [Ownership.validate_owner_range]. [Transition] is the machine code below
    [Compartment]: what is a nested call there is a frame on the kernel's stack here.
    The mutexes of [LockSystem] wait on the semaphore whose sections [Semaphore]
    proves to be a counter. [Boot] passes the range the hypervisor shares to the
    guest's [SharedMemory.guest_main], whose bytes are those that the host's side
    of the same file wrote, or any others: the guest's theorem is for every host.

    ** What the theorems show

    - Heap set-up under an adversarial host: any memory map either stops the machine
      or yields a heap that lies where it may; exactly private pages are accepted. The
      allocator then gets that heap without its own tables, and no byte twice. The generic
      set-up checks no order of the entries, and a lemma exhibits a map with which bytes are
      handed over twice.
    - Page tables: every operation has exactly its intended effect on the rights of
      every 48-bit address and on no other table; kernel and compartment tables are
      the maps of their regions; release is safe (and leaks persistent nodes).
    - Ownership and isolation: allocation and release keep owners, lists and tables
      in step, destruction releases everything, and from the boot on, on the condition that
      no compartment is constructed at the address of one whose allocator state still
      exists (the argument [fresh] of [Lifecycle.reach]), each table lets user mode write
      exactly what its owner has on record, no two the same
      address, every owned chunk is that of an allocator state that exists, and the kernel's
      table stays. Every run is then one of a specification in which chunks are granted and
      taken back. The code does not ensure the condition: memory that outlives its compartment is
      given to the next compartment at the same address. Reads are not isolated, and the ownership
      check of pointers is exact only for ranges whose chunks it visits; the gaps are stated as
      theorems. A page fault is refused or maps exactly its page, as long as
      there is memory for the table.
    - Cached translations: for cores that leave a compartment before its mappings are
      taken away, no translation in any cache lets one compartment write what belongs to
      another; nothing invalidates them on a core that stays inside, and a theorem
      exhibits the write.
    - Compartment invocations nest and exit without disturbing stacks or callbacks, and an
      exit at any depth ends the compartment for good. Of the memories a compartment gets, a
      theorem says which are cleared and which hold what their last user left.
    - The transitions of compartments keep the kernel's frames: any sequence of entries,
      system calls, resumptions and exits behaves as a stack of calls, each returning
      with the registers of its caller and the kernel's stack where it was, unless a system
      call is made with a stack pointer into the kernel's own words. Interrupts that
      return are invisible to it, apart from those that come inside a handler; a wake-up in a
      compartment does not return, it faults under the compartment's table.
    - Allocation across the boundary: a compartment gives back only its own slabs, with the
      metadata on record, and gets slabs of which the range component has made it the owner.
    - The pages shared with the host are disjoint, one for each use, and every core's
      MSR names its own.
    - Guest requests never reuse an initialisation vector from one thread, and are
      understood by any firmware that follows the message interface; two threads can
      reuse one, and a theorem exhibits the run.
    - Mutexes exclude and neither they nor condition variables lose a wake-up,
      run-once runs once; the recursive mutex is the plain one for threads that do not
      nest, and no mutex for those that do.
    - Log formatting stays inside its buffer and prints numerals that read back, and the
      entries of threads do not mix; an entry is printed whole, or the machine hangs
      in its own lock when the host refuses a character. Random
      bytes stay inside a buffer of at least eight bytes, and do not in a smaller one.
    - The semaphore is a counter in spite of the interrupts that come between its
      instructions; every function that one thread starts on the cores runs once. Two
      threads that start others race, and a theorem exhibits the run. The arguments of a
      Verona thread live as long as it runs and are freed once.
    - The barrier between cores is one on the generic platform and not under SEV.
    - Each core has its own interrupt stack and, under Hyper-V, its own page for calls; a
      report is only ever an echo of the caller's data outside confidential machines.
    - Core discovery, descriptors, TLS slots, the clock and the contexts of new cores do
      what they should.
    - The guest uses the ring buffers only if they lie in the shared memory, whatever
      the host wrote, and the two sides agree when the host is honest. Blocks of shared
      memory are disjoint.
    - The host platforms release what they acquire on every path of construction; the
      QEMU platform ends when the machine does, the destruction of the Windows platform
      blocks or terminates the process.
    - Arrays stay in bounds and own their blocks; [munmap] gives back what
      [mmap] returned only where the allocator's block is as large as the rounded
      length.

    ** Bounds and fuel

    Addresses are 64-bit with wrap-around written out; theorems on tables are for
    the 48 bits the walk translates. Loops carry fuel that the definitions compute
    from their range ([chunk_fuel], the number of pages or entries) and the theorems
    show that it is not used up, or take the fuel as an argument with the bound that
    suffices ([dealloc_all], the MADT traversal, hypercall retries). [kernel_assert]
    only logs in debug builds and is empty in release builds, so it is left out, as
    are the allocator's debug assertions.

    ** Assumptions

    Interleavings are sequentially consistent. What lies outside the repository is a
    parameter: snmalloc and OpenSSL as classes with laws and instances that meet
    them, the host, firmware, hypervisor, processor and operating systems as functions
    of the requests. The code of a compartment may change every register and all words
    of memory that the kernel does not use; [Isolation] is what justifies that for
    writes. Inside a transition no interrupt is taken; [Interrupts] has those between.

    ** What is not modelled

    The switch to long mode and the set-up of the floating point unit (main64.asm), the
    effects of single instructions that nothing depends on, the layouts of hypervisor
    registers and status codes that are only passed on, empty functions, and third-party code (snmalloc, OpenSSL, musl,
    libc++, Verona, the CCF ring buffer, the Pure64 loader), which are submodules or not in
    the repository. Weak memory is modelled only where the barrier depends on it. The lines
    of the sources that no definition translates are declarations, type aliases of snmalloc's
    templates, comments and tests. *)

From stdpp Require Export base numbers list gmap.
From Stdlib Require Export ZArith Lia.

#[export] Set Default Goal Selector "!".

Open Scope Z_scope.

(** ** Machine integers

    A [w]-bit unsigned integer is a [Z] in [0, 2^w); every arithmetic operation
    of the source that can wrap is followed by the truncation of its type. *)

Definition u8 (z : Z) : Z := z mod 2 ^ 8.
Definition u16 (z : Z) : Z := z mod 2 ^ 16.
Definition u32 (z : Z) : Z := z mod 2 ^ 32.
Definition u64 (z : Z) : Z := z mod 2 ^ 64.

Definition is_u64 (z : Z) : Prop := 0 <= z < 2 ^ 64.

(** ** Outcomes

    [kabort()] shuts the machine down and never returns, so a routine that may
    call it returns an [outcome]. [Hang] is the result of a loop that is still
    running when its fuel is used up. *)

Inductive outcome (A : Type) : Type :=
| Done (a : A)
| Kabort
| Hang.
Arguments Done {A} a.
Arguments Kabort {A}.
Arguments Hang {A}.

Declare Scope monza_scope.
Delimit Scope monza_scope with monza.

Definition obind {A B} (m : outcome A) (k : A -> outcome B) : outcome B :=
  match m with Done a => k a | Kabort => Kabort | Hang => Hang end.

Notation "'let*' x ':=' m 'in' k" := (obind m (fun x => k))
  (at level 10, x pattern, m at level 100, k at level 200)
  : monza_scope.

Open Scope monza_scope.

Definition is_done {A} (m : outcome A) : bool :=
  match m with Done _ => true | _ => false end.

(** A range-based [for] over an array whose body may abort. *)
Fixpoint ofold {A S} (body : S -> A -> outcome S) (l : list A) (s : S) : outcome S :=
  match l with
  | [] => Done s
  | x :: l' => let* s' := body s x in ofold body l' s'
  end.

(** A [while] loop. *)
Fixpoint while_loop {S} (fuel : nat) (cond : S -> bool) (body : S -> outcome S) (s : S)
  : outcome S :=
  if cond s then
    match fuel with
    | O => Hang
    | Datatypes.S fuel' => let* s' := body s in while_loop fuel' cond body s'
    end
  else Done s.

(** ** Automation *)

Create HintDb monza.

(** Turns the boolean tests of a translated condition into propositions. *)
Ltac bool_to_prop :=
  repeat match goal with
  | H : (_ && _) = true |- _ => apply andb_true_iff in H; destruct H
  | H : (_ || _) = false |- _ => apply orb_false_iff in H; destruct H
  | H : (_ || _) = true |- _ => apply orb_true_iff in H
  | H : (_ && _) = false |- _ => apply andb_false_iff in H
  | H : negb _ = true |- _ => apply negb_true_iff in H
  | H : negb _ = false |- _ => apply negb_false_iff in H
  | H : (_ =? _) = true |- _ => apply Z.eqb_eq in H
  | H : (_ =? _) = false |- _ => apply Z.eqb_neq in H
  | H : (_ <? _) = true |- _ => apply Z.ltb_lt in H
  | H : (_ <? _) = false |- _ => apply Z.ltb_ge in H
  | H : (_ <=? _) = true |- _ => apply Z.leb_le in H
  | H : (_ <=? _) = false |- _ => apply Z.leb_gt in H
  | H : (_ >? _) = true |- _ => rewrite Z.gtb_ltb in H
  | H : (_ >? _) = false |- _ => rewrite Z.gtb_ltb in H
  | H : (_ >=? _) = true |- _ => rewrite Z.geb_leb in H
  | H : (_ >=? _) = false |- _ => rewrite Z.geb_leb in H
  end.

(** Case analysis on an innermost [if] of the goal, or else of a hypothesis,
    with the condition reflected. *)
Ltac case_if_on b :=
  lazymatch b with
  | context [if _ then _ else _] => fail
  | _ => let E := fresh "E" in destruct b eqn:E; bool_to_prop
  end.
Ltac case_if_prop :=
  match goal with
  | |- context [if ?b then _ else _] => case_if_on b
  | H : context [if ?b then _ else _] |- _ => case_if_on b
  end.

(** Linear arithmetic with the divisions and remainders of the goal. *)
Ltac zlia := unfold u8, u16, u32, u64, is_u64 in *; Z.div_mod_to_equations; lia.

(** Successful steps of a monadic computation in a hypothesis. *)
Ltac inv_done :=
  repeat match goal with
  | H : Done _ = Done _ |- _ => injection H as H; subst
  | H : Kabort = Done _ |- _ => discriminate H
  | H : Done _ = Kabort |- _ => discriminate H
  | H : Hang = Done _ |- _ => discriminate H
  | H : obind ?m _ = Done _ |- _ =>
      let E := fresh "E" in destruct m eqn:E; cbn [obind] in H
  end.

(** Runs a closed computation that ends in [Done], and names its result. *)
Ltac run_done m E :=
  let H := fresh in
  assert (is_done m = true) as H by (vm_compute; reflexivity);
  destruct m eqn:E; [clear H|discriminate H..].

(** ** Shared lemmas *)

Lemma u64_range z : is_u64 (u64 z).
Proof. unfold is_u64, u64. apply Z.mod_pos_bound. lia. Qed.

Lemma u64_small z : is_u64 z -> u64 z = z.
Proof. unfold is_u64, u64. intros. by apply Z.mod_small. Qed.

Lemma u64_idemp z : u64 (u64 z) = u64 z.
Proof. apply u64_small, u64_range. Qed.

Lemma u64_add_r a b : u64 (a + u64 b) = u64 (a + b).
Proof. unfold u64. apply Zplus_mod_idemp_r. Qed.

Lemma u64_add_l a b : u64 (u64 a + b) = u64 (a + b).
Proof. unfold u64. apply Zplus_mod_idemp_l. Qed.

#[export] Hint Resolve u64_range : monza.

Lemma obind_done {A B} (m : outcome A) (k : A -> outcome B) b :
  obind m k = Done b <-> exists a, m = Done a /\ k a = Done b.
Proof.
  destruct m as [a| |]; cbn; split; try discriminate.
  - eauto.
  - intros (a' & [= <-] & H). exact H.
  - intros (a' & H & _). discriminate.
  - intros (a' & H & _). discriminate.
Qed.

(** Only the fuel can make a loop hang: enough of it for a measure that every
    iteration decreases never runs out. *)
Lemma while_total {S} (cond : S -> bool) (body : S -> outcome S) (I : S -> Prop)
  (m : S -> nat) fuel : forall s,
  (forall s, I s -> cond s = true -> body s <> Hang) ->
  (forall s s', I s -> cond s = true -> body s = Done s' -> I s' /\ (m s' < m s)%nat) ->
  I s -> (m s < fuel)%nat -> while_loop fuel cond body s <> Hang.
Proof.
  induction fuel as [|fuel IH]; intros s Hb Hs Hi Hm; [lia|].
  cbn; destruct (cond s) eqn:Hc; [|done].
  destruct (body s) as [s'| |] eqn:Hbs; cbn; [|done|by destruct (Hb s Hi Hc)].
  destruct (Hs s s' Hi Hc Hbs). apply IH; auto. lia.
Qed.

Lemma while_progress {S} (cond : S -> bool) (body : S -> outcome S) (I : S -> Prop)
  (m : S -> nat) fuel : forall s,
  (forall s, I s -> cond s = true -> exists s', body s = Done s' /\ I s' /\ (m s' < m s)%nat) ->
  I s -> (m s < fuel)%nat -> exists s', while_loop fuel cond body s = Done s'.
Proof.
  induction fuel as [|fuel IH]; intros s Hb Hi Hm; [lia|].
  cbn; destruct (cond s) eqn:Hc; [|by eauto].
  destruct (Hb s Hi Hc) as (s' & -> & Hi' & Hlt). cbn. apply IH; auto. lia.
Qed.

Lemma while_inv {S} (cond : S -> bool) (body : S -> outcome S) (I : S -> Prop) fuel :
  forall s s',
  (forall s s', I s -> cond s = true -> body s = Done s' -> I s') ->
  I s -> while_loop fuel cond body s = Done s' -> I s' /\ cond s' = false.
Proof.
  induction fuel as [|fuel IH]; intros s s' Hb Hi; cbn; destruct (cond s) eqn:Hc; intros Hw;
    inv_done; try done.
  apply IH in Hw; [done|exact Hb|]. eapply Hb; eauto.
Qed.

(** Invariant rule for [ofold]. *)
Lemma ofold_inv {A S} (body : S -> A -> outcome S) (I : S -> Prop) l :
  forall s s',
  (forall s x s1, In x l -> I s -> body s x = Done s1 -> I s1) ->
  I s -> ofold body l s = Done s' -> I s'.
Proof.
  induction l as [|x l IH]; cbn; intros s s' Hb Hs Hf.
  - inv_done. exact Hs.
  - apply obind_done in Hf as (s1 & Hx & Hf).
    apply (IH s1 s'); [|eapply Hb; eauto|exact Hf].
    intros; eapply Hb; eauto.
Qed.

Lemma ofold_app {A S} (body : S -> A -> outcome S) l1 l2 s :
  ofold body (l1 ++ l2) s = (let* s1 := ofold body l1 s in ofold body l2 s1).
Proof.
  revert s; induction l1 as [|x l1 IH]; intros s; cbn; [done|].
  destruct (body s x); cbn; [apply IH|done|done].
Qed.

Lemma while_no_kabort {S} (cond : S -> bool) (body : S -> outcome S) fuel : forall s,
  (forall s, body s <> Kabort) -> while_loop fuel cond body s <> Kabort.
Proof.
  induction fuel as [|fuel IH]; intros s Hb; cbn; destruct (cond s); try done.
  destruct (body s) eqn:E; cbn; [by apply IH|by destruct (Hb s)|done].
Qed.

(** A loop that advances an address by a fixed step is a fold over the
    addresses. *)
Definition stride (p step : Z) (n : nat) : list Z := map (fun i => p + step * Z.of_nat i) (seq 0 n).

Lemma stride_S p step n : stride p step (S n) = p :: stride (p + step) step n.
Proof.
  unfold stride. cbn [seq map]. f_equal; [lia|]. rewrite <- seq_shift, map_map. apply map_ext. lia.
Qed.

Lemma while_stride {S} (body : Z -> S -> outcome S) step n : forall fuel p hi s,
  0 <= p -> 0 < step -> hi + step <= 2 ^ 64 -> (n <= fuel)%nat ->
  p + step * (Z.of_nat n - 1) < hi \/ n = 0%nat -> hi <= p + step * Z.of_nat n ->
  (let* r := while_loop fuel (fun r => fst r <? hi)
     (fun r => let* s' := body (fst r) (snd r) in Done (u64 (fst r + step), s')) (p, s) in
   Done (snd r)) = ofold (fun s a => body a s) (stride p step n) s.
Proof.
  induction n as [|n IH]; intros fuel p hi s Hp Hs Hhi Hf Hlo Hup.
  - assert ((p <? hi) = false) as Hc by (apply Z.ltb_ge; lia).
    destruct fuel; cbn; rewrite Hc; done.
  - destruct fuel as [|fuel]; [lia|]. rewrite stride_S.
    assert ((p <? hi) = true) as Hc by (apply Z.ltb_lt; destruct Hlo; [nia|lia]).
    cbn. rewrite Hc. destruct (body p s) as [s'| |]; cbn; [|done|done].
    assert (p < hi) by (by apply Z.ltb_lt). rewrite u64_small by (unfold is_u64; lia).
    apply IH; lia.
Qed.

(** *** Bit fields *)

Lemma land_ones_mod a n : 0 <= n -> Z.land a (2 ^ n - 1) = a mod 2 ^ n.
Proof. intros. rewrite <- Z.land_ones by done. f_equal. rewrite Z.ones_equiv. lia. Qed.

(** Fields packed side by side: [lor] of a small value and a shifted one adds them. *)
Lemma lor_shiftl_add a b n : 0 <= a < 2 ^ n -> 0 <= n -> Z.lor a (Z.shiftl b n) = a + b * 2 ^ n.
Proof.
  intros Ha Hn. rewrite <- Z.shiftl_mul_pow2 by done. symmetry.
  rewrite <- Z.lxor_lor, <- Z.add_nocarry_lxor; try done.
  all: apply Z.bits_inj'; intros i Hi; rewrite Z.land_spec, Z.bits_0, Z.shiftl_spec by done;
    destruct (Z.lt_ge_cases i n) as [Hlt|Hge];
    [rewrite (Z.testbit_neg_r b) by lia; apply andb_false_r|];
    rewrite (proj1 (Z.bounded_iff_bits_nonneg n a Hn ltac:(lia)) ltac:(lia) i Hge);
    done.
Qed.

(** The field of [w] bits at bit [n]. *)
Definition bitfield (n w z : Z) : Z := Z.land (Z.shiftr z n) (2 ^ w - 1).

Lemma bitfield_eq n w z : 0 <= n -> 0 <= w -> bitfield n w z = (z / 2 ^ n) mod 2 ^ w.
Proof. intros. unfold bitfield. by rewrite land_ones_mod, Z.shiftr_div_pow2. Qed.

(** *** Bytes *)

(** Little-endian bytes of a value. *)
Fixpoint le_bytes (n : nat) (v : Z) : list Z :=
  match n with O => [] | S n' => v mod 2 ^ 8 :: le_bytes n' (v / 2 ^ 8) end.

Lemma le_bytes_length n : forall v, length (le_bytes n v) = n.
Proof. induction n; intros v; cbn; [done|]. by rewrite IHn. Qed.

(** The value of little-endian bytes. *)
Definition le_value (l : list Z) : Z := foldr (fun b acc => b + 2 ^ 8 * acc) 0 l.

Lemma le_value_bytes n : forall v, 0 <= v < 2 ^ (8 * Z.of_nat n) -> le_value (le_bytes n v) = v.
Proof.
  induction n as [|n IH]; intros v Hv; [cbn in *; lia|]. cbn [le_bytes le_value foldr].
  change (foldr _ 0 (le_bytes n (v / 2 ^ 8))) with (le_value (le_bytes n (v / 2 ^ 8))).
  rewrite IH; [zlia|]. rewrite Nat2Z.inj_succ in Hv.
  replace (8 * Z.succ (Z.of_nat n)) with (8 + 8 * Z.of_nat n) in Hv by lia.
  rewrite Z.pow_add_r in Hv by lia. split; [apply Z.div_pos; lia|]. apply Z.div_lt_upper_bound; lia.
Qed.
