(* ===== verification/External.v ===== *)
(** * Interfaces of the code outside the repository

    The runtime calls helpers of snmalloc, a git submodule whose source is not
    part of this repository. Each is a parameter here: an operational class
    carries the functions, a class of laws states the documented behaviour the
    runtime relies on. The components are defined over the operational class and
    their theorems assume the laws; the reference instances at the end show that
    the laws can be met and let the witnesses compute. *)

From S2P Require Import Prelude.

Definition is_pow2 (a : Z) : Prop := exists k, 0 <= k <= 63 /\ a = 2 ^ k.

(** [snmalloc::bits::align_up] and [snmalloc::bits::align_down], on [size_t]. *)
Class SnmallocBits : Type := {
  align_up : Z -> Z -> Z;
  align_down : Z -> Z -> Z;
}.

(** Rounding to a multiple of a power of two. [align_up] is only specified where
    the addition of [alignment - 1] does not leave 64 bits. *)
Class SnmallocBitsOk `{!SnmallocBits} : Prop := {
  align_up_range : forall v a, is_u64 (align_up v a);
  align_up_spec : forall v a, is_pow2 a -> 0 <= v -> v + a <= 2 ^ 64 ->
    (a | align_up v a) /\ v <= align_up v a < v + a;
  align_down_spec : forall v a, is_pow2 a -> is_u64 v ->
    (a | align_down v a) /\ align_down v a <= v < align_down v a + a;
}.

(** [MONZA_PAGE_SIZE] is 4 kB, or 2 MB with [MONZA_USE_LARGE_PAGES]. *)
Inductive page_config : Type := SmallPages | LargePages.

Definition page_bits (c : page_config) : Z :=
  match c with SmallPages => 12 | LargePages => 21 end.

Definition PAGE_SIZE (c : page_config) : Z := 2 ^ page_bits c.

(** ** Facts about the laws *)

Section BitsFacts.
Context `{SnmallocBits, !SnmallocBitsOk}.

Lemma is_pow2_pos a : is_pow2 a -> 0 < a.
Proof. intros (k & ? & ->). lia. Qed.

Lemma align_down_eq v a : is_pow2 a -> is_u64 v -> align_down v a = v - v mod a.
Proof.
  intros Ha Hv. pose proof (is_pow2_pos a Ha).
  destruct (align_down_spec v a Ha Hv) as [[q Hq] ?]. rewrite Hq in *.
  assert (v mod a = v - q * a) as ->; [|lia].
  symmetry. apply Z.mod_unique with q; lia.
Qed.

Lemma align_up_eq v a :
  is_pow2 a -> 0 <= v -> v + a <= 2 ^ 64 -> align_up v a = (v + (a - 1)) / a * a.
Proof.
  intros Ha Hv Hs. pose proof (is_pow2_pos a Ha).
  destruct (align_up_spec v a Ha Hv Hs) as [[q Hq] ?]. rewrite Hq in *.
  f_equal. apply Z.div_unique with (v + (a - 1) - q * a); lia.
Qed.

Lemma align_up_aligned v a :
  is_pow2 a -> 0 <= v -> v + a <= 2 ^ 64 -> (a | v) -> align_up v a = v.
Proof.
  intros Ha Hv Hs [q ->]. pose proof (is_pow2_pos a Ha).
  rewrite align_up_eq by done. f_equal.
  symmetry. apply Z.div_unique with (a - 1); lia.
Qed.

Lemma align_down_aligned v a :
  is_pow2 a -> is_u64 v -> (a | v) -> align_down v a = v.
Proof.
  intros Ha Hv Hd. rewrite align_down_eq by done.
  rewrite (proj2 (Z.mod_divide v a ltac:(pose proof (is_pow2_pos a Ha); lia)) Hd). lia.
Qed.

End BitsFacts.

Lemma page_size_pow2 c : is_pow2 (PAGE_SIZE c).
Proof. exists (page_bits c). split; [destruct c; cbn; lia|done]. Qed.

Lemma page_size_cases c : PAGE_SIZE c = 4096 \/ PAGE_SIZE c = 2097152.
Proof. unfold PAGE_SIZE. destruct c; cbn; lia. Qed.

Lemma page_size_bounds c : 4096 <= PAGE_SIZE c <= 2097152.
Proof. destruct (page_size_cases c); lia. Qed.

#[export] Hint Resolve page_size_pow2 align_up_range : monza.

(** ** Reference instance *)

Definition ref_bits : SnmallocBits := {|
  align_up v a := u64 ((v + (a - 1)) / a * a);
  align_down v a := v - v mod a;
|}.

Lemma ref_bits_ok : @SnmallocBitsOk ref_bits.
Proof.
  split; cbn.
  - intros. apply u64_range.
  - intros v a Ha Hv Hs. pose proof (is_pow2_pos a Ha).
    assert ((v + (a - 1)) / a * a = v + (a - 1) - (v + (a - 1)) mod a) as E by zlia.
    pose proof (Z.mod_pos_bound (v + (a - 1)) a ltac:(lia)).
    rewrite u64_small by (unfold is_u64; lia).
    split; [|lia]. exists ((v + (a - 1)) / a). lia.
  - intros v a Ha Hv. pose proof (is_pow2_pos a Ha).
    pose proof (Z.mod_pos_bound v a ltac:(lia)).
    split; [|lia]. exists (v / a). rewrite (Z.mod_eq v a) by lia. lia.
Qed.
