(* ===== verification/Address.v ===== *)
(** * Address ranges (include/public/address.h)

    [AddressRange] and its alignment operations, on 64-bit addresses. The
    alignment helpers come from snmalloc and are the parameters of
    [External.SnmallocBits]. *)

From S2P Require Import Prelude External.

(** [std::span<uint8_t>]: a base address and a length in bytes. *)
Record span : Type := Span { span_data : Z; span_size : Z }.

Record AddressRange : Type := mkRange { start : Z; end_ : Z }.

#[export] Instance span_eq_dec : EqDecision span.
Proof. solve_decision. Defined.
#[export] Instance range_eq_dec : EqDecision AddressRange.
Proof. solve_decision. Defined.

Definition range_default : AddressRange := mkRange 0 0.

(** [AddressRange(const std::span<T, S>&)]; [elt] is [sizeof(T)]. *)
Definition range_of_span_elt (elt : Z) (s : span) : AddressRange :=
  mkRange (span_data s) (u64 (span_data s + u64 (span_size s * elt))).

Definition range_of_span (s : span) : AddressRange := range_of_span_elt 1 s.

(** [AddressRange(address_t, address_t)], also used by the pointer constructor. *)
Definition range_of_bounds (s e : Z) : AddressRange :=
  mkRange s (if e >? s then e else s).

Definition range_copy (r : AddressRange) : AddressRange := mkRange (start r) (end_ r).

Definition overlaps (r : AddressRange) (address : Z) : bool :=
  (start r <=? address) && (address <? end_ r).

Definition range_empty (r : AddressRange) : bool := start r =? end_ r.

Definition range_size (r : AddressRange) : Z := u64 (end_ r - start r).

Definition check_valid_subrange (r other : AddressRange) : bool :=
  (start other >=? start r) && (start other <? end_ r) && (end_ other >? start r) &&
  (end_ other <? end_ r) && (start other <? end_ other).

Definition is_aligned_block (alignment : Z) (r : AddressRange) : bool :=
  Z.land (Z.lor (start r) (end_ r)) (alignment - 1) =? 0.

Section Align.
Context `{SnmallocBits}.

Definition align_up_start (alignment : Z) (r : AddressRange) : AddressRange :=
  let aligned_start := align_up (start r) alignment in
  if aligned_start >=? end_ r
  then range_of_bounds aligned_start aligned_start
  else range_of_bounds aligned_start (end_ r).

Definition align_up_end (alignment : Z) (r : AddressRange) : AddressRange :=
  let aligned_end := align_up (end_ r) alignment in
  range_of_bounds (start r) aligned_end.

Definition align_down_start (alignment : Z) (r : AddressRange) : AddressRange :=
  let aligned_start := align_down (start r) alignment in
  range_of_bounds aligned_start (end_ r).

Definition align_down_end (alignment : Z) (r : AddressRange) : AddressRange :=
  let aligned_end := align_down (end_ r) alignment in
  if aligned_end <=? start r
  then range_of_bounds aligned_end aligned_end
  else range_of_bounds (start r) aligned_end.

Definition align_restrict (alignment : Z) (r : AddressRange) : AddressRange :=
  let aligned_start := align_up (start r) alignment in
  let aligned_end := align_down (end_ r) alignment in
  if aligned_end <=? aligned_start
  then range_of_bounds aligned_start aligned_start
  else range_of_bounds aligned_start aligned_end.

Definition align_broaden (alignment : Z) (r : AddressRange) : AddressRange :=
  let aligned_start := align_down (start r) alignment in
  let aligned_end := align_up (end_ r) alignment in
  range_of_bounds aligned_start aligned_end.

End Align.

(** ** Ranges as sets of addresses *)

Definition in_range (r : AddressRange) (a : Z) : Prop := start r <= a < end_ r.
Definition range_subset (r1 r2 : AddressRange) : Prop :=
  forall a, in_range r1 a -> in_range r2 a.
Definition range_disjoint (r1 r2 : AddressRange) : Prop :=
  forall a, in_range r1 a -> in_range r2 a -> False.

(** A range that a constructor call on in-bounds arguments produces. *)
Definition range_wf (r : AddressRange) : Prop := 0 <= start r <= end_ r /\ end_ r < 2 ^ 64.

#[export] Instance range_subset_refl : Reflexive range_subset.
Proof. intros r a Ha. exact Ha. Qed.
#[export] Instance range_subset_trans : Transitive range_subset.
Proof. intros r1 r2 r3 H12 H23 a Ha. auto. Qed.

Lemma overlaps_spec r a : overlaps r a = true <-> in_range r a.
Proof. unfold overlaps, in_range. rewrite andb_true_iff, Z.leb_le, Z.ltb_lt. lia. Qed.

Lemma range_of_bounds_le s e : s <= e -> range_of_bounds s e = mkRange s e.
Proof. intros. unfold range_of_bounds. f_equal. case_if_prop; lia. Qed.

Lemma range_of_bounds_gt s e : e <= s -> range_of_bounds s e = mkRange s s.
Proof. intros. unfold range_of_bounds. f_equal. case_if_prop; lia. Qed.

Lemma range_size_wf r : range_wf r -> range_size r = end_ r - start r.
Proof. unfold range_wf, range_size. intros. apply u64_small. unfold is_u64. lia. Qed.

Lemma range_of_span_wf s :
  0 <= span_data s -> 0 <= span_size s -> span_data s + span_size s < 2 ^ 64 ->
  range_of_span s = mkRange (span_data s) (span_data s + span_size s).
Proof.
  intros. unfold range_of_span, range_of_span_elt. f_equal.
  rewrite Z.mul_1_r, !u64_small; unfold is_u64; try lia.
  rewrite u64_small; unfold is_u64; lia.
Qed.

Lemma land_pow2_pred v k : 0 <= k -> Z.land v (2 ^ k - 1) = v mod 2 ^ k.
Proof. intros. rewrite <- Z.land_ones by lia. f_equal. rewrite Z.ones_equiv. lia. Qed.

Lemma lor_eq_0 a b : Z.lor a b = 0 <-> a = 0 /\ b = 0.
Proof. apply Z.lor_eq_0_iff. Qed.

(** [is_aligned_block] holds exactly when both bounds are multiples. *)
Lemma is_aligned_block_spec alignment r :
  is_pow2 alignment ->
  is_aligned_block alignment r = true <-> (alignment | start r) /\ (alignment | end_ r).
Proof.
  intros (k & Hk & ->). unfold is_aligned_block. rewrite Z.eqb_eq.
  rewrite Z.land_lor_distr_l, lor_eq_0, !land_pow2_pred by lia.
  rewrite !Z.mod_divide by (apply Z.pow_nonzero; lia). done.
Qed.

Section AlignFacts.
Context `{SnmallocBits, !SnmallocBitsOk}.
Context (alignment : Z) (Hpow : is_pow2 alignment).

Lemma align_up_start_eq r :
  range_wf r -> start r + alignment <= 2 ^ 64 ->
  align_up_start alignment r =
    mkRange (align_up (start r) alignment) (Z.max (align_up (start r) alignment) (end_ r)).
Proof.
  intros Hr Hs. unfold align_up_start. cbn zeta.
  case_if_prop; rewrite range_of_bounds_le by lia; f_equal; lia.
Qed.

Lemma align_down_end_eq r :
  range_wf r ->
  align_down_end alignment r =
    (if align_down (end_ r) alignment <=? start r
     then mkRange (align_down (end_ r) alignment) (align_down (end_ r) alignment)
     else mkRange (start r) (align_down (end_ r) alignment)).
Proof.
  intros Hr. unfold align_down_end. cbn zeta.
  case_if_prop; rewrite range_of_bounds_le by lia; done.
Qed.

(** Aligning inwards keeps a sub-range, aligned at both ends. *)
Lemma align_restrict_sound r :
  range_wf r -> start r + alignment <= 2 ^ 64 ->
  range_subset (align_restrict alignment r) r /\
  (alignment | start (align_restrict alignment r)) /\
  (alignment | end_ (align_restrict alignment r)).
Proof.
  intros [Hr He] Hs. destruct (align_up_spec (start r) alignment) as [Hd1 ?]; [done|lia|lia|].
  destruct (align_down_spec (end_ r) alignment) as [Hd2 ?]; [done|unfold is_u64; lia|].
  unfold align_restrict. cbn zeta. case_if_prop; rewrite range_of_bounds_le by lia.
  all: split; [intros a; unfold in_range; cbn; lia|]; cbn; auto.
Qed.

(** ... and it loses no aligned block of the original range. *)
Lemma align_restrict_complete r b :
  range_wf r -> start r + alignment <= 2 ^ 64 -> (alignment | b) ->
  start r <= b -> b + alignment <= end_ r ->
  range_subset (mkRange b (b + alignment)) (align_restrict alignment r).
Proof.
  intros [Hr He] Hs [qb ->] Hlo Hhi. pose proof (is_pow2_pos _ Hpow).
  destruct (align_up_spec (start r) alignment) as [[q1 Hq1] ?]; [done|lia|lia|].
  destruct (align_down_spec (end_ r) alignment) as [[q2 Hq2] ?]; [done|unfold is_u64; lia|].
  unfold align_restrict. cbn zeta. rewrite Hq1, Hq2 in *.
  assert (q1 <= qb) by nia. assert (qb + 1 <= q2) by nia.
  case_if_prop; [nia|]. rewrite range_of_bounds_le by nia.
  intros a; unfold in_range; cbn. nia.
Qed.

Lemma align_broaden_superset r :
  range_wf r -> end_ r + alignment <= 2 ^ 64 ->
  range_subset r (align_broaden alignment r) /\
  (alignment | start (align_broaden alignment r)) /\
  (alignment | end_ (align_broaden alignment r)).
Proof.
  intros [Hr He] Hs. destruct (align_up_spec (end_ r) alignment) as [Hd1 ?]; [done|lia|lia|].
  destruct (align_down_spec (start r) alignment) as [Hd2 ?]; [done|unfold is_u64; lia|].
  unfold align_broaden. cbn zeta. rewrite range_of_bounds_le by lia.
  split; [intros a; unfold in_range; cbn; lia|]; cbn; auto.
Qed.

End AlignFacts.

(** A sub-range that passes [check_valid_subrange] lies strictly inside. *)
Lemma check_valid_subrange_sound r other :
  check_valid_subrange r other = true ->
  range_subset other r /\ start other < end_ other /\ end_ other < end_ r.
Proof.
  unfold check_valid_subrange. intros H. bool_to_prop.
  split; [intros a; unfold in_range; lia|lia].
Qed.
