(* ===== verification/Heap.v ===== *)
(** * Heap ranges (include/private/heap.h, arch/x86_64/heap_generic.cc)

    The table of memory ranges given to the allocator, and its set-up from the
    E820 map of the boot zero page. *)

From S2P Require Import Prelude External Address.

Definition MAX_RANGE_COUNT : Z := 32.

(** The static members of [HeapRanges]; [additional_ranges] is the whole array. *)
Record HeapRanges : Type := mkHeap {
  first_range : span;
  additional_ranges : list span;
  additional_ranges_count : Z;
}.

Definition heap_initial : HeapRanges :=
  mkHeap (Span 0 0) (replicate (Z.to_nat MAX_RANGE_COUNT) (Span 0 0)) 0.

(** [std::span::first] and [std::span::subspan], undefined past the end. *)
Definition span_first (s : span) (count : Z) : span := Span (span_data s) count.
Definition subspan (s : span) (offset count : Z) : span := Span (u64 (span_data s + offset)) count.

Section HeapRanges.
Context `{SnmallocBits} (cfg : page_config).

Definition align_end (range : span) : outcome span :=
  let address_range := range_of_span range in
  let aligned_address_range := align_down_end (PAGE_SIZE cfg) address_range in
  if range_empty aligned_address_range then Kabort
  else Done (span_first range (u64 (end_ aligned_address_range - start aligned_address_range))).

Definition align (range : span) : outcome span :=
  let address_range := range_of_span range in
  let aligned_address_range := align_restrict (PAGE_SIZE cfg) address_range in
  if range_empty aligned_address_range then Kabort
  else Done (subspan range
               (u64 (start aligned_address_range - start address_range))
               (u64 (end_ aligned_address_range - start aligned_address_range))).

Definition set_first (hr : HeapRanges) (range : span) : outcome HeapRanges :=
  let* aligned := align_end range in
  Done (mkHeap aligned (additional_ranges hr) (additional_ranges_count hr)).

Definition add (hr : HeapRanges) (range : span) : outcome HeapRanges :=
  if additional_ranges_count hr =? MAX_RANGE_COUNT then Kabort
  else
    let* aligned := align range in
    Done (mkHeap (first_range hr)
            (<[Z.to_nat (additional_ranges_count hr) := aligned]> (additional_ranges hr))
            (u64 (additional_ranges_count hr + 1))).

Definition first (hr : HeapRanges) : span := first_range hr.

Definition additional (hr : HeapRanges) : list span :=
  take (Z.to_nat (additional_ranges_count hr)) (additional_ranges hr).

Definition largest_valid_address (hr : HeapRanges) : Z :=
  if additional_ranges_count hr =? 0
  then u64 (end_ (range_of_span (first_range hr)) - 1)
  else u64 (end_ (range_of_span
              (nth (Z.to_nat (additional_ranges_count hr - 1)) (additional_ranges hr)
                 (Span 0 0))) - 1).

Definition heap_size (hr : HeapRanges) : Z :=
  u64 (largest_valid_address hr - start (range_of_span (first_range hr)) + 1).

Definition is_heap_address (hr : HeapRanges) (address : Z) : bool :=
  if overlaps (range_of_span (first_range hr)) address then true
  else existsb (fun r => overlaps (range_of_span r) address) (additional hr).

(** ** The E820 map *)

Definition E820_ENTRIES_OFFSET : Z := 0x1e8.
Definition E820_TABLE_OFFSET : Z := 0x2d0.
Definition E820_TYPE_RAM : Z := 1.

Record E820Entry : Type := mkE820 { e820_addr : Z; e820_size : Z; e820_type : Z }.

(** Little-endian load of [n] bytes; [mem] gives the byte at an address. *)
Fixpoint read_le (mem : Z -> Z) (a : Z) (n : nat) : Z :=
  match n with
  | O => 0
  | S n' => u8 (mem a) + 256 * read_le mem (a + 1) n'
  end.

(** The packed entry has 8 + 8 + 4 bytes. *)
Definition read_e820_entry (mem : Z -> Z) (a : Z) : E820Entry :=
  mkE820 (read_le mem a 8) (read_le mem (a + 8) 8) (read_le mem (a + 16) 4).

Definition e820_table (mem : Z -> Z) (kernel_zero_page : Z) : list E820Entry :=
  map (fun i => read_e820_entry mem (kernel_zero_page + E820_TABLE_OFFSET + 20 * Z.of_nat i))
      (seq 0 (Z.to_nat (read_le mem (kernel_zero_page + E820_ENTRIES_OFFSET) 1))).

(** The body of the loop; the flag is [first_entry]. *)
Definition heap_generic_step (heap_start : Z) (st : bool * HeapRanges) (entry : E820Entry)
  : outcome (bool * HeapRanges) :=
  let '(first_entry, hr) := st in
  if negb (e820_addr entry =? 0) && (e820_type entry =? E820_TYPE_RAM) then
    if first_entry then
      if heap_start >? u64 (e820_addr entry + e820_size entry) then Kabort
      else
        let* hr' := set_first hr
          (Span heap_start (u64 (u64 (e820_addr entry + e820_size entry) - heap_start))) in
        Done (false, hr')
    else
      let* hr' := add hr (Span (e820_addr entry) (e820_size entry)) in
      Done (false, hr')
  else Done (first_entry, hr).

Definition setup_heap_generic (heap_start : Z) (mem : Z -> Z) (kernel_zero_page : Z)
  (hr : HeapRanges) : outcome HeapRanges :=
  let* st := ofold (heap_generic_step heap_start) (e820_table mem kernel_zero_page) (true, hr) in
  Done (snd st).

End HeapRanges.

(** ** Invariant *)

Definition span_wf (s : span) : Prop :=
  0 <= span_data s /\ 0 <= span_size s /\ span_data s + span_size s < 2 ^ 64.

Definition in_span (s : span) (a : Z) : Prop := span_data s <= a < span_data s + span_size s.

(** Every additional range starts and ends on a page boundary. *)
Definition page_block (cfg : page_config) (s : span) : Prop :=
  span_wf s /\ 0 < span_size s /\
  (PAGE_SIZE cfg | span_data s) /\ (PAGE_SIZE cfg | span_size s).

(** The first range is either unset or ends on a page boundary. *)
Definition first_wf (cfg : page_config) (s : span) : Prop :=
  s = Span 0 0 \/
  (span_wf s /\ 0 < span_size s /\ (PAGE_SIZE cfg | span_data s + span_size s)).

Record heap_wf (cfg : page_config) (hr : HeapRanges) : Prop := {
  hw_count : 0 <= additional_ranges_count hr <= MAX_RANGE_COUNT;
  hw_length : length (additional_ranges hr) = Z.to_nat MAX_RANGE_COUNT;
  hw_first : first_wf cfg (first_range hr);
  hw_additional : Forall (page_block cfg) (additional hr);
}.

Lemma heap_initial_wf cfg : heap_wf cfg heap_initial.
Proof.
  split; unfold heap_initial, MAX_RANGE_COUNT, first_wf; cbn; try lia; auto.
Qed.

Lemma in_range_of_span s a :
  span_wf s -> in_range (range_of_span s) a <-> in_span s a.
Proof.
  intros (? & ? & ?). rewrite range_of_span_wf by done.
  unfold in_range, in_span; cbn. lia.
Qed.

Lemma read_le_range mem a n : 0 <= read_le mem a n < 2 ^ (8 * Z.of_nat n).
Proof.
  revert a; induction n as [|n IH]; intros a; [cbn; lia|].
  cbn [read_le]. specialize (IH (a + 1)).
  replace (8 * Z.of_nat (S n)) with (8 + 8 * Z.of_nat n) by lia.
  rewrite Z.pow_add_r by lia. change (2 ^ 8) with 256.
  pose proof (Z.mod_pos_bound (mem a) (2 ^ 8) ltac:(lia)).
  unfold u8. change (2 ^ 8) with 256 in *. nia.
Qed.

Section HeapFacts.
Context `{SnmallocBits, !SnmallocBitsOk} (cfg : page_config).

(** [align_end] keeps a non-empty prefix of the range ending on a page
    boundary, so the [first] call it ends with stays inside the span. *)
Lemma align_end_sound s s' :
  span_wf s -> align_end cfg s = Done s' ->
  span_data s' = span_data s /\ 0 < span_size s' <= span_size s /\
  (PAGE_SIZE cfg | span_data s' + span_size s').
Proof.
  intros Hs. unfold align_end. destruct Hs as (Hd & Hz & Ho).
  rewrite range_of_span_wf, align_down_end_eq by (done || (split; cbn; lia)). cbn.
  destruct (align_down_spec (span_data s + span_size s) (PAGE_SIZE cfg)) as [Hdiv ?];
    [apply page_size_pow2|unfold is_u64; lia|].
  case_if_prop; unfold range_empty; cbn; [by rewrite Z.eqb_refl|].
  case_if_prop; [done|]. intros [= <-]. cbn.
  rewrite u64_small by (unfold is_u64; lia).
  split; [done|]. split; [lia|]. replace (_ + _) with (align_down (span_data s + span_size s) (PAGE_SIZE cfg)) by lia.
  done.
Qed.

(** [align] keeps a non-empty page-aligned block of the range. *)
Lemma align_sound s s' :
  span_wf s -> span_data s + PAGE_SIZE cfg <= 2 ^ 64 -> align cfg s = Done s' ->
  page_block cfg s' /\ (forall a, in_span s' a -> in_span s a).
Proof.
  intros Hs Hp. pose proof Hs as (Hd & Hz & Ho). unfold align.
  rewrite range_of_span_wf by done. unfold align_restrict. cbn.
  destruct (align_down_spec (span_data s + span_size s) (PAGE_SIZE cfg)) as [[q2 Hq2] ?];
    [apply page_size_pow2|unfold is_u64; lia|].
  destruct (align_up_spec (span_data s) (PAGE_SIZE cfg)) as [[q1 Hq1] ?];
    [apply page_size_pow2|lia|lia|].
  case_if_prop; rewrite range_of_bounds_le by lia; unfold range_empty; cbn;
    [by rewrite Z.eqb_refl|].
  case_if_prop; [done|]. intros [= <-]. unfold page_block, span_wf, in_span; cbn.
  pose proof (page_size_bounds cfg).
  rewrite !u64_small by (unfold is_u64; rewrite ?u64_small; unfold is_u64; lia).
  split; [|lia]. split; [lia|]. split; [lia|]. split.
  - exists q1. lia.
  - exists (q2 - q1). lia.
Qed.

Lemma align_wrapped s :
  is_u64 (span_data s) -> span_data s + PAGE_SIZE cfg <= 2 ^ 64 ->
  end_ (range_of_span s) <= span_data s -> align cfg s = Kabort.
Proof.
  intros Hd Hp He. unfold align, align_restrict.
  change (start (range_of_span s)) with (span_data s). cbn zeta.
  assert (is_u64 (end_ (range_of_span s))) as Hu by apply u64_range.
  destruct (align_down_spec (end_ (range_of_span s)) (PAGE_SIZE cfg)) as [_ ?];
    [apply page_size_pow2|done|].
  destruct (align_up_spec (span_data s) (PAGE_SIZE cfg)) as [_ ?];
    [apply page_size_pow2|unfold is_u64 in *; lia|lia|].
  case_if_prop; [|lia]. rewrite range_of_bounds_le by lia.
  unfold range_empty; cbn. by rewrite Z.eqb_refl.
Qed.

Lemma set_first_wf hr s hr' :
  heap_wf cfg hr -> span_wf s -> set_first cfg hr s = Done hr' ->
  heap_wf cfg hr' /\ additional hr' = additional hr /\
  span_data (first_range hr') = span_data s /\
  0 < span_size (first_range hr') <= span_size s.
Proof.
  intros [Hc Hl Hf Ha] Hs Hset. unfold set_first in Hset. inv_done.
  destruct (align_end_sound _ _ Hs E) as (Hd & Hz & Hdiv).
  split; [|cbn; split_and!; (done || lia)]. destruct Hs as (? & ? & ?).
  split; cbn; auto. right. unfold span_wf. split_and!; (done || lia).
Qed.

Lemma add_inv hr s hr' :
  heap_wf cfg hr -> add cfg hr s = Done hr' ->
  exists s', align cfg s = Done s' /\ first_range hr' = first_range hr /\
    additional hr' = additional hr ++ [s'] /\
    additional_ranges_count hr' = additional_ranges_count hr + 1 /\
    0 <= additional_ranges_count hr' <= MAX_RANGE_COUNT /\
    length (additional_ranges hr') = Z.to_nat MAX_RANGE_COUNT.
Proof.
  intros [Hc Hl Hf Ha]. unfold add. case_if_prop; [done|]. intros Hadd. inv_done.
  unfold MAX_RANGE_COUNT in *.
  exists a. unfold additional; cbn. rewrite u64_small by (unfold is_u64; lia).
  rewrite length_insert. split_and!; try done; try lia.
  replace (Z.to_nat (additional_ranges_count hr + 1))
    with (S (Z.to_nat (additional_ranges_count hr))) by lia.
  erewrite take_S_r by (apply list_lookup_insert_eq; lia).
  by rewrite take_insert_ge by lia.
Qed.

Lemma add_wf hr s hr' :
  heap_wf cfg hr -> span_wf s -> span_data s + PAGE_SIZE cfg <= 2 ^ 64 ->
  add cfg hr s = Done hr' ->
  heap_wf cfg hr' /\ first_range hr' = first_range hr /\
  exists s', additional hr' = additional hr ++ [s'] /\ page_block cfg s' /\
    (forall a, in_span s' a -> in_span s a).
Proof.
  intros Hwf Hs Hp Hadd. destruct (add_inv _ _ _ Hwf Hadd) as (s' & Hal & Hf & Ha & Hc & Hc' & Hl).
  destruct (align_sound _ _ Hs Hp Hal) as [Hb Hin].
  split; [|split; [done|by exists s']]. destruct Hwf as [? ? Hf0 Ha0]. split; auto.
  - by rewrite Hf.
  - rewrite Ha. apply Forall_app; auto.
Qed.

Lemma is_heap_address_spec hr a :
  heap_wf cfg hr ->
  is_heap_address hr a = true <->
  (in_span (first_range hr) a \/ exists s, s ∈ additional hr /\ in_span s a).
Proof.
  intros [_ _ Hf Ha]. unfold is_heap_address.
  assert (span_wf (first_range hr)) as Hwf.
  { destruct Hf as [->|(? & _)]; [unfold span_wf; cbn; lia|done]. }
  rewrite <- (in_range_of_span _ a Hwf), <- overlaps_spec.
  destruct (overlaps _ a); [split; auto|]. rewrite existsb_exists.
  rewrite Forall_forall in Ha. split.
  - intros (s & Hin & Ho). apply list_elem_of_In in Hin. right. exists s. split; [done|].
    apply overlaps_spec in Ho. apply in_range_of_span in Ho; [done|]. by apply Ha.
  - intros [?|(s & Hin & Ho)]; [done|]. exists s. split; [by apply list_elem_of_In|].
    apply overlaps_spec, in_range_of_span; [by apply Ha|done].
Qed.

(** The largest valid address is the last byte of the last range. *)
Lemma largest_valid_address_eq hr :
  heap_wf cfg hr -> first_range hr <> Span 0 0 ->
  largest_valid_address hr + 1 =
    match last (additional hr) with
    | Some s => span_data s + span_size s
    | None => span_data (first_range hr) + span_size (first_range hr)
    end.
Proof.
  intros [Hc Hl Hf Ha] Hset. destruct Hf as [?|(Hwf & Hpos & _)]; [done|].
  unfold largest_valid_address, MAX_RANGE_COUNT in *. case_if_prop.
  - destruct Hwf as (? & ? & ?). rewrite range_of_span_wf by done.
    replace (last (additional hr)) with (@None span) by (unfold additional; by rewrite E).
    cbn. rewrite u64_small; unfold is_u64; lia.
  - assert (last (additional hr) =
      Some (nth (Z.to_nat (additional_ranges_count hr - 1)) (additional_ranges hr) (Span 0 0))) as Hlast.
    { rewrite last_lookup. unfold additional. rewrite length_take, lookup_take by lia.
      case_decide; [|lia]. replace (Nat.pred _) with (Z.to_nat (additional_ranges_count hr - 1)) by lia.
      rewrite nth_lookup.
      destruct (lookup_lt_is_Some_2 (additional_ranges hr) (Z.to_nat (additional_ranges_count hr - 1)))
        as [x Hx]; [lia|]. by rewrite Hx. }
    rewrite Hlast. rewrite Forall_forall in Ha.
    destruct (Ha _ (last_Some_elem_of _ _ Hlast)) as ((? & ? & ?) & ? & _).
    rewrite range_of_span_wf by done. cbn. rewrite u64_small; unfold is_u64; lia.
Qed.

End HeapFacts.
