(* ===== verification/Sev.v ===== *)
(** * The SEV-SNP guest/host protocol (arch/x86_64/inc/sev_msr.h, sev_ghcb.h, sev.h)

    The GHCB MSR protocol, the layout of the Guest-Host Communication Block and
    the guest state that [vmgexit], [pvalidate] and the GHCB MSR act on. The
    host answers a [vmgexit] as it likes: it is an arbitrary function of
    everything that happened before. *)

From S2P Require Import Prelude External Address.

Definition HV_PAGE_SIZE : Z := 4096.
Definition RMP_GRANULARITY : Z := 4096.

(** The version the kernel reports to a hypervisor. *)
Definition MONZA_ID : Z := 0x8000.
Definition KERNEL_VERSION : Z := 0.
Definition BUILD_ID : Z := 0.
Definition HV_X64_MSR_GUEST_OS_ID : Z := 0x40000000.

Definition SEV_HYPERVISOR_FEATURES_REQUIREMENT : Z := 5.

(** ** The GHCB MSR protocol *)

Inductive SevGhcbInfo : Type :=
| SEV_GHCB_INFO_NORMAL
| SEV_GHCB_INFO_REGISTER_REQUEST
| SEV_GHCB_INFO_REGISTER_RESPONSE
| SEV_GHCB_INFO_PAGE_STATE_REQUEST
| SEV_GHCB_INFO_PAGE_STATE_RESPONSE
| SEV_GHCB_INFO_FEATURES_REQUEST
| SEV_GHCB_INFO_FEATURES_RESPONSE
| SEV_GHCB_INFO_TERMINATION_REQUEST.

#[export] Instance SevGhcbInfo_eq_dec : EqDecision SevGhcbInfo.
Proof. solve_decision. Defined.

Definition info_code (i : SevGhcbInfo) : Z :=
  match i with
  | SEV_GHCB_INFO_NORMAL => 0x000
  | SEV_GHCB_INFO_REGISTER_REQUEST => 0x012
  | SEV_GHCB_INFO_REGISTER_RESPONSE => 0x013
  | SEV_GHCB_INFO_PAGE_STATE_REQUEST => 0x014
  | SEV_GHCB_INFO_PAGE_STATE_RESPONSE => 0x015
  | SEV_GHCB_INFO_FEATURES_REQUEST => 0x080
  | SEV_GHCB_INFO_FEATURES_RESPONSE => 0x081
  | SEV_GHCB_INFO_TERMINATION_REQUEST => 0x100
  end.

(** [SevGhcbMsrSimpleRequest<Info>(input).raw()]; the [kernel_assert] on the
    input only logs. *)
Definition SimpleRequest_raw (info : SevGhcbInfo) (input : Z) : Z :=
  Z.lor (info_code info) (u64 (Z.shiftl input 12)).

Definition SimpleResponse_success (info : SevGhcbInfo) (content : Z) : bool :=
  (Z.land content 0xFFF =? info_code info) && (Z.shiftr content 48 =? 0).

Definition SimpleResponse_value (content : Z) : Z := Z.shiftr content 12.

Definition PageStateRequest_raw (guest_physical_page_number : Z) (is_shared : bool) : Z :=
  Z.lor (Z.lor (info_code SEV_GHCB_INFO_PAGE_STATE_REQUEST)
               (u64 (Z.shiftl guest_physical_page_number 12)))
        (u64 (Z.shiftl (if is_shared then 2 else 1) 52)).

Definition PageStateResponse_success (content : Z) : bool :=
  (Z.land content 0xFFF =? info_code SEV_GHCB_INFO_PAGE_STATE_RESPONSE) &&
  (Z.shiftr content 32 =? 0).

Definition FeaturesRequest_raw : Z := SimpleRequest_raw SEV_GHCB_INFO_FEATURES_REQUEST 0.

Definition TerminationRequest_raw (reason : Z) : Z :=
  SimpleRequest_raw SEV_GHCB_INFO_TERMINATION_REQUEST (Z.land reason 0xF).

(** ** The GHCB page *)

Inductive GhcbField : Type :=
| f_unused1 | f_cpl | f_unused2 | f_dr7 | f_unused3 | f_rax | f_unused4 | f_rcx | f_rdx
| f_rbx | f_unused5 | f_rbp | f_rsi | f_rdi | f_r8 | f_r9 | f_r10 | f_r11 | f_r12
| f_r13 | f_r14 | f_r15 | f_unused6 | f_exit_code | f_exit_info1 | f_exit_info2
| f_scratch | f_unused7 | f_xfem | f_valid_bitmap | f_unused8.

#[export] Instance GhcbField_eq_dec : EqDecision GhcbField.
Proof. solve_decision. Defined.

(** The members of the packed [SevGhcbBase] with their sizes, in order. *)
Definition SevGhcbBase_layout : list (GhcbField * Z) :=
  [(f_unused1, 0xCB); (f_cpl, 1); (f_unused2, 0x94); (f_dr7, 8); (f_unused3, 0x90);
   (f_rax, 8); (f_unused4, 0x108); (f_rcx, 8); (f_rdx, 8); (f_rbx, 8); (f_unused5, 8);
   (f_rbp, 8); (f_rsi, 8); (f_rdi, 8); (f_r8, 8); (f_r9, 8); (f_r10, 8); (f_r11, 8);
   (f_r12, 8); (f_r13, 8); (f_r14, 8); (f_r15, 8); (f_unused6, 0x10);
   (f_exit_code, 8); (f_exit_info1, 8); (f_exit_info2, 8); (f_scratch, 8);
   (f_unused7, 0x38); (f_xfem, 8); (f_valid_bitmap, 16); (f_unused8, 0x1000 - 8 - 0x400)].

(** [offsetof] and [sizeof] in a packed structure. *)
Fixpoint packed_offset {F} `{EqDecision F} (l : list (F * Z)) (f : F) (acc : Z) : option Z :=
  match l with
  | [] => None
  | (g, n) :: l' => if decide (f = g) then Some acc else packed_offset l' f (acc + n)
  end.

Definition packed_size {F} (l : list (F * Z)) : Z := foldr (fun p a => snd p + a) 0 l.

Definition ghcb_offset (f : GhcbField) : Z := default 0 (packed_offset SevGhcbBase_layout f 0).

(** The 16-byte bitmap of the valid quad-words. *)
Definition SevGhcbValidBitmapData : Type := list Z.

Definition SEV_GHCB_SET_VALID_BITMAP (dst : SevGhcbValidBitmapData) (field : GhcbField)
  : SevGhcbValidBitmapData :=
  let offset := ghcb_offset field / 8 in
  alter (fun b => Z.lor b (u8 (Z.shiftl 1 (offset mod 8)))) (Z.to_nat (offset / 8)) dst.

(** [result] is an uninitialised local: its content is the parameter. *)
Definition initial_guest (result : SevGhcbValidBitmapData) : SevGhcbValidBitmapData :=
  SEV_GHCB_SET_VALID_BITMAP
    (SEV_GHCB_SET_VALID_BITMAP
       (SEV_GHCB_SET_VALID_BITMAP result f_exit_code) f_exit_info1) f_exit_info2.

(** The bit of a quad-word in the bitmap. *)
Definition bitmap_valid (bm : SevGhcbValidBitmapData) (offset : Z) : bool :=
  Z.testbit (nth (Z.to_nat (offset / 8)) bm 0) (offset mod 8).

(** ** Guest state *)

Inductive SevEvent : Type :=
| PValidate (page_address : Z) (is_large_page validate : bool)
| GhcbExit (request response : Z).

Record SevState : Type := mkSev { ghcb_msr : Z; trace : list SevEvent }.

Section Machine.
(** The host's answer, from the history and the content of the GHCB MSR. *)
Context (host : list SevEvent -> Z -> Z).

Definition read_ghcb_msr (s : SevState) : Z := ghcb_msr s.
Definition write_ghcb_msr (v : Z) (s : SevState) : SevState := mkSev v (trace s).

Definition vmgexit (s : SevState) : SevState :=
  let response := u64 (host (trace s) (ghcb_msr s)) in
  mkSev response (trace s ++ [GhcbExit (ghcb_msr s) response]).

(** The callers ignore the result of the instruction. *)
Definition pvalidate (page_address : Z) (is_large_page validate : bool) (s : SevState)
  : SevState :=
  mkSev (ghcb_msr s) (trace s ++ [PValidate page_address is_large_page validate]).

End Machine.

(** ** Facts *)

Lemma info_code_range i : 0 <= info_code i < 2 ^ 12.
Proof. destruct i; cbn; lia. Qed.

Lemma info_code_inj i j : info_code i = info_code j -> i = j.
Proof. by destruct i, j. Qed.

Lemma SimpleRequest_eq info input :
  0 <= input < 2 ^ 52 -> SimpleRequest_raw info input = info_code info + input * 2 ^ 12.
Proof.
  intros Hi. unfold SimpleRequest_raw. rewrite u64_small.
  - apply lor_shiftl_add; [apply info_code_range|lia].
  - rewrite Z.shiftl_mul_pow2 by lia. unfold is_u64. lia.
Qed.

Lemma PageStateRequest_eq frame shared :
  0 <= frame < 2 ^ 40 ->
  PageStateRequest_raw frame shared =
    0x14 + frame * 2 ^ 12 + (if shared then 2 else 1) * 2 ^ 52.
Proof.
  intros Hf. unfold PageStateRequest_raw.
  rewrite !u64_small by
    (rewrite Z.shiftl_mul_pow2 by lia; unfold is_u64; destruct shared; lia).
  rewrite (lor_shiftl_add _ _ 12) by (apply info_code_range || lia). apply lor_shiftl_add; [|lia].
  cbn [info_code]. lia.
Qed.

(** A page-state request can be decoded: the host finds the operation, the frame
    and the direction in their fields. *)
Lemma PageStateRequest_decode frame shared :
  0 <= frame < 2 ^ 40 ->
  bitfield 0 12 (PageStateRequest_raw frame shared) = 0x14 /\
  bitfield 12 40 (PageStateRequest_raw frame shared) = frame /\
  bitfield 52 4 (PageStateRequest_raw frame shared) = (if shared then 2 else 1).
Proof.
  intros Hf. rewrite PageStateRequest_eq, !bitfield_eq by lia.
  assert (0 <= (if shared then 2 else 1) <= 2) by (destruct shared; lia).
  set (d := if shared then 2 else 1) in *.
  split_and!; Z.div_mod_to_equations; lia.
Qed.

Lemma PageStateRequest_inj f1 s1 f2 s2 :
  0 <= f1 < 2 ^ 40 -> 0 <= f2 < 2 ^ 40 ->
  PageStateRequest_raw f1 s1 = PageStateRequest_raw f2 s2 -> f1 = f2 /\ s1 = s2.
Proof.
  intros H1 H2 He. destruct (PageStateRequest_decode f1 s1 H1) as (_ & Ha & Hb).
  destruct (PageStateRequest_decode f2 s2 H2) as (_ & Ha2 & Hb2).
  rewrite He in *. split; [lia|]. destruct s1, s2; done || lia.
Qed.

Lemma bitmap_set_spec bm f o :
  length bm = 16%nat -> 0 <= ghcb_offset f / 8 < 128 -> 0 <= o < 128 ->
  bitmap_valid (SEV_GHCB_SET_VALID_BITMAP bm f) o =
    (bitmap_valid bm o || (o =? ghcb_offset f / 8)).
Proof.
  intros Hl Hf Ho.
  unfold bitmap_valid, SEV_GHCB_SET_VALID_BITMAP, SevGhcbValidBitmapData in *.
  set (k := ghcb_offset f / 8) in *. rewrite !nth_lookup.
  assert (0 <= k / 8 < 16 /\ 0 <= o / 8 < 16) as [Hk Hok] by (Z.div_mod_to_equations; lia).
  destruct (decide (Z.to_nat (k / 8) = Z.to_nat (o / 8))) as [Heq|Hne].
  - rewrite Heq, list_lookup_alter_eq.
    destruct (lookup_lt_is_Some_2 bm (Z.to_nat (o / 8))) as [b Hbm]; [lia|].
    rewrite Hbm. cbn. rewrite Z.lor_spec. f_equal.
    unfold u8. rewrite Z.mod_small.
    + rewrite Z.shiftl_mul_pow2, Z.mul_1_l by zlia. rewrite Z.pow2_bits_eqb by zlia.
      assert (k / 8 = o / 8) as Hd by lia.
      destruct (Z.eqb_spec (k mod 8) (o mod 8)), (Z.eqb_spec o k); try done; zlia.
    + rewrite Z.shiftl_mul_pow2, Z.mul_1_l by zlia. split; [apply Z.pow_nonneg; lia|].
      apply Z.pow_lt_mono_r; zlia.
  - rewrite list_lookup_alter_ne by done.
    destruct (Z.eqb_spec o k) as [->|]; [done|]. by rewrite orb_false_r.
Qed.

(** The layout matches the fixed offsets of the specification. *)
Lemma ghcb_layout_ok :
  packed_size SevGhcbBase_layout = HV_PAGE_SIZE - 8 /\
  ghcb_offset f_rax = 0x1f8 /\ ghcb_offset f_rcx = 0x308 /\ ghcb_offset f_rdx = 0x310 /\
  ghcb_offset f_exit_code = 0x390 /\ ghcb_offset f_exit_info1 = 0x398 /\
  ghcb_offset f_exit_info2 = 0x3a0 /\ ghcb_offset f_valid_bitmap = 0x3f0.
Proof. vm_compute. by split_and!. Qed.
