(* ===== verification/SevHeap.v ===== *)
(** * Memory set-up under SEV-SNP (arch/x86_64/hv_sev.cc)

    The heap set-up from the loader's memory map, which the host controls, the
    acceptance of private memory, and the page-state changes that hand pages
    above the virtual top-of-memory to the host. *)

From Stdlib Require Import Sorting.Sorted.
From S2P Require Import Prelude External Address Heap Sev.

Record SevMemoryMapEntry : Type := mkEntry {
  gpa_page_offset : Z;
  page_count : Z;
  entry_flags : Z;
}.

Definition is_null (e : SevMemoryMapEntry) : bool :=
  (gpa_page_offset e =? 0) && (page_count e =? 0) && (entry_flags e =? 0).

Definition MEMORY_MAP_LENGTH : nat := 32.

(** The locals of [setup_heap_sev] with the globals it writes. *)
Record HeapLoop : Type := mkLoop {
  first_entry : bool;
  first_vtom_entry : bool;
  last_entry_end_address : Z;
  above_vtom_memory_range : span;
  heap : HeapRanges;
}.

Section SevHeap.
Context `{SnmallocBits} (cfg : page_config) (host : list SevEvent -> Z -> Z).

(** The [for] loop of [accept_private_memory]: [n] bounds its iterations. *)
Fixpoint accept_loop (n : nat) (address end_address : Z) (s : SevState) : outcome SevState :=
  if address <? end_address then
    match n with
    | O => Hang
    | S n' => accept_loop n' (u64 (address + RMP_GRANULARITY)) end_address
                (pvalidate address false true s)
    end
  else Done s.

Definition accept_private_memory (range : AddressRange) (s : SevState) : outcome SevState :=
  accept_loop (Z.to_nat ((end_ range - start range) / RMP_GRANULARITY + 1))
    (start range) (end_ range) s.

Definition setup_heap_step (heap_start virtual_top_of_memory : Z) (st : HeapLoop)
  (entry : SevMemoryMapEntry) : outcome HeapLoop :=
  let entry_address := u64 (gpa_page_offset entry * HV_PAGE_SIZE) in
  let entry_size := u64 (page_count entry * HV_PAGE_SIZE) in
  if entry_size =? 0 then Kabort else
  let current_entry_end_address := u64 (entry_address + entry_size) in
  if (current_entry_end_address <? entry_address) ||
     (current_entry_end_address >? Z.shiftl 1 48) then Kabort else
  if entry_address <? last_entry_end_address st then Kabort else
  let last := current_entry_end_address in
  if first_entry st &&
     ((heap_start <? entry_address) || (heap_start >=? current_entry_end_address))
  then Kabort else
  let beyond := negb (virtual_top_of_memory =? 0) &&
                (current_entry_end_address >? virtual_top_of_memory) in
  if beyond && negb (first_vtom_entry st) then
    Done (mkLoop (first_entry st) (first_vtom_entry st) last
            (above_vtom_memory_range st) (heap st))
  else
    let above_vtom_size := u64 (current_entry_end_address - virtual_top_of_memory) in
    let above := if beyond then Span virtual_top_of_memory above_vtom_size
                 else above_vtom_memory_range st in
    let current_end := if beyond then virtual_top_of_memory else current_entry_end_address in
    let size := if beyond then u64 (entry_size - above_vtom_size) else entry_size in
    let vtom_flag := if beyond then false else first_vtom_entry st in
    if negb (size =? 0) then
      if first_entry st then
        let* hr := set_first cfg (heap st) (Span heap_start (u64 (current_end - heap_start))) in
        Done (mkLoop false vtom_flag last above hr)
      else
        let* hr := add cfg (heap st) (Span entry_address size) in
        Done (mkLoop false vtom_flag last above hr)
    else Done (mkLoop (first_entry st) vtom_flag last above (heap st)).

(** The range-based [for] with its [break] on a null entry. *)
Fixpoint setup_heap_loop (heap_start vtom : Z) (l : list SevMemoryMapEntry) (st : HeapLoop)
  : outcome HeapLoop :=
  match l with
  | [] => Done st
  | entry :: l' =>
      if is_null entry then Done st
      else let* st' := setup_heap_step heap_start vtom st entry in
           setup_heap_loop heap_start vtom l' st'
  end.

Definition setup_heap_sev (heap_start virtual_top_of_memory : Z)
  (memory_map : list SevMemoryMapEntry) (hr : HeapRanges) (above : span) (s : SevState)
  : outcome (HeapRanges * span * SevState) :=
  if negb (virtual_top_of_memory =? 0) &&
     ((heap_start >=? virtual_top_of_memory) ||
      negb (virtual_top_of_memory mod PAGE_SIZE cfg =? 0))
  then Kabort else
  let* st := setup_heap_loop heap_start virtual_top_of_memory memory_map
               (mkLoop true true 0 above hr) in
  if negb (virtual_top_of_memory =? 0) && (span_size (above_vtom_memory_range st) =? 0)
  then Kabort else
  let heap_range := range_of_bounds heap_start (u64 (largest_valid_address (heap st) + 1)) in
  let* s' := accept_private_memory (align_up_start (PAGE_SIZE cfg) heap_range) s in
  Done (heap st, above_vtom_memory_range st, s').

(** ** Page-state changes *)

(** The loop of [update_state_for_range] over the frames. *)
Fixpoint update_frames (n : nat) (frame_number frame_number_end : Z) (is_shared : bool)
  (s : SevState) : outcome SevState :=
  if frame_number <? frame_number_end then
    match n with
    | O => Hang
    | S n' =>
        let s1 := vmgexit host (write_ghcb_msr (PageStateRequest_raw frame_number is_shared) s) in
        if negb (PageStateResponse_success (read_ghcb_msr s1)) then Kabort
        else update_frames n' (u64 (frame_number + 1)) frame_number_end is_shared s1
    end
  else Done s.

Definition update_state_for_range (range : AddressRange) (is_shared : bool) (s : SevState)
  : outcome SevState :=
  let frame_number_start := start range / HV_PAGE_SIZE in
  let frame_number_end := end_ range / HV_PAGE_SIZE in
  let original := read_ghcb_msr s in
  let* s1 := update_frames (Z.to_nat (frame_number_end - frame_number_start))
               frame_number_start frame_number_end is_shared s in
  let s2 := write_ghcb_msr original s1 in
  if negb is_shared then accept_private_memory range s2 else Done s2.

(** ** The allocator of host-visible memory *)

(** The function's static locals; the spinlock makes each call atomic. *)
Record VisibleState : Type := mkVisible {
  currently_shared_available : span;
  remaining_vtom_offset : Z;
}.

Definition visible_initial : VisibleState := mkVisible (Span 0 0) 0.

Definition expand_visible (above : span) (st : VisibleState * SevState)
  : outcome (VisibleState * SevState) :=
  let '(v, s) := st in
  if u64 (remaining_vtom_offset v + PAGE_SIZE cfg) >? span_size above then Kabort
  else
    let extra_range := subspan above (remaining_vtom_offset v) (PAGE_SIZE cfg) in
    let offset := u64 (remaining_vtom_offset v + span_size extra_range) in
    let* s' := update_state_for_range (range_of_span extra_range) true s in
    let available_start :=
      if span_data (currently_shared_available v) =? 0 then span_data extra_range
      else span_data (currently_shared_available v) in
    Done (mkVisible (Span available_start
                       (u64 (span_size (currently_shared_available v) + span_size extra_range)))
                    offset, s').

Definition allocate_visible_sev_vtom (above : span) (size0 : Z) (v : VisibleState) (s : SevState)
  : outcome (Z * VisibleState * SevState) :=
  let size := align_up size0 HV_PAGE_SIZE in
  let* st := while_loop (S (S (Z.to_nat (span_size above / PAGE_SIZE cfg))))
               (fun st => span_size (currently_shared_available (fst st)) <? size)
               (expand_visible above) (v, s) in
  let '(v', s') := st in
  let avail := currently_shared_available v' in
  Done (span_data (subspan avail 0 size),
        mkVisible (subspan avail size (u64 (span_size avail - size))) (remaining_vtom_offset v'),
        s').

(** ** The per-core GHCB and the boot-time feature check *)

(** [setup_ghcb] for the page the allocator returned: the memory writes to the
    page itself are left out. *)
Definition setup_ghcb (ghcb : Z) (s : SevState) : outcome SevState :=
  let ghcb_page_number := ghcb / HV_PAGE_SIZE in
  let s1 := vmgexit host
    (write_ghcb_msr (SimpleRequest_raw SEV_GHCB_INFO_REGISTER_REQUEST ghcb_page_number) s) in
  if negb (SimpleResponse_success SEV_GHCB_INFO_REGISTER_RESPONSE (read_ghcb_msr s1))
  then Kabort
  else Done (write_ghcb_msr (SimpleRequest_raw SEV_GHCB_INFO_NORMAL ghcb_page_number) s1).

Definition ap_init_sev (above : span) (v : VisibleState) (s : SevState)
  : outcome (Z * VisibleState * SevState) :=
  let* r := allocate_visible_sev_vtom above HV_PAGE_SIZE v s in
  let '(ghcb, v', s') := r in
  let* s2 := setup_ghcb ghcb s' in
  Done (ghcb, v', s2).

Definition check_hypervisor_features (s : SevState) : outcome SevState :=
  let s1 := vmgexit host (write_ghcb_msr FeaturesRequest_raw s) in
  let response := read_ghcb_msr s1 in
  if negb (SimpleResponse_success SEV_GHCB_INFO_FEATURES_RESPONSE response) ||
     negb (Z.land (SimpleResponse_value response) SEV_HYPERVISOR_FEATURES_REQUIREMENT =?
           SEV_HYPERVISOR_FEATURES_REQUIREMENT)
  then Kabort else Done s1.

(** [sev_set_tsc_freq]: the MSR holds MHz. *)
Definition sev_set_tsc_freq (msr_value : Z) : Z := u64 (msr_value * 1000000).

(** The memory and frequency effects of [init_hyperv_sev]; the rest of it
    installs function pointers. *)
Definition init_hyperv_sev (unloaded_start heap_start tsc_msr : Z) (s : SevState)
  : outcome (SevState * Z) :=
  let* s1 := check_hypervisor_features s in
  let unmapped_range := range_of_bounds unloaded_start heap_start in
  let aligned_unmapped_range :=
    align_up_end (PAGE_SIZE cfg) (align_up_start HV_PAGE_SIZE unmapped_range) in
  let* s2 := accept_private_memory aligned_unmapped_range s1 in
  Done (s2, sev_set_tsc_freq tsc_msr).

End SevHeap.

(** ** Specification *)

(** The bytes an entry of the memory map describes. *)
Definition entry_covers (e : SevMemoryMapEntry) (a : Z) : Prop :=
  u64 (gpa_page_offset e * HV_PAGE_SIZE) <= a <
  u64 (gpa_page_offset e * HV_PAGE_SIZE) + u64 (page_count e * HV_PAGE_SIZE).

(** All ranges of the heap, in address order when sorted by [before]. *)
Definition heap_list (hr : HeapRanges) : list span := first_range hr :: additional hr.
Definition before (r1 r2 : span) : Prop := span_data r1 + span_size r1 <= span_data r2.
Definition in_heap (hr : HeapRanges) (a : Z) : Prop := exists r, r ∈ heap_list hr /\ in_span r a.

(** What a heap byte must satisfy when the map is [l]. *)
Definition heap_byte_ok (heap_start vtom : Z) (l : list SevMemoryMapEntry) (a : Z) : Prop :=
  heap_start <= a /\ (vtom <> 0 -> a < vtom) /\ (exists e, e ∈ l /\ entry_covers e a).

Definition pvalidated (t : list SevEvent) (page : Z) : Prop := PValidate page false true ∈ t.

(** The frame was handed to the host and the host acknowledged it. *)
Definition frame_shared (t : list SevEvent) (frame : Z) : Prop :=
  exists response, GhcbExit (PageStateRequest_raw frame true) response ∈ t /\
    PageStateResponse_success response = true.

(** Well-formed heap whose ranges are ordered, end by [bound] and whose bytes
    satisfy [Q]. *)
Record heap_ok (cfg : page_config) (Q : Z -> Prop) (bound : Z) (hr : HeapRanges) : Prop := {
  ho_wf : heap_wf cfg hr;
  ho_sorted : StronglySorted before (heap_list hr);
  ho_ranges : Forall (fun r => span_data r + span_size r <= bound /\ forall a, in_span r a -> Q a)
                (heap_list hr);
}.

Definition heap_unset (hr : HeapRanges) : Prop := first_range hr = Span 0 0 /\ additional hr = [].

Lemma StronglySorted_snoc {A} (R : A -> A -> Prop) l x :
  StronglySorted R l -> Forall (fun y => R y x) l -> StronglySorted R (l ++ [x]).
Proof.
  induction 1 as [|y l Hl IH Hy]; cbn; intros Hx.
  - repeat constructor.
  - apply Forall_cons in Hx as [? ?]. constructor; [auto|]. apply Forall_app; auto.
Qed.

Section HeapOk.
Context `{SnmallocBits, !SnmallocBitsOk} (cfg : page_config).

Lemma heap_ok_weaken Q b b' hr : heap_ok cfg Q b hr -> b <= b' -> heap_ok cfg Q b' hr.
Proof.
  intros [Hw Hs Hr] Hb. split; auto. eapply Forall_impl; [exact Hr|]. cbn. intros r [? ?].
  split; [lia|done].
Qed.

Lemma heap_ok_set_first Q b hr s hr' :
  heap_wf cfg hr -> heap_unset hr -> span_wf s -> set_first cfg hr s = Done hr' ->
  span_data s + span_size s <= b -> (forall a, in_span s a -> Q a) ->
  heap_ok cfg Q b hr' /\ additional hr' = [] /\ span_data (first_range hr') = span_data s /\
  0 < span_size (first_range hr').
Proof.
  intros Hwf [_ Hadd] Hs Hset Hb HQ.
  destruct (set_first_wf _ _ _ _ Hwf Hs Hset) as (Hwf' & Ha & Hd & Hz).
  rewrite Hadd in Ha. split; [|split_and!; (done || lia)]. unfold heap_list, in_span in *.
  split; [done| |]; unfold heap_list; rewrite Ha; [repeat constructor|].
  constructor; [|done]. rewrite Hd. split; [lia|]. intros a ?. apply HQ. unfold in_span in *. lia.
Qed.

Lemma heap_ok_add Q b b' hr s hr' :
  heap_ok cfg Q b hr -> span_wf s -> span_data s + PAGE_SIZE cfg <= 2 ^ 64 ->
  add cfg hr s = Done hr' -> b <= span_data s -> span_data s + span_size s <= b' ->
  (forall a, in_span s a -> Q a) ->
  heap_ok cfg Q b' hr' /\ first_range hr' = first_range hr.
Proof.
  intros Hok Hs Hp Hadd Hb Hb' HQ.
  assert (heap_ok cfg Q b' hr) as [_ _ Hr'].
  { eapply heap_ok_weaken; [done|]. destruct Hs. lia. }
  destruct Hok as [Hwf Hsort Hr].
  destruct (add_wf _ _ _ _ Hwf Hs Hp Hadd) as (Hwf' & Hf & s' & Ha & Hblk & Hsub).
  split; [|done]. destruct Hblk as ((? & ? & ?) & Hpos & _).
  assert (span_data s <= span_data s' /\ span_data s' + span_size s' <= b') as [? ?].
  { assert (in_span s (span_data s')) by (apply Hsub; unfold in_span; lia).
    assert (in_span s (span_data s' + span_size s' - 1)) by (apply Hsub; unfold in_span; lia).
    unfold in_span in *. lia. }
  split; [done| |]; unfold heap_list in *; rewrite Hf, Ha, app_comm_cons.
  - apply StronglySorted_snoc; [done|]. eapply Forall_impl; [exact Hr|]. cbn.
    unfold before. intros r [? _]. lia.
  - apply Forall_app; split; [done|]. constructor; [|done]. split; [done|]. auto.
Qed.

End HeapOk.

(** ** The loop over the memory map *)

Section LoopInvariant.
Context `{SnmallocBits, !SnmallocBitsOk} (cfg : page_config).
Context (heap_start vtom : Z) (l : list SevMemoryMapEntry).
Hypothesis heap_start_u64 : is_u64 heap_start.
Hypothesis vtom_ok : vtom = 0 \/ heap_start < vtom < 2 ^ 64.

Let Q := heap_byte_ok heap_start vtom l.

Record loop_inv (st : HeapLoop) : Prop := {
  li_last : 0 <= last_entry_end_address st <= 2 ^ 48;
  li_heap : heap_ok cfg Q (last_entry_end_address st) (heap st);
  li_unset : first_entry st = true -> heap_unset (heap st);
  li_set : first_entry st = false ->
    heap_start < last_entry_end_address st /\ span_data (first_range (heap st)) = heap_start /\
    0 < span_size (first_range (heap st));
  li_above : if first_vtom_entry st then above_vtom_memory_range st = Span 0 0
             else exists n, above_vtom_memory_range st = Span vtom n /\
                    0 < n /\ vtom + n <= 2 ^ 48 /\ vtom <> 0 /\ first_entry st = false;
}.

(** The part of an accepted entry that goes to the heap. *)
Lemma step_heap_part st e current_end size :
  loop_inv st -> e ∈ l ->
  let ea := u64 (gpa_page_offset e * HV_PAGE_SIZE) in
  let es := u64 (page_count e * HV_PAGE_SIZE) in
  ea + es <= 2 ^ 48 -> last_entry_end_address st <= ea ->
  (first_entry st = true -> ea <= heap_start < ea + es) ->
  current_end <= ea + es -> (vtom <> 0 -> current_end <= vtom) ->
  size = u64 (current_end - ea) ->
  (first_entry st = true -> heap_start < current_end) ->
  (first_entry st = true -> forall hr,
     set_first cfg (heap st) (Span heap_start (u64 (current_end - heap_start))) = Done hr ->
     heap_ok cfg Q (ea + es) hr /\ span_data (first_range hr) = heap_start /\
     0 < span_size (first_range hr)) /\
  (first_entry st = false -> 0 <= current_end -> forall hr,
     add cfg (heap st) (Span ea size) = Done hr ->
     heap_ok cfg Q (ea + es) hr /\ first_range hr = first_range (heap st)).
Proof.
  intros [Hlast Hheap Hunset Hset _] He ea es Hend Hge Hcov Hce Hcv Hsz Hcf.
  pose proof (u64_range (gpa_page_offset e * HV_PAGE_SIZE)) as Hea. fold ea in Hea.
  pose proof (u64_range (page_count e * HV_PAGE_SIZE)) as Hes. fold es in Hes.
  pose proof (page_size_bounds cfg) as Hps. unfold is_u64 in *.
  assert (forall a, heap_start <= a -> ea <= a < current_end -> Q a) as HQ.
  { intros a Ha1 Ha2. split; [done|]. split; [intros; specialize (Hcv ltac:(done)); lia|].
    exists e. split; [done|]. unfold entry_covers. fold ea es. lia. }
  split.
  - intros Hf hr Hs. specialize (Hcov Hf). specialize (Hcf Hf).
    rewrite u64_small in Hs by (unfold is_u64; lia).
    assert (span_wf (Span heap_start (current_end - heap_start))) as Hw
      by (unfold span_wf; cbn; lia).
    destruct (heap_ok_set_first cfg Q (ea + es) _ _ _ (ho_wf _ _ _ _ Hheap) (Hunset Hf)
                Hw Hs) as (? & _ & ? & ?); [cbn; lia| |done].
    unfold in_span; cbn. intros a ?. apply HQ; lia.
  - intros Hf Hc0 hr Ha. destruct (Hset Hf) as [? _].
    destruct (Z.le_gt_cases ea current_end) as [Hle|Hgt].
    + rewrite u64_small in Hsz by (unfold is_u64; lia). subst size.
      eapply heap_ok_add; try done; unfold span_wf, in_span; cbn; try lia.
      intros a ?. apply HQ; lia.
    + exfalso. unfold add in Ha. case_if_prop; [done|].
      rewrite align_wrapped in Ha; cbn in *; try done; unfold is_u64; try lia.
      subst size. rewrite Z.mul_1_r, u64_idemp, u64_add_r.
      rewrite u64_small; unfold is_u64; lia.
Qed.

(** The checks every entry passes before it is used. *)
Lemma step_checked st e st' :
  setup_heap_step cfg heap_start vtom st e = Done st' ->
  let ea := u64 (gpa_page_offset e * HV_PAGE_SIZE) in
  let es := u64 (page_count e * HV_PAGE_SIZE) in
  0 < es /\ ea + es <= 2 ^ 48 /\ last_entry_end_address st <= ea /\
  (first_entry st = true -> ea <= heap_start < ea + es) /\
  last_entry_end_address st' = ea + es.
Proof.
  intros Hstep ea es. unfold setup_heap_step in Hstep.
  pose proof (u64_range (gpa_page_offset e * HV_PAGE_SIZE)) as Hea.
  pose proof (u64_range (page_count e * HV_PAGE_SIZE)) as Hes.
  fold ea es in Hstep, Hea, Hes. unfold is_u64 in *.
  destruct (es =? 0) eqn:Ez; [done|]. bool_to_prop.
  destruct (_ || _) eqn:Ec in Hstep; [done|]. bool_to_prop.
  assert (u64 (ea + es) = ea + es) as Heq.
  { change (Z.shiftl 1 48) with (2 ^ 48) in *. unfold u64 in *.
    Z.div_mod_to_equations. lia. }
  rewrite Heq in *. change (Z.shiftl 1 48) with (2 ^ 48) in *.
  destruct (ea <? _) eqn:El in Hstep; [done|]. bool_to_prop.
  destruct (first_entry st && _) eqn:Ef in Hstep; [done|].
  split_and!; try lia.
  - intros Hf. rewrite Hf in Ef. cbn in Ef. bool_to_prop. lia.
  - repeat (case_if_prop; inv_done; try done).
Qed.

Lemma setup_heap_step_inv st e st' :
  e ∈ l -> loop_inv st -> setup_heap_step cfg heap_start vtom st e = Done st' -> loop_inv st'.
Proof.
  intros He Hinv Hstep.
  destruct (step_checked _ _ _ Hstep) as (Hes & Hend & Hge & Hcov & Hlast').
  unfold setup_heap_step in Hstep.
  pose proof (u64_range (gpa_page_offset e * HV_PAGE_SIZE)) as Hea.
  set (ea := u64 (gpa_page_offset e * HV_PAGE_SIZE)) in *.
  set (es := u64 (page_count e * HV_PAGE_SIZE)) in *. unfold is_u64 in *.
  rewrite (u64_small (ea + es)) in Hstep by (unfold is_u64; lia).
  destruct (es =? 0); [done|]. destruct (_ || _) in Hstep; [done|].
  destruct (ea <? _) in Hstep; [done|]. destruct (first_entry st && _) in Hstep; [done|].
  pose proof Hinv as [Hlast Hheap Hunset Hset Habove].
  assert (first_entry st = false -> heap_start < ea + es) as Hsl
    by (intros Hf; destruct (Hset Hf); lia).
  assert (heap_ok cfg Q (ea + es) (heap st)) as Hheap' by (eapply heap_ok_weaken; [done|lia]).
  destruct (negb (vtom =? 0) && (ea + es >? vtom)) eqn:Eb; cbn [andb] in Hstep.
  - bool_to_prop. destruct vtom_ok as [?|Hv]; [done|].
    destruct (first_vtom_entry st) eqn:Ev; cbn [negb] in Hstep.
    + rewrite (u64_small (ea + es - vtom)) in Hstep by (unfold is_u64; lia).
      replace (es - (ea + es - vtom)) with (vtom - ea) in Hstep by lia.
      destruct (step_heap_part st e vtom (u64 (vtom - ea)) Hinv He) as [Hsf Hadd];
        try (lia || done).
      fold ea es in Hsf, Hadd.
      destruct (u64 (vtom - ea) =? 0) eqn:Ez; cbn [negb] in Hstep;
        destruct (first_entry st) eqn:Ef; inv_done; cbn in *; bool_to_prop.
      * specialize (Hcov eq_refl). rewrite u64_small in Ez by (unfold is_u64; lia). lia.
      * split; cbn; try done; try lia; try (intros; done || (destruct (Hset eq_refl); split; [lia|done])).
        exists (ea + es - vtom). split_and!; (done || lia).
      * destruct (Hsf eq_refl _ eq_refl) as (? & ? & ?). specialize (Hcov eq_refl).
        split; cbn; try done; try lia.
        exists (ea + es - vtom). split_and!; (done || lia).
      * destruct (Hadd eq_refl ltac:(lia) _ eq_refl) as (? & Hfr). destruct (Hset eq_refl).
        split; cbn; try done; try lia; [intros _; rewrite Hfr; split_and!; (lia || tauto)|].
        exists (ea + es - vtom). split_and!; (done || lia).
    + inv_done. split; cbn; try done; try lia.
      intros Hf. destruct (Hset Hf). split; [lia|done].
  - cbn [andb] in Hstep.
    destruct (step_heap_part st e (ea + es) es Hinv He) as [Hsf Hadd]; try (lia || done).
    { fold ea. rewrite u64_small by (unfold is_u64; lia). lia. }
    { intros Hf. apply Hcov, Hf. }
    fold ea es in Hsf, Hadd.
    destruct (negb (es =? 0)) eqn:Ez; bool_to_prop; [|lia].
    destruct (first_entry st) eqn:Ef; inv_done; cbn in *.
    + destruct (Hsf eq_refl _ eq_refl) as (? & ? & ?). specialize (Hcov eq_refl).
      split; cbn; try done; try lia.
      destruct (first_vtom_entry st); [done|]. by destruct Habove as (? & ? & ? & ? & ? & ?).
    + destruct (Hadd eq_refl ltac:(lia) _ eq_refl) as (? & Hfr). destruct (Hset eq_refl).
      split; cbn; try done; try lia. intros _; rewrite Hfr; split_and!; (lia || tauto).
Qed.

Lemma setup_heap_loop_inv l' st st' :
  (forall e, e ∈ l' -> e ∈ l) -> loop_inv st ->
  setup_heap_loop cfg heap_start vtom l' st = Done st' -> loop_inv st'.
Proof.
  revert st; induction l' as [|e l' IH]; cbn; intros st Hsub Hinv Hl; [by inv_done|].
  case_if_prop; inv_done; [done|]. eapply IH; [|eapply setup_heap_step_inv|done]; try done.
  - intros e' ?. apply Hsub. by right.
  - apply Hsub. by left.
Qed.

Lemma loop_inv_initial : loop_inv (mkLoop true true 0 (Span 0 0) heap_initial).
Proof.
  split; cbn; try done; try lia. split.
  - apply heap_initial_wf.
  - repeat constructor.
  - constructor; [|constructor]. unfold in_span; cbn. split; [lia|]. intros; lia.
Qed.

End LoopInvariant.

(** ** Acceptance of private memory *)

(** The pages of [start, end). *)
Definition pages_of (start_ end_address : Z) : list Z :=
  map (fun i => start_ + RMP_GRANULARITY * Z.of_nat i)
      (seq 0 (Z.to_nat ((end_address - start_ + (RMP_GRANULARITY - 1)) / RMP_GRANULARITY))).

Lemma pages_of_nil s e : e <= s -> pages_of s e = [].
Proof.
  intros. unfold pages_of, RMP_GRANULARITY.
  replace (Z.to_nat _) with 0%nat; [done|]. Z.div_mod_to_equations. lia.
Qed.

Lemma pages_of_cons s e : s < e -> pages_of s e = s :: pages_of (s + RMP_GRANULARITY) e.
Proof.
  intros. unfold pages_of, RMP_GRANULARITY in *.
  replace (Z.to_nat ((e - s + (4096 - 1)) / 4096))
    with (S (Z.to_nat ((e - (s + 4096) + (4096 - 1)) / 4096))) by (Z.div_mod_to_equations; lia).
  cbn [seq map]. f_equal; [lia|]. rewrite <- seq_shift, map_map. apply map_ext. lia.
Qed.

Lemma elem_of_pages_of s e p :
  p ∈ pages_of s e <-> s <= p < e /\ (p - s) mod RMP_GRANULARITY = 0.
Proof.
  unfold pages_of, RMP_GRANULARITY. rewrite list_elem_of_In, in_map_iff. split.
  - intros (i & <- & Hi). apply in_seq in Hi. split; Z.div_mod_to_equations; lia.
  - intros [Hp Hm]. exists (Z.to_nat ((p - s) / 4096)). rewrite in_seq.
    split; Z.div_mod_to_equations; lia.
Qed.

(** The loop validates exactly the pages of the range, each once, in order, and
    its bound on iterations is never reached. *)
Lemma accept_loop_eq n a e s :
  0 <= a -> e + RMP_GRANULARITY <= 2 ^ 64 ->
  (Z.to_nat ((e - a + (RMP_GRANULARITY - 1)) / RMP_GRANULARITY) <= n)%nat ->
  accept_loop n a e s =
    Done (mkSev (ghcb_msr s)
            (trace s ++ map (fun p => PValidate p false true) (pages_of a e))).
Proof.
  unfold RMP_GRANULARITY. revert a s; induction n as [|n IH]; intros a s Ha He Hn; cbn [accept_loop];
    case_if_prop.
  - exfalso. Z.div_mod_to_equations. lia.
  - rewrite pages_of_nil by lia. cbn. rewrite app_nil_r. by destruct s.
  - unfold RMP_GRANULARITY. rewrite u64_small by (unfold is_u64; lia).
    rewrite IH; [|lia|lia|Z.div_mod_to_equations; lia]. cbn.
    rewrite (pages_of_cons a) by lia. cbn. by rewrite <- app_assoc.
  - rewrite pages_of_nil by lia. cbn. rewrite app_nil_r. by destruct s.
Qed.

Lemma accept_private_memory_eq r s :
  0 <= start r -> end_ r + RMP_GRANULARITY <= 2 ^ 64 ->
  accept_private_memory r s =
    Done (mkSev (ghcb_msr s)
            (trace s ++ map (fun p => PValidate p false true) (pages_of (start r) (end_ r)))).
Proof.
  intros. apply accept_loop_eq; [done|done|]. unfold RMP_GRANULARITY. Z.div_mod_to_equations. lia.
Qed.

Lemma pages_of_divide d s e p : (RMP_GRANULARITY | s) -> p ∈ pages_of s e -> (RMP_GRANULARITY | e) ->
  (d | RMP_GRANULARITY) -> (d | p) /\ p + RMP_GRANULARITY <= e.
Proof.
  intros [q ->] Hp [qe ->] Hd. apply elem_of_pages_of in Hp as [Hp Hm].
  unfold RMP_GRANULARITY in *.
  assert (p = p / 4096 * 4096) as Hpe by (Z.div_mod_to_equations; lia).
  split; [|Z.div_mod_to_equations; lia]. rewrite Hpe. by apply Z.divide_mul_r.
Qed.

Section SevHeapFacts.
Context `{SnmallocBits, !SnmallocBitsOk} (cfg : page_config).

Lemma rmp_divides_page : (RMP_GRANULARITY | PAGE_SIZE cfg).
Proof. unfold RMP_GRANULARITY. destruct (page_size_cases cfg) as [->| ->]; [by exists 1|by exists 512]. Qed.

Lemma StronglySorted_last_bound l x :
  StronglySorted before l -> Forall (fun r => 0 <= span_size r) l -> last l = Some x ->
  Forall (fun r => span_data r + span_size r <= span_data x + span_size x) l.
Proof.
  intros Hs Hz Hl. apply last_Some in Hl as [l' ->]. apply Forall_app in Hz as [_ Hz].
  apply Forall_cons in Hz as [Hz _]. apply Forall_app; split; [|constructor; [lia|constructor]].
  induction l' as [|y l' IH]; [constructor|]. cbn in Hs. inversion Hs as [|? ? Hs' Hy]; subst.
  constructor; [|auto]. apply Forall_app in Hy as [_ Hy]. apply Forall_cons in Hy as [Hy _].
  unfold before in Hy. lia.
Qed.

Lemma heap_list_wf hr r : heap_wf cfg hr -> r ∈ heap_list hr -> 0 <= span_size r.
Proof.
  intros [_ _ Hf Ha] Hr. apply elem_of_cons in Hr as [->|Hr].
  - destruct Hf as [->|[[? ?] _]]; cbn; lia.
  - rewrite Forall_forall in Ha. destruct (Ha _ Hr) as [[? ?] _]. lia.
Qed.

(** The end of the heap: where it is, and that nothing of the heap lies after. *)
Lemma heap_end Q b hr :
  heap_ok cfg Q b hr -> first_range hr <> Span 0 0 ->
  let e := largest_valid_address hr + 1 in
  (PAGE_SIZE cfg | e) /\ e <= b /\ Q (e - 1) /\ 0 <= e /\ (forall a, in_heap hr a -> a < e).
Proof.
  intros [Hwf Hs Hr] Hset e.
  pose proof (largest_valid_address_eq _ _ Hwf Hset) as He. fold e in He.
  assert (exists x, last (heap_list hr) = Some x /\ e = span_data x + span_size x /\
            0 <= span_data x /\ 0 < span_size x /\ (PAGE_SIZE cfg | e)) as (x & Hl & Hx & Hd & Hz & Hp).
  { unfold heap_list. rewrite last_cons. destruct Hwf as [_ _ Hf Ha].
    destruct (last (additional hr)) as [x|] eqn:Hl.
    - exists x. rewrite Forall_forall in Ha.
      destruct (Ha _ (last_Some_elem_of _ _ Hl)) as ((? & ? & ?) & ? & ? & ?).
      split_and!; try done. rewrite He. by apply Z.divide_add_r.
    - exists (first_range hr). destruct Hf as [?|((? & ? & ?) & ? & ?)]; [done|].
      split_and!; try done. by rewrite He. }
  rewrite Forall_forall in Hr. destruct (Hr x (last_Some_elem_of _ _ Hl)) as [Hb HQ].
  split_and!; try done; try lia.
  - apply HQ. unfold in_span. lia.
  - intros a (r & Hin & Ha).
    pose proof (StronglySorted_last_bound _ x Hs) as Hlb. rewrite Hx.
    assert (span_data r + span_size r <= span_data x + span_size x); [|unfold in_span in *; lia].
    rewrite !Forall_forall in Hlb. apply Hlb; try done. intros; by eapply heap_list_wf.
Qed.

(** What the loop and the checks around it establish before memory is accepted. *)
Lemma setup_heap_sev_inv heap_start vtom l s hr above s' :
  0 <= heap_start < 2 ^ 48 -> is_u64 vtom ->
  setup_heap_sev cfg heap_start vtom l heap_initial (Span 0 0) s = Done (hr, above, s') ->
  exists st, loop_inv cfg heap_start vtom l st /\ hr = heap st /\
    above = above_vtom_memory_range st /\
    (vtom <> 0 -> span_size above <> 0 /\ vtom mod PAGE_SIZE cfg = 0) /\
    accept_private_memory (align_up_start (PAGE_SIZE cfg)
      (range_of_bounds heap_start (u64 (largest_valid_address hr + 1)))) s = Done s'.
Proof.
  intros Hh Hv. unfold setup_heap_sev. destruct (_ && _) eqn:E0; [done|]. intros Hd.
  inv_done. exists a. destruct (_ && _) eqn:E1 in Hd; [done|]. inv_done.
  bool_to_prop.
  split; [|split_and!; try done].
  - eapply setup_heap_loop_inv; [| | |apply loop_inv_initial|exact E]; try done;
      unfold is_u64 in *; try lia.
  - intros Hne. destruct E0 as [?|E0], E1; bool_to_prop; done.
Qed.

End SevHeapFacts.

(** ** Properties of the heap set-up *)

Section Properties.
Context `{SnmallocBits, !SnmallocBitsOk} (cfg : page_config).

Lemma setup_heap_sev_accepts heap_start vtom l s hr above s' :
  0 <= heap_start < 2 ^ 48 -> is_u64 vtom ->
  setup_heap_sev cfg heap_start vtom l heap_initial (Span 0 0) s = Done (hr, above, s') ->
  exists b e, (RMP_GRANULARITY | b) /\ (RMP_GRANULARITY | e) /\ heap_start <= b /\
    b = align_up heap_start (PAGE_SIZE cfg) /\
    (vtom <> 0 -> b < e -> e <= vtom) /\ (forall a, in_heap hr a -> a < e) /\
    trace s' = trace s ++ map (fun p => PValidate p false true) (pages_of b e).
Proof.
  intros Hh Hv Hd. destruct (setup_heap_sev_inv _ _ _ _ _ _ _ _ Hh Hv Hd)
    as (st & Hinv & -> & -> & _ & Hacc).
  pose proof (page_size_bounds cfg). pose proof (rmp_divides_page cfg) as Hr.
  destruct (align_up_spec heap_start (PAGE_SIZE cfg)) as [Hdiv ?]; [apply page_size_pow2|lia|lia|].
  exists (align_up heap_start (PAGE_SIZE cfg)).
  destruct (first_entry st) eqn:Ef.
  - destruct (li_unset _ _ _ _ _ Hinv Ef) as [Hu Ha].
    exists (align_up heap_start (PAGE_SIZE cfg)).
    assert (u64 (largest_valid_address (heap st) + 1) = 0) as Hz.
    { unfold largest_valid_address, additional in *. rewrite Hu.
      assert (additional_ranges_count (heap st) = 0) as ->; [|done].
      destruct (ho_wf _ _ _ _ (li_heap _ _ _ _ _ Hinv)) as [Hc Hl _ _].
      apply (f_equal length) in Ha. rewrite length_take, Hl in Ha. cbn in Ha. lia. }
    rewrite Hz, range_of_bounds_gt, align_up_start_eq in Hacc
      by (cbn; lia || (split; cbn; lia)). cbn in Hacc.
    rewrite accept_private_memory_eq in Hacc by (cbn; unfold RMP_GRANULARITY; lia).
    inv_done. cbn. rewrite Z.max_l by lia.
    split_and!; try done; try lia; try (by eapply Z.divide_trans).
    intros a (r & Hin & Hr'). unfold heap_list in Hin. rewrite Hu, Ha in Hin.
    apply list_elem_of_singleton in Hin as ->. unfold in_span in Hr'; cbn in Hr'. lia.
  - destruct (li_set _ _ _ _ _ Hinv Ef) as (? & _ & Hfz).
    destruct (heap_end cfg _ _ _ (li_heap _ _ _ _ _ Hinv)) as (Hp & Hb & HQ & H0e & Hlt).
    { intros Heq. rewrite Heq in Hfz. cbn in Hfz. lia. }
    pose proof (li_last _ _ _ _ _ Hinv). destruct HQ as (? & Hvt & _).
    set (e := largest_valid_address (heap st) + 1) in *. exists e.
    rewrite u64_small, range_of_bounds_le, align_up_start_eq in Hacc
      by (cbn; unfold is_u64; lia || (split; cbn; lia)). cbn in Hacc.
    rewrite accept_private_memory_eq in Hacc by (cbn; unfold RMP_GRANULARITY; lia).
    inv_done. cbn. split_and!; try done; try lia; try (by eapply Z.divide_trans).
    f_equal. destruct (Z.le_gt_cases (align_up heap_start (PAGE_SIZE cfg)) e).
    + by rewrite Z.max_r by lia.
    + by rewrite !pages_of_nil by lia.
Qed.

(** C3: Whatever memory map the host supplies, a heap set-up that does not abort
    leaves well-formed, address-ordered ranges; every heap byte lies in the
    image's memory from [__heap_start] on, below a non-zero virtual
    top-of-memory, and in an entry of the map; and the host-visible pool is a
    non-empty range of at most 2^48 starting exactly at the top-of-memory. *)
Theorem setup_heap_sev_byzantine heap_start vtom l s hr above s' :
  0 <= heap_start < 2 ^ 48 -> is_u64 vtom ->
  setup_heap_sev cfg heap_start vtom l heap_initial (Span 0 0) s = Done (hr, above, s') ->
  heap_wf cfg hr /\ StronglySorted before (heap_list hr) /\
  (forall a, in_heap hr a -> heap_byte_ok heap_start vtom l a) /\
  (vtom <> 0 -> span_data above = vtom /\ 0 < span_size above /\ vtom + span_size above <= 2 ^ 48).
Proof.
  intros Hh Hv Hd. destruct (setup_heap_sev_inv _ _ _ _ _ _ _ _ Hh Hv Hd)
    as (st & [_ [Hwf Hs Hr] _ _ Habove] & -> & -> & Hne & _).
  split_and!; try done.
  - intros a (r & Hin & Ha). rewrite Forall_forall in Hr. by apply (Hr r Hin).
  - intros Hv0. destruct (Hne Hv0) as [Hz _]. destruct (first_vtom_entry st).
    + by rewrite Habove in Hz.
    + destruct Habove as (n & -> & ? & ? & _). cbn. lia.
Qed.

(** A heap set-up that does not abort issues only [pvalidate] of 4 kB pages
    that lie from [__heap_start] on and wholly below a non-zero virtual
    top-of-memory, and it accepts the page of every heap byte from the first
    page boundary of the heap on. *)
Theorem setup_heap_sev_accepts_heap heap_start vtom l s hr above s' :
  0 <= heap_start < 2 ^ 48 -> is_u64 vtom ->
  setup_heap_sev cfg heap_start vtom l heap_initial (Span 0 0) s = Done (hr, above, s') ->
  (exists pages, trace s' = trace s ++ map (fun p => PValidate p false true) pages /\
     forall p, p ∈ pages -> (4096 | p) /\ heap_start <= p /\ (vtom <> 0 -> p + 4096 <= vtom)) /\
  (forall a, in_heap hr a -> align_up heap_start (PAGE_SIZE cfg) <= a ->
     pvalidated (trace s') (a - a mod 4096)).
Proof.
  intros Hh Hv Hd. destruct (setup_heap_sev_accepts _ _ _ _ _ _ _ Hh Hv Hd)
    as (b & e & Hb & He & Hle & Hbe & Hvt & Hin & Htr).
  split.
  - exists (pages_of b e). split; [done|]. intros p Hp.
    destruct (pages_of_divide 4096 _ _ _ Hb Hp He) as [? Hpe]; [by exists 1|].
    apply elem_of_pages_of in Hp as [Hp _]. unfold RMP_GRANULARITY in *.
    split_and!; [done|lia|]. intros Hv0. specialize (Hvt Hv0). lia.
  - intros a Ha Hge. unfold pvalidated. rewrite Htr. apply elem_of_app. right.
    apply list_elem_of_fmap. exists (a - a mod 4096). split; [done|].
    apply elem_of_pages_of. specialize (Hin a Ha). unfold RMP_GRANULARITY in *.
    destruct Hb as [q ->]. rewrite <- Hbe in Hge. Z.div_mod_to_equations. lia.
Qed.

End Properties.

(** ** Witnesses *)

(** A map of one entry that reaches 256 pages beyond a top-of-memory of 8 MB. *)
Lemma setup_heap_sev_byzantine_witness :
  exists hr above s',
    @setup_heap_sev ref_bits SmallPages 0x7fc000 0x800000 [mkEntry 0 0x900 0] heap_initial
      (Span 0 0) (mkSev 0 []) = Done (hr, above, s') /\
    heap_wf SmallPages hr /\ span_data above = 0x800000.
Proof.
  destruct (@setup_heap_sev ref_bits SmallPages 0x7fc000 0x800000 [mkEntry 0 0x900 0]
    heap_initial (Span 0 0) (mkSev 0 [])) as [[[hr above] s']| |] eqn:E;
    [|vm_compute in E; discriminate E..].
  exists hr, above, s'. split; [reflexivity|].
  destruct (@setup_heap_sev_byzantine ref_bits ref_bits_ok SmallPages 0x7fc000 0x800000
    [mkEntry 0 0x900 0] (mkSev 0 []) hr above s') as (Hwf & _ & _ & Hab);
    [lia|unfold is_u64; lia|exact E|].
  split; [exact Hwf|]. apply Hab. lia.
Defined.

Lemma setup_heap_sev_accepts_heap_witness :
  exists hr above s',
    @setup_heap_sev ref_bits SmallPages 0x7fc000 0x800000 [mkEntry 0 0x900 0] heap_initial
      (Span 0 0) (mkSev 0 []) = Done (hr, above, s') /\
    forall a, in_heap hr a -> 0x7fc000 <= a -> pvalidated (trace s') (a - a mod 4096).
Proof.
  destruct (@setup_heap_sev ref_bits SmallPages 0x7fc000 0x800000 [mkEntry 0 0x900 0]
    heap_initial (Span 0 0) (mkSev 0 [])) as [[[hr above] s']| |] eqn:E;
    [|vm_compute in E; discriminate E..].
  exists hr, above, s'. split; [reflexivity|].
  destruct (@setup_heap_sev_accepts_heap ref_bits ref_bits_ok SmallPages 0x7fc000 0x800000
    [mkEntry 0 0x900 0] (mkSev 0 []) hr above s') as (_ & Hp);
    [lia|unfold is_u64; lia|exact E|]. exact Hp.
Defined.
