(* ===== verification/SevVisible.v ===== *)
(** * Host-visible memory under SEV-SNP (arch/x86_64/hv_sev.cc)

    Correctness of the page-state changes and of the allocator of host-visible
    pages defined in [SevHeap], against a host that answers as it likes. *)

From Stdlib Require Import Sorting.Sorted.
From S2P Require Import Prelude External Address Heap Sev SevHeap.

(** A sequence of calls, with the blocks they return. *)
Fixpoint allocate_many `{SnmallocBits} (cfg : page_config) (host : list SevEvent -> Z -> Z)
  (above : span) (sizes : list Z) (v : VisibleState) (s : SevState)
  : outcome (list span * VisibleState * SevState) :=
  match sizes with
  | [] => Done ([], v, s)
  | size :: sizes' =>
      let* r := allocate_visible_sev_vtom cfg host above size v s in
      let '(ret, v', s') := r in
      let* r' := allocate_many cfg host above sizes' v' s' in
      let '(blocks, v'', s'') := r' in
      Done (Span ret (align_up size HV_PAGE_SIZE) :: blocks, v'', s'')
  end.

(** ** Invariant *)

(** A pool as [setup_heap_sev] leaves it. *)
Record pool_ok (cfg : page_config) (above : span) : Prop := {
  po_pos : 0 < span_data above;
  po_aligned : (PAGE_SIZE cfg | span_data above);
  po_size : 0 <= span_size above;
  po_end : span_data above + span_size above <= 2 ^ 48;
}.

Record visible_inv (cfg : page_config) (above : span) (v : VisibleState) (s : SevState) : Prop := {
  vi_offset : 0 <= remaining_vtom_offset v <= span_size above;
  vi_offset_aligned : (PAGE_SIZE cfg | remaining_vtom_offset v);
  vi_available :
    (remaining_vtom_offset v = 0 /\ currently_shared_available v = Span 0 0) \/
    (0 < remaining_vtom_offset v /\
     span_data above <= span_data (currently_shared_available v) /\
     0 <= span_size (currently_shared_available v) /\
     span_data (currently_shared_available v) + span_size (currently_shared_available v) =
       span_data above + remaining_vtom_offset v /\
     (HV_PAGE_SIZE | span_data (currently_shared_available v)));
  vi_shared : forall f,
    span_data above <= f * HV_PAGE_SIZE < span_data above + remaining_vtom_offset v ->
    frame_shared (trace s) f;
}.

(** Where the next block starts. *)
Definition next_block (above : span) (v : VisibleState) : Z :=
  if span_data (currently_shared_available v) =? 0 then span_data above
  else span_data (currently_shared_available v).

(** A host that accepts every page-state change. *)
Definition host_accepts (host : list SevEvent -> Z -> Z) : Prop :=
  forall t f shared, PageStateResponse_success (u64 (host t (PageStateRequest_raw f shared))) = true.

Lemma frame_shared_app t1 t2 f : frame_shared t1 f -> frame_shared (t1 ++ t2) f.
Proof. intros (r & Hin & Hok). exists r. split; [|done]. apply elem_of_app. by left. Qed.

Section Frames.
Context (host : list SevEvent -> Z -> Z).

Lemma update_frames_no_hang n f fe shared s :
  0 <= f -> fe < 2 ^ 64 -> (Z.to_nat (fe - f) <= n)%nat ->
  update_frames host n f fe shared s <> Hang.
Proof.
  revert f s; induction n as [|n IH]; intros f s Hf Hfe Hn; cbn; case_if_prop; try done; [lia|].
  case_if_prop; [done|]. rewrite u64_small by (unfold is_u64; lia). apply IH; lia.
Qed.

Lemma update_frames_done n f fe shared s s' :
  0 <= f -> fe < 2 ^ 64 -> update_frames host n f fe shared s = Done s' ->
  exists t, trace s' = trace s ++ t /\
    (shared = true -> forall g, f <= g < fe -> frame_shared (trace s') g).
Proof.
  revert f s; induction n as [|n IH]; intros f s Hf Hfe; cbn; case_if_prop; intros Hu; inv_done.
  - exists []. rewrite app_nil_r. split; [done|]. intros; lia.
  - case_if_prop; [done|]. rewrite u64_small in Hu by (unfold is_u64; lia).
    apply IH in Hu as (t & Ht & Hsh); [|lia|lia]. cbn in Ht.
    rewrite <- app_assoc in Ht. eexists. split; [exact Ht|]. intros Hs g Hg.
    destruct (Z.eq_dec g f) as [->|]; [|apply Hsh; [done|lia]].
    rewrite Ht, app_assoc. apply frame_shared_app. eexists. split; [|exact E0].
    cbn. apply elem_of_app. right. apply list_elem_of_singleton. by rewrite Hs.
  - exists []. rewrite app_nil_r. split; [done|]. intros; lia.
Qed.

Lemma update_frames_accepts n f fe shared s :
  host_accepts host -> 0 <= f -> fe < 2 ^ 64 -> (Z.to_nat (fe - f) <= n)%nat ->
  exists s', update_frames host n f fe shared s = Done s'.
Proof.
  intros Hh. revert f s; induction n as [|n IH]; intros f s Hf Hfe Hn; cbn; case_if_prop;
    try (by eauto); [lia|].
  unfold read_ghcb_msr; cbn. rewrite Hh. cbn. rewrite u64_small by (unfold is_u64; lia).
  apply IH; lia.
Qed.

(** Sharing a range restores the GHCB MSR and leaves every frame of it shared. *)
Lemma update_state_shared r s s' :
  range_wf r -> update_state_for_range host r true s = Done s' ->
  ghcb_msr s' = ghcb_msr s /\ (exists t, trace s' = trace s ++ t) /\
  forall g, start r / HV_PAGE_SIZE <= g < end_ r / HV_PAGE_SIZE -> frame_shared (trace s') g.
Proof.
  intros [? ?] Hu. unfold update_state_for_range, HV_PAGE_SIZE in *. inv_done.
  cbn [negb] in Hu. inv_done. cbn.
  apply update_frames_done in E as (t & Ht & Hsh); try (Z.div_mod_to_equations; lia).
  split; [done|]. split; [by exists t|]. by apply Hsh.
Qed.

Lemma update_state_no_hang r s :
  range_wf r -> update_state_for_range host r true s <> Hang.
Proof.
  intros [? ?]. unfold update_state_for_range, HV_PAGE_SIZE in *.
  destruct (update_frames _ _ _ _ _ _) eqn:E; cbn; try done.
  exfalso. eapply update_frames_no_hang; [| | |exact E]; Z.div_mod_to_equations; lia.
Qed.

Lemma update_state_accepts r s :
  host_accepts host -> range_wf r -> exists s', update_state_for_range host r true s = Done s'.
Proof.
  intros Hh [? ?]. unfold update_state_for_range, HV_PAGE_SIZE.
  destruct (update_frames_accepts (Z.to_nat (end_ r / 4096 - start r / 4096))
    (start r / 4096) (end_ r / 4096) true s Hh) as [s' ->]; try (Z.div_mod_to_equations; lia).
  cbn. by eauto.
Qed.

End Frames.

Section Allocator.
Context `{SnmallocBits, !SnmallocBitsOk} (cfg : page_config) (host : list SevEvent -> Z -> Z).
Context (above : span) (Hpool : pool_ok cfg above).

Lemma extra_range_eq v :
  0 <= remaining_vtom_offset v ->
  remaining_vtom_offset v + PAGE_SIZE cfg <= span_size above ->
  subspan above (remaining_vtom_offset v) (PAGE_SIZE cfg) =
    Span (span_data above + remaining_vtom_offset v) (PAGE_SIZE cfg) /\
  range_of_span (subspan above (remaining_vtom_offset v) (PAGE_SIZE cfg)) =
    mkRange (span_data above + remaining_vtom_offset v)
            (span_data above + remaining_vtom_offset v + PAGE_SIZE cfg).
Proof.
  destruct Hpool. intros. pose proof (page_size_bounds cfg). unfold subspan.
  rewrite u64_small by (unfold is_u64; lia). split; [done|].
  rewrite range_of_span_wf by (cbn; lia). done.
Qed.

(** One expansion takes the next page of the pool. *)
Lemma expand_visible_done v s v' s' :
  visible_inv cfg above v s -> expand_visible cfg host above (v, s) = Done (v', s') ->
  visible_inv cfg above v' s' /\ ghcb_msr s' = ghcb_msr s /\
  remaining_vtom_offset v' = remaining_vtom_offset v + PAGE_SIZE cfg /\
  next_block above v' = next_block above v /\
  span_data (currently_shared_available v') <> 0.
Proof.
  intros [Ho Hoa Hav Hsh] Hx. pose proof Hpool as [Hpos Hpa Hps Hpe].
  pose proof (page_size_bounds cfg). pose proof (rmp_divides_page cfg) as Hrp.
  unfold expand_visible in Hx. rewrite u64_small in Hx by (unfold is_u64; lia).
  case_if_prop; [done|]. destruct (extra_range_eq v) as [Hsub Hrange]; [lia|lia|].
  rewrite Hrange, Hsub in Hx. inv_done.
  cbn [span_data span_size] in *. rewrite (u64_small (remaining_vtom_offset v + _)) by (unfold is_u64; lia).
  apply update_state_shared in E0 as (Hm & [t Ht] & Hfr); [|split; cbn; lia]. cbn in Hfr.
  assert ((HV_PAGE_SIZE | span_data above + remaining_vtom_offset v)) as Hdiv.
  { apply Z.divide_add_r; by eapply Z.divide_trans. }
  unfold next_block, HV_PAGE_SIZE, RMP_GRANULARITY in *.
  destruct Hav as [[Hz Hs]|(Hz & Hd & Hs0 & Hsum & Hd')].
  - rewrite Hs, Hz in *. cbn. rewrite u64_small by (unfold is_u64; lia).
    rewrite Z.add_0_r in *.
    split_and!; try done; try lia; [|case_if_prop; lia]. split; cbn; try done; try lia.
    + right. split_and!; (done || lia).
    + intros f Hf. apply Hfr. destruct Hdiv as [q1 Hq1], Hrp as [q2 Hq2].
      unfold HV_PAGE_SIZE in *. Z.div_mod_to_equations. lia.
  - destruct (Z.eqb_spec (span_data (currently_shared_available v)) 0); [lia|]. cbn.
    rewrite u64_small by (unfold is_u64; lia).
    split_and!; try done; try lia; [|case_if_prop; lia]. split; cbn; try lia.
    + apply Z.divide_add_r; [done|apply Z.divide_refl].
    + right. split_and!; (done || lia).
    + intros f Hf. destruct (Z.lt_ge_cases (f * 4096) (span_data above + remaining_vtom_offset v)).
      * rewrite Ht. apply frame_shared_app, Hsh. unfold HV_PAGE_SIZE in *. lia.
      * apply Hfr. destruct Hdiv as [q1 Hq1], Hrp as [q2 Hq2].
      unfold HV_PAGE_SIZE in *. Z.div_mod_to_equations. lia.
Qed.

Let loop_measure (st : VisibleState * SevState) : nat :=
  Z.to_nat ((span_size above - remaining_vtom_offset (fst st)) / PAGE_SIZE cfg).

Lemma expand_measure v s v' s' :
  visible_inv cfg above v s -> visible_inv cfg above v' s' ->
  remaining_vtom_offset v' = remaining_vtom_offset v + PAGE_SIZE cfg ->
  (loop_measure (v', s') < loop_measure (v, s))%nat.
Proof.
  intros [Ho _ _ _] [Ho' _ _ _] Heq. unfold loop_measure; cbn.
  pose proof (page_size_bounds cfg). rewrite Heq in *. apply Z2Nat.inj_lt.
  - apply Z.div_pos; lia.
  - apply Z.div_pos; lia.
  - replace (span_size above - remaining_vtom_offset v)
      with (span_size above - (remaining_vtom_offset v + PAGE_SIZE cfg) + 1 * PAGE_SIZE cfg) by lia.
    rewrite Z.div_add by lia. lia.
Qed.

Lemma expand_no_hang st : visible_inv cfg above (fst st) (snd st) ->
  expand_visible cfg host above st <> Hang.
Proof.
  destruct st as [v s]. intros [Ho _ _ _]. pose proof (page_size_bounds cfg).
  pose proof Hpool as [Hpos Hpa Hps Hpe].
  unfold expand_visible. cbn in *. rewrite u64_small by (unfold is_u64; lia). case_if_prop; [done|].
  destruct (extra_range_eq v) as [Hsub Hrange]; [lia|lia|]. rewrite Hrange.
  destruct (update_state_for_range _ _ _ _) eqn:E2; cbn; try done.
  exfalso. eapply update_state_no_hang; [|exact E2]. split; cbn; lia.
Qed.

Lemma expand_accepts v s :
  host_accepts host -> visible_inv cfg above v s ->
  remaining_vtom_offset v + PAGE_SIZE cfg <= span_size above ->
  exists v' s', expand_visible cfg host above (v, s) = Done (v', s') /\
    span_size (currently_shared_available v') =
      span_size (currently_shared_available v) + PAGE_SIZE cfg.
Proof.
  intros Hh [Ho _ Hav _] Hroom. pose proof (page_size_bounds cfg).
  pose proof Hpool as [Hpos Hpa Hps Hpe].
  unfold expand_visible. rewrite u64_small by (unfold is_u64; lia). case_if_prop; [lia|].
  destruct (extra_range_eq v) as [Hsub Hrange]; [lia|lia|]. rewrite Hrange, Hsub.
  destruct (update_state_accepts host (mkRange (span_data above + remaining_vtom_offset v)
    (span_data above + remaining_vtom_offset v + PAGE_SIZE cfg)) s Hh) as [s1 Hs1];
    [split; cbn; lia|].
  rewrite Hs1. cbn [obind]. eexists _, _. split; [reflexivity|]. cbn.
  rewrite u64_small; [done|]. unfold is_u64.
  destruct Hav as [[? ->]|(? & ? & ? & ? & ?)]; cbn; lia.
Qed.

Lemma loop_fuel v s : visible_inv cfg above v s ->
  (loop_measure (v, s) < S (S (Z.to_nat (span_size above / PAGE_SIZE cfg))))%nat.
Proof.
  intros [Ho _ _ _]. unfold loop_measure; cbn. pose proof (page_size_bounds cfg).
  assert ((span_size above - remaining_vtom_offset v) / PAGE_SIZE cfg <=
          span_size above / PAGE_SIZE cfg) by (apply Z.div_le_mono; lia). lia.
Qed.

Lemma allocate_no_hang size v s :
  visible_inv cfg above v s -> allocate_visible_sev_vtom cfg host above size v s <> Hang.
Proof.
  intros Hinv. unfold allocate_visible_sev_vtom.
  destruct (while_loop _ _ _ _) as [[v' s']| |] eqn:E; cbn; try done.
  exfalso. revert E. apply (while_total _ _ (fun st => visible_inv cfg above (fst st) (snd st))
    loop_measure); [| |done|by apply loop_fuel].
  - intros st Hi _. by apply expand_no_hang.
  - intros [v0 s0] [v1 s1] Hi _ Hx. cbn in *.
    destruct (expand_visible_done _ _ _ _ Hi Hx) as (? & _ & ? & _). split; [done|].
    by apply expand_measure.
Qed.

(** The block a call returns, and what it leaves. *)
Lemma allocate_block size v s ret v' s' :
  0 < size -> size + HV_PAGE_SIZE <= 2 ^ 64 -> visible_inv cfg above v s ->
  allocate_visible_sev_vtom cfg host above size v s = Done (ret, v', s') ->
  visible_inv cfg above v' s' /\ ghcb_msr s' = ghcb_msr s /\
  ret = next_block above v /\ next_block above v' = ret + align_up size HV_PAGE_SIZE /\
  size <= align_up size HV_PAGE_SIZE /\ span_data above <= ret /\
  ret + align_up size HV_PAGE_SIZE <= span_data above + remaining_vtom_offset v'.
Proof.
  intros Hs0 Hs1 Hinv Ha. unfold allocate_visible_sev_vtom in Ha.
  apply obind_done in Ha as ([v1 s1] & Hw & Ha). pose proof Hpool as [Hpos Hpa Hps Hpe].
  destruct (align_up_spec size HV_PAGE_SIZE) as [Hdiv Hal]; [by exists 12|lia|lia|].
  apply (while_inv _ _ (fun st => visible_inv cfg above (fst st) (snd st) /\
      ghcb_msr (snd st) = ghcb_msr s /\ next_block above (fst st) = next_block above v)) in Hw
    as [(Hi & Hm & Hn) Hc]; cbn in *; [|clear Hw; intros [v0 s0] [v2 s2] (Hi & Hm & Hn) _ Hx; cbn in *|done].
  2:{ destruct (expand_visible_done _ _ _ _ Hi Hx) as (? & ? & _ & ? & _). split_and!; congruence. }
  injection Ha as <- <- <-. bool_to_prop. destruct Hi as [Ho Hoa Hav Hsh].
  destruct Hav as [[Hz Hav]|(Hz & Hd & Hz0 & Hsum & Hd')]; [rewrite Hav in Hc; cbn in Hc; lia|].
  set (A := align_up size HV_PAGE_SIZE) in *.
  rewrite <- Hn. unfold next_block. cbn. rewrite !Z.add_0_r.
  rewrite !u64_small by (unfold is_u64; lia).
  destruct (Z.eqb_spec (span_data (currently_shared_available v1)) 0); [lia|].
  destruct (Z.eqb_spec (span_data (currently_shared_available v1) + A) 0); [lia|].
  split_and!; try done; try lia. split; cbn; try done.
  rewrite !u64_small by (unfold is_u64; lia). right. split_and!; try lia.
  by apply Z.divide_add_r.
Qed.

End Allocator.

(** ** Properties *)

Section Properties.
Context `{SnmallocBits, !SnmallocBitsOk} (cfg : page_config) (host : list SevEvent -> Z -> Z).

Lemma visible_inv_initial above s : pool_ok cfg above -> visible_inv cfg above visible_initial s.
Proof.
  intros []. split; cbn; try lia; auto. by exists 0.
Qed.

Lemma allocate_many_ordered above sizes v s blocks v' s' :
  pool_ok cfg above -> visible_inv cfg above v s ->
  Forall (fun z => 0 < z /\ z + HV_PAGE_SIZE <= 2 ^ 64) sizes ->
  allocate_many cfg host above sizes v s = Done (blocks, v', s') ->
  visible_inv cfg above v' s' /\ ghcb_msr s' = ghcb_msr s /\
  next_block above v <= next_block above v' /\
  StronglySorted before blocks /\
  Forall (fun b => next_block above v <= span_data b /\
    span_data b + span_size b <= span_data above + remaining_vtom_offset v') blocks.
Proof.
  intros Hp. revert v s blocks v' s'; induction sizes as [|z sizes IH]; intros v s blocks v' s' Hi Hz Hm;
    cbn in Hm.
  { injection Hm as <- <- <-. repeat split; try apply Hi; try lia; constructor. }
  apply Forall_cons in Hz as [[Hz0 Hz1] Hz]. apply obind_done in Hm as ([[ret v1] s1] & Ha & Hm).
  apply obind_done in Hm as ([[bs v2] s2] & Hr & Hm). injection Hm as <- <- <-.
  destruct (allocate_block cfg host above Hp _ _ _ _ _ _ Hz0 Hz1 Hi Ha)
    as (Hi1 & Hm1 & Hret & Hnx & Hge & Hlo & Hhi).
  destruct (IH _ _ _ _ _ Hi1 Hz Hr) as (Hi2 & Hm2 & Hle & Hs & Hb).
  assert (next_block above v2 <= span_data above + remaining_vtom_offset v2) as Hend.
  { unfold next_block. destruct Hi2 as [? ? Hav _]. destruct Hp.
    destruct Hav as [[? ->]|(? & ? & ? & ? & ?)]; cbn; [|case_if_prop]; lia. }
  split_and!; try done; try congruence; try lia.
  - constructor; [done|]. eapply Forall_impl; [exact Hb|]. unfold before; cbn. intros; lia.
  - constructor; cbn; [lia|]. eapply Forall_impl; [exact Hb|]. cbn. intros; lia.
Qed.

(** Any sequence of successful calls of the host-visible allocator returns
    pairwise disjoint blocks, in address order, inside the pool above the
    virtual top-of-memory, each at least as long as asked for; every 4 kB frame
    handed out so far has been set to shared with the host's acknowledgement;
    and the GHCB MSR has its value from before. *)
Theorem allocate_visible_blocks above sizes s blocks v' s' :
  pool_ok cfg above -> Forall (fun z => 0 < z /\ z + HV_PAGE_SIZE <= 2 ^ 64) sizes ->
  allocate_many cfg host above sizes visible_initial s = Done (blocks, v', s') ->
  StronglySorted before blocks /\
  Forall (fun b => span_data above <= span_data b /\
    span_data b + span_size b <= span_data above + span_size above /\
    forall f, span_data b <= f * HV_PAGE_SIZE < span_data b + span_size b ->
      frame_shared (trace s') f) blocks /\
  Forall2 (fun z b => z <= span_size b) sizes blocks /\
  ghcb_msr s' = ghcb_msr s.
Proof.
  intros Hp Hz Hm. pose proof (visible_inv_initial above s Hp) as Hi.
  destruct (allocate_many_ordered _ _ _ _ _ _ _ Hp Hi Hz Hm) as (Hi' & Hmsr & _ & Hs & Hb).
  split_and!; try done.
  - eapply Forall_impl; [exact Hb|]. cbn. unfold next_block; cbn. destruct Hi' as [Ho _ _ Hsh].
    intros b [? ?]. split_and!; try lia. intros f Hf. apply Hsh. lia.
  - clear -Hm Hz H0. revert Hm. generalize visible_initial. revert s blocks.
    induction sizes as [|z sizes IH]; cbn; intros s blocks v Hm.
    + injection Hm as <- _ _. constructor.
    + apply Forall_cons in Hz as [[Hz0 Hz1] Hz]. apply obind_done in Hm as ([[ret v1] s1] & _ & Hm).
      apply obind_done in Hm as ([[bs v2] s2] & Hr & Hm). injection Hm as <- <- <-.
      constructor; [|by eapply IH]. cbn.
      destruct (align_up_spec z HV_PAGE_SIZE) as [_ ?]; [by exists 12|lia|done|lia].
Qed.

(** A call of the host-visible allocator always comes back or aborts, and
    against a host that accepts page-state changes it succeeds whenever the
    pages left in the pool suffice. *)
Theorem allocate_visible_terminates above size v s :
  pool_ok cfg above -> visible_inv cfg above v s ->
  allocate_visible_sev_vtom cfg host above size v s <> Hang /\
  (host_accepts host ->
   align_up size HV_PAGE_SIZE <= span_size (currently_shared_available v) +
     (span_size above - remaining_vtom_offset v) / PAGE_SIZE cfg * PAGE_SIZE cfg ->
   exists r, allocate_visible_sev_vtom cfg host above size v s = Done r).
Proof.
  intros Hp Hi. split; [by apply allocate_no_hang|]. intros Hh Hsz.
  pose proof (page_size_bounds cfg) as Hps. pose proof Hp as [? ? ? ?].
  destruct (while_progress
    (fun st => span_size (currently_shared_available (fst st)) <? align_up size HV_PAGE_SIZE)
    (expand_visible cfg host above)
    (fun st => visible_inv cfg above (fst st) (snd st) /\
       align_up size HV_PAGE_SIZE <= span_size (currently_shared_available (fst st)) +
       (span_size above - remaining_vtom_offset (fst st)) / PAGE_SIZE cfg * PAGE_SIZE cfg)
    (fun st => Z.to_nat ((span_size above - remaining_vtom_offset (fst st)) / PAGE_SIZE cfg))
    (S (S (Z.to_nat (span_size above / PAGE_SIZE cfg)))) (v, s)) as [[v' s'] Hw].
  - intros [v0 s0] [Hi0 Hs0] Hc. cbn in *. bool_to_prop.
    assert (remaining_vtom_offset v0 + PAGE_SIZE cfg <= span_size above) as Hroom.
    { pose proof (Z.mul_div_le (span_size above - remaining_vtom_offset v0) (PAGE_SIZE cfg)).
      assert (0 < (span_size above - remaining_vtom_offset v0) / PAGE_SIZE cfg) by nia. nia. }
    destruct (expand_accepts cfg host above Hp v0 s0 Hh Hi0 Hroom) as (v1 & s1 & Hx & Hz).
    destruct (expand_visible_done cfg host above Hp _ _ _ _ Hi0 Hx) as (Hi1 & _ & Ho1 & _).
    exists (v1, s1). split; [done|]. cbn.
    split; [split; [done|]|by apply (expand_measure cfg above v0 s0 v1 s1)].
    rewrite Hz, Ho1. replace (span_size above - (remaining_vtom_offset v0 + PAGE_SIZE cfg))
      with (span_size above - remaining_vtom_offset v0 + -1 * PAGE_SIZE cfg) by lia.
    rewrite Z.div_add, Z.mul_add_distr_r by lia. lia.
  - cbn. done.
  - by apply (loop_fuel cfg above v s).
  - unfold allocate_visible_sev_vtom. rewrite Hw. cbn. by eauto.
Qed.

End Properties.

(** ** Witnesses *)

(** A host that answers every request with a successful page-state response. *)
Definition accepting_host (t : list SevEvent) (msr : Z) : Z := 0x15.

Lemma example_pool_ok : pool_ok SmallPages (Span 0x800000 0x4000).
Proof. split; cbn; try lia. exists 0x800. reflexivity. Qed.

Lemma allocate_visible_blocks_witness :
  exists blocks v' s',
    @allocate_many ref_bits SmallPages accepting_host (Span 0x800000 0x4000) [100; 5000]
      visible_initial (mkSev 7 []) = Done (blocks, v', s') /\
    StronglySorted before blocks /\ ghcb_msr s' = 7.
Proof.
  destruct (@allocate_many ref_bits SmallPages accepting_host (Span 0x800000 0x4000) [100; 5000]
    visible_initial (mkSev 7 [])) as [[[blocks v'] s']| |] eqn:E;
    [|vm_compute in E; discriminate E..].
  exists blocks, v', s'. split; [reflexivity|].
  destruct (@allocate_visible_blocks ref_bits ref_bits_ok SmallPages accepting_host
    (Span 0x800000 0x4000) [100; 5000] (mkSev 7 []) blocks v' s') as (Hs & _ & _ & Hm);
    [exact example_pool_ok|
     unfold HV_PAGE_SIZE; repeat (constructor; [split; lia|]); constructor|exact E|].
  split; [exact Hs|exact Hm].
Defined.

Lemma allocate_visible_terminates_witness :
  exists r, @allocate_visible_sev_vtom ref_bits SmallPages accepting_host (Span 0x800000 0x4000) 100
    visible_initial (mkSev 7 []) = Done r.
Proof.
  apply (@allocate_visible_terminates ref_bits SmallPages accepting_host
    (Span 0x800000 0x4000) 100 visible_initial (mkSev 7 []) example_pool_ok).
  - apply visible_inv_initial. exact example_pool_ok.
  - intros t f sh. reflexivity.
  - vm_compute. discriminate.
Defined.
