(* ===== verification/HeapInit.v ===== *)
(** * Handing the heap to the allocator (include/public/snmalloc/snmalloc.h, arch/x86_64/main64.cc)

    [MonzaGlobals::init] takes the tables of the allocator from the start of the
    first heap range and gives the rest to its global range; the additional ranges
    follow once they are mapped. The page maps and the splitting into blocks are
    snmalloc's and parameters. *)

From Stdlib Require Import Sorted.
From S2P Require Import Prelude External Address Heap Sev SevHeap.

(** [FlatPagemap::init] of the ownership map and of the allocator's page map, which
    return the start of the memory after their table, and [range_to_pow_2_blocks],
    the blocks its callback is called with. *)
Class SnmallocBackend : Type := {
  compartment_pagemap_init : Z -> Z -> Z;
  pagemap_init : Z -> Z -> Z;
  range_to_pow_2_blocks : Z -> Z -> list (Z * Z);
}.

Definition in_block (b : Z * Z) (a : Z) : Prop := fst b <= a < fst b + snd b.

(** The page maps return addresses; blocks lie in the range, without overlap. *)
Class SnmallocBackendOk `{!SnmallocBackend} : Prop := {
  compartment_pagemap_address : forall b n, is_u64 (compartment_pagemap_init b n);
  pagemap_address : forall b n, is_u64 (pagemap_init b n);
  blocks_inside : forall base n b a,
    b ∈ range_to_pow_2_blocks base n -> in_block b a -> base <= a < base + n;
  blocks_disjoint : forall base n i j b c a,
    range_to_pow_2_blocks base n !! i = Some b -> range_to_pow_2_blocks base n !! j = Some c ->
    in_block b a -> in_block c a -> i = j;
}.

(** [total_heap_size], the blocks of the global range and the ranges that were
    notified to the platform and zeroed. *)
Record BackendState : Type := mkBackend {
  total_heap_size : Z;
  global_blocks : list (Z * Z);
  zeroed : list (Z * Z);
}.

Definition backend_initial : BackendState := mkBackend 0 [] [].

Section HeapInit.
Context `{SnmallocBackend}.

Definition add_range (base length_ : Z) (st : BackendState) : BackendState :=
  mkBackend (u64 (total_heap_size st + length_))
    (global_blocks st ++ range_to_pow_2_blocks base length_) (zeroed st).

(** The range that is left: base, longest and initial length. *)
Record InitRange : Type := mkInit { i_base : Z; i_max_length : Z; i_initial_length : Z }.

Definition consume_init_range (r : InitRange) (new_base : Z) (st : BackendState)
  : outcome (InitRange * BackendState) :=
  if new_base <? i_base r then Kabort
  else
    let consumed_size := u64 (new_base - i_base r) in
    if i_initial_length r <=? consumed_size then Kabort
    else Done (mkInit new_base (u64 (i_max_length r - consumed_size)) (u64 (i_initial_length r - consumed_size)),
               mkBackend (total_heap_size st) (global_blocks st) (zeroed st ++ [(i_base r, consumed_size)])).

Definition init (base max_length initial_length : Z) (st : BackendState) : outcome BackendState :=
  let r0 := mkInit base max_length initial_length in
  let* s1 := consume_init_range r0 (compartment_pagemap_init (i_base r0) (i_max_length r0)) st in
  let '(r1, st1) := s1 in
  let* s2 := consume_init_range r1 (pagemap_init (i_base r1) (i_max_length r1)) st1 in
  let '(r2, st2) := s2 in
  Done (add_range (i_base r2) (i_initial_length r2) st2).

(** [MonzaGlobals::heap_size]. *)
Definition allocator_heap_size (st : BackendState) : Z := total_heap_size st.

(** What [startcc] does with the heap once it is set up; [setup] is what it calls
    between the first range and the others, which needs no more of the heap than
    allocations. *)
Definition startcc_heap (setup : outcome unit) (hr : HeapRanges) (st : BackendState) : outcome BackendState :=
  let first_range := first hr in
  if span_size first_range =? 0 then Kabort
  else
    let* st1 := init (span_data first_range) (heap_size hr) (span_size first_range) st in
    let* _ := setup in
    Done (fold_left (fun st range => add_range (span_data range) (span_size range) st) (additional hr) st1).

End HeapInit.

(** ** Facts *)

(** The bytes of a list of ranges. *)
Fixpoint spans_total (l : list span) : Z :=
  match l with [] => 0 | s :: l' => span_size s + spans_total l' end.

Lemma spans_total_nonneg l : Forall (fun s => 0 <= span_size s) l -> 0 <= spans_total l.
Proof. induction 1; cbn [spans_total]; lia. Qed.

(** The bytes of a list of blocks. *)
Definition in_blocks (l : list (Z * Z)) (a : Z) : Prop := exists b, b ∈ l /\ in_block b a.

Lemma in_blocks_app l1 l2 a : in_blocks (l1 ++ l2) a <-> in_blocks l1 a \/ in_blocks l2 a.
Proof.
  unfold in_blocks. setoid_rewrite elem_of_app. split.
  - intros (b & [?|?] & ?); eauto.
  - intros [(b & ? & ?)|(b & ? & ?)]; eauto.
Qed.

Section Facts.
Context `{SnmallocBackend, !SnmallocBackendOk}.

(** Consuming moves the base, keeps the end and zeroes what lies between. *)
Lemma consume_spec r nb st r' st' :
  is_u64 nb -> 0 <= i_base r -> 0 <= i_initial_length r < 2 ^ 64 ->
  consume_init_range r nb st = Done (r', st') ->
  i_base r' = nb /\ i_base r <= nb < i_base r + i_initial_length r /\
  i_base r' + i_initial_length r' = i_base r + i_initial_length r /\ 0 < i_initial_length r' < 2 ^ 64 /\
  st' = mkBackend (total_heap_size st) (global_blocks st) (zeroed st ++ [(i_base r, nb - i_base r)]).
Proof.
  unfold is_u64, consume_init_range. intros Hn Hb Hi. destruct (Z.ltb_spec nb (i_base r)); [done|].
  rewrite (u64_small (nb - i_base r)) by (unfold is_u64; lia).
  destruct (Z.leb_spec (i_initial_length r) (nb - i_base r)); [done|]. intros [= <- <-]. cbn.
  rewrite (u64_small (i_initial_length r - _)) by (unfold is_u64; lia). split_and!; done || lia.
Qed.

(** [init] splits the range at one address: below it everything is zeroed and kept
    for the tables, above it the blocks come from. *)
Lemma init_spec base max_length len st' :
  0 <= base -> 0 <= len < 2 ^ 64 -> init base max_length len backend_initial = Done st' ->
  exists split, base <= split < base + len /\
    total_heap_size st' = base + len - split /\
    global_blocks st' = range_to_pow_2_blocks split (base + len - split) /\
    forall a, in_blocks (zeroed st') a <-> base <= a < split.
Proof.
  intros Hb Hl Hi. unfold init in Hi. cbn [i_base i_max_length] in Hi.
  apply obind_done in Hi as ([r1 st1] & H1 & Hi). apply obind_done in Hi as ([r2 st2] & H2 & Hi).
  apply consume_spec in H1 as (B1 & R1 & E1 & P1 & ->); [|apply compartment_pagemap_address|done|done].
  apply consume_spec in H2 as (B2 & R2 & E2 & P2 & ->);
    [|apply pagemap_address|cbn in *; lia|lia]. injection Hi as <-. cbn in *.
  rewrite <- B1 in R1. rewrite <- B1, <- B2 in *. exists (i_base r2). split; [lia|].
  replace (i_initial_length r2) with (base + len - i_base r2) by lia. split; [apply u64_small; unfold is_u64; lia|]. split; [done|].
  intros a. unfold in_blocks, in_block. setoid_rewrite elem_of_cons. setoid_rewrite list_elem_of_singleton. split.
  - intros (b & [->| ->] & ?); cbn in *; lia.
  - intros Ha. destruct (decide (a < i_base r1)).
    + exists (base, i_base r1 - base). split; [auto|cbn; lia].
    + exists (i_base r1, i_base r2 - i_base r1). split; [auto|cbn; lia].
Qed.

Lemma add_ranges_spec l st :
  total_heap_size st + spans_total l < 2 ^ 64 ->
  0 <= total_heap_size st -> Forall (fun s => 0 <= span_size s) l ->
  let st' := fold_left (fun st range => add_range (span_data range) (span_size range) st) l st in
  zeroed st' = zeroed st /\
  global_blocks st' = global_blocks st ++ concat (map (fun s => range_to_pow_2_blocks (span_data s) (span_size s)) l) /\
  total_heap_size st' = total_heap_size st + spans_total l.
Proof.
  revert st; induction l as [|s l IH]; intros st Hs Ht Hl; cbn [fold_left map concat spans_total] in *.
  { split_and!; [done|by rewrite app_nil_r|cbn; lia]. }
  apply Forall_cons in Hl as [Hs0 Hl]. pose proof (spans_total_nonneg l Hl).
  destruct (IH (add_range (span_data s) (span_size s) st)) as (Hz & Hg & Htot); try done.
  { cbn. rewrite u64_small by (unfold is_u64; lia). lia. }
  { cbn. apply u64_range. }
  split_and!; [done| |].
  - rewrite Hg. cbn. by rewrite <- app_assoc.
  - rewrite Htot. cbn. rewrite u64_small by (unfold is_u64; lia). lia.
Qed.

(** No byte lies in two blocks. *)
Definition disjoint_blocks (l : list (Z * Z)) : Prop :=
  forall i j b c a, l !! i = Some b -> l !! j = Some c -> in_block b a -> in_block c a -> i = j.

Lemma in_blocks_lookup l i b a : l !! i = Some b -> in_block b a -> in_blocks l a.
Proof. intros Hi Ha. exists b. split; [by eapply list_elem_of_lookup_2|done]. Qed.

Lemma disjoint_blocks_app l1 l2 :
  disjoint_blocks l1 -> disjoint_blocks l2 -> (forall a, in_blocks l1 a -> in_blocks l2 a -> False) ->
  disjoint_blocks (l1 ++ l2).
Proof.
  intros H1 H2 H12 i j b c a Hi Hj Hb Hc.
  apply lookup_app_Some in Hi as [Hi|[Li Hi]], Hj as [Hj|[Lj Hj]].
  - by eapply H1.
  - destruct (H12 a); eauto using in_blocks_lookup.
  - destruct (H12 a); eauto using in_blocks_lookup.
  - assert (i - length l1 = j - length l1)%nat by (by eapply H2). lia.
Qed.

Definition blocks_of (l : list span) : list (Z * Z) :=
  concat (map (fun s => range_to_pow_2_blocks (span_data s) (span_size s)) l).

Lemma in_blocks_of l a : in_blocks (blocks_of l) a -> exists s, s ∈ l /\ in_span s a.
Proof.
  intros (b & Hb & Ha). unfold blocks_of in Hb. rewrite list_elem_of_In, in_concat in Hb.
  destruct Hb as (x & Hx & Hbx). apply in_map_iff in Hx as (s & <- & Hin). apply list_elem_of_In in Hin, Hbx.
  exists s. split; [done|]. exact (blocks_inside _ _ _ _ Hbx Ha).
Qed.

Lemma blocks_of_disjoint l : StronglySorted before l -> disjoint_blocks (blocks_of l).
Proof.
  induction 1 as [|s l _ IH Hs]; [by intros i j b c a Hi|]. unfold blocks_of. cbn [map concat].
  apply disjoint_blocks_app; [by intros ?????; apply blocks_disjoint|exact IH|].
  intros a (b & Hb & Ha) (t & Ht & Hin)%in_blocks_of. pose proof (blocks_inside _ _ _ _ Hb Ha).
  rewrite Forall_forall in Hs. specialize (Hs t Ht). unfold before, in_span in *. lia.
Qed.

(** Ordered ranges fit the address space together. *)
Lemma sorted_total s l :
  StronglySorted before (s :: l) -> Forall span_wf (s :: l) -> span_data s + spans_total (s :: l) < 2 ^ 64.
Proof.
  revert s; induction l as [|t l IH]; intros s Hs Hw; apply Forall_cons in Hw as [(? & ? & ?) Hw]; cbn [spans_total] in *;
    [lia|]. apply StronglySorted_inv in Hs as [Hs Hall]. apply Forall_cons in Hall as [Hb _]. specialize (IH t Hs Hw).
  unfold before in Hb. lia.
Qed.

(** The hand-over of a heap whose ranges are ordered and do not overlap. *)
Lemma handover_ordered cfg setup hr st' :
  heap_wf cfg hr -> StronglySorted before (heap_list hr) ->
  startcc_heap setup hr backend_initial = Done st' ->
  exists split, in_span (first_range hr) split /\
    (forall a, in_blocks (zeroed st') a <-> span_data (first_range hr) <= a < split) /\
    (forall a, in_blocks (global_blocks st') a -> is_heap_address hr a = true /\ ~ in_blocks (zeroed st') a) /\
    disjoint_blocks (global_blocks st') /\
    allocator_heap_size st' = span_data (first_range hr) + spans_total (heap_list hr) - split.
Proof.
  intros Hwf Hsort Hrun. pose proof Hwf as [_ _ Hfirst Hadd].
  unfold startcc_heap, first in Hrun. destruct (Z.eqb_spec (span_size (first_range hr)) 0); [done|].
  destruct Hfirst as [E|(Hw & Hp & _)]; [by rewrite E in n|].
  assert (Forall span_wf (additional hr)) as Hws by (eapply Forall_impl; [exact Hadd|]; by intros s [? _]).
  pose proof (sorted_total _ _ Hsort ltac:(by constructor)) as Hsum. cbn [heap_list spans_total] in *.
  apply StronglySorted_inv in Hsort as [Hsort Hord]. rewrite Forall_forall in Hord. destruct Hw as (Hd & Hz & Ho).
  apply obind_done in Hrun as (st1 & Hi & Hrun). apply obind_done in Hrun as ([] & _ & Hrun).
  apply init_spec in Hi as (split_ & Hs & Ht & Hg & Hzero); [|lia|lia]. injection Hrun as <-.
  destruct (add_ranges_spec (additional hr) st1) as (Hz' & Hg' & Ht'); [lia|lia| |].
  { eapply Forall_impl; [exact Hws|]. by intros s (_ & ? & _). }
  fold (blocks_of (additional hr)) in Hg'. rewrite Hg in Hg'. exists split_. rewrite Hz', Hg'.
  assert (forall a, in_blocks (range_to_pow_2_blocks split_ (span_data (first_range hr) + span_size (first_range hr) - split_)) a ->
    split_ <= a < span_data (first_range hr) + span_size (first_range hr)) as Hblk.
  { intros a (b & Hb & Ha). pose proof (blocks_inside _ _ _ _ Hb Ha). lia. }
  split_and!; [unfold in_span; lia|exact Hzero| | |unfold allocator_heap_size; lia].
  - intros a. rewrite in_blocks_app, Hzero, (is_heap_address_spec cfg hr a Hwf). unfold in_span.
    intros [Ha%Hblk|(s & Hin & Ha)%in_blocks_of]; [split; [left|]; lia|].
    pose proof (Hord s Hin) as Hb. unfold before, in_span in *. split; [right; by exists s|lia].
  - apply disjoint_blocks_app; [by intros ?????; apply blocks_disjoint|by apply blocks_of_disjoint|].
    intros a Ha%Hblk (s & Hin & Hsa)%in_blocks_of. pose proof (Hord s Hin). unfold before, in_span in *. lia.
Qed.

Context `{!SnmallocBits, !SnmallocBitsOk}.

(** C30: On SEV-SNP, whatever memory map the host supplies and whatever the page maps ask for, setting up the heap and
    handing it to the allocator either stops the machine or splits the first range at one address: the bytes below are zeroed and
    kept for the allocator's tables; the allocator gets only bytes of the heap above it, each of them a byte of an entry of the
    map, from [__heap_start] on and below a non-zero virtual top-of-memory, and none of them twice; and the recorded heap size is
    what was handed over. That no byte is handed over twice rests on the order that [setup_heap_sev] enforces between the entries;
    [setup_heap_generic] does not, and the claim is not made for it (see [generic_heap_handed_over_twice]). *)
Theorem startcc_heap_hands_over cfg heap_start vtom l s hr above s' setup st' :
  0 <= heap_start < 2 ^ 48 -> is_u64 vtom ->
  setup_heap_sev cfg heap_start vtom l heap_initial (Span 0 0) s = Done (hr, above, s') ->
  startcc_heap setup hr backend_initial = Done st' ->
  exists split, in_span (first_range hr) split /\
    (forall a, in_blocks (zeroed st') a <-> span_data (first_range hr) <= a < split) /\
    (forall a, in_blocks (global_blocks st') a ->
       is_heap_address hr a = true /\ ~ in_blocks (zeroed st') a /\ heap_byte_ok heap_start vtom l a) /\
    disjoint_blocks (global_blocks st') /\
    allocator_heap_size st' = span_data (first_range hr) + spans_total (heap_list hr) - split.
Proof.
  intros Hh Hv Hset Hrun.
  destruct (setup_heap_sev_inv _ _ _ _ _ _ _ _ Hh Hv Hset) as (st & [_ [Hwf Hs Hr] _ _ _] & -> & _ & _ & _).
  destruct (handover_ordered cfg setup _ st' Hwf Hs Hrun) as (split_ & Hin0 & Hzero & Hblk & Hdis & Hsize).
  exists split_. split_and!; [done|done| |done|done]. intros a Ha. destruct (Hblk a Ha) as [Hin Hz]. split_and!; [done..|].
  apply (is_heap_address_spec cfg _ _ Hwf) in Hin. unfold heap_list in Hr. apply Forall_cons in Hr as [Hf Hadd].
  rewrite Forall_forall in Hadd. destruct Hin as [Hin|(r & Hr' & Hin)]; [by apply Hf|by apply (Hadd r Hr')].
Qed.

End Facts.

(** ** Witness *)

(** Each table takes one page, and a range is one block. *)
Definition ref_backend : SnmallocBackend := {|
  compartment_pagemap_init b _ := u64 (b + 4096);
  pagemap_init b _ := u64 (b + 4096);
  range_to_pow_2_blocks b n := [(b, n)];
|}.

Lemma ref_backend_ok : @SnmallocBackendOk ref_backend.
Proof.
  split; cbn.
  - intros. apply u64_range.
  - intros. apply u64_range.
  - intros base n b a ->%list_elem_of_singleton. done.
  - intros base n i j b c a Hi Hj _ _. apply list_lookup_singleton_Some in Hi as [-> _], Hj as [-> _]. done.
Qed.

(** One entry that covers everything below 8 MB. *)
Lemma startcc_heap_hands_over_witness :
  exists hr above s' st',
    @setup_heap_sev ref_bits SmallPages 0x7e0000 0x800000 [mkEntry 0 0x900 0] heap_initial (Span 0 0) (mkSev 0 []) =
      Done (hr, above, s') /\
    @startcc_heap ref_backend (Done tt) hr backend_initial = Done st' /\
    allocator_heap_size st' = 0x1e000 /\ disjoint_blocks (global_blocks st').
Proof.
  destruct (@setup_heap_sev ref_bits SmallPages 0x7e0000 0x800000 [mkEntry 0 0x900 0] heap_initial (Span 0 0) (mkSev 0 []))
    as [[[hr above] s']| |] eqn:E; [|vm_compute in E; discriminate E..].
  destruct (@startcc_heap ref_backend (Done tt) hr backend_initial) as [st'| |] eqn:E2;
    [|vm_compute in E; injection E as <- <- <-; vm_compute in E2; discriminate E2..].
  exists hr, above, s', st'. split; [reflexivity|]. split; [exact E2|].
  destruct (@startcc_heap_hands_over ref_backend ref_backend_ok ref_bits ref_bits_ok SmallPages 0x7e0000 0x800000 [mkEntry 0 0x900 0]
    (mkSev 0 []) hr above s' (Done tt) st') as (split_ & _ & _ & _ & Hd & _); [lia|unfold is_u64; lia|exact E|exact E2|].
  split; [|exact Hd]. vm_compute in E. injection E as <- <- <-. vm_compute in E2. injection E2 as <-. reflexivity.
Defined.

(** ** The generic heap *)

(** The little-endian bytes of a number. *)
Definition le_bytes (n : nat) (v : Z) : list Z := map (fun i => Z.shiftr v (8 * Z.of_nat i) mod 256) (seq 0 n).

Definition e820_bytes (e : E820Entry) : list Z :=
  le_bytes 8 (e820_addr e) ++ le_bytes 8 (e820_size e) ++ le_bytes 4 (e820_type e).

(** A zero page at address 0 whose table holds the entries. *)
Definition zero_page (l : list E820Entry) (a : Z) : Z :=
  if a =? E820_ENTRIES_OFFSET then Z.of_nat (length l)
  else if a <? E820_TABLE_OFFSET then 0 else nth (Z.to_nat (a - E820_TABLE_OFFSET)) (flat_map e820_bytes l) 0.

(** [setup_heap_generic] checks neither the order nor the overlap of the E820 entries: of two entries of which the second lies in the
    first both become heap ranges, and the hand-over gives the allocator the same bytes twice. *)
Lemma generic_heap_handed_over_twice :
  let map_ := [mkE820 0x100000 0x100000 E820_TYPE_RAM; mkE820 0x180000 0x10000 E820_TYPE_RAM] in
  exists hr st',
    @setup_heap_generic ref_bits SmallPages 0x110000 (zero_page map_) 0 heap_initial = Done hr /\
    @startcc_heap ref_backend (Done tt) hr backend_initial = Done st' /\ ~ disjoint_blocks (global_blocks st').
Proof.
  intros map_.
  destruct (@setup_heap_generic ref_bits SmallPages 0x110000 (zero_page map_) 0 heap_initial) as [hr| |] eqn:E;
    [|vm_compute in E; discriminate E..].
  vm_compute in E. injection E as <-. eexists _, _. split; [reflexivity|]. split; [vm_compute; reflexivity|].
  intros Hd. specialize (Hd 0%nat 1%nat _ _ 0x180000 eq_refl eq_refl). unfold in_block in Hd. cbn in Hd. lia.
Qed.
