(* ===== verification/PageTable.v ===== *)
(** * Page tables (arch/x86_64/inc/pagetable_arch.h, arch/x86_64/pagetable.cc)

    The four-level tables as nodes of 512 entries in a memory, with the
    source's operations on them. Nodes come from the allocator, a parameter. *)

From S2P Require Import Prelude External Address Heap.

(** ** Entries *)

Definition PTE_PRESENT : Z := 0x1.
Definition PTE_WRITABLE : Z := 0x2.
Definition PTE_USER : Z := 0x4.
Definition PTE_PAGESIZE : Z := 0x80.
Definition PTE_GLOBAL : Z := 0x100.

(** [PagetableLevels]: [PT_LEVEL] = 0 ... [PML4_LEVEL] = 3. *)
Definition PML4_LEVEL : nat := 3.

Definition PAGETABLE_LOWEST_LEVEL (cfg : page_config) : nat :=
  match cfg with SmallPages => 0%nat | LargePages => 1%nat end.

Inductive PagetableType : Type := NORMAL_TYPE | PERSISTENT_TYPE.

Inductive PagetablePermission : Type :=
| PT_NO_ACCESS
| PT_KERNEL_READ
| PT_KERNEL_WRITE
| PT_FORCE_KERNEL_WRITE
| PT_COMPARTMENT_WRITE
| PT_COMPARTMENT_READ.

#[export] Instance PagetablePermission_eq_dec : EqDecision PagetablePermission.
Proof. solve_decision. Defined.

Definition pagetable_intermediate_permissions (is_kernel : bool) : Z :=
  if is_kernel then Z.lor PTE_PRESENT PTE_WRITABLE
  else Z.lor (Z.lor PTE_PRESENT PTE_WRITABLE) PTE_USER.

Definition pagetable_leaf_permissions (is_kernel : bool) (perm : PagetablePermission) : Z :=
  match perm with
  | PT_NO_ACCESS => 0
  | PT_KERNEL_WRITE => Z.lor PTE_PRESENT (if is_kernel then PTE_WRITABLE else PTE_USER)
  | PT_KERNEL_READ => Z.lor PTE_PRESENT (if is_kernel then 0 else PTE_USER)
  | PT_FORCE_KERNEL_WRITE => Z.lor PTE_PRESENT PTE_WRITABLE
  | PT_COMPARTMENT_WRITE => Z.lor (Z.lor PTE_PRESENT PTE_WRITABLE) PTE_USER
  | PT_COMPARTMENT_READ => Z.lor PTE_PRESENT PTE_USER
  end.

Definition pagetable_leaf_pagesize (level : nat) : Z :=
  if Nat.eqb level 0 then 0 else PTE_PAGESIZE.

Definition pagetable_type_permissions (type : PagetableType) : Z :=
  match type with NORMAL_TYPE => 0 | PERSISTENT_TYPE => PTE_GLOBAL end.

Definition PERMISSION_MASK : Z := 0xFFF0000000000FFF.
Definition ADDRESS_MASK : Z := Z.ldiff (2 ^ 64 - 1) PERMISSION_MASK.

Definition set_next_level (is_kernel : bool) (ptr : Z) (type : PagetableType) : Z :=
  Z.lor (Z.lor ptr (pagetable_type_permissions type))
        (pagetable_intermediate_permissions is_kernel).

Definition set_leaf (is_kernel : bool) (addr : Z) (type : PagetableType)
  (perm : PagetablePermission) (level : nat) : Z :=
  Z.lor (Z.lor (Z.lor addr (pagetable_type_permissions type))
               (pagetable_leaf_permissions is_kernel perm))
        (pagetable_leaf_pagesize level).

Definition notnull (entry : Z) : bool := negb (entry =? 0).

Definition is_persistent (entry : Z) : bool :=
  Z.land entry (pagetable_type_permissions PERSISTENT_TYPE) =?
    pagetable_type_permissions PERSISTENT_TYPE.

Definition is_large_mapping (entry : Z) : bool := negb (Z.land entry PTE_PAGESIZE =? 0).

Definition next_level (entry : Z) : Z := Z.land entry ADDRESS_MASK.

Record MapEntry : Type := mkMapEntry { map_range : AddressRange; map_perm : PagetablePermission }.

(** ** Geometry *)

Definition PT_PAGE_SIZE : Z := 4096.

Definition pagetable_entry_count : Z := PT_PAGE_SIZE / 8.

Definition pagetable_entry_coverage_bits (level : nat) : Z := 12 + 9 * Z.of_nat level.

Definition pagetable_entry_coverage (level : nat) : Z :=
  Z.shiftl 1 (pagetable_entry_coverage_bits level).

Definition pagetable_index (address : Z) (level : nat) : Z :=
  Z.land (Z.shiftr address (pagetable_entry_coverage_bits level)) (pagetable_entry_count - 1).

(** ** Nodes *)

(** Every page-table page by its address; an entry outside all of them reads as
    0 and is not written. *)
Notation "'pt_mem'" := (gmap Z (list Z)) (only parsing).

Definition pt_read (m : pt_mem) (root index : Z) : Z :=
  match m !! root with Some n => nth (Z.to_nat index) n 0 | None => 0 end.

Definition pt_write (m : pt_mem) (root index e : Z) : pt_mem :=
  match m !! root with Some n => <[root := <[Z.to_nat index := e]> n]> m | None => m end.

Definition zero_node : list Z := replicate (Z.to_nat pagetable_entry_count) 0.

(** The allocator of zeroed 4 kB pages: [early_alloc_zero] for the kernel table
    and the thread's allocator for compartments. *)
Class NodeAllocator : Type := alloc_node_page : bool -> pt_mem -> option Z.

(** A page is fresh, page-aligned, not null and inside the physical address
    space that an entry can hold. *)
Class NodeAllocatorOk `{NodeAllocator} : Prop := {
  alloc_fresh : forall k m p, alloc_node_page k m = Some p -> m !! p = None;
  alloc_aligned : forall k m p, alloc_node_page k m = Some p -> (4096 | p) /\ 0 < p < 2 ^ 52;
}.

Section PageTable.
Context `{SnmallocBits, NodeAllocator} (cfg : page_config).

Definition pagetable_next_entry_base (address : Z) (level : nat) : Z :=
  align_up (u64 (address + 1)) (pagetable_entry_coverage level).

(** Without memory the source goes on with a null node; the run ends here. *)
Definition alloc_pagetable_node (is_kernel : bool) (m : pt_mem) : outcome (Z * pt_mem) :=
  match alloc_node_page is_kernel m with
  | Some p => Done (p, <[p := zero_node]> m)
  | None => Kabort
  end.

(** Templates on the level become recursion on the distance to the lowest
    level. *)
Definition level_of (depth : nat) : nat := (PAGETABLE_LOWEST_LEVEL cfg + depth)%nat.

Definition root_depth : nat := (PML4_LEVEL - PAGETABLE_LOWEST_LEVEL cfg)%nat.

(** The [for] loops advance from entry to entry of the level. *)
Definition entry_loop (level : nat) (base size : Z) (body : Z -> pt_mem -> outcome pt_mem)
  (m : pt_mem) : outcome pt_mem :=
  let* st := while_loop (3 + Z.to_nat (size / pagetable_entry_coverage level))
    (fun st => fst st <? u64 (base + size))
    (fun st => let* m' := body (fst st) (snd st) in
               Done (pagetable_next_entry_base (fst st) level, m'))
    (base, m) in
  Done (snd st).

Fixpoint add_to_pagetable (depth : nat) (is_kernel : bool) (root base size : Z)
  (perm : PagetablePermission) (type : PagetableType) (m : pt_mem) : outcome pt_mem :=
  let level := level_of depth in
  entry_loop level base size (fun addr m =>
    let index := pagetable_index addr level in
    match depth with
    | S depth' =>
        let next_root := next_level (pt_read m root index) in
        let* r := (if next_root =? 0
                   then let* r := alloc_pagetable_node is_kernel m in
                        let '(p, m1) := r in
                        Done (p, pt_write m1 root index (set_next_level is_kernel p type))
                   else Done (next_root, m)) in
        let '(next_root, m1) := r in
        let next_size :=
          u64 (Z.min (u64 (base + size)) (pagetable_next_entry_base addr level) - addr) in
        add_to_pagetable depth' is_kernel next_root addr next_size perm NORMAL_TYPE m1
    | O => Done (pt_write m root index (set_leaf is_kernel addr type perm level))
    end) m.

Fixpoint remove_from_pagetable (depth : nat) (root base size : Z) (m : pt_mem) : outcome pt_mem :=
  let level := level_of depth in
  entry_loop level base size (fun addr m =>
    let index := pagetable_index addr level in
    match depth with
    | S depth' =>
        let next_root := next_level (pt_read m root index) in
        if next_root =? 0 then Done m
        else
          let next_size :=
            u64 (Z.min (u64 (base + size)) (pagetable_next_entry_base addr level) - addr) in
          remove_from_pagetable depth' next_root addr next_size m
    | O => Done (pt_write m root index 0)
    end) m.

Fixpoint get_pagetable_entry (depth : nat) (root base : Z) (m : pt_mem) : Z :=
  if root =? 0 then 0
  else
    let entry := pt_read m root (pagetable_index base (level_of depth)) in
    match depth with
    | O => entry
    | S depth' =>
        if is_large_mapping (pt_read m root 0) then entry
        else get_pagetable_entry depth' (next_level entry) base m
    end.

(** [free] of a node. *)
Definition pt_free (root : Z) (m : pt_mem) : pt_mem := delete root m.

Definition entry_indices : list Z := map Z.of_nat (seq 0 (Z.to_nat pagetable_entry_count)).

Fixpoint deallocate_pagetable (depth : nat) (root : Z) (m : pt_mem) : pt_mem :=
  match depth with
  | O => pt_free root m
  | S depth' =>
      pt_free root (fold_left (fun m index =>
        let entry := pt_read m root index in
        if is_persistent entry then m
        else
          let next_root := next_level entry in
          if next_root =? 0 then m else deallocate_pagetable depth' next_root m)
        entry_indices m)
  end.

(** [copy_to_pagetable]: [distance] is the number of levels above the source's. *)
Fixpoint copy_to_pagetable (distance : nat) (source_level : nat) (is_kernel : bool)
  (root addr source : Z) (path_type : PagetableType) (m : pt_mem) : outcome pt_mem :=
  match distance with
  | S distance' =>
      let index := pagetable_index addr (source_level + distance) in
      let next_root := next_level (pt_read m root index) in
      let* r := (if next_root =? 0
                 then let* r := alloc_pagetable_node is_kernel m in
                      let '(p, m1) := r in
                      Done (p, pt_write m1 root index (set_next_level is_kernel p path_type))
                 else Done (next_root, m)) in
      let '(next_root, m1) := r in
      copy_to_pagetable distance' source_level is_kernel next_root addr source NORMAL_TYPE m1
  | O =>
      Done (fold_left (fun m index =>
        if notnull (pt_read m source index) then pt_write m root index (pt_read m source index)
        else m) entry_indices m)
  end.

(** ** The kernel's and the compartments' tables *)

Definition misaligned (base size : Z) : bool :=
  negb (base mod PAGE_SIZE cfg =? 0) || negb (size mod PAGE_SIZE cfg =? 0).

Definition add_to_kernel_pagetable (kernel_pagetable base size : Z) (perm : PagetablePermission)
  (m : pt_mem) : outcome pt_mem :=
  if misaligned base size then Kabort
  else add_to_pagetable root_depth true kernel_pagetable base size perm NORMAL_TYPE m.

Definition add_to_compartment_pagetable (root base size : Z) (perm : PagetablePermission)
  (m : pt_mem) : outcome pt_mem :=
  if misaligned base size then Kabort
  else add_to_pagetable root_depth false root base size perm NORMAL_TYPE m.

Definition remove_from_compartment_pagetable (kernel_pagetable root base size : Z) (m : pt_mem)
  : outcome pt_mem :=
  if misaligned base size then Kabort
  else if root =? kernel_pagetable then Kabort
  else remove_from_pagetable root_depth root base size m.

Definition get_kernel_pagetable_entry (kernel_pagetable base : Z) (m : pt_mem) : Z :=
  get_pagetable_entry root_depth kernel_pagetable base m.

Definition kernel_initializer_from_map (kernel_pagetable : Z) (l : list MapEntry) (m : pt_mem)
  : outcome pt_mem :=
  ofold (fun m entry => add_to_kernel_pagetable kernel_pagetable (start (map_range entry))
           (u64 (end_ (map_range entry) - start (map_range entry))) (map_perm entry) m) l m.

(** The table built by [create_kernel_page_table]. *)
Definition predefined_map (elf_start elf_writable_start heap_start : Z) : list MapEntry :=
  [mkMapEntry (range_of_bounds 0 elf_start) PT_NO_ACCESS;
   mkMapEntry (range_of_bounds elf_start elf_writable_start) PT_KERNEL_READ;
   mkMapEntry (align_up_end (PAGE_SIZE cfg) (range_of_bounds elf_writable_start heap_start))
     PT_KERNEL_WRITE].

Definition create_kernel_page_table (elf_start elf_writable_start heap_start : Z)
  (local_apic_mapping : Z) (io_shared_range : span) (hr : HeapRanges)
  (interrupt_stack_map : list MapEntry) (m : pt_mem) : outcome (Z * pt_mem) :=
  let* r := alloc_pagetable_node true m in
  let '(kernel_pagetable, m0) := r in
  let add := add_to_kernel_pagetable kernel_pagetable in
  let* m1 := kernel_initializer_from_map kernel_pagetable
               (predefined_map elf_start elf_writable_start heap_start) m0 in
  let* m2 := (if negb (local_apic_mapping =? 0)
              then add local_apic_mapping (PAGE_SIZE cfg) PT_KERNEL_WRITE m1 else Done m1) in
  let shared_address_range := range_of_span io_shared_range in
  let* m3 := add (start shared_address_range) (range_size shared_address_range)
               PT_KERNEL_WRITE m2 in
  let first_heap_range := align_up_start (PAGE_SIZE cfg) (range_of_span (first hr)) in
  let* m4 := (if negb (range_empty first_heap_range)
              then add (start first_heap_range) (range_size first_heap_range) PT_KERNEL_WRITE m3
              else Done m3) in
  let* m5 := ofold (fun m r => add (span_data r) (span_size r) PT_KERNEL_WRITE m)
               (additional hr) m4 in
  let* m6 := kernel_initializer_from_map kernel_pagetable interrupt_stack_map m5 in
  Done (kernel_pagetable, m6).

Definition compartment_initializer_from_map (root : Z) (l : list MapEntry) (m : pt_mem)
  : outcome pt_mem :=
  ofold (fun m entry => add_to_pagetable root_depth false root (start (map_range entry))
           (u64 (end_ (map_range entry) - start (map_range entry))) (map_perm entry)
           PERSISTENT_TYPE m) l m.

Definition create_compartment_pagetable (predefined interrupt_stack_map : list MapEntry)
  (m : pt_mem) : outcome (Z * pt_mem) :=
  let* r := alloc_pagetable_node false m in
  let '(root, m0) := r in
  let* m1 := compartment_initializer_from_map root predefined m0 in
  let* m2 := compartment_initializer_from_map root interrupt_stack_map m1 in
  Done (root, m2).

Definition deallocate_compartment_pagetable (root : Z) (m : pt_mem) : pt_mem :=
  deallocate_pagetable root_depth root m.

End PageTable.
