(* ===== verification/PageTableWf.v ===== *)
(** * Well-formed page tables

    The geometry of the tables, the invariant of the node memory, the reference
    page walk and the rules for the loops of [PageTable]. *)

From S2P Require Import Prelude External Address Heap PageTable.

Notation "'cov'" := pagetable_entry_coverage.

(** ** Geometry *)

Lemma cov_eq level : cov level = 2 ^ (12 + 9 * Z.of_nat level).
Proof.
  unfold pagetable_entry_coverage, pagetable_entry_coverage_bits. rewrite Z.shiftl_mul_pow2 by lia. lia.
Qed.

Lemma cov_S level : cov (S level) = 512 * cov level.
Proof.
  rewrite !cov_eq. replace (12 + 9 * Z.of_nat (S level)) with (9 + (12 + 9 * Z.of_nat level)) by lia.
  rewrite Z.pow_add_r by lia. done.
Qed.

Lemma cov_pos level : 4096 <= cov level.
Proof. induction level as [|l IH]; [by rewrite cov_eq|]. rewrite cov_S. lia. Qed.

Lemma cov_mono l1 l2 : (l1 <= l2)%nat -> cov l1 <= cov l2.
Proof. induction 1; [lia|]. rewrite cov_S. pose proof (cov_pos m). lia. Qed.

Lemma cov_root level : (level <= PML4_LEVEL)%nat -> cov level <= 2 ^ 39.
Proof. intros. transitivity (cov PML4_LEVEL); [by apply cov_mono|by rewrite cov_eq]. Qed.

Lemma cov_lowest cfg : cov (PAGETABLE_LOWEST_LEVEL cfg) = PAGE_SIZE cfg.
Proof. by destruct cfg. Qed.

Lemma cov_divide l1 l2 : (l1 <= l2)%nat -> (cov l1 | cov l2).
Proof.
  induction 1; [apply Z.divide_refl|]. rewrite cov_S. by apply Z.divide_mul_r.
Qed.

(** The block of addresses under a node of the level. *)
Definition block (va : Z) (level : nat) : Z := va / cov (S level).

Lemma index_eq va level : pagetable_index va level = (va / cov level) mod 512.
Proof.
  unfold pagetable_index. change (pagetable_entry_count - 1) with (2 ^ 9 - 1).
  rewrite land_ones_mod, Z.shiftr_div_pow2, cov_eq by
    (unfold pagetable_entry_coverage_bits; lia). done.
Qed.

Lemma index_range va level : 0 <= pagetable_index va level < 512.
Proof. rewrite index_eq. apply Z.mod_pos_bound. lia. Qed.

Lemma block_index va level : va / cov level = block va level * 512 + pagetable_index va level.
Proof.
  unfold block. rewrite index_eq, cov_S. pose proof (cov_pos level).
  rewrite (Z.mul_comm 512), <- Z.div_div by lia. Z.div_mod_to_equations. lia.
Qed.

(** A child's block is its parent's extended by the index. *)
Lemma block_child va level : block va level = block va (S level) * 512 + pagetable_index va (S level).
Proof. unfold block at 1. apply block_index. Qed.

Lemma block_mono va1 va2 l : va1 / cov l = va2 / cov l -> block va1 l = block va2 l.
Proof.
  unfold block. rewrite cov_S. pose proof (cov_pos l). intros He.
  rewrite (Z.mul_comm 512), <- !Z.div_div by lia. by rewrite He.
Qed.

Section Next.
Context `{SnmallocBits, !SnmallocBitsOk}.

(** The end of the entry that covers an address. *)
Definition entry_end (a : Z) (level : nat) : Z := (a / cov level + 1) * cov level.

Lemma next_entry_base_eq a level :
  0 <= a < 2 ^ 48 -> (level <= PML4_LEVEL)%nat ->
  pagetable_next_entry_base a level = entry_end a level.
Proof.
  intros Ha Hl. unfold PML4_LEVEL in Hl. pose proof (cov_pos level). pose proof (cov_root level Hl).
  unfold pagetable_next_entry_base, entry_end. rewrite u64_small by (unfold is_u64; lia).
  rewrite align_up_eq; [|exists (12 + 9 * Z.of_nat level); split; [lia|apply cov_eq]|lia|lia].
  replace (a + 1 + (cov level - 1)) with (a + 1 * cov level) by lia.
  by rewrite Z.div_add by lia.
Qed.

Lemma entry_end_bounds a level : a < entry_end a level <= a + cov level.
Proof.
  unfold entry_end. pose proof (cov_pos level). pose proof (Z.div_mod a (cov level) ltac:(lia)).
  pose proof (Z.mod_pos_bound a (cov level) ltac:(lia)). lia.
Qed.

Lemma entry_end_div a level : entry_end a level / cov level = a / cov level + 1.
Proof. unfold entry_end. pose proof (cov_pos level). by rewrite Z.div_mul by lia. Qed.

Lemma same_entry a va level : a <= va < entry_end a level -> va / cov level = a / cov level.
Proof.
  unfold entry_end. pose proof (cov_pos level). intros Hv. symmetry.
  pose proof (Z.div_mod a (cov level) ltac:(lia)).
  pose proof (Z.mod_pos_bound a (cov level) ltac:(lia)).
  apply Z.div_unique with (va - a / cov level * cov level); lia.
Qed.

(** Invariant rule for the entry loop: an iteration handles the addresses up to
    the end of the range or of the entry. *)
Lemma entry_loop_rule level base size body (I : Z -> pt_mem -> Prop) m m' :
  0 <= base -> 0 <= size -> base + size <= 2 ^ 48 -> (level <= PML4_LEVEL)%nat ->
  (forall addr m m1, base <= addr < base + size -> I addr m -> body addr m = Done m1 ->
     I (Z.min (base + size) (entry_end addr level)) m1) ->
  I base m -> entry_loop level base size body m = Done m' -> I (base + size) m'.
Proof.
  intros Hb Hs Hhi Hl Hbody Hi Hloop. unfold entry_loop in Hloop.
  apply obind_done in Hloop as ([a1 m1] & Hw & [= <-]).
  rewrite u64_small in Hw by (unfold is_u64; lia).
  apply (while_inv _ _ (fun st => base <= fst st /\ I (Z.min (base + size) (fst st)) (snd st))) in Hw
    as [[Hge Hi1] Hc]; cbn in *.
  - bool_to_prop. by rewrite Z.min_l in Hi1 by lia.
  - intros [a0 m0] [a2 m2] [Hge0 Hi0] Hc Hx. cbn in *. bool_to_prop. inv_done. cbn.
    rewrite next_entry_base_eq by (done || lia). pose proof (entry_end_bounds a0 level).
    split; [lia|]. rewrite Z.min_r in Hi0 by lia. by eapply Hbody.
  - split; [lia|]. by rewrite Z.min_r by lia.
Qed.

Lemma entry_loop_no_hang level base size body (I : Z -> pt_mem -> Prop) m :
  0 <= base -> 0 <= size -> base + size <= 2 ^ 48 -> (level <= PML4_LEVEL)%nat ->
  (forall addr m, base <= addr < base + size -> I addr m -> body addr m <> Hang) ->
  (forall addr m m1, base <= addr < base + size -> I addr m -> body addr m = Done m1 ->
     I (Z.min (base + size) (entry_end addr level)) m1) ->
  I base m -> entry_loop level base size body m <> Hang.
Proof.
  intros Hb Hs Hhi Hl Hh Hbody Hi. unfold entry_loop.
  destruct (while_loop _ _ _ _) eqn:Hw; cbn; try done. exfalso. revert Hw.
  rewrite u64_small by (unfold is_u64; lia). pose proof (cov_pos level) as Hc.
  apply (while_total _ _ (fun st => base <= fst st /\ I (Z.min (base + size) (fst st)) (snd st))
    (fun st => Z.to_nat ((base + size - 1) / cov level + 1 - fst st / cov level))); cbn.
  - intros [a0 m0] [Hge Hi0] Hc0. cbn in *. bool_to_prop. rewrite Z.min_r in Hi0 by lia.
    destruct (body a0 m0) eqn:Hx; cbn; try done. exfalso. eapply Hh; [|exact Hi0|exact Hx]. lia.
  - intros [a0 m0] [a2 m2] [Hge0 Hi0] Hc0 Hx. cbn in *. bool_to_prop. inv_done. cbn.
    rewrite next_entry_base_eq by (done || lia). pose proof (entry_end_bounds a0 level).
    rewrite Z.min_r in Hi0 by lia.
    split; [split; [lia|by eapply Hbody]|]. rewrite entry_end_div.
    assert (a0 / cov level <= (base + size - 1) / cov level) by (apply Z.div_le_mono; lia). lia.
  - split; [lia|]. by rewrite Z.min_r by lia.
  - assert ((base + size - 1) / cov level - base / cov level <= size / cov level + 1).
    { Z.div_mod_to_equations. nia. }
    assert (0 <= size / cov level) by (apply Z.div_pos; lia). lia.
Qed.

End Next.

(** ** Entries *)

Lemma land_address_mask e : next_level e = (e / 4096) mod 2 ^ 40 * 4096.
Proof.
  unfold next_level. change ADDRESS_MASK with (Z.shiftl (Z.ones 40) 12).
  rewrite <- Z.land_ones by lia. change 4096 with (2 ^ 12).
  rewrite <- Z.shiftr_div_pow2, <- Z.shiftl_mul_pow2 by lia.
  apply Z.bits_inj'. intros n Hn. rewrite Z.land_spec, !Z.shiftl_spec by lia.
  destruct (Z.lt_ge_cases n 12).
  - rewrite !(Z.testbit_neg_r _ (n - 12)) by lia. apply andb_false_r.
  - rewrite Z.land_spec, Z.shiftr_spec by lia. by replace (n - 12 + 12) with n by lia.
Qed.

(** The flag bits of an entry, below the address. *)
Definition next_flags (is_kernel : bool) (type : PagetableType) : Z :=
  Z.lor (pagetable_type_permissions type) (pagetable_intermediate_permissions is_kernel).
Definition leaf_flags (is_kernel : bool) (type : PagetableType) (perm : PagetablePermission)
  (level : nat) : Z :=
  Z.lor (Z.lor (pagetable_type_permissions type) (pagetable_leaf_permissions is_kernel perm))
        (pagetable_leaf_pagesize level).

Lemma next_flags_range k t : 0 < next_flags k t < 4096.
Proof. by destruct k, t. Qed.

Lemma leaf_flags_range k t perm level : 0 <= leaf_flags k t perm level < 4096.
Proof.
  unfold leaf_flags, pagetable_leaf_pagesize. by destruct (Nat.eqb level 0), k, t, perm.
Qed.

Lemma lor_aligned p f : (4096 | p) -> 0 <= f < 4096 -> Z.lor p f = p + f.
Proof.
  intros [q ->] Hf. rewrite Z.lor_comm. change 4096 with (2 ^ 12).
  rewrite <- Z.shiftl_mul_pow2, lor_shiftl_add, Z.shiftl_mul_pow2 by lia. lia.
Qed.

Lemma set_next_level_eq k p t : (4096 | p) -> set_next_level k p t = p + next_flags k t.
Proof.
  intros Hp. unfold set_next_level. rewrite <- Z.lor_assoc. apply lor_aligned; [done|].
  pose proof (next_flags_range k t). unfold next_flags in *. lia.
Qed.

Lemma set_leaf_eq k a t perm level :
  (4096 | a) -> set_leaf k a t perm level = a + leaf_flags k t perm level.
Proof.
  intros Ha. unfold set_leaf. rewrite <- !Z.lor_assoc, Z.lor_assoc.
  rewrite <- (lor_aligned a) by (done || apply leaf_flags_range).
  unfold leaf_flags. by rewrite !Z.lor_assoc.
Qed.

Lemma next_level_add p f : (4096 | p) -> 0 <= p < 2 ^ 52 -> 0 <= f < 4096 -> next_level (p + f) = p.
Proof.
  intros [q ->] Hp Hf. rewrite land_address_mask. Z.div_mod_to_equations. lia.
Qed.

Lemma next_level_0 : next_level 0 = 0.
Proof. done. Qed.

Lemma testbit_flags p f n : (4096 | p) -> 0 <= n < 12 -> Z.testbit (p + f) n = Z.testbit f n.
Proof.
  intros [q ->] Hn. rewrite <- (Z.mod_pow2_bits_low (_ + f) 12), <- (Z.mod_pow2_bits_low f 12) by lia.
  f_equal. change (2 ^ 12) with 4096. rewrite Z.add_comm. by rewrite Z.mod_add by lia.
Qed.

(** ** Reading and writing nodes *)

Lemma pt_read_write m r i e r' i' n :
  m !! r = Some n -> length n = 512%nat -> 0 <= i < 512 -> 0 <= i' ->
  pt_read (pt_write m r i e) r' i' =
    if decide (r' = r /\ i' = i) then e else pt_read m r' i'.
Proof.
  intros Hm Hn Hi Hi'. unfold pt_write, pt_read. rewrite Hm.
  destruct (decide (r' = r)) as [->|Hr].
  - rewrite lookup_insert_eq, Hm, !nth_lookup. case_decide as Hd.
    + destruct Hd as [_ ->]. by rewrite list_lookup_insert_eq by lia.
    + rewrite list_lookup_insert_ne; [done|]. intros Heq. apply Hd. split; [done|lia].
  - rewrite lookup_insert_ne by done. case_decide as Hd; [by destruct Hd|done].
Qed.

Lemma pt_read_zero m c q i : pt_read (<[c := zero_node]> m) q i = if decide (q = c) then 0 else pt_read m q i.
Proof.
  unfold pt_read. case_decide as Hq.
  - subst. rewrite lookup_insert_eq. unfold zero_node. apply nth_repeat || rewrite nth_lookup.
    destruct (_ !! _) eqn:El; [|done]. by apply lookup_replicate in El as [-> _].
  - by rewrite lookup_insert_ne by done.
Qed.

Lemma pt_write_dom m r i e p : is_Some (pt_write m r i e !! p) <-> is_Some (m !! p).
Proof.
  unfold pt_write. destruct (m !! r) eqn:Hr; [|done].
  destruct (decide (p = r)) as [->|]; [rewrite lookup_insert_eq, Hr; split; by eauto|].
  by rewrite lookup_insert_ne.
Qed.

Lemma pt_write_length m r i e p n' :
  pt_write m r i e !! p = Some n' -> exists n, m !! p = Some n /\ length n' = length n.
Proof.
  unfold pt_write. destruct (m !! r) as [n|] eqn:Hr; [|by eauto].
  destruct (decide (p = r)) as [->|].
  - rewrite lookup_insert_eq. intros [= <-]. exists n. split; [done|]. apply length_insert.
  - rewrite lookup_insert_ne by done. by eauto.
Qed.

(** ** The invariant

    A ghost label gives each node its table, its level and the block of
    addresses under it. *)

Record label : Type := mkLabel {
  l_root : Z;
  l_kernel : bool;
  l_level : nat;
  l_block : Z;
}.

#[export] Instance label_eq_dec : EqDecision label.
Proof. solve_decision. Defined.

Definition child_label (x : label) (i : Z) : label :=
  mkLabel (l_root x) (l_kernel x) (pred (l_level x)) (l_block x * 512 + i).

Definition root_label (root : Z) (is_kernel : bool) : label := mkLabel root is_kernel PML4_LEVEL 0.

Record pt_wf (cfg : page_config) (m : pt_mem) (lab : gmap Z label) : Prop := {
  wf_dom : forall p, is_Some (lab !! p) -> is_Some (m !! p);
  wf_node : forall p n, m !! p = Some n -> (4096 | p) /\ 0 < p < 2 ^ 52 /\ length n = 512%nat;
  wf_level : forall p x, lab !! p = Some x ->
    (PAGETABLE_LOWEST_LEVEL cfg <= l_level x <= PML4_LEVEL)%nat;
  wf_root : forall p x, lab !! p = Some x -> l_level x = PML4_LEVEL -> l_root x = p /\ l_block x = 0;
  wf_inj : forall p q x, lab !! p = Some x -> lab !! q = Some x -> p = q;
  wf_edge : forall p x i, lab !! p = Some x -> (PAGETABLE_LOWEST_LEVEL cfg < l_level x)%nat ->
    0 <= i < 512 ->
    pt_read m p i = 0 \/
    exists c t, pt_read m p i = set_next_level (l_kernel x) c t /\ lab !! c = Some (child_label x i);
  wf_parent : forall c y, lab !! c = Some y -> (l_level y < PML4_LEVEL)%nat ->
    exists p x i, lab !! p = Some x /\ 0 <= i < 512 /\ y = child_label x i /\
      l_level x = S (l_level y) /\ next_level (pt_read m p i) = c;
  wf_leaf : forall p x i, lab !! p = Some x -> l_level x = PAGETABLE_LOWEST_LEVEL cfg -> 0 <= i < 512 ->
    Z.testbit (pt_read m p i) 8 = false;
}.

(** The page walk: the entry that maps an address, 0 where there is none. *)
Fixpoint walk (cfg : page_config) (depth : nat) (m : pt_mem) (root va : Z) : Z :=
  let e := pt_read m root (pagetable_index va (level_of cfg depth)) in
  match depth with
  | O => e
  | S depth' => if next_level e =? 0 then 0 else walk cfg depth' m (next_level e) va
  end.

Section Wf.
Context (cfg : page_config) (m : pt_mem) (lab : gmap Z label) (Hwf : pt_wf cfg m lab).

Lemma wf_some p x : lab !! p = Some x -> exists n, m !! p = Some n /\
  (4096 | p) /\ 0 < p < 2 ^ 52 /\ length n = 512%nat.
Proof.
  intros Hp. destruct (wf_dom _ _ _ Hwf p ltac:(by eauto)) as [n Hn].
  exists n. split; [done|]. by apply (wf_node _ _ _ Hwf).
Qed.

(** The pointer in an entry above the lowest level. *)
Lemma wf_next p x i :
  lab !! p = Some x -> (PAGETABLE_LOWEST_LEVEL cfg < l_level x)%nat -> 0 <= i < 512 ->
  (pt_read m p i = 0 /\ next_level (pt_read m p i) = 0) \/
  (next_level (pt_read m p i) <> 0 /\
   lab !! next_level (pt_read m p i) = Some (child_label x i) /\
   exists t, pt_read m p i = set_next_level (l_kernel x) (next_level (pt_read m p i)) t).
Proof.
  intros Hp Hl Hi. destruct (wf_edge _ _ _ Hwf p x i Hp Hl Hi) as [->|(c & t & -> & Hc)].
  - left. by rewrite next_level_0.
  - right. destruct (wf_some c _ Hc) as (n & _ & Hd & Hr & _).
    rewrite set_next_level_eq, next_level_add by
      (done || lia || (pose proof (next_flags_range (l_kernel x) t); lia)).
    split; [lia|]. split; [done|]. exists t. by rewrite set_next_level_eq.
Qed.

(** Walks only read the nodes over the address. *)
Lemma walk_frame m' depth : forall p x va,
  lab !! p = Some x -> l_level x = level_of cfg depth -> block va (l_level x) = l_block x ->
  (forall q y, lab !! q = Some y -> l_root y = l_root x -> (l_level y <= l_level x)%nat ->
     block va (l_level y) = l_block y -> forall i, 0 <= i < 512 -> pt_read m' q i = pt_read m q i) ->
  walk cfg depth m' p va = walk cfg depth m p va.
Proof.
  induction depth as [|d IH]; intros p x va Hp Hl Hb Hf; cbn [walk].
  - apply (Hf p x); auto. apply index_range.
  - rewrite (Hf p x) by (auto using index_range).
    pose proof (index_range va (level_of cfg (S d))) as Hi.
    destruct (wf_next p x _ Hp ltac:(unfold level_of in *; lia) Hi) as [[_ ->]|(Hn & Hc & _)]; [done|].
    destruct (Z.eqb_spec (next_level (pt_read m p (pagetable_index va (level_of cfg (S d))))) 0); [done|].
    assert (l_level x = S (level_of cfg d)) as HS by (unfold level_of in *; lia).
    apply (IH _ _ va Hc); cbn.
    + by rewrite HS.
    + rewrite HS. cbn. rewrite block_child. rewrite <- Hb, HS.
      unfold level_of. by rewrite Nat.add_succ_r.
    + intros q y Hq Hr Hly. apply (Hf q y Hq Hr). rewrite HS in Hly. cbn in Hly. lia.
Qed.

End Wf.
