(* ===== verification/PageTableOps.v ===== *)
(** * Mapping and unmapping ranges

    The operations of [PageTable] against the reference page walk: what one
    pass over a range changes, and that it changes nothing else. *)

From S2P Require Import Prelude External Address Heap PageTable PageTableWf.

(** A node is touched by an operation on [lo, hi) below the node [x] when it
    belongs to the same table, is not above [x], and lies over the range. *)
Definition touched (x : label) (lo hi : Z) (y : label) : Prop :=
  l_root y = l_root x /\ (l_level y <= l_level x)%nat /\
  exists va, lo <= va < hi /\ block va (l_level y) = l_block y.

Definition in_bounds (lo hi va : Z) : bool := (lo <=? va) && (va <? hi).

(** The effect of an operation that gives the addresses of [lo, hi) the entries
    [f], on the node [p] with label [x] at [depth]. *)
Record upd (cfg : page_config) (depth : nat) (p : Z) (x : label) (f : Z -> Z) (lo hi : Z)
  (m : pt_mem) (lab : gmap Z label) (m' : pt_mem) (lab' : gmap Z label) : Prop := {
  upd_wf : pt_wf cfg m' lab';
  upd_ext : lab ⊆ lab';
  upd_frame : forall q y, lab !! q = Some y -> ~ touched x lo hi y ->
    forall i, 0 <= i < 512 -> pt_read m' q i = pt_read m q i;
  upd_new : forall q y, lab' !! q = Some y -> lab !! q = None -> l_root y = l_root x;
  upd_walk : forall va, block va (l_level x) = l_block x ->
    walk cfg depth m' p va = if in_bounds lo hi va then f va else walk cfg depth m p va;
}.

Lemma in_bounds_spec lo hi va : in_bounds lo hi va = true <-> lo <= va < hi.
Proof. unfold in_bounds. rewrite andb_true_iff, Z.leb_le, Z.ltb_lt. lia. Qed.

Lemma in_bounds_false lo hi va : in_bounds lo hi va = false <-> ~ lo <= va < hi.
Proof. rewrite <- in_bounds_spec. by destruct (in_bounds lo hi va). Qed.

Section Upd.
Context (cfg : page_config).

Lemma upd_refl d p x f lo m lab : pt_wf cfg m lab -> upd cfg d p x f lo lo m lab m lab.
Proof.
  intros Hwf. split; try done; [by intros q y -> |].
  intros va _. destruct (in_bounds lo lo va) eqn:E; [|done]. apply in_bounds_spec in E. lia.
Qed.

Lemma upd_trans d p x f lo mid hi m lab m1 lab1 m2 lab2 :
  lo <= mid <= hi ->
  upd cfg d p x f lo mid m lab m1 lab1 -> upd cfg d p x f mid hi m1 lab1 m2 lab2 ->
  upd cfg d p x f lo hi m lab m2 lab2.
Proof.
  intros Hm [Hw1 He1 Hf1 Hn1 Hk1] [Hw2 He2 Hf2 Hn2 Hk2]. split.
  - done.
  - by etransitivity.
  - intros q y Hq Ht i Hi. rewrite (Hf2 q y), (Hf1 q y); try done.
    + intros (? & ? & va & ? & ?). apply Ht. split_and!; try done. exists va. split; [lia|done].
    + by eapply lookup_weaken.
    + intros (? & ? & va & ? & ?). apply Ht. split_and!; try done. exists va. split; [lia|done].
  - intros q y Hq Hn. destruct (lab1 !! q) as [y1|] eqn:E; [|by eapply Hn2].
    assert (y1 = y) as ->; [|by eapply Hn1].
    apply (lookup_weaken _ _ _ _ E) in He2. congruence.
  - intros va Hva. rewrite Hk2, Hk1 by done.
    destruct (in_bounds mid hi va) eqn:E2, (in_bounds lo mid va) eqn:E1, (in_bounds lo hi va) eqn:E;
      try done; rewrite ?in_bounds_spec, ?in_bounds_false in *; lia.
Qed.

(** An update below the [i]-th entry is an update of the node. *)
Lemma upd_child d p x f lo hi m lab m' lab' :
  let i := pagetable_index lo (level_of cfg (S d)) in
  let c := next_level (pt_read m p i) in
  pt_wf cfg m lab -> lab !! p = Some x -> l_level x = level_of cfg (S d) ->
  block lo (l_level x) = l_block x ->
  (forall va, lo <= va < hi -> va / cov (l_level x) = lo / cov (l_level x)) -> c <> 0 ->
  upd cfg d c (child_label x i) f lo hi m lab m' lab' ->
  upd cfg (S d) p x f lo hi m lab m' lab'.
Proof.
  intros i c Hwf Hp Hl Hlo Hsame Hc [Hw He Hf Hn Hk].
  pose proof (index_range lo (level_of cfg (S d))) as Hi. fold i in Hi.
  assert (l_level x = S (level_of cfg d)) as HS by (unfold level_of in *; lia).
  destruct (wf_next _ _ _ Hwf p x i Hp ltac:(unfold level_of in *; lia) Hi) as [[_ ?]|(_ & Hlc & _)];
    [done|]. fold c in Hlc.
  assert (forall j, 0 <= j < 512 -> pt_read m' p j = pt_read m p j) as Hpp.
  { intros j Hj. apply (Hf p x Hp); [|done]. intros (_ & Hle & _). cbn in Hle. lia. }
  split; try done.
  - intros q y Hq Ht. apply (Hf q y Hq). intros (Hr & Hle & va & Hva & Hb). apply Ht.
    cbn in Hr, Hle. split_and!; [done|lia|]. by exists va.
  - intros va Hva. cbn [walk]. pose proof (index_range va (level_of cfg (S d))) as Hj.
    rewrite Hpp by done. rewrite <- Hl.
    destruct (decide (pagetable_index va (l_level x) = i)) as [Heq|Hne].
    + rewrite Heq. fold c. destruct (Z.eqb_spec c 0); [done|]. apply Hk. cbn.
      rewrite HS. cbn. rewrite block_child, <- HS, Hva. congruence.
    + assert (in_bounds lo hi va = false) as ->.
      { apply in_bounds_false. intros Hin. apply Hne. unfold i. rewrite <- Hl, !index_eq.
        by rewrite Hsame. }
      rewrite <- Hl in Hj.
      destruct (wf_next _ _ _ Hwf p x _ Hp ltac:(unfold level_of in *; lia) Hj)
        as [[_ ->]|(Hnz & Hcj & _)]; [done|].
      destruct (Z.eqb_spec (next_level (pt_read m p (pagetable_index va (l_level x)))) 0); [done|].
      apply (walk_frame _ _ _ Hwf m' d _ _ va Hcj); cbn; [by rewrite HS| |].
      { rewrite HS. cbn. rewrite block_child, <- HS, Hva. done. }
      intros q y Hq Hr Hle Hb. apply (Hf q y Hq). intros (_ & _ & va' & Hva' & Hb').
      apply Hne. unfold i. rewrite <- Hl. rewrite !index_eq, <- (Hsame va' Hva').
      f_equal. rewrite HS in Hle |- *. cbn in Hle.
      clear -Hb Hb' Hle. change (va / cov (S (level_of cfg d))) with (block va (level_of cfg d)).
      change (va' / cov (S (level_of cfg d))) with (block va' (level_of cfg d)).
      rewrite <- Hb in Hb'. induction Hle as [|k _ IH]; [done|].
      unfold block in *. by apply block_mono.
Qed.

(** Writing a leaf entry. *)
Lemma wf_write_low p x i e m lab :
  pt_wf cfg m lab -> lab !! p = Some x -> l_level x = PAGETABLE_LOWEST_LEVEL cfg -> 0 <= i < 512 ->
  Z.testbit e 8 = false -> pt_wf cfg (pt_write m p i e) lab.
Proof.
  intros Hwf Hp Hl Hi Hg. destruct (wf_some _ _ _ Hwf p x Hp) as (n & Hn & _ & _ & Hlen).
  pose proof Hwf as [Hd Hno Hlv Hr Hin He Hpa Hlf]. split; try done.
  - intros q. rewrite pt_write_dom. apply Hd.
  - intros q n' Hq. apply pt_write_length in Hq as (n0 & Hn0 & ->). by apply Hno.
  - intros q y j Hq Hlq Hj. rewrite (pt_read_write _ _ _ _ _ _ n) by (done || lia).
    case_decide as Hd0; [|by apply He]. destruct Hd0 as [-> ->].
    assert (y = x) as -> by congruence. lia.
  - intros c y Hc Hly. destruct (Hpa c y Hc Hly) as (q & z & j & Hq & Hj & Hy & Hlz & Hnx).
    exists q, z, j. split_and!; try done; try lia. rewrite (pt_read_write _ _ _ _ _ _ n) by (done || lia).
    case_decide as Hd0; [|done]. destruct Hd0 as [-> ->].
    assert (z = x) as -> by congruence. pose proof (Hlv c y Hc). lia.
  - intros q y j Hq Hlq Hj. rewrite (pt_read_write _ _ _ _ _ _ n) by (done || lia).
    case_decide; [done|by eapply Hlf].
Qed.

Lemma upd_leaf p x f e lo m lab :
  let i := pagetable_index lo (level_of cfg 0) in
  pt_wf cfg m lab -> lab !! p = Some x -> l_level x = level_of cfg 0 ->
  (cov (l_level x) | lo) -> block lo (l_level x) = l_block x ->
  (forall va, lo <= va < entry_end lo (l_level x) -> f va = e) -> Z.testbit e 8 = false ->
  upd cfg 0 p x f lo (entry_end lo (l_level x)) m lab (pt_write m p i e) lab.
Proof.
  intros i Hwf Hp Hl [q Hq] Hlo Hf Hg.
  pose proof (index_range lo (level_of cfg 0)) as Hi. fold i in Hi.
  destruct (wf_some _ _ _ Hwf p x Hp) as (n & Hn & _ & _ & Hlen).
  assert (l_level x = PAGETABLE_LOWEST_LEVEL cfg) as Hlow by (rewrite Hl; unfold level_of; lia).
  pose proof (cov_pos (l_level x)). pose proof (entry_end_bounds lo (l_level x)).
  split; try done.
  - by apply (wf_write_low p x).
  - intros r y Hr Ht j Hj. rewrite (pt_read_write _ _ _ _ _ _ n) by (done || lia).
    case_decide as Hd; [|done]. destruct Hd as [-> ->]. exfalso. apply Ht.
    assert (y = x) as -> by congruence. split_and!; try done. exists lo. split; [lia|done].
  - intros r y ->. done.
  - intros va Hva. cbn [walk]. rewrite <- Hl in *.
    rewrite (pt_read_write _ _ _ _ _ _ n) by (done || apply index_range).
    assert (in_bounds lo (entry_end lo (l_level x)) va = true <->
            pagetable_index va (l_level x) = i) as Hiff.
    { rewrite in_bounds_spec. split.
      - intros Hin. unfold i. rewrite <- Hl, !index_eq. by rewrite (same_entry lo va).
      - intros Hix. assert (va / cov (l_level x) = lo / cov (l_level x)) as Hdiv.
        { rewrite !block_index, Hva, Hlo. unfold i in Hix. rewrite <- Hl in Hix. lia. }
        unfold entry_end. rewrite Hq, Z.div_mul in * by lia.
        pose proof (Z.div_mod va (cov (l_level x)) ltac:(lia)).
        pose proof (Z.mod_pos_bound va (cov (l_level x)) ltac:(lia)). lia. }
    case_decide as Hd.
    + destruct Hd as [_ Hd]. rewrite (proj2 Hiff Hd). symmetry. apply Hf, in_bounds_spec, Hiff, Hd.
    + destruct (in_bounds _ _ _) eqn:E; [|done]. exfalso. apply Hd. split; [done|]. by apply Hiff.
Qed.

(** A node without entries maps nothing. *)
Lemma walk_zero d m p va : (forall j, 0 <= j < 512 -> pt_read m p j = 0) -> walk cfg d m p va = 0.
Proof.
  intros Hz. destruct d; cbn [walk]; rewrite Hz by apply index_range; done.
Qed.

End Upd.

(** ** Linking a new node *)

Section Alloc.
Context `{NodeAllocator, !NodeAllocatorOk} (cfg : page_config).
Context (m : pt_mem) (lab : gmap Z label) (Hwf : pt_wf cfg m lab).
Context (p : Z) (x : label) (i : Z) (c : Z) (t : PagetableType).
Context (Hp : lab !! p = Some x) (Hl : (PAGETABLE_LOWEST_LEVEL cfg < l_level x)%nat).
Context (Hi : 0 <= i < 512) (Hnull : next_level (pt_read m p i) = 0).
Context (Hc : alloc_node_page (l_kernel x) m = Some c).

Let m1 := pt_write (<[c := zero_node]> m) p i (set_next_level (l_kernel x) c t).
Let lab1 := <[c := child_label x i]> lab.

Lemma alloc_not_labelled : lab !! c = None.
Proof.
  apply eq_None_not_Some. intros Hs%(wf_dom _ _ _ Hwf). revert Hs.
  rewrite (alloc_fresh _ _ _ Hc). by intros [? ?].
Qed.

Lemma alloc_ne : p <> c.
Proof. intros ->. pose proof alloc_not_labelled. congruence. Qed.

Lemma alloc_read q j : 0 <= j -> pt_read m1 q j =
  if decide (q = p /\ j = i) then set_next_level (l_kernel x) c t
  else if decide (q = c) then 0 else pt_read m q j.
Proof.
  intros Hj. destruct (wf_some _ _ _ Hwf p x Hp) as (n & Hn & _ & _ & Hlen). unfold m1.
  rewrite (pt_read_write _ _ _ _ _ _ n); [|rewrite lookup_insert_ne by (intros ?; by apply alloc_ne)| | |];
    try done; try lia.
  case_decide; [done|]. apply pt_read_zero.
Qed.

Lemma alloc_next : next_level (set_next_level (l_kernel x) c t) = c.
Proof.
  destruct (alloc_aligned _ _ _ Hc). pose proof (next_flags_range (l_kernel x) t).
  rewrite set_next_level_eq, next_level_add by (done || lia). done.
Qed.

Lemma alloc_lookup q y : lab1 !! q = Some y -> (q = c /\ y = child_label x i) \/ (q <> c /\ lab !! q = Some y).
Proof.
  unfold lab1. destruct (decide (q = c)) as [->|Hq].
  - rewrite lookup_insert_eq. intros [= <-]. by left.
  - rewrite lookup_insert_ne by done. by right.
Qed.

Lemma alloc_old q y : lab !! q = Some y -> lab1 !! q = Some y.
Proof.
  intros Hq. unfold lab1. rewrite lookup_insert_ne; [done|].
  intros Heq. pose proof alloc_not_labelled. congruence.
Qed.

(** No node has the new node's place. *)
Lemma alloc_unique q : lab !! q = Some (child_label x i) -> False.
Proof.
  intros Hq. pose proof Hwf as [_ _ Hlv _ Hin _ Hpa]. pose proof (Hlv p x Hp).
  destruct (Hpa q _ Hq) as (r & z & j & Hr & Hj & Hy & Hlz & Hnx); [cbn; lia|].
  cbn in Hlz. injection Hy as Hroot Hker Hlev Hblk.
  assert (z = x) as ->. { destruct z, x. cbn in *. f_equal; lia || congruence. }
  assert (r = p) as -> by (by eapply Hin).
  replace j with i in Hnx by lia. rewrite Hnull in Hnx. subst q.
  destruct (wf_some _ _ _ Hwf 0 _ Hq) as (? & _ & _ & ? & _). lia.
Qed.

Lemma alloc_wf : pt_wf cfg m1 lab1.
Proof.
  pose proof Hwf as [Hd Hno Hlv Hr Hin He Hpa Hlf]. destruct (alloc_aligned _ _ _ Hc) as [Hca Hcr].
  pose proof (Hlv p x Hp) as Hlx. split.
  - intros q. unfold m1, lab1. rewrite pt_write_dom.
    destruct (decide (q = c)) as [->|]; [rewrite !lookup_insert_eq; by eauto|].
    rewrite !lookup_insert_ne by done. apply Hd.
  - intros q n Hq. apply pt_write_length in Hq as (n0 & Hn0 & ->).
    destruct (decide (q = c)) as [->|].
    + rewrite lookup_insert_eq in Hn0. by injection Hn0 as <-.
    + rewrite lookup_insert_ne in Hn0 by done. by apply Hno.
  - intros q y [[-> ->]|[_ Hq]]%alloc_lookup; [cbn; lia|by eapply Hlv].
  - intros q y [[-> ->]|[_ Hq]]%alloc_lookup; [cbn; lia|by apply Hr].
  - intros q r y [[-> ->]|[Hqc Hq]]%alloc_lookup [[-> Hy]|[Hrc Hrr]]%alloc_lookup; try done.
    + by destruct (alloc_unique r).
    + rewrite Hy in Hq. by destruct (alloc_unique q).
    + by eapply Hin.
  - intros q y j Hq Hlq Hj. rewrite alloc_read by lia. case_decide as Hdq.
    + destruct Hdq as [-> ->]. apply alloc_lookup in Hq as [[Heq _]|[_ Hq]]; [by destruct alloc_ne|].
      assert (y = x) as -> by congruence. right. exists c, t. split; [done|apply lookup_insert_eq].
    + case_decide; [by left|]. apply alloc_lookup in Hq as [[? _]|[_ Hq]]; [done|].
      destruct (He q y j Hq Hlq Hj) as [?|(c' & t' & ? & Hc')]; [by left|].
      right. exists c', t'. split; [done|]. by apply alloc_old.
  - intros q y Hq Hly. apply alloc_lookup in Hq as [[-> ->]|[Hqc Hq]].
    + exists p, x, i. split_and!; try done; try lia; [by apply alloc_old|cbn; lia|].
      rewrite alloc_read by lia. case_decide as Hd0; [apply alloc_next|by destruct Hd0].
    + destruct (Hpa q y Hq Hly) as (r & z & j & Hrl & Hj & Hy & Hlz & Hnx).
      exists r, z, j. split_and!; try done; try lia; [by apply alloc_old|]. rewrite alloc_read by lia.
      case_decide as Hd0.
      * destruct Hd0 as [-> ->]. rewrite Hnull in Hnx. subst q.
        destruct (wf_some _ _ _ Hwf 0 y Hq) as (? & _ & _ & ? & _). lia.
      * case_decide as Hd1; [|done]. subst r. pose proof alloc_not_labelled. congruence.
  - intros q y j Hq Hly Hj. rewrite alloc_read by lia. case_decide as Hdq.
    + destruct Hdq as [-> ->]. apply alloc_lookup in Hq as [[Heq _]|[_ Hq]]; [by destruct alloc_ne|].
      assert (y = x) as -> by congruence. lia.
    + case_decide; [done|]. apply alloc_lookup in Hq as [[? _]|[_ Hq]]; [done|by eapply Hlf].
Qed.

(** Linking an empty node changes no walk of its table. *)
Lemma alloc_walk d va :
  l_level x = level_of cfg (S d) -> block va (l_level x) = l_block x ->
  walk cfg (S d) m1 p va = walk cfg (S d) m p va.
Proof.
  intros Hlx Hva. cbn [walk]. pose proof (index_range va (level_of cfg (S d))) as Hj.
  assert (l_level x = S (level_of cfg d)) as HS by (unfold level_of in *; lia).
  rewrite alloc_read by lia. case_decide as Hd.
  - destruct Hd as [_ ->]. rewrite alloc_next, Hnull. cbn.
    destruct (Z.eqb_spec c 0); [done|]. apply walk_zero. intros j Hj'.
    rewrite alloc_read by lia. case_decide as Hd; [by destruct Hd as [Hd _]; destruct alloc_ne|].
    by case_decide.
  - case_decide as Hpc; [by destruct alloc_ne|].
    destruct (wf_next _ _ _ Hwf p x _ Hp Hl Hj) as [[_ ->]|(Hnz & Hcj & _)]; [done|].
    destruct (Z.eqb_spec (next_level (pt_read m p (pagetable_index va (level_of cfg (S d))))) 0);
      [done|].
    apply (walk_frame _ _ _ Hwf m1 d _ _ va Hcj); cbn; [by rewrite HS| |].
    { rewrite HS. cbn. rewrite block_child, <- HS, Hva, Hlx. done. }
    intros q y Hq _ Hle _ j Hj'. rewrite alloc_read by lia. case_decide as Hd0.
    + destruct Hd0 as [-> ->]. assert (y = x) as -> by congruence. lia.
    + case_decide as Hd1; [|done]. subst q. pose proof alloc_not_labelled. congruence.
Qed.

(** Linking a node and updating below it is an update of the table. *)
Lemma upd_alloc d f lo hi m2 lab2 :
  l_level x = level_of cfg (S d) -> lo < hi -> block lo (l_level x) = l_block x ->
  upd cfg (S d) p x f lo hi m1 lab1 m2 lab2 -> upd cfg (S d) p x f lo hi m lab m2 lab2.
Proof.
  intros Hlx Hlt Hlo [Hw He Hf Hn Hk]. split; try done.
  - etransitivity; [|exact He]. apply insert_subseteq, alloc_not_labelled.
  - intros q y Hq Ht j Hj. rewrite (Hf q y (alloc_old _ _ Hq) Ht j Hj).
    rewrite alloc_read by lia. case_decide as Hd.
    + destruct Hd as [-> ->]. exfalso. apply Ht. assert (y = x) as -> by congruence.
      split_and!; try done. exists lo. split; [lia|done].
    + case_decide as Hd1; [|done]. subst q. pose proof alloc_not_labelled. congruence.
  - intros q y Hq Hnew. destruct (decide (q = c)) as [->|Hqc].
    + pose proof (lookup_weaken _ _ c _ (lookup_insert_eq lab c (child_label x i)) He) as Hy.
      assert (y = child_label x i) as -> by congruence. done.
    + apply (Hn q y Hq). unfold lab1. by rewrite lookup_insert_ne.
  - intros va Hva. rewrite Hk, alloc_walk by done. done.
Qed.

End Alloc.

(** ** The operations *)

(** The leaf entry of an address. *)
Definition leaf_for (cfg : page_config) (is_kernel : bool) (perm : PagetablePermission)
  (type : PagetableType) (va : Z) : Z :=
  set_leaf is_kernel (va - va mod PAGE_SIZE cfg) type perm (PAGETABLE_LOWEST_LEVEL cfg).

(** A range an operation may be called with below the node [x]. *)
Record range_below (cfg : page_config) (x : label) (base size : Z) : Prop := {
  rb_base : 0 <= base;
  rb_size : 0 <= size;
  rb_end : base + size <= 2 ^ 48;
  rb_base_aligned : (PAGE_SIZE cfg | base);
  rb_size_aligned : (PAGE_SIZE cfg | size);
  rb_block : forall va, base <= va < base + size -> block va (l_level x) = l_block x;
}.

Lemma range_below_child cfg x base size addr d :
  l_level x = level_of cfg (S d) -> (level_of cfg (S d) <= PML4_LEVEL)%nat ->
  range_below cfg x base size -> base <= addr < base + size -> (PAGE_SIZE cfg | addr) ->
  range_below cfg (child_label x (pagetable_index addr (level_of cfg (S d)))) addr
    (Z.min (base + size) (entry_end addr (level_of cfg (S d))) - addr).
Proof.
  intros Hl Hle [Hb Hs He Hba Hsa Hbl] Ha Haa.
  pose proof (entry_end_bounds addr (level_of cfg (S d))) as Hee.
  assert ((PAGE_SIZE cfg | entry_end addr (level_of cfg (S d)))) as Hed.
  { unfold entry_end. apply Z.divide_mul_r. rewrite <- cov_lowest. apply cov_divide.
    unfold level_of. lia. }
  assert (l_level x = S (level_of cfg d)) as HS by (unfold level_of in *; lia).
  split; try done; try lia.
  - apply Z.divide_sub_r; [|done]. apply Z.min_case; [by apply Z.divide_add_r|done].
  - intros va Hva. cbn. rewrite HS. cbn.
    unfold block. rewrite <- HS, Hl, (same_entry addr va) by lia.
    rewrite block_index, <- Hl, Hbl by lia. done.
Qed.

Lemma min_page_aligned cfg base size addr level :
  (PAGETABLE_LOWEST_LEVEL cfg <= level)%nat -> (PAGE_SIZE cfg | base) -> (PAGE_SIZE cfg | size) ->
  (PAGE_SIZE cfg | Z.min (base + size) (entry_end addr level)).
Proof.
  intros Hl Hb Hs. apply Z.min_case; [by apply Z.divide_add_r|].
  unfold entry_end. apply Z.divide_mul_r. rewrite <- cov_lowest. by apply cov_divide.
Qed.

Lemma leaf_for_page cfg k perm t lo va :
  (PAGE_SIZE cfg | lo) -> lo <= va < lo + PAGE_SIZE cfg ->
  leaf_for cfg k perm t va = set_leaf k lo t perm (PAGETABLE_LOWEST_LEVEL cfg).
Proof.
  intros [q ->] Hva. unfold leaf_for. f_equal. pose proof (page_size_bounds cfg).
  pose proof (Z.div_mod va (PAGE_SIZE cfg) ltac:(lia)).
  assert (va / PAGE_SIZE cfg = q); [|lia].
  symmetry. apply Z.div_unique with (va - q * PAGE_SIZE cfg); lia.
Qed.

Section Operations.
Context `{SnmallocBits, !SnmallocBitsOk, NodeAllocator, !NodeAllocatorOk} (cfg : page_config).

(** A pass over a range, as a loop whose iterations are updates. *)
Lemma entry_loop_upd depth p x f base size body m lab :
  range_below cfg x base size -> (level_of cfg depth <= PML4_LEVEL)%nat ->
  l_level x = level_of cfg depth -> pt_wf cfg m lab -> lab !! p = Some x ->
  (forall addr m0 lab0, base <= addr < base + size -> (PAGE_SIZE cfg | addr) ->
     pt_wf cfg m0 lab0 -> lab0 !! p = Some x ->
     body addr m0 <> Hang /\ forall m1, body addr m0 = Done m1 -> exists lab1,
       upd cfg depth p x f addr (Z.min (base + size) (entry_end addr (level_of cfg depth)))
         m0 lab0 m1 lab1) ->
  entry_loop (level_of cfg depth) base size body m <> Hang /\
  forall m', entry_loop (level_of cfg depth) base size body m = Done m' ->
    exists lab', upd cfg depth p x f base (base + size) m lab m' lab'.
Proof.
  intros [Hb Hs He Hba Hsa Hbl] Hle Hl Hwf Hp Hbody.
  set (I := fun a m1 => base <= a <= base + size /\ (PAGE_SIZE cfg | a) /\
              exists lab1, upd cfg depth p x f base a m lab m1 lab1).
  assert (I base m) as HI0 by (split_and!; [lia|lia|done|exists lab; by apply upd_refl]).
  assert (forall addr m0 m1, base <= addr < base + size -> I addr m0 -> body addr m0 = Done m1 ->
            I (Z.min (base + size) (entry_end addr (level_of cfg depth))) m1) as Hstep.
  { intros addr m0 m1 Ha (_ & Haa & lab0 & Hu) Hd.
    pose proof (entry_end_bounds addr (level_of cfg depth)).
    destruct (Hbody addr m0 lab0 Ha Haa (upd_wf _ _ _ _ _ _ _ _ _ _ _ Hu)
      (lookup_weaken _ _ _ _ Hp (upd_ext _ _ _ _ _ _ _ _ _ _ _ Hu))) as [_ Hx].
    destruct (Hx m1 Hd) as [lab1 Hu1]. split_and!; [lia|lia| |].
    - apply min_page_aligned; [unfold level_of; lia|done|done].
    - exists lab1. eapply upd_trans; [|exact Hu|exact Hu1]. lia. }
  split.
  - apply (entry_loop_no_hang _ _ _ _ I); try done.
    intros addr m0 Ha (_ & Haa & lab0 & Hu).
    by destruct (Hbody addr m0 lab0 Ha Haa (upd_wf _ _ _ _ _ _ _ _ _ _ _ Hu)
      (lookup_weaken _ _ _ _ Hp (upd_ext _ _ _ _ _ _ _ _ _ _ _ Hu))) as [Hx _].
  - intros m' Hm'. by destruct (entry_loop_rule _ _ _ _ I _ _ Hb Hs He Hle Hstep HI0 Hm')
      as (_ & _ & Hu).
Qed.

(** The sub-range given to the recursive call. *)
Lemma next_size_eq base size addr level :
  0 <= base -> 0 <= size -> base + size <= 2 ^ 48 -> base <= addr < base + size ->
  (level <= PML4_LEVEL)%nat ->
  u64 (Z.min (u64 (base + size)) (pagetable_next_entry_base addr level) - addr) =
    Z.min (base + size) (entry_end addr level) - addr.
Proof.
  intros. rewrite (u64_small (base + size)), next_entry_base_eq by (done || unfold is_u64; lia).
  pose proof (entry_end_bounds addr level). pose proof (cov_pos level).
  apply u64_small. unfold is_u64. lia.
Qed.

(** The node below an entry, linked if it is missing. *)
Definition ensure_next (k : bool) (type : PagetableType) (p i : Z) (m : pt_mem)
  : outcome (Z * pt_mem) :=
  let next_root := next_level (pt_read m p i) in
  if next_root =? 0
  then let* r := alloc_pagetable_node k m in
       let '(c, m1) := r in Done (c, pt_write m1 p i (set_next_level k c type))
  else Done (next_root, m).

Lemma ensure_next_upd d type p x addr hi f op m lab :
  let i := pagetable_index addr (level_of cfg (S d)) in
  pt_wf cfg m lab -> lab !! p = Some x -> l_level x = level_of cfg (S d) ->
  addr < hi -> block addr (l_level x) = l_block x ->
  (forall va, addr <= va < hi -> va / cov (l_level x) = addr / cov (l_level x)) ->
  (forall c m1 lab1, pt_wf cfg m1 lab1 -> lab1 !! c = Some (child_label x i) ->
     op c m1 <> Hang /\ forall m2, op c m1 = Done m2 ->
       exists lab2, upd cfg d c (child_label x i) f addr hi m1 lab1 m2 lab2) ->
  let r := (let* q := ensure_next (l_kernel x) type p i m in op (fst q) (snd q)) in
  r <> Hang /\ forall m', r = Done m' -> exists lab', upd cfg (S d) p x f addr hi m lab m' lab'.
Proof.
  intros i Hwf Hp Hl Hlt Hb Hsame Hop. cbn zeta. unfold ensure_next.
  pose proof (index_range addr (level_of cfg (S d))) as Hi. fold i in Hi.
  assert (PAGETABLE_LOWEST_LEVEL cfg < l_level x)%nat as Hlow by (rewrite Hl; unfold level_of; lia).
  destruct (wf_next _ _ _ Hwf p x i Hp Hlow Hi) as [[Hz Hnull]|(Hnz & Hlab & _)].
  - rewrite Hnull. cbn. unfold alloc_pagetable_node.
    destruct (alloc_node_page (l_kernel x) m) as [c|] eqn:Hc; cbn; [|done].
    pose proof (alloc_wf cfg m lab Hwf p x i c type Hp Hlow Hi Hnull Hc) as Hwf1.
    destruct (Hop c _ _ Hwf1 (lookup_insert_eq _ _ _)) as [Hh Hd]. split; [done|].
    intros m' Hm'. destruct (Hd m' Hm') as [lab' Hu]. exists lab'.
    apply (upd_alloc cfg m lab Hwf p x i c type Hp Hlow Hi Hnull Hc d); try done.
    assert (next_level (pt_read (pt_write (<[c:=zero_node]> m) p i (set_next_level (l_kernel x) c type))
      p i) = c) as Hnx.
    { rewrite (alloc_read cfg m lab Hwf p x i c type) by (done || lia).
      case_decide as Hd0; [by eapply alloc_next|by destruct Hd0]. }
    apply upd_child; try done.
    + by eapply alloc_old.
    + fold i. rewrite Hnx. by destruct (alloc_aligned _ _ _ Hc); lia.
    + fold i. by rewrite Hnx.
  - destruct (Z.eqb_spec (next_level (pt_read m p i)) 0); [done|]. cbn.
    destruct (Hop _ m lab Hwf Hlab) as [Hh Hd]. split; [done|]. intros m' Hm'.
    destruct (Hd m' Hm') as [lab' Hu]. exists lab'. by apply upd_child.
Qed.

(** At the lowest level an iteration writes the entry of its page. *)
Lemma leaf_iteration p x f e base size addr m lab :
  range_below cfg x base size -> l_level x = level_of cfg 0 -> pt_wf cfg m lab ->
  lab !! p = Some x -> base <= addr < base + size -> (PAGE_SIZE cfg | addr) ->
  (forall va, addr <= va < addr + PAGE_SIZE cfg -> f va = e) -> Z.testbit e 8 = false ->
  upd cfg 0 p x f addr (Z.min (base + size) (entry_end addr (level_of cfg 0)))
    m lab (pt_write m p (pagetable_index addr (level_of cfg 0)) e) lab.
Proof.
  intros [Hb Hs He Hba Hsa Hbl] Hl Hwf Hp Ha Haa Hf Hg.
  assert (cov (level_of cfg 0) = PAGE_SIZE cfg) as Hc
    by (unfold level_of; rewrite Nat.add_0_r; apply cov_lowest).
  assert (entry_end addr (level_of cfg 0) = addr + PAGE_SIZE cfg) as Hend.
  { unfold entry_end. rewrite Hc. destruct Haa as [q ->]. pose proof (page_size_bounds cfg).
    rewrite Z.div_mul by lia. lia. }
  rewrite Z.min_r.
  - pose proof (upd_leaf cfg p x f e addr m lab Hwf Hp Hl) as Hu. rewrite Hl in Hu.
    apply Hu; [by rewrite Hc|rewrite <- Hl; by apply Hbl| |done]. intros va Hva. apply Hf. lia.
  - rewrite Hend. destruct Haa as [q1 ->], Hba as [q2 Hq2], Hsa as [q3 Hq3].
    pose proof (page_size_bounds cfg).
    assert (q1 < q2 + q3) by nia. nia.
Qed.

(** Entries that [add_to_pagetable] writes at the lowest level are not global. *)
Lemma leaf_not_global k addr perm level :
  (PAGE_SIZE cfg | addr) -> Z.testbit (set_leaf k addr NORMAL_TYPE perm level) 8 = false.
Proof.
  intros Ha. assert ((4096 | addr)) as Hd.
  { etransitivity; [|exact Ha]. destruct (page_size_cases cfg) as [->| ->]; [by exists 1|by exists 512]. }
  rewrite set_leaf_eq, testbit_flags by (done || lia || apply leaf_flags_range).
  unfold leaf_flags, pagetable_leaf_pagesize. by destruct (Nat.eqb level 0), k, perm.
Qed.

Lemma add_to_pagetable_upd depth k perm : forall type p x base size m lab,
  range_below cfg x base size -> (level_of cfg depth <= PML4_LEVEL)%nat ->
  l_level x = level_of cfg depth -> l_kernel x = k -> pt_wf cfg m lab -> lab !! p = Some x ->
  (depth = O -> type = NORMAL_TYPE) ->
  let f := leaf_for cfg k perm (if Nat.eqb depth 0 then type else NORMAL_TYPE) in
  add_to_pagetable cfg depth k p base size perm type m <> Hang /\
  forall m', add_to_pagetable cfg depth k p base size perm type m = Done m' ->
    exists lab', upd cfg depth p x f base (base + size) m lab m' lab'.
Proof.
  induction depth as [|d IH]; intros type p x base size m lab Hrb Hle Hl Hk Hwf Hp Htype f;
    cbn [add_to_pagetable]; apply entry_loop_upd; try done;
    intros addr m0 lab0 Ha Haa Hwf0 Hp0; pose proof Hrb as [Hb Hs He Hba Hsa Hbl].
  - split; [done|]. intros m1 [= <-]. exists lab0. apply leaf_iteration; try done.
    + intros va Hva. unfold f, level_of. cbn. rewrite Nat.add_0_r. by apply leaf_for_page.
    + rewrite Htype by done. by eapply leaf_not_global.
  - pose proof (entry_end_bounds addr (level_of cfg (S d))) as Hee.
    rewrite next_size_eq by (done || lia).
    pose proof (range_below_child _ _ _ _ _ _ Hl Hle Hrb Ha Haa) as Hrc.
    set (hi := Z.min (base + size) (entry_end addr (level_of cfg (S d)))) in *.
    destruct (ensure_next_upd d type p x addr hi f
      (fun c m1 => add_to_pagetable cfg d k c addr (hi - addr) perm NORMAL_TYPE m1) m0 lab0)
      as [Hh Hd]; try done; [lia|by apply Hbl| | |].
    + intros va Hva. rewrite Hl. apply same_entry. lia.
    + intros c m1 lab1 Hwf1 Hc.
      destruct (IH NORMAL_TYPE c _ addr (hi - addr) m1 lab1 Hrc) as [Hh Hd]; try done.
      * unfold level_of in *. lia.
      * cbn. rewrite Hl. unfold level_of. lia.
      * split; [done|]. intros m2 Hm2. destruct (Hd m2 Hm2) as [lab2 Hu]. exists lab2.
        replace (addr + (hi - addr)) with hi in Hu by lia. cbn in f. by destruct (Nat.eqb d 0).
    + unfold ensure_next in Hh, Hd. rewrite <- Hk in *.
      destruct (next_level _ =? 0) eqn:Hn; cbn [obind fst snd] in *; [|by split].
      destruct (alloc_pagetable_node _ _) as [[c mc]| |]; by split.
Qed.

Lemma remove_from_pagetable_upd depth : forall p x base size m lab,
  range_below cfg x base size -> (level_of cfg depth <= PML4_LEVEL)%nat ->
  l_level x = level_of cfg depth -> pt_wf cfg m lab -> lab !! p = Some x ->
  remove_from_pagetable cfg depth p base size m <> Hang /\
  forall m', remove_from_pagetable cfg depth p base size m = Done m' ->
    exists lab', upd cfg depth p x (fun _ => 0) base (base + size) m lab m' lab'.
Proof.
  induction depth as [|d IH]; intros p x base size m lab Hrb Hle Hl Hwf Hp;
    cbn [remove_from_pagetable]; apply entry_loop_upd; try done;
    intros addr m0 lab0 Ha Haa Hwf0 Hp0; pose proof Hrb as [Hb Hs He Hba Hsa Hbl].
  - split; [done|]. intros m1 [= <-]. exists lab0. by apply leaf_iteration.
  - pose proof (entry_end_bounds addr (level_of cfg (S d))) as Hee.
    rewrite next_size_eq by (done || lia).
    pose proof (range_below_child _ _ _ _ _ _ Hl Hle Hrb Ha Haa) as Hrc.
    set (hi := Z.min (base + size) (entry_end addr (level_of cfg (S d)))) in *.
    set (i := pagetable_index addr (level_of cfg (S d))) in *.
    assert (forall va, addr <= va < hi -> va / cov (l_level x) = addr / cov (l_level x)) as Hsame.
    { intros va Hva. rewrite Hl. apply same_entry. lia. }
    pose proof (index_range addr (level_of cfg (S d))) as Hi. fold i in Hi.
    assert (PAGETABLE_LOWEST_LEVEL cfg < l_level x)%nat as Hlow by (rewrite Hl; unfold level_of; lia).
    destruct (wf_next _ _ _ Hwf0 p x i Hp0 Hlow Hi) as [[Hz Hnull]|(Hnz & Hlab & _)].
    + rewrite Hnull. cbn. split; [done|]. intros m1 [= <-]. exists lab0.
      split; try done; [by intros q y -> |].
      intros va Hva. destruct (in_bounds addr hi va) eqn:Ein; [|done].
      apply in_bounds_spec in Ein. cbn [walk].
      rewrite <- Hl, index_eq, (Hsame va Ein), <- index_eq, Hl. fold i. by rewrite Hnull.
    + destruct (Z.eqb_spec (next_level (pt_read m0 p i)) 0); [done|].
      destruct (IH (next_level (pt_read m0 p i)) _ addr (hi - addr) m0 lab0 Hrc) as [Hh Hd]; try done.
      * unfold level_of in *. lia.
      * cbn. rewrite Hl. unfold level_of. lia.
      * split; [done|]. intros m1 Hm1. destruct (Hd m1 Hm1) as [lab1 Hu]. exists lab1.
        replace (addr + (hi - addr)) with hi in Hu by lia. apply upd_child; try done. by apply Hbl.
Qed.

End Operations.

(** ** Running out of nodes *)

Section Supply.
Context `{SnmallocBits, NodeAllocator} (cfg : page_config) (k : bool).

(** An operation keeps the nodes there are, and aborts only where the allocator has no page for a further one. *)
Definition grows (m : pt_mem) (r : outcome pt_mem) : Prop :=
  match r with
  | Done m' => dom m ⊆ dom m'
  | Kabort => exists m1, dom m ⊆ dom m1 /\ alloc_node_page k m1 = None
  | Hang => True
  end.

Lemma grows_bind m r f : grows m r -> (forall m1, dom m ⊆ dom m1 -> grows m1 (f m1)) -> grows m (let* m1 := r in f m1).
Proof.
  intros Hr Hf. destruct r as [m1| |]; cbn [obind grows] in *; [|done..]. specialize (Hf m1 Hr).
  destruct (f m1) as [m2| |]; cbn [grows] in *; [set_solver| |done]. destruct Hf as (m3 & ? & ?). exists m3. split; [set_solver|done].
Qed.

Lemma grows_mono m0 m r : dom m0 ⊆ dom m -> grows m r -> grows m0 r.
Proof. destruct r as [m1| |]; cbn [grows]; [set_solver| |done]. intros Hd (m1 & ? & ?). exists m1. split; [set_solver|done]. Qed.

Lemma pt_write_grows m p i e : dom m ⊆ dom (pt_write m p i e).
Proof. intros q Hq. apply elem_of_dom. apply pt_write_dom. by apply elem_of_dom. Qed.

Lemma entry_loop_grows level base size body m :
  (forall a m1, grows m1 (body a m1)) -> grows m (entry_loop level base size body m).
Proof.
  intros Hb. unfold entry_loop. generalize (3 + Z.to_nat (size / pagetable_entry_coverage level))%nat. intros fuel.
  generalize base at 2. intros a. revert a m. induction fuel as [|fuel IH]; intros a m; cbn [while_loop fst snd].
  { case_match; cbn [obind grows snd]; [done|reflexivity]. }
  case_match; [|cbn [obind grows snd]; reflexivity]. specialize (Hb a m). destruct (body a m) as [m1| |]; cbn [obind grows] in *; [|done..].
  apply (grows_mono m m1 _ Hb). apply IH.
Qed.

Lemma ensure_next_grows type p i m f :
  (forall c m1, dom m ⊆ dom m1 -> grows m1 (f c m1)) ->
  grows m (let* r := ensure_next k type p i m in let '(c, m1) := r in f c m1).
Proof.
  intros Hf. unfold ensure_next. destruct (_ =? 0); [|by apply Hf].
  unfold alloc_pagetable_node. destruct (alloc_node_page k m) as [c|] eqn:Ea; cbn [obind grows]; [|by exists m].
  set (m1 := pt_write _ _ _ _). assert (dom m ⊆ dom m1) as Hd.
  { etransitivity; [|apply pt_write_grows]. rewrite dom_insert_L. set_solver. }
  apply (grows_mono m m1 _ Hd). by apply Hf.
Qed.

Lemma add_to_pagetable_grows depth : forall p base size perm type m,
  grows m (add_to_pagetable cfg depth k p base size perm type m).
Proof.
  induction depth as [|d IH]; intros p base size perm type m; cbn [add_to_pagetable]; apply entry_loop_grows; intros a m1.
  - cbn. apply pt_write_grows.
  - apply ensure_next_grows. intros c m2 _. apply IH.
Qed.

End Supply.
