(* ===== verification/PageTableProps.v ===== *)
(** * What the processor sees through the tables

    The access rights the hardware derives from a table, and the properties of
    the kernel's and the compartments' tables in those terms. *)

From S2P Require Import Prelude External Address Heap PageTable PageTableWf PageTableOps.

(** The hardware walk: an entry must be present at every level, and an access
    needs its right at every level. The result is the physical address with the
    write and the user right. *)
Fixpoint hw_access (cfg : page_config) (depth : nat) (m : pt_mem) (root va : Z)
  : option (Z * bool * bool) :=
  let e := pt_read m root (pagetable_index va (level_of cfg depth)) in
  if negb (Z.testbit e 0) then None
  else match depth with
  | O => Some (next_level e + va mod PAGE_SIZE cfg, Z.testbit e 1, Z.testbit e 2)
  | S depth' =>
      match hw_access cfg depth' m (next_level e) va with
      | Some (pa, w, u) => Some (pa, w && Z.testbit e 1, u && Z.testbit e 2)
      | None => None
      end
  end.

(** The rights a permission stands for: identity mapping, write, user. *)
Definition access_of (is_kernel : bool) (perm : PagetablePermission) (va : Z)
  : option (Z * bool * bool) :=
  match is_kernel, perm with
  | _, PT_NO_ACCESS => None
  | true, (PT_KERNEL_WRITE | PT_FORCE_KERNEL_WRITE | PT_COMPARTMENT_WRITE) => Some (va, true, false)
  | true, (PT_KERNEL_READ | PT_COMPARTMENT_READ) => Some (va, false, false)
  | false, PT_FORCE_KERNEL_WRITE => Some (va, true, false)
  | false, (PT_KERNEL_WRITE | PT_KERNEL_READ | PT_COMPARTMENT_READ) => Some (va, false, true)
  | false, PT_COMPARTMENT_WRITE => Some (va, true, true)
  end.

(** The rights after a list of mappings: the last one that contains the address
    decides. *)
Definition map_access (is_kernel : bool) (l : list MapEntry) (va : Z)
  (before : option (Z * bool * bool)) : option (Z * bool * bool) :=
  fold_left (fun acc e =>
    if in_bounds (start (map_range e)) (end_ (map_range e)) va
    then access_of is_kernel (map_perm e) va else acc) l before.

Definition table (lab : gmap Z label) (root : Z) (is_kernel : bool) : Prop :=
  lab !! root = Some (root_label root is_kernel).

Definition canonical (va : Z) : Prop := 0 <= va < 2 ^ 48.

(** A region that fits the 48-bit address space. *)
Definition region_ok (r : AddressRange) : Prop := 0 <= start r <= end_ r /\ end_ r <= 2 ^ 48.

(** The conditions on the maps, as tests. *)
Definition region_okb (r : AddressRange) : bool :=
  (0 <=? start r) && (start r <=? end_ r) && (end_ r <=? 2 ^ 48).
Definition entry_okb (cfg : page_config) (e : MapEntry) : bool :=
  region_okb (map_range e) && (start (map_range e) mod PAGE_SIZE cfg =? 0) &&
  (end_ (map_range e) mod PAGE_SIZE cfg =? 0).

Lemma regions_okb l :
  forallb (fun e => region_okb (map_range e)) l = true -> Forall (fun e => region_ok (map_range e)) l.
Proof.
  intros H. apply Forall_forall. intros e He. rewrite forallb_forall in H.
  specialize (H e ltac:(by apply list_elem_of_In)). unfold region_okb in H. bool_to_prop.
  unfold region_ok. lia.
Qed.

Lemma root_level cfg : level_of cfg (root_depth cfg) = PML4_LEVEL.
Proof. by destruct cfg. Qed.

Lemma root_block va : canonical va -> block va PML4_LEVEL = 0.
Proof. intros Hva. unfold block. apply Z.div_small. rewrite cov_eq. exact Hva. Qed.

Lemma testbit_next_flags k t :
  Z.testbit (next_flags k t) 0 = true /\ Z.testbit (next_flags k t) 1 = true /\
  Z.testbit (next_flags k t) 2 = negb k /\ Z.testbit (next_flags k t) 7 = false.
Proof. by destruct k, t. Qed.

(** ** The hardware walk on a well-formed table *)

Section Hw.
Context (cfg : page_config) (m : pt_mem) (lab : gmap Z label) (Hwf : pt_wf cfg m lab).

Lemma hw_access_walk depth : forall p x va,
  lab !! p = Some x -> l_level x = level_of cfg depth ->
  let e := walk cfg depth m p va in
  hw_access cfg depth m p va =
    if Z.testbit e 0
    then Some (next_level e + va mod PAGE_SIZE cfg, Z.testbit e 1,
               Z.testbit e 2 && (Nat.eqb depth 0 || negb (l_kernel x)))
    else None.
Proof.
  induction depth as [|d IH]; intros p x va Hp Hl; cbn [hw_access walk].
  - destruct (Z.testbit _ 0); cbn; [by rewrite andb_true_r|done].
  - pose proof (index_range va (level_of cfg (S d))) as Hi.
    set (i := pagetable_index va (level_of cfg (S d))) in *.
    destruct (wf_next _ _ _ Hwf p x i Hp) as [[Hz Hn]|(Hnz & Hc & t & Ht)]; try done.
    { rewrite Hl. unfold level_of. lia. }
    { by rewrite Hz. }
    destruct (Z.eqb_spec (next_level (pt_read m p i)) 0); [done|].
    destruct (wf_some _ _ _ Hwf _ _ Hc) as (n' & _ & Hdiv & _ & _).
    assert (forall b, 0 <= b < 12 ->
      Z.testbit (pt_read m p i) b = Z.testbit (next_flags (l_kernel x) t) b) as Hb.
    { intros b Hbb. rewrite Ht, set_next_level_eq by done. by apply testbit_flags. }
    destruct (testbit_next_flags (l_kernel x) t) as (H0 & H1 & H2 & _).
    rewrite !Hb, H0, H1, H2 by lia. cbn [negb].
    rewrite (IH _ _ va Hc) by (cbn; rewrite Hl; unfold level_of; lia). cbn [l_kernel child_label].
    destruct (Z.testbit (walk cfg d m _ va) 0); [|done]. rewrite andb_true_r. cbn [Nat.eqb orb].
    by destruct (Nat.eqb d 0), (l_kernel x), (Z.testbit (walk cfg d m _ va) 2).
Qed.

Lemma table_access root k va :
  table lab root k ->
  let e := walk cfg (root_depth cfg) m root va in
  hw_access cfg (root_depth cfg) m root va =
    if Z.testbit e 0
    then Some (next_level e + va mod PAGE_SIZE cfg, Z.testbit e 1, Z.testbit e 2 && negb k)
    else None.
Proof.
  intros Ht. cbn zeta. rewrite (hw_access_walk _ _ _ va Ht) by (by rewrite root_level).
  by destruct cfg.
Qed.

(** The hardware walk only reads nodes of its table. *)
Lemma hw_frame m' depth : forall p x va,
  lab !! p = Some x -> l_level x = level_of cfg depth ->
  (forall q y, lab !! q = Some y -> l_root y = l_root x ->
     forall i, 0 <= i < 512 -> pt_read m' q i = pt_read m q i) ->
  hw_access cfg depth m' p va = hw_access cfg depth m p va.
Proof.
  induction depth as [|d IH]; intros p x va Hp Hl Hf; cbn [hw_access];
    rewrite (Hf p x Hp eq_refl) by apply index_range; [done|].
  pose proof (index_range va (level_of cfg (S d))) as Hi.
  destruct (wf_next _ _ _ Hwf p x _ Hp ltac:(rewrite Hl; unfold level_of; lia) Hi)
    as [[-> _]|(_ & Hc & _)]; [done|].
  by rewrite (IH _ _ va Hc) by (done || (cbn; rewrite Hl; unfold level_of; lia)).
Qed.

(** The test of [root->is_large_mapping()] never fires: a lookup is the walk. *)
Lemma get_entry_walk depth : forall p x va,
  lab !! p = Some x -> l_level x = level_of cfg depth ->
  get_pagetable_entry cfg depth p va m = walk cfg depth m p va.
Proof.
  induction depth as [|d IH]; intros p x va Hp Hl; cbn [get_pagetable_entry walk];
    destruct (wf_some _ _ _ Hwf p x Hp) as (n & _ & _ & Hp0 & _);
    destruct (Z.eqb_spec p 0); try lia.
  assert (PAGETABLE_LOWEST_LEVEL cfg < l_level x)%nat as Hlow by (rewrite Hl; unfold level_of; lia).
  assert (is_large_mapping (pt_read m p 0) = false) as ->.
  { destruct (wf_next _ _ _ Hwf p x 0 Hp Hlow ltac:(lia)) as [[-> _]|(_ & Hc & t & ->)]; [done|].
    destruct (wf_some _ _ _ Hwf _ _ Hc) as (n' & _ & Hdiv & _ & _).
    rewrite set_next_level_eq by done. unfold is_large_mapping, PTE_PAGESIZE.
    change 128 with (Z.shiftl 1 7). apply negb_false_iff, Z.eqb_eq, Z.bits_inj'. intros b Hb.
    rewrite Z.land_spec, Z.bits_0, Z.shiftl_spec by done.
    destruct (decide (b = 7)) as [->|Hne].
    - rewrite testbit_flags by (done || lia). destruct (testbit_next_flags (l_kernel x) t) as (_ & _ & _ & ->). done.
    - rewrite andb_false_iff. right. destruct (Z.lt_ge_cases b 7); [by apply Z.testbit_neg_r; lia|].
      change 1 with (2 ^ 0). rewrite Z.pow2_bits_false by lia. done. }
  pose proof (index_range va (level_of cfg (S d))) as Hi.
  destruct (wf_next _ _ _ Hwf p x _ Hp Hlow Hi) as [[_ Hn]|(Hnz & Hc & _)].
  - rewrite Hn. by destruct d.
  - destruct (Z.eqb_spec (next_level (pt_read m p (pagetable_index va (level_of cfg (S d))))) 0); [done|].
    apply (IH _ _ va Hc). cbn. rewrite Hl. unfold level_of. lia.
Qed.

End Hw.

(** The rights of a leaf entry. *)
Lemma leaf_access cfg k perm va :
  canonical va ->
  let e := leaf_for cfg k perm NORMAL_TYPE va in
  (if Z.testbit e 0
   then Some (next_level e + va mod PAGE_SIZE cfg, Z.testbit e 1, Z.testbit e 2 && negb k)
   else None) = access_of k perm va.
Proof.
  intros Hva. cbn zeta. unfold leaf_for. pose proof (page_size_bounds cfg) as Hps.
  set (a := va - va mod PAGE_SIZE cfg).
  assert ((4096 | a)) as Ha.
  { unfold a. assert ((4096 | PAGE_SIZE cfg)) as Hd
      by (destruct (page_size_cases cfg) as [->| ->]; [by exists 1|by exists 512]).
    etransitivity; [exact Hd|]. rewrite Z.mod_eq by lia.
    replace (va - (va - PAGE_SIZE cfg * (va / PAGE_SIZE cfg)))
      with (va / PAGE_SIZE cfg * PAGE_SIZE cfg) by lia. by apply Z.divide_factor_r. }
  pose proof (Z.mod_pos_bound va (PAGE_SIZE cfg) ltac:(lia)) as Hm.
  pose proof (Z.mod_le va (PAGE_SIZE cfg) ltac:(unfold canonical in *; lia) ltac:(lia)) as Hm2.
  pose proof (leaf_flags_range k NORMAL_TYPE perm (PAGETABLE_LOWEST_LEVEL cfg)) as Hfl.
  rewrite set_leaf_eq, !testbit_flags by (done || lia).
  rewrite next_level_add by (done || (unfold canonical in *; lia)).
  replace (a + va mod PAGE_SIZE cfg) with va by (unfold a; lia).
  by destruct cfg, k, perm.
Qed.

(** ** Operations on whole tables *)

(** An operation on [lo, hi) of the table [root] that gives each address [va]
    there the rights [acc va], and leaves the other addresses and tables. *)
Record table_op (cfg : page_config) (root : Z) (acc : Z -> option (Z * bool * bool)) (lo hi : Z)
  (m : pt_mem) (lab : gmap Z label) (m' : pt_mem) (lab' : gmap Z label) : Prop := {
  to_wf : pt_wf cfg m' lab';
  to_ext : lab ⊆ lab';
  to_new : forall q y, lab' !! q = Some y -> lab !! q = None -> l_root y = root;
  to_access : forall va, canonical va ->
    hw_access cfg (root_depth cfg) m' root va =
      if in_bounds lo hi va then acc va else hw_access cfg (root_depth cfg) m root va;
  to_others : forall r k va, r <> root -> table lab r k -> canonical va ->
    hw_access cfg (root_depth cfg) m' r va = hw_access cfg (root_depth cfg) m r va;
}.

Lemma upd_table_op cfg root k f acc lo hi m lab m' lab' :
  pt_wf cfg m lab -> table lab root k ->
  upd cfg (root_depth cfg) root (root_label root k) f lo hi m lab m' lab' ->
  (forall va, canonical va -> lo <= va < hi ->
     (if Z.testbit (f va) 0
      then Some (next_level (f va) + va mod PAGE_SIZE cfg, Z.testbit (f va) 1,
                 Z.testbit (f va) 2 && negb k)
      else None) = acc va) ->
  table_op cfg root acc lo hi m lab m' lab'.
Proof.
  intros Hwf Ht [Hw He Hf Hn Hk] Hacc.
  assert (table lab' root k) as Ht' by (by eapply lookup_weaken).
  split; try done.
  - intros va Hva. rewrite (table_access _ _ _ Hw _ _ va Ht').
    rewrite Hk by (by apply root_block).
    destruct (in_bounds lo hi va) eqn:E.
    + apply in_bounds_spec in E. by rewrite Hacc.
    + by rewrite (table_access _ _ _ Hwf _ _ va Ht).
  - intros r k' va Hne Htr Hva. assert (table lab' r k') as Htr' by (by eapply lookup_weaken).
    rewrite (table_access _ _ _ Hw _ _ va Htr'), (table_access _ _ _ Hwf _ _ va Htr).
    rewrite (walk_frame _ _ _ Hwf m' _ _ _ va Htr); [done|by rewrite root_level|by apply root_block|].
    intros q y Hq Hr _ _ i Hi. apply (Hf q y Hq); [|done]. cbn in Hr. intros (Hr' & _). cbn in Hr'.
    congruence.
Qed.

Section TableOps.
Context `{SnmallocBits, !SnmallocBitsOk, NodeAllocator, !NodeAllocatorOk} (cfg : page_config).

Lemma range_below_root root k base size :
  0 <= base -> 0 <= size -> base + size <= 2 ^ 48 -> (PAGE_SIZE cfg | base) -> (PAGE_SIZE cfg | size) ->
  range_below cfg (root_label root k) base size.
Proof.
  intros. split; try done. intros va Hva. apply root_block. unfold canonical. lia.
Qed.

Lemma misaligned_false base size :
  misaligned cfg base size = false <-> (PAGE_SIZE cfg | base) /\ (PAGE_SIZE cfg | size).
Proof.
  pose proof (page_size_bounds cfg). unfold misaligned.
  rewrite orb_false_iff, !negb_false_iff, !Z.eqb_eq, !Z.mod_divide by lia. done.
Qed.

Lemma add_table_op root k base size perm type m lab :
  pt_wf cfg m lab -> table lab root k -> 0 <= base -> 0 <= size -> base + size <= 2 ^ 48 ->
  (PAGE_SIZE cfg | base) -> (PAGE_SIZE cfg | size) ->
  add_to_pagetable cfg (root_depth cfg) k root base size perm type m <> Hang /\
  forall m', add_to_pagetable cfg (root_depth cfg) k root base size perm type m = Done m' ->
    exists lab', table_op cfg root (access_of k perm) base (base + size) m lab m' lab'.
Proof.
  intros Hwf Ht Hb Hs He Hba Hsa.
  destruct (add_to_pagetable_upd cfg (root_depth cfg) k perm type root (root_label root k) base size
    m lab) as [Hh Hd]; try done; try (by rewrite root_level); [by apply range_below_root|by destruct cfg|].
  split; [done|]. intros m' Hm'. destruct (Hd m' Hm') as [lab' Hu]. exists lab'.
  eapply upd_table_op; [done|done|exact Hu|]. intros va Hva _.
  rewrite <- (leaf_access cfg k perm va Hva). by destruct cfg.
Qed.

Lemma remove_table_op root k base size m lab :
  pt_wf cfg m lab -> table lab root k -> 0 <= base -> 0 <= size -> base + size <= 2 ^ 48 ->
  (PAGE_SIZE cfg | base) -> (PAGE_SIZE cfg | size) ->
  remove_from_pagetable cfg (root_depth cfg) root base size m <> Hang /\
  forall m', remove_from_pagetable cfg (root_depth cfg) root base size m = Done m' ->
    exists lab', table_op cfg root (fun _ => None) base (base + size) m lab m' lab'.
Proof.
  intros Hwf Ht Hb Hs He Hba Hsa.
  destruct (remove_from_pagetable_upd cfg (root_depth cfg) root (root_label root k) base size
    m lab) as [Hh Hd]; try done; try (by rewrite root_level).
  { by apply range_below_root. }
  split; [done|]. intros m' Hm'. destruct (Hd m' Hm') as [lab' Hu]. exists lab'.
  by eapply upd_table_op; [done|done|exact Hu|].
Qed.

(** ** A new root *)

Lemma alloc_root k m lab root m' :
  pt_wf cfg m lab -> alloc_pagetable_node k m = Done (root, m') ->
  let lab' := <[root := root_label root k]> lab in
  pt_wf cfg m' lab' /\ lab ⊆ lab' /\ table lab' root k /\ lab !! root = None /\
  (forall va, hw_access cfg (root_depth cfg) m' root va = None) /\
  (forall r k', table lab r k' -> forall va, canonical va ->
     hw_access cfg (root_depth cfg) m' r va = hw_access cfg (root_depth cfg) m r va).
Proof.
  intros Hwf Ha lab'. unfold alloc_pagetable_node in Ha.
  destruct (alloc_node_page k m) as [p|] eqn:Hp; [|done]. injection Ha as <- <-.
  destruct (alloc_aligned _ _ _ Hp) as [Hpa Hpr].
  assert (lab !! p = None) as Hnone.
  { apply eq_None_not_Some. intros Hs%(wf_dom _ _ _ Hwf). rewrite (alloc_fresh _ _ _ Hp) in Hs. by destruct Hs. }
  assert (forall q y, lab' !! q = Some y -> (q = p /\ y = root_label p k) \/ (q <> p /\ lab !! q = Some y))
    as Hcase.
  { intros q y. unfold lab'. destruct (decide (q = p)) as [->|Hq].
    - rewrite lookup_insert_eq. intros [= <-]. by left.
    - rewrite lookup_insert_ne by done. by right. }
  assert (forall q y, lab !! q = Some y -> lab' !! q = Some y) as Hold.
  { intros q y Hq. unfold lab'. rewrite lookup_insert_ne; [done|]. intros ->. congruence. }
  assert (forall q y j, lab !! q = Some y -> pt_read (<[p:=zero_node]> m) q j = pt_read m q j) as Hread.
  { intros q y j Hq. rewrite pt_read_zero. case_decide; [subst; congruence|done]. }
  pose proof Hwf as [Hd Hno Hlv Hr Hin He Hpar Hlf].
  assert (pt_wf cfg (<[p:=zero_node]> m) lab') as Hwf'.
  { split.
    - intros q. unfold lab'. destruct (decide (q = p)) as [->|];
        [rewrite !lookup_insert_eq; by eauto|]. rewrite !lookup_insert_ne by done. apply Hd.
    - intros q n. destruct (decide (q = p)) as [->|].
      + rewrite lookup_insert_eq. by intros [= <-].
      + rewrite lookup_insert_ne by done. apply Hno.
    - intros q y [[-> ->]|[_ Hq]]%Hcase; [cbn; destruct cfg; cbn; unfold PML4_LEVEL; lia|by eapply Hlv].
    - intros q y [[-> ->]|[_ Hq]]%Hcase; [done|by apply Hr].
    - intros q r y [[-> ->]|[Hqp Hq]]%Hcase [[-> Hy]|[Hrp Hrr]]%Hcase; try done.
      + destruct (Hr r _ Hrr eq_refl) as [Heq _]. done.
      + rewrite Hy in Hq. destruct (Hr q _ Hq eq_refl) as [Heq _]. done.
      + by eapply Hin.
    - intros q y j [[-> ->]|[Hqp Hq]]%Hcase Hlq Hj.
      + left. rewrite pt_read_zero. by case_decide.
      + rewrite (Hread q y) by done. destruct (He q y j Hq Hlq Hj) as [?|(c & t & ? & Hc)]; [by left|].
        right. exists c, t. split; [done|]. by apply Hold.
    - intros q y [[-> ->]|[Hqp Hq]]%Hcase Hly; [cbn in Hly; lia|].
      destruct (Hpar q y Hq Hly) as (r & z & j & Hrl & Hj & Hy & Hlz & Hnx).
      exists r, z, j. split; [by apply Hold|]. split; [done|]. split; [done|]. split; [done|].
      by rewrite (Hread r z).
    - intros q y j [[-> ->]|[Hqp Hq]]%Hcase Hly Hj; [rewrite pt_read_zero; by case_decide|].
      rewrite (Hread q y) by done. by eapply Hlf. }
  split_and!; try done.
  - apply insert_subseteq, Hnone.
  - apply lookup_insert_eq.
  - intros va. rewrite (table_access _ _ _ Hwf' p k va) by apply lookup_insert_eq.
    rewrite walk_zero; [done|]. intros j _. rewrite pt_read_zero. by case_decide.
  - intros r k' Ht va Hva. rewrite (table_access _ _ _ Hwf' r k' va), (table_access _ _ _ Hwf r k' va)
      by (done || by apply Hold).
    rewrite (walk_frame _ _ _ Hwf _ _ _ _ va Ht); [done|by rewrite root_level|by apply root_block|].
    intros q y Hq _ _ _ i _. by apply (Hread q y).
Qed.

End TableOps.

(** ** Sequences of mappings *)

(** Changes of the table [root] only, that turn the rights [old] of an address
    into [acc va old]. *)
Record table_step (cfg : page_config) (root : Z)
  (acc : Z -> option (Z * bool * bool) -> option (Z * bool * bool))
  (m : pt_mem) (lab : gmap Z label) (m' : pt_mem) (lab' : gmap Z label) : Prop := {
  ts_wf : pt_wf cfg m' lab';
  ts_ext : lab ⊆ lab';
  ts_new : forall q y, lab' !! q = Some y -> lab !! q = None -> l_root y = root;
  ts_access : forall va, canonical va ->
    hw_access cfg (root_depth cfg) m' root va = acc va (hw_access cfg (root_depth cfg) m root va);
  ts_others : forall r k va, r <> root -> table lab r k -> canonical va ->
    hw_access cfg (root_depth cfg) m' r va = hw_access cfg (root_depth cfg) m r va;
}.

Lemma table_step_refl cfg root m lab :
  pt_wf cfg m lab -> table_step cfg root (fun _ old => old) m lab m lab.
Proof. intros Hwf. split; try done. by intros q y ->. Qed.

Lemma table_step_trans cfg root a1 a2 m lab m1 lab1 m2 lab2 :
  table_step cfg root a1 m lab m1 lab1 -> table_step cfg root a2 m1 lab1 m2 lab2 ->
  table_step cfg root (fun va old => a2 va (a1 va old)) m lab m2 lab2.
Proof.
  intros [Hw1 He1 Hn1 Ha1 Ho1] [Hw2 He2 Hn2 Ha2 Ho2]. split; try done.
  - by etransitivity.
  - intros q y Hq Hn. destruct (lab1 !! q) as [y1|] eqn:E; [|by eapply Hn2].
    assert (y1 = y) as ->; [|by eapply Hn1].
    apply (lookup_weaken _ _ _ _ E) in He2. congruence.
  - intros va Hva. by rewrite Ha2, Ha1.
  - intros r k va Hr Ht Hva. rewrite (Ho2 r k), (Ho1 r k); try done. by eapply lookup_weaken.
Qed.

Lemma table_op_step cfg root acc lo hi m lab m' lab' :
  table_op cfg root acc lo hi m lab m' lab' ->
  table_step cfg root (fun va old => if in_bounds lo hi va then acc va else old) m lab m' lab'.
Proof. by intros []. Qed.

Section Maps.
Context `{SnmallocBits, !SnmallocBitsOk, NodeAllocator, !NodeAllocatorOk} (cfg : page_config).

Definition entry_aligned (e : MapEntry) : Prop :=
  (PAGE_SIZE cfg | start (map_range e)) /\ (PAGE_SIZE cfg | end_ (map_range e)).

Lemma region_size r : region_ok r -> u64 (end_ r - start r) = end_ r - start r.
Proof. unfold region_ok. intros. apply u64_small. unfold is_u64. lia. Qed.

Lemma add_map_step root k l f m lab m' :
  (forall e m m1, e ∈ l -> f m e = Done m1 -> entry_aligned e /\ region_ok (map_range e) /\
     exists type, add_to_pagetable cfg (root_depth cfg) k root (start (map_range e))
       (end_ (map_range e) - start (map_range e)) (map_perm e) type m = Done m1) ->
  pt_wf cfg m lab -> table lab root k -> ofold f l m = Done m' ->
  exists lab', table_step cfg root (map_access k l) m lab m' lab'.
Proof.
  revert m lab; induction l as [|e l IH]; intros m lab Hf Hwf Ht Ho; cbn in Ho.
  { injection Ho as <-. exists lab. by apply table_step_refl. }
  apply obind_done in Ho as (m1 & Hm1 & Ho).
  destruct (Hf e m m1 ltac:(by left) Hm1) as ((Ha1 & Ha2) & (Hr1 & Hr2) & type & Hadd).
  destruct (add_table_op cfg root k (start (map_range e))
    (end_ (map_range e) - start (map_range e)) (map_perm e) type m lab) as [_ Hd];
    try done; try lia; [by apply Z.divide_sub_r|].
  destruct (Hd m1 Hadd) as [lab1 Hop%table_op_step].
  replace (start (map_range e) + (end_ (map_range e) - start (map_range e)))
    with (end_ (map_range e)) in Hop by lia.
  destruct (IH m1 lab1) as [lab2 Hst]; try done.
  { intros e' m2 m3 He'. apply Hf. by right. }
  { apply Hop. }
  { eapply lookup_weaken; [exact Ht|apply Hop]. }
  exists lab2. exact (table_step_trans _ _ _ _ _ _ _ _ _ _ Hop Hst).
Qed.

Lemma kernel_map_step root l m lab m' :
  Forall (fun e => region_ok (map_range e)) l -> pt_wf cfg m lab -> table lab root true ->
  kernel_initializer_from_map cfg root l m = Done m' ->
  exists lab', table_step cfg root (map_access true l) m lab m' lab'.
Proof.
  intros Hl Hwf Ht Ho. eapply add_map_step; [|done|done|exact Ho].
  intros e m0 m1 He. rewrite Forall_forall in Hl. specialize (Hl e He).
  unfold add_to_kernel_pagetable. rewrite region_size by done.
  destruct (misaligned _ _ _) eqn:E; [done|]. apply misaligned_false in E as [Ha Hb]. intros Hadd.
  split; [|split; [done|by eexists]]. split; [done|].
  replace (end_ (map_range e))
    with (start (map_range e) + (end_ (map_range e) - start (map_range e))) by lia.
  by apply Z.divide_add_r.
Qed.

Lemma compartment_map_step root l m lab m' :
  Forall (fun e => region_ok (map_range e) /\ entry_aligned e) l -> pt_wf cfg m lab ->
  table lab root false -> compartment_initializer_from_map cfg root l m = Done m' ->
  exists lab', table_step cfg root (map_access false l) m lab m' lab'.
Proof.
  intros Hl Hwf Ht Ho. eapply add_map_step; [|done|done|exact Ho].
  intros e m0 m1 He. rewrite Forall_forall in Hl. destruct (Hl e He) as [Hr Ha].
  rewrite region_size by done. intros Hadd. split; [done|]. split; [done|]. by eexists.
Qed.

Lemma map_access_app k l1 l2 va old :
  map_access k (l1 ++ l2) va old = map_access k l2 va (map_access k l1 va old).
Proof. unfold map_access. by rewrite fold_left_app. Qed.

Lemma map_access_kernel l va pa w u :
  map_access true l va None = Some (pa, w, u) -> pa = va /\ u = false.
Proof.
  assert (forall old, (forall pa w u, old = Some (pa, w, u) -> pa = va /\ u = false) ->
    forall pa w u, map_access true l va old = Some (pa, w, u) -> pa = va /\ u = false) as Hgen.
  { induction l as [|e l IH]; [done|]. intros old Hold. apply IH. intros pa' w' u'.
    destruct (in_bounds _ _ va); [|apply Hold]. by destruct (map_perm e); intros [= <- _ <-]. }
  by apply Hgen.
Qed.

Lemma map_access_compartment l va pa w u :
  Forall (fun e => map_perm e <> PT_COMPARTMENT_WRITE) l ->
  map_access false l va None = Some (pa, w, u) -> pa = va /\ (w = true -> u = false).
Proof.
  intros Hl. assert (forall old, (forall pa w u, old = Some (pa, w, u) -> pa = va /\ (w = true -> u = false)) ->
    forall pa w u, map_access false l va old = Some (pa, w, u) -> pa = va /\ (w = true -> u = false)) as Hgen.
  { induction Hl as [|e l He Hl IH]; [done|]. intros old Hold. apply IH. intros pa' w' u'.
    destruct (in_bounds _ _ va); [|apply Hold]. by destruct (map_perm e); intros [= <- <- <-]. }
  by apply Hgen.
Qed.

End Maps.

(** ** The regions of the kernel's table *)

Definition kernel_regions `{SnmallocBits} (cfg : page_config)
  (elf_start elf_writable_start heap_start local_apic_mapping : Z) (io_shared_range : span)
  (hr : HeapRanges) (interrupt_stack_map : list MapEntry) : list MapEntry :=
  let first_heap_range := align_up_start (PAGE_SIZE cfg) (range_of_span (first hr)) in
  predefined_map cfg elf_start elf_writable_start heap_start ++
  (if negb (local_apic_mapping =? 0)
   then [mkMapEntry (mkRange local_apic_mapping (local_apic_mapping + PAGE_SIZE cfg)) PT_KERNEL_WRITE]
   else []) ++
  [mkMapEntry (range_of_span io_shared_range) PT_KERNEL_WRITE] ++
  (if negb (range_empty first_heap_range) then [mkMapEntry first_heap_range PT_KERNEL_WRITE] else []) ++
  map (fun r => mkMapEntry (range_of_span r) PT_KERNEL_WRITE) (additional hr) ++
  interrupt_stack_map.

Section Create.
Context `{SnmallocBits, !SnmallocBitsOk, NodeAllocator, !NodeAllocatorOk} (cfg : page_config).

Lemma ofold_singleton {A S} (f : S -> A -> outcome S) a s : ofold f [a] s = f s a.
Proof. cbn. by destruct (f s a). Qed.

Lemma obind_assoc {A B C} (m : outcome A) (f : A -> outcome B) (g : B -> outcome C) :
  obind (obind m f) g = obind m (fun x => obind (f x) g).
Proof. by destruct m. Qed.

Lemma obind_ext {A B} (m1 m2 : outcome A) (f g : A -> outcome B) :
  m1 = m2 -> (forall x, f x = g x) -> obind m1 f = obind m2 g.
Proof. intros -> Hf. destruct m2; cbn; auto. Qed.

Lemma ofold_map_ext {A B S} (g : A -> B) (f : S -> B -> outcome S) (f' : S -> A -> outcome S) l s :
  (forall s a, a ∈ l -> f s (g a) = f' s a) -> ofold f (map g l) s = ofold f' l s.
Proof.
  revert s; induction l as [|a l IH]; cbn; intros s Hf; [done|].
  rewrite Hf by (by left). destruct (f' s a); cbn; [|done|done]. apply IH. intros; apply Hf. by right.
Qed.

(** The kernel's table is built by mapping its regions one after the other. *)
Lemma create_kernel_eq es ews hs apic io hr ist m :
  Forall (fun r => span_wf r) (additional hr) ->
  create_kernel_page_table cfg es ews hs apic io hr ist m =
    (let* r := alloc_pagetable_node true m in
     let* m' := kernel_initializer_from_map cfg (fst r) (kernel_regions cfg es ews hs apic io hr ist)
                  (snd r) in
     Done (fst r, m')).
Proof.
  intros Hadd. unfold create_kernel_page_table, kernel_regions.
  destruct (alloc_pagetable_node true m) as [[root m0]| |]; cbn [obind fst snd]; [|done|done].
  unfold kernel_initializer_from_map at 3. rewrite !ofold_app, !obind_assoc.
  destruct (kernel_initializer_from_map cfg root (predefined_map cfg es ews hs) m0) as [m1| |] eqn:E1;
    unfold kernel_initializer_from_map in E1; rewrite E1; cbn [obind]; [|done|done].
  rewrite ofold_app, obind_assoc. apply obind_ext; [|intros m2].
  { destruct (negb (apic =? 0)); [|done]. rewrite ofold_singleton. cbn [map_range map_perm start end_].
    replace (apic + PAGE_SIZE cfg - apic) with (PAGE_SIZE cfg) by lia.
    pose proof (page_size_bounds cfg). by rewrite u64_small by (unfold is_u64; lia). }
  rewrite ofold_app, obind_assoc, ofold_singleton. apply obind_ext; [done|intros m3].
  rewrite ofold_app, obind_assoc. apply obind_ext; [|intros m4].
  { destruct (negb _); [|done]. by rewrite ofold_singleton. }
  rewrite ofold_app, obind_assoc. apply obind_ext; [|intros m5; done].
  symmetry. apply ofold_map_ext. intros s r Hr. rewrite Forall_forall in Hadd.
  destruct (Hadd r Hr) as (? & ? & ?). cbn [map_range map_perm]. rewrite range_of_span_wf by done.
  cbn [start end_]. replace (span_data r + span_size r - span_data r) with (span_size r) by lia.
  by rewrite u64_small by (unfold is_u64; lia).
Qed.

(** A new kernel table in which regions are mapped one after the other. *)
Lemma kernel_table_of_regions l m lab root m0 m' :
  pt_wf cfg m lab -> Forall (fun e => region_ok (map_range e)) l ->
  alloc_pagetable_node true m = Done (root, m0) -> kernel_initializer_from_map cfg root l m0 = Done m' ->
  exists lab', pt_wf cfg m' lab' /\ lab ⊆ lab' /\ table lab' root true /\
    (forall va, canonical va -> hw_access cfg (root_depth cfg) m' root va = map_access true l va None) /\
    (forall va pa w u, canonical va ->
       hw_access cfg (root_depth cfg) m' root va = Some (pa, w, u) -> pa = va /\ u = false) /\
    (forall r k va, table lab r k -> canonical va ->
       hw_access cfg (root_depth cfg) m' r va = hw_access cfg (root_depth cfg) m r va).
Proof.
  intros Hwf Hreg Ha Hi.
  destruct (alloc_root cfg _ _ _ _ _ Hwf Ha) as (Hwf0 & Hext & Ht & Hn & Hnone & Hoth).
  destruct (kernel_map_step cfg _ _ _ _ _ Hreg Hwf0 Ht Hi) as [lab' [Hw He _ Hacc Ho]].
  exists lab'. assert (forall va, canonical va -> hw_access cfg (root_depth cfg) m' root va =
    map_access true l va None) as Hmap by (intros va Hva; by rewrite Hacc, Hnone).
  split_and!; try done.
  - by etransitivity.
  - by eapply lookup_weaken.
  - intros va pa w u Hva. rewrite Hmap by done. apply map_access_kernel.
  - intros r k va Hr Hva. rewrite (Ho r k); [by apply (Hoth r k)| | |done].
    + intros ->. unfold table in Hr. congruence.
    + by eapply lookup_weaken.
Qed.

(** C8: The kernel's page table is the identity map of its regions and nothing
    else: after [create_kernel_page_table] the rights of every 48-bit address are
    those of the last region that contains it (image, local APIC, shared memory,
    heap, interrupt stacks), no access outside all of them, never a user right,
    and every other table is as before. *)
Theorem create_kernel_page_table_exact es ews hs apic io hr ist m lab root m' :
  pt_wf cfg m lab -> Forall span_wf (additional hr) ->
  Forall (fun e => region_ok (map_range e)) (kernel_regions cfg es ews hs apic io hr ist) ->
  create_kernel_page_table cfg es ews hs apic io hr ist m = Done (root, m') ->
  exists lab', pt_wf cfg m' lab' /\ lab ⊆ lab' /\ table lab' root true /\
    (forall va, canonical va ->
       hw_access cfg (root_depth cfg) m' root va =
         map_access true (kernel_regions cfg es ews hs apic io hr ist) va None) /\
    (forall va pa w u, canonical va ->
       hw_access cfg (root_depth cfg) m' root va = Some (pa, w, u) -> pa = va /\ u = false) /\
    (forall r k va, table lab r k -> canonical va ->
       hw_access cfg (root_depth cfg) m' r va = hw_access cfg (root_depth cfg) m r va).
Proof.
  intros Hwf Hadd Hreg Hc. rewrite create_kernel_eq in Hc by done.
  apply obind_done in Hc as ([p m0] & Ha & Hc). cbn [fst snd] in Hc.
  apply obind_done in Hc as (m1 & Hi & Hd). injection Hd as <- <-. by eapply kernel_table_of_regions.
Qed.

Lemma create_compartment_spec predefined ist m lab root m' :
  pt_wf cfg m lab ->
  Forall (fun e => region_ok (map_range e) /\ entry_aligned cfg e) (predefined ++ ist) ->
  Forall (fun e => map_perm e <> PT_COMPARTMENT_WRITE) (predefined ++ ist) ->
  create_compartment_pagetable cfg predefined ist m = Done (root, m') ->
  exists lab', pt_wf cfg m' lab' /\ lab ⊆ lab' /\ table lab' root false /\ lab !! root = None /\
    (forall va, canonical va ->
       hw_access cfg (root_depth cfg) m' root va = map_access false (predefined ++ ist) va None) /\
    (forall va pa w u, canonical va ->
       hw_access cfg (root_depth cfg) m' root va = Some (pa, w, u) ->
       pa = va /\ (w = true -> u = false)) /\
    (forall r k va, table lab r k -> canonical va ->
       hw_access cfg (root_depth cfg) m' r va = hw_access cfg (root_depth cfg) m r va).
Proof.
  intros Hwf Hreg Hperm Hc. unfold create_compartment_pagetable in Hc.
  apply obind_done in Hc as ([p m0] & Ha & Hc).
  apply obind_done in Hc as (m1 & Hi1 & Hc). apply obind_done in Hc as (m2 & Hi2 & Hd).
  injection Hd as <- <-. apply Forall_app in Hreg as [Hr1 Hr2].
  destruct (alloc_root cfg _ _ _ _ _ Hwf Ha) as (Hwf0 & Hext & Ht & Hn & Hnone & Hoth).
  destruct (compartment_map_step cfg _ _ _ _ _ Hr1 Hwf0 Ht Hi1) as [lab1 Hs1].
  destruct (compartment_map_step cfg _ _ _ _ _ Hr2 (ts_wf _ _ _ _ _ _ _ Hs1)
    (lookup_weaken _ _ _ _ Ht (ts_ext _ _ _ _ _ _ _ Hs1)) Hi2) as [lab2 Hs2].
  destruct (table_step_trans _ _ _ _ _ _ _ _ _ _ Hs1 Hs2) as [Hw He _ Hacc Ho].
  exists lab2. assert (forall va, canonical va -> hw_access cfg (root_depth cfg) m2 p va =
    map_access false (predefined ++ ist) va None) as Hmap
    by (intros va Hva; by rewrite Hacc, Hnone, map_access_app).
  split_and!; try done.
  - by etransitivity.
  - by eapply lookup_weaken.
  - intros va pa w u Hva. rewrite Hmap by done. by apply map_access_compartment.
  - intros r k va Hr Hva. rewrite (Ho r k); [by apply (Hoth r k)| | |done].
    + intros ->. unfold table in Hr. congruence.
    + by eapply lookup_weaken.
Qed.

(** A fresh compartment table gives a compartment no way to write: the rights
    of every 48-bit address are those of the image and the interrupt stacks, an
    address is mapped to itself, none is both writable and accessible from user
    mode, and every other table is as before. *)
Theorem create_compartment_pagetable_exact predefined ist m lab root m' :
  pt_wf cfg m lab ->
  Forall (fun e => region_ok (map_range e) /\ entry_aligned cfg e) (predefined ++ ist) ->
  Forall (fun e => map_perm e <> PT_COMPARTMENT_WRITE) (predefined ++ ist) ->
  create_compartment_pagetable cfg predefined ist m = Done (root, m') ->
  exists lab', pt_wf cfg m' lab' /\ lab ⊆ lab' /\ table lab' root false /\
    (forall va, canonical va ->
       hw_access cfg (root_depth cfg) m' root va = map_access false (predefined ++ ist) va None) /\
    (forall va pa w u, canonical va ->
       hw_access cfg (root_depth cfg) m' root va = Some (pa, w, u) ->
       pa = va /\ (w = true -> u = false)) /\
    (forall r k va, table lab r k -> canonical va ->
       hw_access cfg (root_depth cfg) m' r va = hw_access cfg (root_depth cfg) m r va).
Proof.
  intros Hwf Hreg Hperm Hc.
  destruct (create_compartment_spec _ _ _ _ _ _ Hwf Hreg Hperm Hc) as (lab' & ? & ? & ? & _ & ? & ? & ?).
  by exists lab'.
Qed.

End Create.

Section OpProperties.
Context `{SnmallocBits, !SnmallocBitsOk, NodeAllocator, !NodeAllocatorOk} (cfg : page_config).
Context (m : pt_mem) (lab : gmap Z label) (Hwf : pt_wf cfg m lab).

(** [add_to_kernel_pagetable] aborts on a misaligned range; otherwise it
    comes back (or the allocator is out of pages), and then exactly the addresses
    of the range have the rights of the permission, every other address of the
    kernel table and every other table keep theirs, and the node memory stays
    well-formed. *)
Theorem add_to_kernel_pagetable_exact root base size perm :
  table lab root true -> 0 <= base -> 0 <= size -> base + size <= 2 ^ 48 ->
  (misaligned cfg base size = true -> add_to_kernel_pagetable cfg root base size perm m = Kabort) /\
  add_to_kernel_pagetable cfg root base size perm m <> Hang /\
  forall m', add_to_kernel_pagetable cfg root base size perm m = Done m' ->
    exists lab', table_op cfg root (access_of true perm) base (base + size) m lab m' lab'.
Proof.
  intros Ht Hb Hs He. unfold add_to_kernel_pagetable.
  destruct (misaligned cfg base size) eqn:E; [done|]. apply misaligned_false in E as [Ha Hb'].
  split; [done|]. by apply add_table_op.
Qed.

(** [add_to_compartment_pagetable] has the same exact effect on a
    compartment's table: a page mapped [PT_COMPARTMENT_WRITE] is readable and
    writable from user mode, one mapped [PT_COMPARTMENT_READ] only readable, and
    no other address or table changes. *)
Theorem add_to_compartment_pagetable_exact root base size perm :
  table lab root false -> 0 <= base -> 0 <= size -> base + size <= 2 ^ 48 ->
  (misaligned cfg base size = true ->
     add_to_compartment_pagetable cfg root base size perm m = Kabort) /\
  add_to_compartment_pagetable cfg root base size perm m <> Hang /\
  forall m', add_to_compartment_pagetable cfg root base size perm m = Done m' ->
    exists lab', table_op cfg root (access_of false perm) base (base + size) m lab m' lab'.
Proof.
  intros Ht Hb Hs He. unfold add_to_compartment_pagetable.
  destruct (misaligned cfg base size) eqn:E; [done|]. apply misaligned_false in E as [Ha Hb'].
  split; [done|]. by apply add_table_op.
Qed.

(** [remove_from_compartment_pagetable] aborts on a misaligned range and on
    the kernel's table; otherwise it comes back and afterwards no address of the
    range is accessible, while the rest of the table and all others keep their
    rights. *)
Theorem remove_from_compartment_pagetable_exact kernel root base size :
  table lab root false -> 0 <= base -> 0 <= size -> base + size <= 2 ^ 48 ->
  (misaligned cfg base size = true \/ root = kernel ->
     remove_from_compartment_pagetable cfg kernel root base size m = Kabort) /\
  remove_from_compartment_pagetable cfg kernel root base size m <> Hang /\
  forall m', remove_from_compartment_pagetable cfg kernel root base size m = Done m' ->
    exists lab', table_op cfg root (fun _ => None) base (base + size) m lab m' lab'.
Proof.
  intros Ht Hb Hs He. unfold remove_from_compartment_pagetable.
  destruct (misaligned cfg base size) eqn:E; [done|]. apply misaligned_false in E as [Ha Hb'].
  destruct (Z.eqb_spec root kernel); [done|]. split; [by intros [?|?]|].
  by eapply remove_table_op.
Qed.

(** [get_kernel_pagetable_entry] returns the entry the page walk ends at, 0
    where a node is missing, although it tests the first entry of a node, and not
    the entry it read, for a large mapping. *)
Theorem get_kernel_pagetable_entry_walk root va :
  table lab root true ->
  get_kernel_pagetable_entry cfg root va m = walk cfg (root_depth cfg) m root va.
Proof. intros Ht. apply (get_entry_walk cfg m lab Hwf _ _ _ va Ht). by rewrite root_level. Qed.

End OpProperties.

(** ** Releasing a table *)

Section Dealloc.
Context (cfg : page_config) (m : pt_mem) (lab : gmap Z label) (Hwf : pt_wf cfg m lab).

(** The memory while nodes are being freed. *)
Definition freed (root : Z) (level : nat) (m0 m1 : pt_mem) : Prop :=
  forall q, m1 !! q = m0 !! q \/
    (m1 !! q = None /\ exists y, lab !! q = Some y /\ l_root y = root /\ (l_level y <= level)%nat).

Definition partial (m1 : pt_mem) : Prop := forall q, m1 !! q = m !! q \/ m1 !! q = None.

Lemma freed_refl r l m0 : freed r l m0 m0.
Proof. intros q. by left. Qed.

Lemma freed_trans r l l' m0 m1 m2 : (l <= l')%nat -> freed r l m0 m1 -> freed r l' m1 m2 -> freed r l' m0 m2.
Proof.
  intros Hl H1 H2 q. destruct (H2 q) as [->|(Hn & y & Hy & Hr & Hle)].
  - destruct (H1 q) as [->|(Hn & y & Hy & Hr & Hle)]; [by left|]. right. split; [done|].
    exists y. split_and!; (done || lia).
  - right. split; [done|]. by exists y.
Qed.

Lemma partial_freed r l m0 m1 : partial m0 -> freed r l m0 m1 -> partial m1.
Proof. intros Hp Hf q. destruct (Hf q) as [->|[-> _]]; [apply Hp|by right]. Qed.

Lemma entry_indices_range i : i ∈ entry_indices -> 0 <= i < 512.
Proof.
  unfold entry_indices. rewrite list_elem_of_In, in_map_iff. intros (j & <- & Hj).
  apply in_seq in Hj. change (Z.to_nat pagetable_entry_count) with 512%nat in Hj. lia.
Qed.

Lemma free_freed p x m0 : lab !! p = Some x -> freed (l_root x) (l_level x) m0 (pt_free p m0).
Proof.
  intros Hp q. unfold pt_free. destruct (decide (q = p)) as [->|].
  - right. split; [apply lookup_delete_eq|]. by exists x.
  - left. by rewrite lookup_delete_ne.
Qed.

(** The entries of a node, given what freeing the nodes below does. *)
Lemma dealloc_entries_freed (free_next : Z -> pt_mem -> pt_mem) p x js : forall m0,
  lab !! p = Some x -> (PAGETABLE_LOWEST_LEVEL cfg < l_level x)%nat ->
  (forall i, i ∈ js -> 0 <= i < 512) -> partial m0 ->
  (forall c i m1, lab !! c = Some (child_label x i) -> partial m1 ->
     freed (l_root x) (pred (l_level x)) m1 (free_next c m1)) ->
  freed (l_root x) (l_level x) m0 (fold_left (fun m index =>
    let entry := pt_read m p index in
    if is_persistent entry then m
    else let next_root := next_level entry in
         if next_root =? 0 then m else free_next next_root m) js m0).
Proof.
  induction js as [|i js IH]; intros m0 Hp Hl Hi Hp0 Hnext; cbn [fold_left]; [apply freed_refl|].
  set (m1 := if is_persistent _ then _ else _).
  assert (freed (l_root x) (l_level x) m0 m1) as Hf.
  { unfold m1. cbn zeta. destruct (is_persistent _); [apply freed_refl|].
    destruct (Z.eqb_spec (next_level (pt_read m0 p i)) 0); [apply freed_refl|].
    assert (pt_read m0 p i = pt_read m p i) as Hrd.
    { unfold pt_read in *. destruct (Hp0 p) as [->|Hn]; [done|]. rewrite Hn in *. done. }
    rewrite Hrd in *.
    destruct (wf_next _ _ _ Hwf p x i Hp Hl) as [[_ ?]|(_ & Hc & _)]; try done; [by apply Hi; left|].
    eapply (freed_trans _ (pred (l_level x))); [lia|by eapply Hnext|apply freed_refl]. }
  apply (freed_trans _ (l_level x) _ _ m1); [done|exact Hf|]. apply IH; try done.
  - intros j Hj. apply Hi. by right.
  - by eapply partial_freed.
Qed.

Lemma dealloc_freed depth : forall p x m0,
  lab !! p = Some x -> l_level x = level_of cfg depth -> partial m0 ->
  freed (l_root x) (l_level x) m0 (deallocate_pagetable depth p m0).
Proof.
  induction depth as [|d IH]; intros p x m0 Hp Hl Hpart; cbn [deallocate_pagetable];
    [by apply free_freed|].
  eapply (freed_trans _ (l_level x)); [done| |by apply free_freed].
  apply dealloc_entries_freed; try done; [rewrite Hl; unfold level_of; lia|apply entry_indices_range|].
  intros c i m1 Hc Hp1. apply (IH c _ m1 Hc); [|done]. cbn. rewrite Hl. unfold level_of. lia.
Qed.

(** [deallocate_compartment_pagetable] frees the root of the table, frees
    only nodes of that table, and leaves every other table's rights as they
    were. *)
Theorem deallocate_compartment_pagetable_safe root :
  table lab root false ->
  let m' := deallocate_compartment_pagetable cfg root m in
  m' !! root = None /\
  (forall q, m' !! q = m !! q \/ exists y, lab !! q = Some y /\ l_root y = root) /\
  (forall r k va, r <> root -> table lab r k -> canonical va ->
     hw_access cfg (root_depth cfg) m' r va = hw_access cfg (root_depth cfg) m r va).
Proof.
  intros Ht m'. unfold m', deallocate_compartment_pagetable.
  assert (freed root PML4_LEVEL m (deallocate_pagetable (root_depth cfg) root m)) as Hf.
  { apply (dealloc_freed _ _ _ _ Ht); [by rewrite root_level|]. intros q. by left. }
  split_and!.
  - destruct (root_depth cfg); cbn; apply lookup_delete_eq.
  - intros q. destruct (Hf q) as [?|(_ & y & ? & ? & _)]; [by left|right; by exists y].
  - intros r k va Hne Hr Hva. apply (hw_frame cfg m lab Hwf _ _ _ (root_label r k)); try done.
    { by rewrite root_level. }
    intros q y Hq Hry i Hi. unfold pt_read. destruct (Hf q) as [->|(_ & y' & Hy' & Hr' & _)]; [done|].
    cbn in Hry. congruence.
Qed.

(** What is left is well formed for the labels of the other tables; nodes that were
    not freed are then no node of any table. *)
Lemma deallocate_compartment_pagetable_wf root :
  table lab root false ->
  pt_wf cfg (deallocate_compartment_pagetable cfg root m) (filter (fun x => l_root x.2 <> root) lab).
Proof.
  intros Ht. set (m' := deallocate_compartment_pagetable cfg root m).
  assert (freed root PML4_LEVEL m m') as Hf.
  { apply (dealloc_freed _ _ _ _ Ht); [by rewrite root_level|]. intros q. by left. }
  assert (forall q y, lab !! q = Some y -> l_root y <> root -> m' !! q = m !! q) as Hkeep.
  { intros q y Hq Hy. destruct (Hf q) as [?|(_ & y' & ? & ? & _)]; [done|congruence]. }
  assert (forall q y j, lab !! q = Some y -> l_root y <> root -> pt_read m' q j = pt_read m q j) as Hread.
  { intros q y j Hq Hy. unfold pt_read. by rewrite (Hkeep q y). }
  pose proof Hwf as [Hd Hno Hlv Hr Hin He Hpar Hlf]. split.
  - intros q [y [Hq Hy]%map_lookup_filter_Some]. rewrite (Hkeep q y) by done. eauto.
  - intros q n Hq. destruct (Hf q) as [Hs|[Hs _]]; rewrite Hs in Hq; [by apply Hno|done].
  - intros q y [Hq _]%map_lookup_filter_Some. eauto.
  - intros q y [Hq _]%map_lookup_filter_Some. eauto.
  - intros q r y [Hq _]%map_lookup_filter_Some [Hr' _]%map_lookup_filter_Some. eauto.
  - intros q y j [Hq Hy]%map_lookup_filter_Some Hl Hj. cbn in Hy. rewrite (Hread q y) by done.
    destruct (He q y j Hq Hl Hj) as [?|(c & t & ? & Hc)]; [by left|]. right. exists c, t.
    split; [done|]. by apply map_lookup_filter_Some.
  - intros q y [Hq Hy]%map_lookup_filter_Some Hl. cbn in Hy.
    destruct (Hpar q y Hq Hl) as (r & z & j & Hrz & Hj & -> & Hlz & Hnx). exists r, z, j.
    rewrite (Hread r z) by done. split_and!; try done; try lia. by apply map_lookup_filter_Some.
  - intros q y j [Hq Hy]%map_lookup_filter_Some Hl Hj. cbn in Hy. rewrite (Hread q y) by done. by eapply Hlf.
Qed.

End Dealloc.

(** A table whose root entries are all null or persistent, as
    [create_compartment_pagetable] leaves it and as it stays while the compartment
    maps addresses below the same root entries, loses only its root node: the
    nodes below are not given back. *)
Theorem deallocate_keeps_persistent cfg root m :
  (forall i, 0 <= i < 512 -> pt_read m root i = 0 \/ is_persistent (pt_read m root i) = true) ->
  deallocate_compartment_pagetable cfg root m = delete root m.
Proof.
  intros Hr. unfold deallocate_compartment_pagetable.
  assert (exists d, root_depth cfg = S d) as [d ->] by (destruct cfg; by eexists).
  cbn [deallocate_pagetable]. unfold pt_free. f_equal.
  pose proof entry_indices_range as Hin. revert Hin. generalize entry_indices as js.
  induction js as [|i js IH]; intros Hin; cbn [fold_left]; [done|].
  set (m1 := if is_persistent _ then _ else _).
  assert (m1 = m) as -> by (unfold m1; by destruct (Hr i (Hin i ltac:(by left))) as [->| ->]).
  apply IH. intros; apply Hin; by right.
Qed.

(** ** Witnesses *)

(** An allocator that hands out the first free page of 64. *)
Definition ref_alloc : NodeAllocator := fun _ m =>
  snd <$> list_find (fun p => m !! p = None) (map (fun i => 4096 * (Z.of_nat i + 1)) (seq 0 64)).

Lemma ref_alloc_ok : @NodeAllocatorOk ref_alloc.
Proof.
  split; intros k m p Hp; unfold alloc_node_page, ref_alloc in Hp;
    apply fmap_Some in Hp as ([i q] & Hf & ->); apply list_find_Some in Hf as (Hl & Hn & _); [done|].
  apply list_elem_of_lookup_2, list_elem_of_In, in_map_iff in Hl as (j & <- & Hj).
  apply in_seq in Hj. cbn. split; [by exists (Z.of_nat j + 1); lia|lia].
Qed.

Lemma empty_wf cfg : pt_wf cfg ∅ ∅.
Proof.
  split; try (by intros; rewrite lookup_empty in * ). intros p [x Hx]. by rewrite lookup_empty in Hx.
Qed.

(** The image of the examples: 4 kB at 0x1000 read-only, 4 kB writable, heap from
    0x3000. *)
Definition example_heap : HeapRanges :=
  mkHeap (Span 0x3000 0x2000) (<[0%nat := Span 0x10000 0x1000]> (replicate 32 (Span 0 0))) 1.

Definition example_stacks : list MapEntry := [mkMapEntry (mkRange 0x4000 0x5000) PT_FORCE_KERNEL_WRITE].

Definition example_regions : list MapEntry :=
  @kernel_regions ref_bits SmallPages 0x1000 0x2000 0x3000 0 (Span 0x20000 0x1000) example_heap
    example_stacks.

Lemma create_kernel_page_table_exact_witness :
  exists root m', @create_kernel_page_table ref_bits ref_alloc SmallPages 0x1000 0x2000 0x3000 0
      (Span 0x20000 0x1000) example_heap example_stacks ∅ = Done (root, m') /\
    hw_access SmallPages 3 m' root 0x10010 = map_access true example_regions 0x10010 None.
Proof.
  run_done (@create_kernel_page_table ref_bits ref_alloc SmallPages 0x1000 0x2000 0x3000 0
      (Span 0x20000 0x1000) example_heap example_stacks ∅) E. destruct a as [root m'].
  exists root, m'. split; [reflexivity|].
  destruct (@create_kernel_page_table_exact ref_bits ref_bits_ok ref_alloc ref_alloc_ok SmallPages
    0x1000 0x2000 0x3000 0 (Span 0x20000 0x1000) example_heap example_stacks ∅ ∅ root m')
    as (lab' & _ & _ & _ & Ha & _);
    [apply empty_wf|constructor; [unfold span_wf; cbn; lia|constructor]| |exact E|].
  - apply regions_okb. vm_compute. reflexivity.
  - apply Ha. unfold canonical. lia.
Defined.

(** A memory with one empty table at 0x1000. *)
Definition example_mem : pt_mem := <[0x1000 := zero_node]> ∅.
Definition example_lab (k : bool) : gmap Z label := <[0x1000 := root_label 0x1000 k]> ∅.

Lemma example_wf cfg k : pt_wf cfg example_mem (example_lab k) /\ table (example_lab k) 0x1000 k.
Proof.
  destruct (@alloc_root ref_alloc ref_alloc_ok cfg k ∅ ∅ 0x1000 example_mem (empty_wf cfg))
    as (Hwf & _ & Ht & _); [vm_compute; reflexivity|]. by split.
Qed.

Lemma entries_okb cfg l :
  forallb (entry_okb cfg) l = true ->
  Forall (fun e => region_ok (map_range e) /\ entry_aligned cfg e) l.
Proof.
  intros H. apply Forall_forall. intros e He. rewrite forallb_forall in H.
  specialize (H e ltac:(by apply list_elem_of_In)). pose proof (page_size_bounds cfg).
  unfold entry_okb, region_okb in H. bool_to_prop. unfold region_ok, entry_aligned.
  rewrite <- !Z.mod_divide by lia. lia.
Qed.

Definition example_predefined : list MapEntry := @predefined_map ref_bits SmallPages 0x1000 0x2000 0x3000.

Lemma create_compartment_pagetable_exact_witness :
  exists root m', @create_compartment_pagetable ref_bits ref_alloc SmallPages example_predefined
      example_stacks ∅ = Done (root, m') /\
    forall va pa w u, canonical va -> hw_access SmallPages 3 m' root va = Some (pa, w, u) ->
      pa = va /\ (w = true -> u = false).
Proof.
  run_done (@create_compartment_pagetable ref_bits ref_alloc SmallPages example_predefined
    example_stacks ∅) E. destruct a as [root m']. exists root, m'. split; [reflexivity|].
  destruct (@create_compartment_pagetable_exact ref_bits ref_bits_ok ref_alloc ref_alloc_ok SmallPages
    example_predefined example_stacks ∅ ∅ root m') as (lab' & _ & _ & _ & _ & Ha & _);
    [apply empty_wf|apply entries_okb; vm_compute; reflexivity| |exact E|exact Ha].
  repeat (constructor; [discriminate|]). constructor.
Defined.

Lemma add_to_kernel_pagetable_exact_witness :
  exists m', @add_to_kernel_pagetable ref_bits ref_alloc SmallPages 0x1000 0x5000 0x2000 PT_KERNEL_WRITE
      example_mem = Done m' /\
    hw_access SmallPages 3 m' 0x1000 0x6008 = Some (0x6008, true, false).
Proof.
  run_done (@add_to_kernel_pagetable ref_bits ref_alloc SmallPages 0x1000 0x5000 0x2000
    PT_KERNEL_WRITE example_mem) E. exists a. split; [reflexivity|].
  destruct (@add_to_kernel_pagetable_exact ref_bits ref_bits_ok ref_alloc ref_alloc_ok SmallPages
    example_mem (example_lab true) (proj1 (example_wf _ _)) 0x1000 0x5000 0x2000 PT_KERNEL_WRITE
    (proj2 (example_wf SmallPages true))) as (_ & _ & Hd); [lia..|].
  destruct (Hd a E) as [lab' [_ _ _ Ha _]]. apply (Ha 0x6008). unfold canonical. lia.
Defined.

Lemma add_to_compartment_pagetable_exact_witness :
  exists m', @add_to_compartment_pagetable ref_bits ref_alloc SmallPages 0x1000 0x5000 0x2000
      PT_COMPARTMENT_WRITE example_mem = Done m' /\
    hw_access SmallPages 3 m' 0x1000 0x6008 = Some (0x6008, true, true).
Proof.
  run_done (@add_to_compartment_pagetable ref_bits ref_alloc SmallPages 0x1000 0x5000 0x2000
    PT_COMPARTMENT_WRITE example_mem) E. exists a. split; [reflexivity|].
  destruct (@add_to_compartment_pagetable_exact ref_bits ref_bits_ok ref_alloc ref_alloc_ok SmallPages
    example_mem (example_lab false) (proj1 (example_wf _ _)) 0x1000 0x5000 0x2000 PT_COMPARTMENT_WRITE
    (proj2 (example_wf SmallPages false))) as (_ & _ & Hd); [lia..|].
  destruct (Hd a E) as [lab' [_ _ _ Ha _]]. apply (Ha 0x6008). unfold canonical. lia.
Defined.

Lemma remove_from_compartment_pagetable_exact_witness :
  exists m', @remove_from_compartment_pagetable ref_bits SmallPages 0x2000 0x1000 0x5000
      0x2000 example_mem = Done m' /\ hw_access SmallPages 3 m' 0x1000 0x6008 = None.
Proof.
  run_done (@remove_from_compartment_pagetable ref_bits SmallPages 0x2000 0x1000 0x5000 0x2000
    example_mem) E. exists a. split; [reflexivity|].
  destruct (@remove_from_compartment_pagetable_exact ref_bits ref_bits_ok SmallPages example_mem
    (example_lab false) (proj1 (example_wf _ _)) 0x2000 0x1000 0x5000 0x2000
    (proj2 (example_wf SmallPages false))) as (_ & _ & Hd); [lia..|].
  destruct (Hd a E) as [lab' [_ _ _ Ha _]]. apply (Ha 0x6008). unfold canonical. lia.
Defined.

Lemma get_kernel_pagetable_entry_walk_witness :
  get_kernel_pagetable_entry LargePages 0x1000 0x200000 example_mem =
    walk LargePages (root_depth LargePages) example_mem 0x1000 0x200000.
Proof.
  exact (get_kernel_pagetable_entry_walk LargePages example_mem (example_lab true)
    (proj1 (example_wf _ _)) 0x1000 0x200000 (proj2 (example_wf LargePages true))).
Defined.

Lemma deallocate_compartment_pagetable_safe_witness :
  deallocate_compartment_pagetable SmallPages 0x1000 example_mem !! 0x1000 = None.
Proof.
  exact (proj1 (deallocate_compartment_pagetable_safe SmallPages example_mem (example_lab false)
    (proj1 (example_wf _ _)) 0x1000 (proj2 (example_wf SmallPages false)))).
Defined.

(** The table of a fresh compartment has four nodes, of which three survive its
    release. *)
Lemma deallocate_keeps_persistent_witness :
  exists root m', @create_compartment_pagetable ref_bits ref_alloc SmallPages example_predefined
      example_stacks ∅ = Done (root, m') /\
    size m' = 4%nat /\ deallocate_compartment_pagetable SmallPages root m' = delete root m'.
Proof.
  run_done (@create_compartment_pagetable ref_bits ref_alloc SmallPages example_predefined
    example_stacks ∅) E. destruct a as [root m']. exists root, m'. split; [reflexivity|].
  assert ((match @create_compartment_pagetable ref_bits ref_alloc SmallPages example_predefined
    example_stacks ∅ with
    | Done (root, m') => Nat.eqb (size m') 4 && forallb (fun i =>
        (pt_read m' root i =? 0) || is_persistent (pt_read m' root i)) entry_indices
    | _ => false end) = true) as Hc by (vm_compute; reflexivity).
  rewrite E in Hc. apply andb_true_iff in Hc as [Hs Hf].
  split; [apply Nat.eqb_eq; exact Hs|]. apply deallocate_keeps_persistent.
  intros i Hi. rewrite forallb_forall in Hf. specialize (Hf i).
  rewrite orb_true_iff, Z.eqb_eq in Hf. apply Hf. unfold entry_indices. apply in_map_iff.
  exists (Z.to_nat i). rewrite in_seq. change (Z.to_nat pagetable_entry_count) with 512%nat. lia.
Defined.
