(* ===== verification/SevTable.v ===== *)
(** * The kernel's table under SEV (arch/x86_64/hv_sev.cc)

    Besides the generic regions, [setup_pagetable_sev] maps the memory above the
    virtual top of memory and the pages that the loader left for the guest. *)

From S2P Require Import Prelude External Address Heap PageTable PageTableWf PageTableOps PageTableProps.

Definition SEV_SECRET_PAGE_ADDRESS : Z := 0x301000.
Definition UNMEASURED_LOADER_DATA_ADDRESS : Z := 0x302000.
Definition SEV_VMSA_SETTINGS_ADDRESS : Z := 0x303000.

Section Setup.
Context `{SnmallocBits, NodeAllocator} (cfg : page_config).
(** The image, the local APIC, the shared range, the heap and the interrupt stacks. *)
Context (elf_start elf_writable_start heap_start local_apic_mapping : Z) (io_shared_range : span).
Context (hr : HeapRanges) (interrupt_stack_map : list MapEntry).

Definition EXTRA_DATA_RANGE : AddressRange :=
  align_broaden (PAGE_SIZE cfg) (range_of_bounds SEV_SECRET_PAGE_ADDRESS SEV_VMSA_SETTINGS_ADDRESS).

(** Loading the table into the control register has no counterpart here. *)
Definition setup_pagetable_generic (m : pt_mem) : outcome (Z * pt_mem) :=
  create_kernel_page_table cfg elf_start elf_writable_start heap_start local_apic_mapping io_shared_range
    hr interrupt_stack_map m.

Definition setup_pagetable_sev (above_vtom_memory_range : span) (m : pt_mem) : outcome (Z * pt_mem) :=
  let* r := setup_pagetable_generic m in
  let '(kernel_pagetable, m1) := r in
  let* m2 := (if negb (span_size above_vtom_memory_range =? 0)
              then add_to_kernel_pagetable cfg kernel_pagetable (span_data above_vtom_memory_range)
                     (span_size above_vtom_memory_range) PT_KERNEL_WRITE m1
              else Done m1) in
  let* m3 := add_to_kernel_pagetable cfg kernel_pagetable (start EXTRA_DATA_RANGE)
               (range_size EXTRA_DATA_RANGE) PT_KERNEL_READ m2 in
  Done (kernel_pagetable, m3).

(** The regions in the order in which they are mapped. *)
Definition extra_regions (above : span) : list MapEntry :=
  (if negb (span_size above =? 0) then [mkMapEntry (range_of_span above) PT_KERNEL_WRITE] else []) ++
  [mkMapEntry EXTRA_DATA_RANGE PT_KERNEL_READ].

Definition sev_regions (above : span) : list MapEntry :=
  kernel_regions cfg elf_start elf_writable_start heap_start local_apic_mapping io_shared_range hr
    interrupt_stack_map ++ extra_regions above.

End Setup.

Section Facts.
Context `{SnmallocBits, !SnmallocBitsOk, NodeAllocator, !NodeAllocatorOk} (cfg : page_config).

Lemma extra_data_range : EXTRA_DATA_RANGE cfg =
  match cfg with SmallPages => mkRange 0x301000 0x303000 | LargePages => mkRange 0x200000 0x400000 end.
Proof.
  unfold EXTRA_DATA_RANGE, align_broaden. cbn zeta. pose proof (page_size_pow2 cfg) as Hp.
  rewrite align_down_eq, align_up_eq; try done; destruct cfg; try reflexivity;
    vm_compute; repeat split; discriminate.
Qed.

Lemma setup_sev_eq es ews hs apic io hr ist above m root m' :
  Forall span_wf (additional hr) -> span_wf above ->
  setup_pagetable_sev cfg es ews hs apic io hr ist above m = Done (root, m') ->
  exists m0, alloc_pagetable_node true m = Done (root, m0) /\
    kernel_initializer_from_map cfg root (sev_regions cfg es ews hs apic io hr ist above) m0 = Done m'.
Proof.
  intros Hadd (Ha1 & Ha2 & Ha3) Hs. unfold setup_pagetable_sev, setup_pagetable_generic in Hs.
  rewrite create_kernel_eq in Hs by done. apply obind_done in Hs as ([p m1] & Hg & Hs).
  apply obind_done in Hg as ([p0 m0] & Hal & Hg). apply obind_done in Hg as (m1' & Hk & [= <- <-]).
  cbn [fst snd] in Hk. apply obind_done in Hs as (m2 & Hab & Hs). apply obind_done in Hs as (m3 & Hex & Hs).
  injection Hs as -> <-. exists m0. split; [done|]. unfold kernel_initializer_from_map in *.
  unfold sev_regions, extra_regions. rewrite ofold_app, Hk. cbn [obind].
  rewrite ofold_app. destruct (negb _).
  - rewrite !ofold_singleton. cbn [map_range map_perm]. rewrite range_of_span_wf by done. cbn [start end_].
    replace (span_data above + span_size above - span_data above) with (span_size above) by lia.
    rewrite u64_small by (unfold is_u64; lia). rewrite Hab. cbn [obind]. rewrite ofold_singleton. exact Hex.
  - cbn [ofold obind] in *. injection Hab as ->. cbn [map_range map_perm]. unfold range_size in Hex.
    by rewrite Hex.
Qed.

Lemma map_access_outside k l va old :
  Forall (fun e => in_bounds (start (map_range e)) (end_ (map_range e)) va = false) l ->
  map_access k l va old = old.
Proof.
  revert old; induction l as [|e l IH]; intros old Hl; [done|].
  apply Forall_cons in Hl as [He Hl]. unfold map_access. cbn [fold_left]. rewrite He. by apply IH.
Qed.

(** The loader's pages are mapped last. *)
Lemma sev_regions_extra es ews hs apic io hr ist above va :
  in_bounds (start (EXTRA_DATA_RANGE cfg)) (end_ (EXTRA_DATA_RANGE cfg)) va = true ->
  map_access true (sev_regions cfg es ews hs apic io hr ist above) va None = Some (va, false, false).
Proof.
  intros Hin. unfold sev_regions, extra_regions. rewrite app_assoc, map_access_app. unfold map_access at 1.
  cbn [fold_left map_range map_perm]. by rewrite Hin.
Qed.

(** Under SEV the kernel's table is the map of the generic regions, the memory
    above the virtual top of memory and the loader's pages, and nothing else; the secret
    page and the loader's data are readable and not writable. The page with the
    settings for new cores is mapped only with 2 MB pages: the range that should cover all three
    pages ends where the third begins, so with 4 kB pages the settings have only the rights
    that the generic regions give them, which is none below the image. *)
Theorem setup_pagetable_sev_exact es ews hs apic io hr ist above m lab root m' :
  pt_wf cfg m lab -> Forall span_wf (additional hr) -> span_wf above ->
  Forall (fun e => region_ok (map_range e)) (sev_regions cfg es ews hs apic io hr ist above) ->
  setup_pagetable_sev cfg es ews hs apic io hr ist above m = Done (root, m') ->
  let rights := hw_access cfg (root_depth cfg) m' root in
  (exists lab', pt_wf cfg m' lab' /\ table lab' root true) /\
  (forall va, canonical va ->
     rights va = map_access true (sev_regions cfg es ews hs apic io hr ist above) va None) /\
  (forall va, SEV_SECRET_PAGE_ADDRESS <= va < SEV_VMSA_SETTINGS_ADDRESS -> rights va = Some (va, false, false)) /\
  (cfg <> SmallPages -> rights SEV_VMSA_SETTINGS_ADDRESS = Some (SEV_VMSA_SETTINGS_ADDRESS, false, false)) /\
  (cfg = SmallPages ->
   in_bounds (span_data above) (span_data above + span_size above) SEV_VMSA_SETTINGS_ADDRESS = false ->
   rights SEV_VMSA_SETTINGS_ADDRESS =
     map_access true (kernel_regions cfg es ews hs apic io hr ist) SEV_VMSA_SETTINGS_ADDRESS None) /\
  (forall r k va, table lab r k -> canonical va ->
     hw_access cfg (root_depth cfg) m' r va = hw_access cfg (root_depth cfg) m r va).
Proof.
  intros Hwf Hadd Hab Hreg Hs rights. destruct (setup_sev_eq _ _ _ _ _ _ _ _ _ _ _ Hadd Hab Hs) as (m0 & Ha & Hi).
  destruct (kernel_table_of_regions cfg _ _ _ _ _ _ Hwf Hreg Ha Hi) as (lab' & Hw & _ & Ht & Hacc & _ & Hoth).
  assert (forall va, start (EXTRA_DATA_RANGE cfg) <= va < end_ (EXTRA_DATA_RANGE cfg) -> va < 2 ^ 48 ->
    0 <= va -> rights va = Some (va, false, false)) as Hextra.
  { intros va Hva Hm Hz. unfold rights. rewrite Hacc by (unfold canonical; lia).
    by apply sev_regions_extra, in_bounds_spec. }
  rewrite extra_data_range in Hextra.
  unfold SEV_SECRET_PAGE_ADDRESS, SEV_VMSA_SETTINGS_ADDRESS.
  split_and!; [by exists lab'|done| | | |done].
  - intros va Hva. apply Hextra; [destruct cfg; cbn|..]; lia.
  - intros Hc. apply Hextra; [destruct cfg; [done|cbn]|..]; lia.
  - intros Hc Hab'. unfold rights. rewrite Hacc by (unfold canonical; lia). unfold sev_regions.
    rewrite map_access_app. apply map_access_outside. unfold extra_regions. apply Forall_app. split.
    + destruct (negb _); repeat constructor. cbn [map_range]. by rewrite range_of_span_wf by apply Hab.
    + repeat constructor. cbn [map_range]. rewrite extra_data_range, Hc. reflexivity.
Qed.

End Facts.

(** ** Witness *)

(** An image at 0x600000 with 4 kB pages and 2 MB above the virtual top of memory. *)
Definition example_sev_heap : HeapRanges := mkHeap (Span 0x603000 0x2000) (replicate 32 (Span 0 0)) 0.

Lemma setup_pagetable_sev_exact_witness :
  exists root m', @setup_pagetable_sev ref_bits ref_alloc SmallPages 0x600000 0x601000 0x603000 0
      (Span 0x700000 0x1000) example_sev_heap [] (Span 0x800000 0x2000) ∅ = Done (root, m') /\
    hw_access SmallPages 3 m' root SEV_SECRET_PAGE_ADDRESS = Some (SEV_SECRET_PAGE_ADDRESS, false, false) /\
    hw_access SmallPages 3 m' root SEV_VMSA_SETTINGS_ADDRESS = None.
Proof.
  run_done (@setup_pagetable_sev ref_bits ref_alloc SmallPages 0x600000 0x601000 0x603000 0
      (Span 0x700000 0x1000) example_sev_heap [] (Span 0x800000 0x2000) ∅) E. destruct a as [root m'].
  exists root, m'. split; [reflexivity|].
  destruct (@setup_pagetable_sev_exact ref_bits ref_bits_ok ref_alloc ref_alloc_ok SmallPages
    0x600000 0x601000 0x603000 0 (Span 0x700000 0x1000) example_sev_heap [] (Span 0x800000 0x2000) ∅ ∅ root m')
    as (_ & _ & Hs & _ & Hn & _);
    [apply empty_wf|constructor|unfold span_wf; cbn; lia|apply regions_okb; vm_compute; reflexivity|exact E|].
  split; [apply Hs; unfold SEV_SECRET_PAGE_ADDRESS, SEV_VMSA_SETTINGS_ADDRESS; lia|].
  etransitivity; [apply Hn; reflexivity|]. vm_compute. reflexivity.
Defined.
