(* ===== verification/Ownership.v ===== *)
(** * Compartment ownership of memory (include/public/snmalloc/snmalloc.h)

    The page map from chunks to owners, the intrusive list that links the chunks
    of a compartment, and the range component that keeps both in step with the
    compartment's page table. The page map proper is snmalloc's: it gives every
    chunk of [2 ^ MIN_OWNERSHIP_BITS] bytes one entry, so an entry is addressed
    here by the index of its chunk. *)

From S2P Require Import Prelude External Address Heap PageTable.

(** [CompartmentOwner] wraps an address; 0 is [CompartmentOwner::null()]. *)
Definition CompartmentOwner : Type := Z.
Definition null_owner : CompartmentOwner := 0.

(** ** The store of list nodes *)

(** A list node is the head of a range component, [inl h], or the entry of a
    chunk, [inr c]. *)
Notation "'node'" := (Z + Z)%type (only parsing).

(** [next] and [prev] of every node, null where absent, and the owners. *)
Record OwnStore : Type := mkOwn {
  nexts : gmap node node;
  prevs : gmap node node;
  owners : gmap Z Z;
}.

Definition own_initial : OwnStore := mkOwn ∅ ∅ ∅.

Definition get_owner_of (st : OwnStore) (c : Z) : CompartmentOwner := default null_owner (owners st !! c).

Definition set_next (a b : node) (st : OwnStore) : OwnStore :=
  mkOwn (<[a := b]> (nexts st)) (prevs st) (owners st).
Definition set_prev (a b : node) (st : OwnStore) : OwnStore :=
  mkOwn (nexts st) (<[a := b]> (prevs st)) (owners st).
Definition set_chunk_owner (c : Z) (o : CompartmentOwner) (st : OwnStore) : OwnStore :=
  mkOwn (nexts st) (prevs st) (<[c := o]> (owners st)).

(** ** List operations; the [invariant()] calls are debug assertions *)

(** [Entry::remove]; a null [prev] beside a [next] would be dereferenced. *)
Definition entry_remove (c : Z) (st : OwnStore) : outcome OwnStore :=
  match nexts st !! inr c with
  | None => Done st
  | Some n =>
      match prevs st !! inr c with
      | None => Kabort
      | Some p => Done (set_next p n (set_prev n p st))
      end
  end.

Definition clear_owner (c : Z) (st : OwnStore) : OwnStore := set_chunk_owner c null_owner st.

Definition lazy_init (h : Z) (st : OwnStore) : OwnStore :=
  match nexts st !! inl h with
  | None => set_prev (inl h) (inl h) (set_next (inl h) (inl h) st)
  | Some _ => st
  end.

Definition head_add (h c : Z) (st : OwnStore) : outcome OwnStore :=
  let st1 := lazy_init h st in
  let st2 := set_prev (inr c) (inl h) st1 in
  match nexts st2 !! inl h with
  | None => Kabort
  | Some n =>
      let st3 := set_next (inr c) n st2 in
      let st4 := set_prev n (inr c) st3 in
      Done (set_next (inl h) (inr c) st4)
  end.

(** [Head::forall] for a callback on a larger state [S] that holds the store. *)
Fixpoint forall_loop {S} (store : S -> OwnStore) (f : Z -> S -> outcome S) (fuel : nat)
  (h : Z) (curr : node) (s : S) : outcome S :=
  if decide (curr = inl h) then Done s
  else match fuel with
  | O => Hang
  | Datatypes.S fuel' =>
      match nexts (store s) !! curr, curr with
      | Some n, inr c => let* s' := f c s in forall_loop store f fuel' h n s'
      | _, _ => Kabort
      end
  end.

(** ** Ownership of address ranges *)

Section Ownership.
Context (MIN_OWNERSHIP_BITS : Z).

Definition MIN_OWNERSHIP_SIZE : Z := 2 ^ MIN_OWNERSHIP_BITS.

(** The chunk of an address: the index of its page map entry. *)
Definition chunk_of (a : Z) : Z := a / MIN_OWNERSHIP_SIZE.

Definition get_monza_owner (st : OwnStore) (a : Z) : CompartmentOwner := get_owner_of st (chunk_of a).

(** The number of iterations of the loops over chunks. *)
Definition chunk_fuel (size : Z) : nat := Z.to_nat (size / MIN_OWNERSHIP_SIZE + 1).

(** [error] stops the machine. *)
Definition add_monza_owner_at (owner : CompartmentOwner) (head : option Z) (a : Z) (st : OwnStore)
  : outcome OwnStore :=
  let c := chunk_of a in
  if negb (get_owner_of st c =? null_owner) then Kabort
  else
    let st1 := set_chunk_owner c owner st in
    match head with Some h => head_add h c st1 | None => Done st1 end.

Definition chunk_loop {S} (body : Z -> S -> outcome S) (p size : Z) (s : S) : outcome S :=
  let* r := while_loop (chunk_fuel size) (fun r => fst r <? u64 (p + size))
    (fun r => let* s' := body (fst r) (snd r) in Done (u64 (fst r + MIN_OWNERSHIP_SIZE), s'))
    (p, s) in
  Done (snd r).

Definition add_monza_owner (p size : Z) (owner : CompartmentOwner) (head : option Z) (st : OwnStore)
  : outcome OwnStore :=
  chunk_loop (add_monza_owner_at owner head) p size st.

Definition remove_monza_owner_at (owner : CompartmentOwner) (a : Z) (st : OwnStore)
  : outcome OwnStore :=
  let c := chunk_of a in
  if negb (get_owner_of st c =? owner) then Kabort
  else entry_remove c (clear_owner c st).

Definition remove_monza_owner (p size : Z) (owner : CompartmentOwner) (st : OwnStore)
  : outcome OwnStore :=
  chunk_loop (remove_monza_owner_at owner) p size st.

(** The early return of the loop is the flag. *)
Definition validate_owner_range (st : OwnStore) (owner : CompartmentOwner) (p size : Z)
  : outcome bool :=
  let* r := while_loop (chunk_fuel size) (fun r => snd r && (fst r <? u64 (p + size)))
    (fun r => if get_monza_owner st (fst r) =? owner
              then Done (u64 (fst r + MIN_OWNERSHIP_SIZE), true)
              else Done (fst r, false))
    (p, true) in
  Done (snd r).

(** [sizeof_T] is [sizeof(T)]. *)
Definition validate_owner (st : OwnStore) (owner : CompartmentOwner) (sizeof_T ptr size : Z)
  : outcome bool :=
  validate_owner_range st owner ptr (u64 (sizeof_T * size)).

(** ** The range component *)

(** [MonzaRange::Type]: [r_head] identifies its list head. *)
Record MonzaRange : Type := mkMonzaRange {
  r_head : Z;
  r_owner : CompartmentOwner;
  r_root : Z;
}.

(** The calls it makes into snmalloc: a default entry for a range in the allocator's
    page map, and a range given back to the parent range. *)
Inductive backend_call : Type :=
| SetMetaentry (p size : Z)
| ParentDealloc (base size : Z).

(** What its operations change: the store, the page tables, and the calls made. *)
Record RangeState : Type := mkRS {
  rs_own : OwnStore;
  rs_pt : pt_mem;
  rs_calls : list backend_call;
}.

Definition with_own (st : RangeState) (o : OwnStore) : RangeState :=
  mkRS o (rs_pt st) (rs_calls st).
Definition with_pt (st : RangeState) (m : pt_mem) : RangeState :=
  mkRS (rs_own st) m (rs_calls st).

Context `{SnmallocBits, NodeAllocator} (cfg : page_config) (kernel_pagetable : Z).

(** [range] is what the parent's [alloc_range] returned, 0 for null. *)
Definition alloc_range (r : MonzaRange) (range size : Z) (st : RangeState) : outcome (Z * RangeState) :=
  if negb (range =? 0) && negb (null_owner =? r_owner r) then
    let* o := add_monza_owner range size (r_owner r) (Some (r_head r)) (rs_own st) in
    let* m := add_to_compartment_pagetable cfg (r_root r) range size PT_COMPARTMENT_WRITE (rs_pt st) in
    Done (range, mkRS o m (rs_calls st))
  else Done (range, st).

Definition dealloc_range (r : MonzaRange) (base size : Z) (st : RangeState) : outcome RangeState :=
  let* st1 :=
    (if negb (null_owner =? r_owner r) then
       let* m := remove_from_compartment_pagetable cfg kernel_pagetable (r_root r) base size (rs_pt st) in
       let* o := remove_monza_owner base size (r_owner r) (rs_own st) in
       Done (mkRS o m (rs_calls st))
     else Done st) in
  Done (mkRS (rs_own st1) (rs_pt st1) (rs_calls st1 ++ [ParentDealloc base size])).

(** The body of [dealloc_all]; [get_address] of an entry is its chunk's. *)
Definition dealloc_entry (r : MonzaRange) (c : Z) (st : RangeState) : outcome RangeState :=
  let p := c * MIN_OWNERSHIP_SIZE in
  let st0 := mkRS (rs_own st) (rs_pt st) (rs_calls st ++ [SetMetaentry p MIN_OWNERSHIP_SIZE]) in
  let* st1 := dealloc_range r p MIN_OWNERSHIP_SIZE st0 in
  Done (with_own st1 (clear_owner c (rs_own st1))).

(** [fuel] bounds the length of the list. *)
Definition dealloc_all (fuel : nat) (r : MonzaRange) (st : RangeState) : outcome RangeState :=
  let st0 := with_own st (lazy_init (r_head r) (rs_own st)) in
  match nexts (rs_own st0) !! inl (r_head r) with
  | Some n => forall_loop rs_own (dealloc_entry r) fuel (r_head r) n st0
  | None => Kabort
  end.

(** [set_owner] tests the owner it replaces. *)
Definition set_owner (r : MonzaRange) (new_owner : CompartmentOwner) (root : Z) : outcome MonzaRange :=
  if (root =? 0) && negb (null_owner =? r_owner r) then Kabort
  else Done (mkMonzaRange (r_head r) new_owner root).

(** The destructor. *)
Definition monza_range_destroy (fuel : nat) (r : MonzaRange) (st : RangeState) : outcome RangeState :=
  let* st1 := dealloc_all fuel r st in
  if negb (null_owner =? r_owner r)
  then Done (with_pt st1 (deallocate_compartment_pagetable cfg (r_root r) (rs_pt st1)))
  else Done st1.

End Ownership.
