(* ===== verification/OwnershipProps.v ===== *)
(** * Ownership: the chunk list refines a list, and ownership checks

    The doubly linked lists of [Ownership] represent duplicate-free lists of
    chunks; the range component keeps list, owners and page table in step. *)

From S2P Require Import Prelude External Address Heap PageTable PageTableWf PageTableOps.
From S2P Require Import PageTableProps Ownership.

(** ** Chains of nodes *)

Fixpoint chain (st : OwnStore) (l : list node) : Prop :=
  match l with
  | a :: ((b :: _) as l') => nexts st !! a = Some b /\ prevs st !! b = Some a /\ chain st l'
  | _ => True
  end.

(** Going round from the head through the entries back to the head. *)
Definition cycle (h : Z) (l : list Z) : list node := inl h :: map inr l ++ [inl h].

(** The list with head [h] holds the chunks [l]; an empty one may not have been
    initialised yet. *)
Definition list_repr (st : OwnStore) (h : Z) (l : list Z) : Prop :=
  NoDup l /\ (chain st (cycle h l) \/ (l = [] /\ nexts st !! inl h = None)).

Lemma chain_app st l1 x l2 : chain st (l1 ++ x :: l2) <-> chain st (l1 ++ [x]) /\ chain st (x :: l2).
Proof.
  induction l1 as [|a l1 IH]; [cbn; tauto|].
  destruct l1 as [|b l1]; cbn in *; [tauto|]. rewrite IH. tauto.
Qed.

Lemma chain_cons2 st a b l :
  chain st (a :: b :: l) <-> nexts st !! a = Some b /\ prevs st !! b = Some a /\ chain st (b :: l).
Proof. done. Qed.

Lemma chain_ext st st' l :
  (forall a, a ∈ removelast l -> nexts st' !! a = nexts st !! a) ->
  (forall b, b ∈ tl l -> prevs st' !! b = prevs st !! b) ->
  chain st l -> chain st' l.
Proof.
  induction l as [|a l IH]; [done|]. destruct l as [|b l]; [done|].
  intros Hn Hp (H1 & H2 & H3). rewrite chain_cons2.
  rewrite Hn by (cbn; by left). rewrite Hp by (cbn; by left).
  split_and!; try done. apply IH; [| |done].
  - intros x Hx. apply Hn. cbn in *. by right.
  - intros x Hx. apply Hp. cbn in *. by right.
Qed.

(** Linking two chains at [p] and [n]. *)
Lemma chain_link st A p n B :
  chain st (A ++ [p]) -> chain st (n :: B) ->
  p ∉ A -> n ∉ tl (A ++ [p]) -> p ∉ removelast (n :: B) -> n ∉ B ->
  chain (set_next p n (set_prev n p st)) (A ++ p :: n :: B).
Proof.
  intros HA HB Hp1 Hn1 Hp2 Hn2. apply chain_app. split.
  - eapply chain_ext; [| |exact HA].
    + intros a Ha. rewrite removelast_last in Ha. cbn. rewrite lookup_insert_ne; [done|]. by intros ->.
    + intros b Hb. cbn. rewrite lookup_insert_ne; [done|]. by intros ->.
  - rewrite chain_cons2. cbn [set_next set_prev nexts prevs]. rewrite !lookup_insert_eq.
    split_and!; try done. eapply chain_ext; [| |exact HB].
    + intros a Ha. cbn [set_next set_prev nexts]. rewrite lookup_insert_ne; [done|]. by intros ->.
    + intros b Hb. cbn [set_next set_prev prevs]. rewrite lookup_insert_ne; [done|]. by intros ->.
Qed.

Lemma elem_of_map_inr (c : Z) (l : list Z) : (inr c : node) ∈ (map inr l : list node) <-> c ∈ l.
Proof.
  rewrite !list_elem_of_In, in_map_iff. split; [intros (x & [= ->] & ?); done|by exists c].
Qed.

Lemma inl_not_map (h : Z) (l : list Z) : (inl h : node) ∉ (map inr l : list node).
Proof. rewrite list_elem_of_In, in_map_iff. by intros (x & ? & _). Qed.

(** ** Refinement of the list operations *)

Lemma lazy_init_repr st h l :
  list_repr st h l -> NoDup l /\ chain (lazy_init h st) (cycle h l).
Proof.
  intros [Hn Hc]. split; [done|]. unfold lazy_init. destruct Hc as [Hc|[-> Hnone]].
  - assert (exists n, nexts st !! inl h = Some n) as [n ->]; [|done].
    destruct l; cbn in Hc; destruct Hc; by eauto.
  - rewrite Hnone. cbn. rewrite !lookup_insert_eq. done.
Qed.

(** [Head::add] puts an entry that is not in the list at its front. *)
Lemma head_add_repr st h l c :
  list_repr st h l -> c ∉ l ->
  exists st', head_add h c st = Done st' /\ list_repr st' h (c :: l) /\ owners st' = owners st.
Proof.
  intros Hr Hc. destruct (lazy_init_repr _ _ _ Hr) as [Hnd Hch]. unfold head_add.
  set (st1 := lazy_init h st) in *.
  assert (owners st1 = owners st) as Ho by (unfold st1, lazy_init; by destruct (nexts st !! inl h)).
  destruct (map inr l ++ [inl h]) as [|n r] eqn:Erest; [by destruct l|].
  assert (chain st1 (inl h :: n :: r)) as Hch' by (unfold cycle in Hch; by rewrite Erest in Hch).
  destruct Hch' as (Hnext & Hprev & Hrest). cbn [set_prev nexts]. rewrite Hnext.
  eexists. split; [reflexivity|]. split; [|exact Ho].
  split; [by constructor|]. left. unfold cycle. cbn [map app]. rewrite Erest.
  assert (n ∉ r) as Hnr.
  { destruct l as [|x l]; cbn in Erest; injection Erest as <- <-; [apply not_elem_of_nil|].
    apply NoDup_cons in Hnd as [Hx _]. rewrite elem_of_app, elem_of_map_inr, list_elem_of_singleton.
    by intros [?|?]. }
  assert (inr c ∉ n :: r) as Hcr.
  { rewrite <- Erest, elem_of_app, elem_of_map_inr, list_elem_of_singleton. by intros [?|?]. }
  assert (inl h ∉ removelast (n :: r)) as Hhr.
  { rewrite <- Erest, removelast_last. apply inl_not_map. }
  rewrite chain_cons2, chain_cons2. cbn [set_next set_prev nexts prevs].
  apply not_elem_of_cons in Hcr as [Hcn Hcr].
  split; [apply lookup_insert_eq|].
  split; [rewrite lookup_insert_ne by congruence; apply lookup_insert_eq|].
  split; [rewrite lookup_insert_ne by congruence; apply lookup_insert_eq|].
  split; [apply lookup_insert_eq|].
  eapply chain_ext; [| |exact Hrest]; cbn [set_next set_prev nexts prevs].
  - intros a Ha. rewrite !lookup_insert_ne; [done| |]; intros <-; [|done].
    assert (inr c ∈ n :: r) as Hin; [|apply elem_of_cons in Hin as [?|?]; done].
    rewrite <- Erest in Ha |- *. rewrite removelast_last in Ha. apply elem_of_app. by left.
  - intros b Hb. cbn in Hb. rewrite !lookup_insert_ne; [done| |]; by intros <-.
Qed.

(** [Entry::remove] takes an entry out of the list it is in. *)
Lemma entry_remove_repr st h l1 c l2 :
  list_repr st h (l1 ++ c :: l2) ->
  exists st', entry_remove c st = Done st' /\ list_repr st' h (l1 ++ l2) /\ owners st' = owners st.
Proof.
  intros [Hnd [Hch|[Habs _]]]; [|by destruct l1].
  apply NoDup_app in Hnd as (Hn1 & Hd1 & Hn2). apply NoDup_cons in Hn2 as [Hc2 Hn2].
  unfold cycle in Hch. rewrite map_app, <- app_assoc, app_comm_cons in Hch.
  change (map inr (c :: l2) ++ [inl h]) with (inr c :: (map inr l2 ++ [inl h]) : list node) in Hch.
  destruct (exists_last (l := inl h :: map inr l1)) as (A & p & HA); [done|]. rewrite HA in Hch.
  destruct (map inr l2 ++ [inl h]) as [|n B] eqn:HB; [by destruct l2|].
  rewrite <- app_assoc in Hch. apply chain_app in Hch as [HcA Hch]. cbn [app] in Hch.
  destruct Hch as (Hnp & Hpc & Hch). destruct Hch as (Hnc & Hpn & HcB).
  unfold entry_remove. rewrite Hnc, Hpc. eexists. split; [reflexivity|]. split; [|done].
  split.
  { apply NoDup_app. split_and!; try done. intros x Hx Hx2. apply (Hd1 x Hx). by right. }
  left. unfold cycle. rewrite map_app, <- app_assoc, app_comm_cons, HA, HB, <- app_assoc.
  assert (forall x, x ∈ l1 -> x ∉ l2) as Hdis by (intros x H1 H2; apply (Hd1 x H1); by right).
  assert (NoDup (A ++ [p])) as HndA.
  { rewrite <- HA. constructor; [apply inl_not_map|]. by apply NoDup_fmap_2; [apply _|]. }
  apply NoDup_app in HndA as (_ & HpA & _).
  apply chain_link; try done.
  - intros Hp. apply (HpA p Hp). by left.
  - rewrite <- HA. cbn [tl]. destruct l2 as [|x l2]; cbn in HB; injection HB as <- <-.
    + apply inl_not_map.
    + rewrite elem_of_map_inr. intros Hx. apply (Hdis x Hx). by left.
  - rewrite <- HB, removelast_last. intros Hp. assert (p ∈ inl h :: map inr l1) as Hp1
      by (rewrite HA; apply elem_of_app; right; by left).
    apply elem_of_cons in Hp1 as [->|Hp1]; [by apply inl_not_map in Hp|].
    rewrite list_elem_of_In, in_map_iff in Hp1. destruct Hp1 as (x & <- & Hx%list_elem_of_In).
    apply elem_of_map_inr in Hp. by apply (Hdis x).
  - destruct l2 as [|x l2]; cbn in HB; injection HB as <- <-; [apply not_elem_of_nil|].
    apply NoDup_cons in Hn2 as [Hx _]. rewrite elem_of_app, elem_of_map_inr, list_elem_of_singleton.
    by intros [?|?].
Qed.

(** ** Chunks *)

Section Chunks.
Context (bits : Z) (cfg : page_config).
Hypothesis Hbits : page_bits cfg <= bits < 48.

Notation "'SZ'" := (MIN_OWNERSHIP_SIZE bits).

Lemma size_pos : 4096 <= SZ < 2 ^ 48.
Proof.
  unfold MIN_OWNERSHIP_SIZE. split; [|apply Z.pow_lt_mono_r; lia].
  change 4096 with (2 ^ 12). apply Z.pow_le_mono_r; [lia|]. destruct cfg; cbn in *; lia.
Qed.

Lemma page_divides_chunk : (PAGE_SIZE cfg | SZ).
Proof.
  unfold MIN_OWNERSHIP_SIZE, PAGE_SIZE. exists (2 ^ (bits - page_bits cfg)).
  rewrite <- Z.pow_add_r; [f_equal; lia|lia|destruct cfg; cbn; lia].
Qed.

(** The chunks of a range of [n] chunks. *)
Definition chunks (k : Z) (n : nat) : list Z := stride k 1 n.

Lemma elem_of_chunks k n c : c ∈ chunks k n <-> k <= c < k + Z.of_nat n.
Proof.
  unfold chunks, stride. rewrite list_elem_of_In, in_map_iff. split.
  - intros (i & <- & Hi%in_seq). lia.
  - intros Hc. exists (Z.to_nat (c - k)). rewrite in_seq. lia.
Qed.

Lemma chunk_of_mul k : chunk_of bits (k * SZ) = k.
Proof. unfold chunk_of. pose proof size_pos. apply Z.div_mul. lia. Qed.

(** On a range of whole chunks a loop visits each chunk once, in order. *)
Lemma chunk_loop_eq {S} (body : Z -> S -> outcome S) k n s :
  0 <= k -> (k + Z.of_nat n) * SZ <= 2 ^ 48 ->
  chunk_loop bits body (k * SZ) (Z.of_nat n * SZ) s =
    ofold (fun s c => body (c * SZ) s) (chunks k n) s.
Proof.
  intros Hk Hn. pose proof size_pos as Hsz. unfold chunk_loop, chunk_fuel.
  rewrite u64_small by (unfold is_u64; nia). rewrite Z.div_mul by lia.
  rewrite (while_stride body SZ n) by (nia || (destruct n; [by right|left; lia])).
  unfold chunks. clear Hn. revert k s Hk; induction n as [|n IH]; intros k s Hk; [done|].
  rewrite !stride_S. cbn [ofold]. destruct (body (k * SZ) s); cbn; [|done|done].
  replace (k * SZ + SZ) with ((k + 1) * SZ) by lia. by apply IH; lia.
Qed.

(** The chunks listed for an owner are the ones it owns. *)
Definition owned_list (st : OwnStore) (h : Z) (owner : CompartmentOwner) (l : list Z) : Prop :=
  list_repr st h l /\ forall c, c ∈ l <-> get_owner_of st c = owner.

Lemma get_set_owner st c o c' :
  get_owner_of (set_chunk_owner c o st) c' = if decide (c' = c) then o else get_owner_of st c'.
Proof.
  unfold get_owner_of. cbn. case_decide as Hc; [subst; by rewrite lookup_insert_eq|].
  by rewrite lookup_insert_ne by congruence.
Qed.

Lemma list_repr_owner st h l c o : list_repr st h l -> list_repr (set_chunk_owner c o st) h l.
Proof.
  intros [Hn Hc]. split; [done|]. destruct Hc as [Hc|?]; [left|by right].
  by eapply chain_ext; [| |exact Hc].
Qed.

(** One chunk is given to the owner: the entry must be free. *)
Lemma add_owner_at_spec st h owner l c :
  owner <> null_owner -> owned_list st h owner l ->
  if decide (get_owner_of st c = null_owner)
  then exists st', add_monza_owner_at bits owner (Some h) (c * SZ) st = Done st' /\
         owned_list st' h owner (c :: l) /\
         (forall c', get_owner_of st' c' = if decide (c' = c) then owner else get_owner_of st c')
  else add_monza_owner_at bits owner (Some h) (c * SZ) st = Kabort.
Proof.
  intros Ho [Hr Hl]. unfold add_monza_owner_at. rewrite chunk_of_mul.
  case_decide as Hc.
  - rewrite Hc, Z.eqb_refl. cbn [negb].
    destruct (head_add_repr (set_chunk_owner c owner st) h l c) as (st' & -> & Hr' & Hown).
    { by apply list_repr_owner. }
    { rewrite Hl. congruence. }
    assert (forall c', get_owner_of st' c' = if decide (c' = c) then owner else get_owner_of st c') as Hg.
    { intros c'. rewrite <- get_set_owner. unfold get_owner_of. by rewrite Hown. }
    exists st'. split; [done|]. split; [|done]. split; [done|].
    intros c'. rewrite Hg, elem_of_cons, Hl. case_decide; tauto.
  - destruct (Z.eqb_spec (get_owner_of st c) null_owner); done.
Qed.

(** One chunk is taken back: the owner must match. *)
Lemma remove_owner_at_spec st h owner l c :
  owner <> null_owner -> owned_list st h owner l ->
  if decide (c ∈ l)
  then exists st' l1 l2, remove_monza_owner_at bits owner (c * SZ) st = Done st' /\
         l = l1 ++ c :: l2 /\ owned_list st' h owner (l1 ++ l2) /\
         (forall c', get_owner_of st' c' = if decide (c' = c) then null_owner else get_owner_of st c')
  else remove_monza_owner_at bits owner (c * SZ) st = Kabort.
Proof.
  intros Ho [Hr Hl]. unfold remove_monza_owner_at. rewrite chunk_of_mul.
  case_decide as Hc.
  - pose proof Hc as Hoc. rewrite Hl in Hoc. rewrite Hoc, Z.eqb_refl. cbn [negb].
    apply list_elem_of_split in Hc as (l1 & l2 & ->).
    destruct (entry_remove_repr (clear_owner c st) h l1 c l2) as (st' & -> & Hr' & Hown).
    { by apply list_repr_owner. }
    assert (forall c', get_owner_of st' c' = if decide (c' = c) then null_owner else get_owner_of st c') as Hg.
    { intros c'. rewrite <- get_set_owner. unfold get_owner_of. by rewrite Hown. }
    exists st', l1, l2. split_and!; try done. split; [done|].
    intros c'. rewrite Hg. destruct Hr as [Hnd _].
    apply NoDup_app in Hnd as (_ & Hd & Hnd). apply NoDup_cons in Hnd as [Hn2 _].
    specialize (Hl c'). rewrite elem_of_app, elem_of_cons in Hl. rewrite elem_of_app.
    case_decide as Hcc; [|rewrite <- Hl; tauto].
    subst c'. split; [|congruence]. intros [H1|H2]; [exfalso; apply (Hd c H1); by left|done].
  - rewrite Hl in Hc. destruct (Z.eqb_spec (get_owner_of st c) owner); done.
Qed.

(** ** The ownership check *)

Lemma validate_loop st owner n : forall fuel p hi,
  0 <= p -> hi + SZ <= 2 ^ 64 -> (n <= fuel)%nat ->
  p + SZ * (Z.of_nat n - 1) < hi \/ n = 0%nat -> hi <= p + SZ * Z.of_nat n ->
  exists a, while_loop fuel (fun r => snd r && (fst r <? hi))
    (fun r => if get_monza_owner bits st (fst r) =? owner
              then Done (u64 (fst r + SZ), true) else Done (fst r, false)) (p, true) =
    Done (a, forallb (fun a => get_monza_owner bits st a =? owner) (stride p SZ n)).
Proof.
  pose proof size_pos as Hsz.
  induction n as [|n IH]; intros fuel p hi Hp Hhi Hf Hlo Hup.
  - assert ((p <? hi) = false) as Hc by (apply Z.ltb_ge; lia).
    exists p. destruct fuel; cbn; rewrite Hc; done.
  - destruct fuel as [|fuel]; [lia|]. rewrite stride_S.
    assert ((p <? hi) = true) as Hc by (apply Z.ltb_lt; destruct Hlo; [nia|lia]).
    cbn. rewrite Hc. destruct (get_monza_owner bits st p =? owner) eqn:Ho; cbn.
    + assert (p < hi) by (by apply Z.ltb_lt). rewrite u64_small by (unfold is_u64; lia).
      apply IH; lia.
    + exists p. destruct fuel; done.
Qed.

Definition chunk_count (size : Z) : nat := Z.to_nat ((size + (SZ - 1)) / SZ).

Lemma validate_owner_range_eq st owner p size :
  0 <= p -> 0 <= size -> p + size + SZ <= 2 ^ 64 ->
  validate_owner_range bits st owner p size =
    Done (forallb (fun a => get_monza_owner bits st a =? owner) (stride p SZ (chunk_count size))).
Proof.
  intros Hp Hs Hhi. pose proof size_pos as Hsz. unfold validate_owner_range, chunk_fuel.
  rewrite (u64_small (p + size)) by (unfold is_u64; lia).
  pose proof (Z.div_mod (size + (SZ - 1)) SZ ltac:(lia)) as Hd.
  pose proof (Z.mod_pos_bound (size + (SZ - 1)) SZ ltac:(lia)) as Hm.
  pose proof (Z.div_mod size SZ ltac:(lia)) as Hd'. pose proof (Z.mod_pos_bound size SZ ltac:(lia)) as Hm'.
  assert (0 <= (size + (SZ - 1)) / SZ) by (apply Z.div_pos; lia).
  assert ((size + (SZ - 1)) / SZ <= size / SZ + 1) by nia.
  destruct (validate_loop st owner (chunk_count size) (Z.to_nat (size / SZ + 1)) p (p + size))
    as [a ->]; unfold chunk_count; try lia; try done; try nia.
Qed.

Lemma forallb_stride f p n :
  forallb f (stride p SZ n) = true <-> forall i, 0 <= i < Z.of_nat n -> f (p + SZ * i) = true.
Proof.
  rewrite forallb_forall. unfold stride. setoid_rewrite in_map_iff. split.
  - intros H i Hi. apply H. exists (Z.to_nat i). rewrite in_seq. rewrite Z2Nat.id by lia. lia.
  - intros H a (i & <- & Hi%in_seq). apply H. lia.
Qed.

(** The chunk-sized strides from [p] visit every chunk of the range: so when it
    starts on a chunk boundary, and when it lies within one chunk. *)
Definition strides_cover (p size : Z) : Prop := size = 0 \/ p mod SZ + (size - 1) mod SZ < SZ.

Lemma aligned_cover p size : (SZ | p) -> strides_cover p size.
Proof.
  intros Hp. right. pose proof size_pos. rewrite (proj2 (Z.mod_divide p SZ ltac:(lia)) Hp).
  pose proof (Z.mod_pos_bound (size - 1) SZ ltac:(lia)). lia.
Qed.

Lemma validate_exact st owner p size :
  0 <= p -> 0 <= size -> p + size + SZ <= 2 ^ 64 -> strides_cover p size ->
  exists b, validate_owner_range bits st owner p size = Done b /\
    (b = true <-> forall a, p <= a < p + size -> get_monza_owner bits st a = owner).
Proof.
  intros Hp Hs Hhi Hc. pose proof size_pos as Hsz. eexists.
  rewrite validate_owner_range_eq by done. split; [reflexivity|].
  rewrite forallb_stride. unfold chunk_count, get_monza_owner.
  assert (forall i, chunk_of bits (p + SZ * i) = p / SZ + i) as Hch.
  { intros i. unfold chunk_of. rewrite Z.mul_comm. apply Z.div_add. lia. }
  assert ((size + (SZ - 1)) / SZ = (size - 1) / SZ + 1) as Hn.
  { replace (size + (SZ - 1)) with (size - 1 + 1 * SZ) by lia. apply Z.div_add. lia. }
  rewrite Z2Nat.id by (apply Z.div_pos; lia). rewrite Hn.
  pose proof (Z.div_mod (size - 1) SZ ltac:(lia)). pose proof (Z.mod_pos_bound (size - 1) SZ ltac:(lia)).
  pose proof (Z.div_mod p SZ ltac:(lia)). pose proof (Z.mod_pos_bound p SZ ltac:(lia)). split.
  - intros Hv a Ha. pose proof (Z.div_mod a SZ ltac:(lia)). pose proof (Z.mod_pos_bound a SZ ltac:(lia)).
    destruct Hc as [->|Hc]; [lia|].
    assert (p / SZ <= a / SZ) by (apply Z.div_le_mono; lia).
    specialize (Hv (a / SZ - p / SZ) ltac:(nia)). apply Z.eqb_eq in Hv.
    rewrite Hch in Hv. rewrite <- Hv. f_equal. unfold chunk_of. lia.
  - intros Hv i Hi. apply Z.eqb_eq. apply (Hv (p + SZ * i)). nia.
Qed.

(** For a range that does not wrap and whose chunks are all visited by strides
    of the chunk size from its start (it starts on a chunk boundary, or lies within
    one chunk), [validate_owner_range] always comes back and says yes exactly when
    every byte of the range belongs to the owner. *)
Theorem validate_owner_range_exact st owner p size :
  0 <= p -> 0 <= size -> p + size + SZ <= 2 ^ 64 -> strides_cover p size ->
  exists b, validate_owner_range bits st owner p size = Done b /\
    (b = true <-> forall a, p <= a < p + size -> get_monza_owner bits st a = owner).
Proof. apply validate_exact. Qed.

(** Away from a chunk boundary the check is not sound: a range of two bytes
    across the boundary passes although its second byte belongs to another
    owner, because only the chunks of the addresses [p], [p + size of a chunk],
    ... are looked at; and a range whose end wraps past 2^64 passes for any
    owner without a look at any chunk. *)
Theorem validate_owner_range_unaligned :
  (exists st owner a, SZ - 1 <= a < SZ - 1 + 2 /\ get_monza_owner bits st a <> owner /\
     validate_owner_range bits st owner (SZ - 1) 2 = Done true) /\
  (forall st owner p size, is_u64 p -> u64 (p + size) <= p ->
     validate_owner_range bits st owner p size = Done true).
Proof.
  pose proof size_pos as Hsz. split.
  - exists (mkOwn ∅ ∅ {[0 := 7; 1 := 8]}), 7, SZ. split; [lia|].
    unfold get_monza_owner, get_owner_of, chunk_of; cbn. rewrite Z.div_same by lia. split; [done|].
    rewrite validate_owner_range_eq by lia. f_equal. apply forallb_stride.
    unfold chunk_count. replace (2 + (SZ - 1)) with (1 * SZ + 1) by lia.
    rewrite Z.div_add_l, (Z.div_small 1) by lia. intros i Hi. replace i with 0 by lia.
    unfold get_monza_owner, get_owner_of, chunk_of.
    rewrite Z.mul_0_r, Z.add_0_r, Z.div_small by lia. done.
  - intros st owner p size Hp Hw. unfold validate_owner_range.
    assert ((p <? u64 (p + size)) = false) as Hc by (apply Z.ltb_ge; lia).
    destruct (chunk_fuel bits size); cbn; by rewrite Hc.
Qed.

End Chunks.

(** ** The range component *)

Lemma remove_never_aborts `{SnmallocBits} cfg depth : forall root base size m,
  remove_from_pagetable cfg depth root base size m <> Kabort.
Proof.
  induction depth as [|d IH]; intros root base size m; cbn [remove_from_pagetable]; unfold entry_loop;
    set (w := while_loop _ _ _ _);
    (assert (w <> Kabort) as Hw; [|by destruct w]); apply while_no_kabort; intros [a m0]; cbn [fst snd].
  - done.
  - case_match; [done|]. intros Habs. eapply IH.
    destruct (remove_from_pagetable _ _ _ _ _ _) eqn:E in Habs; [done|exact E|done].
Qed.

Section Range.
Context (bits : Z) (cfg : page_config) (Hbits : page_bits cfg <= bits < 48).
Context `{SnmallocBits, !SnmallocBitsOk, NodeAllocator, !NodeAllocatorOk} (kernel : Z).

Notation "'SZ'" := (MIN_OWNERSHIP_SIZE bits).

Lemma add_chunks st h owner l cs :
  owner <> null_owner -> owned_list st h owner l -> NoDup cs ->
  (Forall (fun c => get_owner_of st c = null_owner) cs ->
   exists st', ofold (fun s c => add_monza_owner_at bits owner (Some h) (c * SZ) s) cs st = Done st') /\
  forall st', ofold (fun s c => add_monza_owner_at bits owner (Some h) (c * SZ) s) cs st = Done st' ->
    Forall (fun c => get_owner_of st c = null_owner) cs /\
    owned_list st' h owner (rev cs ++ l) /\
    (forall c, get_owner_of st' c = if decide (c ∈ cs) then owner else get_owner_of st c).
Proof.
  intros Ho. revert st l; induction cs as [|c cs IH]; intros st l Hl Hnd; cbn [ofold].
  { split; [by eauto|]. intros st' [= <-]. split_and!; [constructor|done|].
    intros c. case_decide as Hc; [by apply elem_of_nil in Hc|done]. }
  apply NoDup_cons in Hnd as [Hc Hnd].
  pose proof (add_owner_at_spec bits cfg Hbits st h owner l c Ho Hl) as Hs.
  case_decide as Hnull.
  - destruct Hs as (st1 & -> & Hl1 & Hg1). cbn [obind]. destruct (IH st1 _ Hl1 Hnd) as [Hok Hdone].
    assert (forall c', c' ∈ cs -> get_owner_of st1 c' = get_owner_of st c') as Hsame.
    { intros c' Hc'. rewrite Hg1. case_decide; [subst; done|done]. }
    split.
    + intros Hall. apply Hok. apply Forall_cons in Hall as [_ Hall]. rewrite Forall_forall in *.
      intros c' Hc'. rewrite Hsame by done. auto.
    + intros st' Hst'. destruct (Hdone st' Hst') as (Hall & Hl' & Hg'). split_and!.
      * constructor; [done|]. rewrite Forall_forall in *. intros c' Hc'. rewrite <- Hsame by done. auto.
      * cbn [rev]. by rewrite <- app_assoc.
      * intros c'. rewrite Hg', Hg1. repeat case_decide; rewrite ?elem_of_cons in *; try done; tauto.
  - rewrite Hs. cbn. split; [|done]. intros Hall. by apply Forall_cons in Hall as [? _].
Qed.

(** Taking back one chunk after another. *)
Lemma remove_chunks st h owner l cs :
  owner <> null_owner -> owned_list st h owner l -> NoDup cs ->
  (Forall (fun c => c ∈ l) cs ->
   exists st', ofold (fun s c => remove_monza_owner_at bits owner (c * SZ) s) cs st = Done st') /\
  forall st', ofold (fun s c => remove_monza_owner_at bits owner (c * SZ) s) cs st = Done st' ->
    Forall (fun c => c ∈ l) cs /\
    (exists l', owned_list st' h owner l' /\ (forall c, c ∈ l' <-> c ∈ l /\ c ∉ cs)) /\
    (forall c, get_owner_of st' c = if decide (c ∈ cs) then null_owner else get_owner_of st c).
Proof.
  intros Ho. revert st l; induction cs as [|c cs IH]; intros st l Hl Hnd; cbn [ofold].
  { split; [by eauto|]. intros st' [= <-]. split_and!; [constructor| |].
    - exists l. split; [done|]. intros c. rewrite elem_of_nil. tauto.
    - intros c. case_decide as Hc; [by apply elem_of_nil in Hc|done]. }
  apply NoDup_cons in Hnd as [Hc Hnd].
  pose proof (remove_owner_at_spec bits cfg Hbits st h owner l c Ho Hl) as Hs.
  case_decide as Hin.
  - destruct Hs as (st1 & l1 & l2 & -> & Hsplit & Hl1 & Hg1). cbn [obind].
    destruct (IH st1 _ Hl1 Hnd) as [Hok Hdone].
    assert (forall c', c' ∈ l1 ++ l2 <-> c' ∈ l /\ c' <> c) as Hiff.
    { destruct Hl as [_ Hl], Hl1 as [_ Hl1]. intros c'. rewrite Hl1, Hl, Hg1.
      case_decide; [subst|tauto]. split; [congruence|tauto]. }
    split.
    + intros Hall. apply Hok. apply Forall_cons in Hall as [_ Hall]. rewrite Forall_forall in *.
      intros c' Hc'. apply Hiff. split; [auto|]. by intros ->.
    + intros st' Hst'. destruct (Hdone st' Hst') as (Hall & (l' & Hl' & Hiff') & Hg'). split_and!.
      * constructor; [done|]. rewrite Forall_forall in *. intros c' Hc'. by apply Hiff, Hall.
      * exists l'. split; [done|]. intros c'. rewrite Hiff', Hiff, not_elem_of_cons. tauto.
      * intros c'. rewrite Hg', Hg1. repeat case_decide; rewrite ?elem_of_cons in *; try done; tauto.
  - rewrite Hs. cbn. split; [|done]. intros Hall. by apply Forall_cons in Hall as [? _].
Qed.

Lemma chunks_nodup k n : NoDup (chunks k n).
Proof.
  unfold chunks, stride. apply NoDup_fmap_2; [|apply NoDup_seq]. intros x y Hxy. lia.
Qed.

Lemma chunk_range_aligned k n : (PAGE_SIZE cfg | k * SZ) /\ (PAGE_SIZE cfg | Z.of_nat n * SZ).
Proof. pose proof (page_divides_chunk bits cfg Hbits). split; by apply Z.divide_mul_r. Qed.

(** What the component keeps: the list of its owner's chunks, and its table. *)
Record range_ok (r : MonzaRange) (st : RangeState) (l : list Z) (lab : gmap Z label) : Prop := {
  ro_owner : r_owner r <> null_owner;
  ro_list : owned_list (rs_own st) (r_head r) (r_owner r) l;
  ro_wf : pt_wf cfg (rs_pt st) lab;
  ro_table : table lab (r_root r) false;
}.

Lemma alloc_range_spec r k n st l lab rg st' :
  range_ok r st l lab -> 0 < k -> (k + Z.of_nat n) * SZ <= 2 ^ 48 ->
  alloc_range bits cfg r (k * SZ) (Z.of_nat n * SZ) st = Done (rg, st') ->
  rg = k * SZ /\
  (forall c, k <= c < k + Z.of_nat n -> get_owner_of (rs_own st) c = null_owner) /\
  (forall c, get_owner_of (rs_own st') c =
     if decide (k <= c < k + Z.of_nat n) then r_owner r else get_owner_of (rs_own st) c) /\
  exists lab', range_ok r st' (rev (chunks k n) ++ l) lab' /\
    table_op cfg (r_root r) (access_of false PT_COMPARTMENT_WRITE) (k * SZ) ((k + Z.of_nat n) * SZ)
      (rs_pt st) lab (rs_pt st') lab'.
Proof.
  intros [Ho Hl Hw Ht] Hk Hn Ha. pose proof (size_pos bits cfg Hbits) as Hsz. unfold alloc_range in Ha.
  destruct (Z.eqb_spec (k * SZ) 0); [nia|]. destruct (Z.eqb_spec null_owner (r_owner r)); [congruence|].
  cbn [negb andb] in Ha. apply obind_done in Ha as (o & Hadd & Ha).
  apply obind_done in Ha as (m & Hpt & Ha). injection Ha as <- <-.
  unfold add_monza_owner in Hadd. rewrite (chunk_loop_eq bits cfg Hbits) in Hadd by lia.
  destruct (add_chunks _ _ _ _ _ Ho Hl (chunks_nodup k n)) as [_ Hd].
  destruct (Hd o Hadd) as (Hall & Hl' & Hg). rewrite Forall_forall in Hall.
  unfold add_to_compartment_pagetable in Hpt.
  destruct (misaligned _ _ _) eqn:E; [done|]. apply misaligned_false in E as [Ha1 Ha2].
  destruct (add_table_op cfg (r_root r) false (k * SZ) (Z.of_nat n * SZ) PT_COMPARTMENT_WRITE NORMAL_TYPE
    (rs_pt st) lab) as [_ Htab]; try done; try lia.
  destruct (Htab m Hpt) as [lab' Hop]. rewrite <- Z.mul_add_distr_r in Hop.
  split_and!; [done| | |].
  - intros c Hc. apply Hall. by apply elem_of_chunks.
  - intros c. cbn. rewrite Hg. repeat case_decide; rewrite ?elem_of_chunks in *; try done; tauto.
  - exists lab'. split; [|exact Hop]. split; try done; [apply Hop|].
    eapply lookup_weaken; [exact Ht|apply Hop].
Qed.

(** An allocation for a compartment only comes back if none of its chunks had
    an owner, and then exactly these chunks change owner (from none to the
    compartment), they are at the front of the compartment's list,
    and exactly their addresses become readable and writable in the compartment's
    page table; no other table changes. *)
Theorem alloc_range_owns r k n st l lab rg st' :
  range_ok r st l lab -> 0 < k -> (k + Z.of_nat n) * SZ <= 2 ^ 48 ->
  alloc_range bits cfg r (k * SZ) (Z.of_nat n * SZ) st = Done (rg, st') ->
  rg = k * SZ /\
  (forall c, k <= c < k + Z.of_nat n -> get_owner_of (rs_own st) c = null_owner) /\
  (forall c, get_owner_of (rs_own st') c =
     if decide (k <= c < k + Z.of_nat n) then r_owner r else get_owner_of (rs_own st) c) /\
  exists lab', range_ok r st' (rev (chunks k n) ++ l) lab' /\
    table_op cfg (r_root r) (access_of false PT_COMPARTMENT_WRITE) (k * SZ) ((k + Z.of_nat n) * SZ)
      (rs_pt st) lab (rs_pt st') lab'.
Proof. apply alloc_range_spec. Qed.

Lemma remove_range_table r k n st l lab :
  range_ok r st l lab -> r_root r <> kernel -> 0 <= k -> (k + Z.of_nat n) * SZ <= 2 ^ 48 ->
  exists m lab', remove_from_compartment_pagetable cfg kernel (r_root r) (k * SZ) (Z.of_nat n * SZ)
      (rs_pt st) = Done m /\
    table_op cfg (r_root r) (fun _ => None) (k * SZ) ((k + Z.of_nat n) * SZ) (rs_pt st) lab m lab'.
Proof.
  intros [Ho Hl Hw Ht] Hne Hk Hn. pose proof (size_pos bits cfg Hbits) as Hsz.
  destruct (chunk_range_aligned k n) as [Ha1 Ha2]. unfold remove_from_compartment_pagetable.
  rewrite (proj2 (misaligned_false _ _ _)) by done. destruct (Z.eqb_spec (r_root r) kernel); [done|].
  destruct (remove_table_op cfg (r_root r) false (k * SZ) (Z.of_nat n * SZ) (rs_pt st) lab) as [Hh Hd];
    try done; try lia.
  destruct (remove_from_pagetable _ _ _ _ _ _) as [m| |] eqn:E;
    [|by destruct (remove_never_aborts cfg _ _ _ _ _ E)|done].
  destruct (Hd m eq_refl) as [lab' Hop]. rewrite <- Z.mul_add_distr_r in Hop. by exists m, lab'.
Qed.

Lemma dealloc_range_spec r k n st l lab :
  range_ok r st l lab -> r_root r <> kernel -> 0 <= k -> (k + Z.of_nat n) * SZ <= 2 ^ 48 ->
  ((forall c, k <= c < k + Z.of_nat n -> c ∈ l) <->
   exists st', dealloc_range bits cfg kernel r (k * SZ) (Z.of_nat n * SZ) st = Done st') /\
  forall st', dealloc_range bits cfg kernel r (k * SZ) (Z.of_nat n * SZ) st = Done st' ->
    (forall c, get_owner_of (rs_own st') c =
       if decide (k <= c < k + Z.of_nat n) then null_owner else get_owner_of (rs_own st) c) /\
    rs_calls st' = rs_calls st ++ [ParentDealloc (k * SZ) (Z.of_nat n * SZ)] /\
    exists l' lab', range_ok r st' l' lab' /\
      (forall c, c ∈ l' <-> c ∈ l /\ ~ k <= c < k + Z.of_nat n) /\
      table_op cfg (r_root r) (fun _ => None) (k * SZ) ((k + Z.of_nat n) * SZ)
        (rs_pt st) lab (rs_pt st') lab'.
Proof.
  intros Hok Hne Hk Hn. pose proof Hok as [Ho Hl Hw Ht].
  destruct (remove_range_table r k n st l lab Hok Hne Hk Hn) as (m & lab' & Hm & Hop).
  unfold dealloc_range. destruct (Z.eqb_spec null_owner (r_owner r)); [congruence|]. cbn [negb].
  rewrite Hm. cbn [obind]. unfold remove_monza_owner. rewrite (chunk_loop_eq bits cfg Hbits) by lia.
  destruct (remove_chunks _ _ _ _ _ Ho Hl (chunks_nodup k n)) as [Hs Hd]. split.
  - split.
    + intros Hall. destruct Hs as [o ->]; [|by eexists].
      apply Forall_forall. intros c Hc. apply Hall. by apply elem_of_chunks.
    + intros [st' Hst']. destruct (ofold _ _ _) as [o| |]; try done.
      destruct (Hd o eq_refl) as (Hall & _). rewrite Forall_forall in Hall.
      intros c Hc. apply Hall. by apply elem_of_chunks.
  - intros st' Hst'. destruct (ofold _ _ _) as [o| |]; try done. injection Hst' as <-. cbn.
    destruct (Hd o eq_refl) as (_ & (l' & Hl' & Hiff) & Hg). split_and!; [|done|].
    + intros c. rewrite Hg. repeat case_decide; rewrite ?elem_of_chunks in *; try done; tauto.
    + exists l', lab'. split_and!; [| |exact Hop].
      * split; try done; [apply Hop|]. eapply lookup_weaken; [exact Ht|apply Hop].
      * intros c. by rewrite Hiff, elem_of_chunks.
Qed.

(** Giving back chunks of a compartment succeeds when the compartment owns all
    of them, and only then: afterwards none of them has an owner, they are gone
    from the list, no address of them is accessible through the compartment's
    table, everything else is unchanged, and the parent range gets the memory. *)
Theorem dealloc_range_releases r k n st l lab :
  range_ok r st l lab -> r_root r <> kernel -> 0 <= k -> (k + Z.of_nat n) * SZ <= 2 ^ 48 ->
  ((forall c, k <= c < k + Z.of_nat n -> c ∈ l) <->
   exists st', dealloc_range bits cfg kernel r (k * SZ) (Z.of_nat n * SZ) st = Done st') /\
  forall st', dealloc_range bits cfg kernel r (k * SZ) (Z.of_nat n * SZ) st = Done st' ->
    (forall c, get_owner_of (rs_own st') c =
       if decide (k <= c < k + Z.of_nat n) then null_owner else get_owner_of (rs_own st) c) /\
    rs_calls st' = rs_calls st ++ [ParentDealloc (k * SZ) (Z.of_nat n * SZ)] /\
    exists l' lab', range_ok r st' l' lab' /\
      (forall c, c ∈ l' <-> c ∈ l /\ ~ k <= c < k + Z.of_nat n) /\
      table_op cfg (r_root r) (fun _ => None) (k * SZ) ((k + Z.of_nat n) * SZ)
        (rs_pt st) lab (rs_pt st') lab'.
Proof. apply dealloc_range_spec. Qed.

Lemma nodup_split_head (c : Z) l l1 l2 : NoDup (c :: l) -> c :: l = l1 ++ c :: l2 -> l1 = [] /\ l2 = l.
Proof.
  intros Hnd Heq. apply NoDup_cons in Hnd as [Hc _]. destruct l1 as [|x l1]; injection Heq as <-; [done|].
  subst l. exfalso. apply Hc, elem_of_app. right. by left.
Qed.

(** The calls that free a chunk: its page map entry is reset before the parent gets it. *)
Definition release_calls (c : Z) : list backend_call := [SetMetaentry (c * SZ) SZ; ParentDealloc (c * SZ) SZ].

(** Freeing the first chunk of the list. *)
Lemma dealloc_entry_first r c l st lab :
  range_ok r st (c :: l) lab -> r_root r <> kernel -> 0 <= c -> (c + 1) * SZ <= 2 ^ 48 ->
  exists st' lab', dealloc_entry bits cfg kernel r c st = Done st' /\
    range_ok r st' l lab' /\
    (forall c', get_owner_of (rs_own st') c' =
       if decide (c' = c) then null_owner else get_owner_of (rs_own st) c') /\
    rs_calls st' = rs_calls st ++ release_calls c /\
    table_op cfg (r_root r) (fun _ => None) (c * SZ) ((c + 1) * SZ) (rs_pt st) lab (rs_pt st') lab'.
Proof.
  intros Hok Hne Hc Hn. pose proof Hok as [Ho Hl Hw Ht].
  destruct (remove_range_table r c 1 st (c :: l) lab Hok Hne Hc) as (m & lab' & Hm & Hop); [lia|].
  pose proof (chunk_loop_eq bits cfg Hbits (remove_monza_owner_at bits (r_owner r)) c 1 (rs_own st) Hc
    ltac:(lia)) as Hloop.
  unfold chunks in Hloop. rewrite stride_S in Hloop. cbn [stride map seq ofold] in Hloop.
  change (Z.of_nat 1) with 1 in Hm, Hloop, Hop. rewrite Z.mul_1_l in Hm, Hloop.
  unfold dealloc_entry, dealloc_range. cbn [rs_own rs_pt rs_calls].
  destruct (Z.eqb_spec null_owner (r_owner r)); [congruence|]. cbn [negb]. rewrite Hm. cbn [obind].
  unfold remove_monza_owner. rewrite Hloop.
  pose proof (remove_owner_at_spec bits cfg Hbits (rs_own st) (r_head r) (r_owner r) _ c Ho Hl) as Hs.
  case_decide as Hin; [|by destruct Hin; left].
  destruct Hs as (o & l1 & l2 & -> & Heq & Hl' & Hg). cbn [obind].
  destruct (nodup_split_head c l l1 l2) as [-> ->]; [by destruct Hl as [[? _] _]|done|]. cbn in Hl'.
  eexists _, lab'. split; [reflexivity|].
  assert (forall c', get_owner_of (clear_owner c o) c' =
    if decide (c' = c) then null_owner else get_owner_of (rs_own st) c') as Hg'.
  { intros c'. unfold clear_owner. rewrite get_set_owner, Hg. by repeat case_decide. }
  split_and!; [|done|cbn; by rewrite <- app_assoc|done].
  split; try done; [|apply Hop|eapply lookup_weaken; [exact Ht|apply Hop]].
  cbn. destruct Hl' as [Hr Hiff]. split; [by apply list_repr_owner|]. intros c'.
  rewrite Hiff, Hg, Hg'. done.
Qed.

(** The rights left after the chunks [l] were unmapped. *)
Definition unmapped (l : list Z) (va : Z) (old : option (Z * bool * bool)) : option (Z * bool * bool) :=
  if decide (chunk_of bits va ∈ l) then None else old.

Lemma forall_dealloc r l : forall fuel st lab,
  range_ok r st l lab -> r_root r <> kernel -> Forall (fun c => 0 <= c /\ (c + 1) * SZ <= 2 ^ 48) l ->
  (length l <= fuel)%nat ->
  exists st' lab', forall_loop rs_own (dealloc_entry bits cfg kernel r) fuel (r_head r)
      (hd (inl (r_head r)) (map inr l)) st = Done st' /\
    range_ok r st' [] lab' /\
    (forall c, get_owner_of (rs_own st') c =
       if decide (c ∈ l) then null_owner else get_owner_of (rs_own st) c) /\
    rs_calls st' = rs_calls st ++ flat_map release_calls l /\
    table_step cfg (r_root r) (unmapped l) (rs_pt st) lab (rs_pt st') lab'.
Proof.
  pose proof (size_pos bits cfg Hbits) as Hsz.
  induction l as [|c l IH]; intros fuel st lab Hok Hne Hr Hf; cbn [map hd].
  { exists st, lab. split; [destruct fuel; cbn; by rewrite decide_True|]. split; [done|].
    split; [intros c; by rewrite decide_False by apply not_elem_of_nil|].
    split; [by rewrite app_nil_r|]. destruct (table_step_refl cfg (r_root r) _ _ (ro_wf _ _ _ _ Hok)).
    by split. }
  apply Forall_cons in Hr as [[Hc Hn] Hr]. destruct fuel as [|fuel]; [cbn in Hf; lia|].
  cbn [forall_loop]. rewrite decide_False by done.
  assert (nexts (rs_own st) !! inr c = Some (hd (inl (r_head r)) (map inr l))) as Hnext.
  { destruct (ro_list _ _ _ _ Hok) as [[_ [Hch|[? _]]] _]; [|done].
    unfold cycle in Hch. cbn in Hch. destruct l; cbn in *; tauto. }
  rewrite Hnext.
  destruct (dealloc_entry_first r c l st lab Hok Hne Hc Hn) as (st1 & lab1 & -> & Hok1 & Hg1 & Hrel1 & Hop1).
  cbn [obind]. destruct (IH fuel st1 lab1 Hok1 Hne Hr) as (st2 & lab2 & Hrun & Hok2 & Hg2 & Hrel2 & Hst2);
    [cbn in Hf; lia|].
  exists st2, lab2. split; [exact Hrun|]. split_and!; [done| | |].
  - intros c'. rewrite Hg2, Hg1. repeat case_decide; rewrite ?elem_of_cons in *; try done; tauto.
  - rewrite Hrel2, Hrel1, <- app_assoc. done.
  - destruct (table_step_trans _ _ _ _ _ _ _ _ _ _ (table_op_step _ _ _ _ _ _ _ _ _ Hop1) Hst2)
      as [Hw He Hnew Hacc Hoth].
    split; try done. intros va Hva. rewrite Hacc by done. unfold unmapped.
    assert (in_bounds (c * SZ) ((c + 1) * SZ) va = true <-> chunk_of bits va = c) as Hiff.
    { rewrite in_bounds_spec. unfold chunk_of.
      pose proof (Z.div_mod va SZ ltac:(lia)). pose proof (Z.mod_pos_bound va SZ ltac:(lia)). split.
      - intros Hin. symmetry. apply Z.div_unique with (va - c * SZ); lia.
      - intros <-. lia. }
    destruct (in_bounds _ _ va); repeat case_decide; rewrite ?elem_of_cons in *; try done;
      exfalso; intuition congruence.
Qed.

Lemma dealloc_all_spec r st l lab fuel :
  range_ok r st l lab -> r_root r <> kernel -> Forall (fun c => 0 <= c /\ (c + 1) * SZ <= 2 ^ 48) l ->
  (length l <= fuel)%nat ->
  exists st' lab', dealloc_all bits cfg kernel fuel r st = Done st' /\
    range_ok r st' [] lab' /\
    (forall c, get_owner_of (rs_own st') c =
       if decide (c ∈ l) then null_owner else get_owner_of (rs_own st) c) /\
    rs_calls st' = rs_calls st ++ flat_map release_calls l /\
    table_step cfg (r_root r) (unmapped l) (rs_pt st) lab (rs_pt st') lab'.
Proof.
  intros Hok Hne Hr Hf. pose proof Hok as [Ho [Hrep Hiff] Hw Ht].
  destruct (lazy_init_repr _ _ _ Hrep) as [Hnd Hch]. unfold dealloc_all.
  assert (owners (lazy_init (r_head r) (rs_own st)) = owners (rs_own st)) as Hown
    by (unfold lazy_init; by destruct (nexts (rs_own st) !! inl (r_head r))).
  set (st0 := with_own st (lazy_init (r_head r) (rs_own st))).
  assert (range_ok r st0 l lab) as Hok0.
  { split; try done. split; [split; [done|by left]|]. intros c. rewrite Hiff.
    unfold get_owner_of, st0. cbn. by rewrite Hown. }
  assert (nexts (rs_own st0) !! inl (r_head r) = Some (hd (inl (r_head r)) (map inr l))) as Hnext.
  { cbn. unfold cycle in Hch. destruct l; cbn in *; tauto. }
  rewrite Hnext. destruct (forall_dealloc r l fuel st0 lab Hok0 Hne Hr Hf)
    as (st' & lab' & Hrun & Hok' & Hg & Hrel & Hts).
  exists st', lab'. split_and!; try done. intros c. rewrite Hg.
  unfold get_owner_of, st0. cbn. by rewrite Hown.
Qed.

(** C10: Destroying a compartment's range gives back everything it owns: the walk
    over the list comes to an end, every chunk of the list has its page map entry
    reset and then goes back to the parent, exactly once, the list is empty, no chunk belongs to the compartment any more
    and no other chunk changes owner, and no address of its chunks is left
    accessible in its table. *)
Theorem dealloc_all_releases r st l lab fuel :
  range_ok r st l lab -> r_root r <> kernel -> Forall (fun c => 0 <= c /\ (c + 1) * SZ <= 2 ^ 48) l ->
  (length l <= fuel)%nat ->
  exists st' lab', dealloc_all bits cfg kernel fuel r st = Done st' /\
    range_ok r st' [] lab' /\
    (forall c, get_owner_of (rs_own st') c =
       if decide (c ∈ l) then null_owner else get_owner_of (rs_own st) c) /\
    rs_calls st' = rs_calls st ++ flat_map release_calls l /\
    (forall va, canonical va -> hw_access cfg (root_depth cfg) (rs_pt st') (r_root r) va =
       if decide (chunk_of bits va ∈ l) then None
       else hw_access cfg (root_depth cfg) (rs_pt st) (r_root r) va).
Proof.
  intros Hok Hne Hr Hf.
  destruct (dealloc_all_spec r st l lab fuel Hok Hne Hr Hf) as (st' & lab' & Hd & Hok' & Hg & Hc & Hts).
  exists st', lab'. split_and!; try done. apply Hts.
Qed.

End Range.

(** Removing an entry that is no longer in a list is not a no-op: the links of
    a removed entry stay, and a second removal writes through them. After chunk 1
    left and chunk 2 joined the list, removing chunk 1 again drops chunk 2. *)
Theorem entry_remove_again :
  exists st st', (let* s := head_add 0 1 own_initial in let* s := entry_remove 1 s in head_add 0 2 s)
      = Done st /\
    list_repr st 0 [2] /\ entry_remove 1 st = Done st' /\ list_repr st' 0 [] /\ st' <> st.
Proof.
  destruct (head_add_repr own_initial 0 [] 1) as (s1 & E1 & R1 & _);
    [split; [constructor|by right]|apply not_elem_of_nil|].
  destruct (entry_remove_repr s1 0 [] 1 [] R1) as (s2 & E2 & R2 & _).
  destruct (head_add_repr s2 0 [] 2 R2) as (s3 & E3 & R3 & _); [apply not_elem_of_nil|].
  rewrite E1. cbn [obind]. rewrite E2. cbn [obind]. rewrite E3.
  vm_compute in E1. injection E1 as <-. vm_compute in E2. injection E2 as <-.
  vm_compute in E3. injection E3 as <-. eexists _, _. split; [reflexivity|]. split; [exact R3|].
  split; [vm_compute; reflexivity|]. split; [|discriminate].
  split; [constructor|]. left. vm_compute. done.
Qed.

(** ** Witnesses *)

Definition example_range : MonzaRange := mkMonzaRange 5 9 0x1000.
Definition example_state : RangeState := mkRS own_initial example_mem [].

Lemma example_range_ok : range_ok SmallPages example_range example_state [] (example_lab false).
Proof.
  split; try done; try apply example_wf. split; [split; [constructor|by right]|].
  intros c. rewrite elem_of_nil. done.
Qed.

Lemma example_bits : page_bits SmallPages <= 14 < 48.
Proof. cbn. lia. Qed.

Lemma validate_owner_range_exact_witness :
  exists b, validate_owner_range 14 own_initial 9 0x8010 0x0f00 = Done b /\
    (b = true <-> forall a, 0x8010 <= a < 0x8010 + 0x0f00 -> get_monza_owner 14 own_initial a = 9).
Proof.
  apply (validate_owner_range_exact 14 SmallPages example_bits own_initial 9 0x8010 0x0f00);
    [lia..|vm_compute; discriminate|right; reflexivity].
Defined.

Lemma alloc_range_owns_witness :
  exists rg st', @alloc_range 14 ref_bits ref_alloc SmallPages example_range (2 * MIN_OWNERSHIP_SIZE 14)
      (Z.of_nat 2 * MIN_OWNERSHIP_SIZE 14) example_state
      = Done (rg, st') /\ get_owner_of (rs_own st') 3 = 9.
Proof.
  run_done (@alloc_range 14 ref_bits ref_alloc SmallPages example_range (2 * MIN_OWNERSHIP_SIZE 14)
      (Z.of_nat 2 * MIN_OWNERSHIP_SIZE 14) example_state) E.
  destruct a as [rg st']. exists rg, st'. split; [reflexivity|].
  destruct (@alloc_range_owns 14 SmallPages example_bits ref_bits ref_bits_ok ref_alloc ref_alloc_ok
    example_range 2 2 example_state [] (example_lab false) rg st' example_range_ok)
    as (_ & _ & Hg & _); [lia|vm_compute; discriminate|exact E|].
  rewrite Hg. reflexivity.
Defined.

Lemma dealloc_range_releases_witness :
  exists rg st st', @alloc_range 14 ref_bits ref_alloc SmallPages example_range (2 * MIN_OWNERSHIP_SIZE 14)
      (Z.of_nat 2 * MIN_OWNERSHIP_SIZE 14) example_state = Done (rg, st) /\
    @dealloc_range 14 ref_bits SmallPages 0x2000 example_range (2 * MIN_OWNERSHIP_SIZE 14)
      (Z.of_nat 2 * MIN_OWNERSHIP_SIZE 14) st = Done st' /\ get_owner_of (rs_own st') 3 = null_owner.
Proof.
  run_done (@alloc_range 14 ref_bits ref_alloc SmallPages example_range (2 * MIN_OWNERSHIP_SIZE 14)
      (Z.of_nat 2 * MIN_OWNERSHIP_SIZE 14) example_state) E.
  destruct a as [rg st]. exists rg, st.
  destruct (@alloc_range_spec 14 SmallPages example_bits ref_bits ref_bits_ok ref_alloc ref_alloc_ok
    example_range 2 2 example_state [] (example_lab false) rg st example_range_ok)
    as (_ & _ & _ & lab1 & Hok & _); [lia|vm_compute; discriminate|exact E|].
  destruct (@dealloc_range_releases 14 SmallPages example_bits ref_bits ref_bits_ok
    0x2000 example_range 2 2 st _ lab1 Hok) as [[Hdo _] Hd]; [discriminate|lia|vm_compute; discriminate|].
  destruct Hdo as [st' Hst'].
  { intros c Hc. rewrite app_nil_r. rewrite list_elem_of_In, <- in_rev, <- list_elem_of_In, elem_of_chunks. lia. }
  exists st'. split; [reflexivity|]. split; [exact Hst'|]. destruct (Hd st' Hst') as (Hg & _).
  rewrite Hg. reflexivity.
Defined.

Lemma example_chunks_ok :
  Forall (fun c => 0 <= c /\ (c + 1) * MIN_OWNERSHIP_SIZE 14 <= 2 ^ 48) (rev (chunks 2 2) ++ []) /\
  (length (rev (chunks 2 2) ++ []) <= 2)%nat.
Proof.
  split; [|vm_compute; lia]. unfold chunks, stride. cbn -[Z.mul Z.pow MIN_OWNERSHIP_SIZE].
  repeat (constructor; [unfold MIN_OWNERSHIP_SIZE; lia|]). constructor.
Qed.

(** A compartment that owns two chunks, destroyed. *)
Lemma dealloc_all_releases_witness :
  exists rg st st', @alloc_range 14 ref_bits ref_alloc SmallPages example_range (2 * MIN_OWNERSHIP_SIZE 14)
      (Z.of_nat 2 * MIN_OWNERSHIP_SIZE 14) example_state = Done (rg, st) /\
    @dealloc_all 14 ref_bits SmallPages 0x2000 2 example_range st = Done st' /\
    rs_calls st' = rs_calls st ++ flat_map (release_calls 14) (rev (chunks 2 2) ++ []).
Proof.
  run_done (@alloc_range 14 ref_bits ref_alloc SmallPages example_range (2 * MIN_OWNERSHIP_SIZE 14)
      (Z.of_nat 2 * MIN_OWNERSHIP_SIZE 14) example_state) E.
  destruct a as [rg st]. exists rg, st.
  destruct (@alloc_range_spec 14 SmallPages example_bits ref_bits ref_bits_ok ref_alloc ref_alloc_ok
    example_range 2 2 example_state [] (example_lab false) rg st example_range_ok)
    as (_ & _ & _ & lab1 & Hok & _); [lia|vm_compute; discriminate|exact E|].
  destruct (@dealloc_all_releases 14 SmallPages example_bits ref_bits ref_bits_ok
    0x2000 example_range st _ lab1 2 Hok) as (st' & lab2 & Hrun & _ & _ & Hrel & _);
    [discriminate|apply example_chunks_ok|apply example_chunks_ok|].
  exists st'. split; [reflexivity|]. split; [exact Hrun|exact Hrel].
Defined.

Lemma validate_owner_range_unaligned_witness :
  exists st owner a, MIN_OWNERSHIP_SIZE 14 - 1 <= a < MIN_OWNERSHIP_SIZE 14 - 1 + 2 /\
    get_monza_owner 14 st a <> owner /\ validate_owner_range 14 st owner (MIN_OWNERSHIP_SIZE 14 - 1) 2 = Done true.
Proof. exact (proj1 (validate_owner_range_unaligned 14 SmallPages example_bits)). Defined.
