(* ===== verification/Isolation.v ===== *)
(** * Page faults and isolation between compartments (arch/x86_64/trap.cc)

    The page-fault handler, and the system of compartments that allocate, free
    and fault, as a step relation. *)

From S2P Require Import Prelude External Address Heap PageTable PageTableWf PageTableOps.
From S2P Require Import PageTableProps Ownership OwnershipProps.

Section PageFault.
Context `{SnmallocBits, NodeAllocator} (bits : Z) (cfg : page_config).

(** [ArchitecturalCompartmentBase::is_active_stack]. *)
Definition is_active_stack (address : Z) : bool := false.

(** [compartment_owner] is the owner of the compartment whose pointer lies at the
    top of the kernel stack; [update_active_stack_usage] does nothing. *)
Definition page_fault_handler (hr : HeapRanges) (st : OwnStore) (compartment_owner : CompartmentOwner)
  (address pagetable_root err : Z) (m : pt_mem) : outcome pt_mem :=
  let is_kernel := Z.land err 4 =? 0 in
  let is_write := negb (Z.land err 2 =? 0) in
  if is_kernel then Kabort
  else if negb (is_heap_address hr address) then Kabort
  else
    let owner := get_monza_owner bits st address in
    if owner =? compartment_owner then
      if is_active_stack address then Done m
      else add_to_compartment_pagetable cfg pagetable_root (align_down address (PAGE_SIZE cfg))
             (PAGE_SIZE cfg) PT_COMPARTMENT_WRITE m
    else if negb is_write && (owner =? null_owner) then
      add_to_compartment_pagetable cfg pagetable_root (align_down address (PAGE_SIZE cfg))
        (PAGE_SIZE cfg) PT_COMPARTMENT_READ m
    else Kabort.

(** ** The system *)

Context (kernel : Z) (hr : HeapRanges).

(** One step of a compartment [x]: a page fault that is handled, an allocation
    (for the range [k * size, (k + n) * size) from the parent) or a release. *)
Inductive step (comps : list MonzaRange) : RangeState -> RangeState -> Prop :=
| step_fault x st address err m' :
    x ∈ comps -> canonical address ->
    page_fault_handler hr (rs_own st) (r_owner x) address (r_root x) err (rs_pt st) = Done m' ->
    step comps st (with_pt st m')
| step_alloc x st k n rg st' :
    x ∈ comps -> 0 <= k -> (k + Z.of_nat n) * MIN_OWNERSHIP_SIZE bits <= 2 ^ 48 ->
    alloc_range bits cfg x (k * MIN_OWNERSHIP_SIZE bits) (Z.of_nat n * MIN_OWNERSHIP_SIZE bits) st
      = Done (rg, st') ->
    step comps st st'
| step_dealloc x st k n st' :
    x ∈ comps -> 0 <= k -> (k + Z.of_nat n) * MIN_OWNERSHIP_SIZE bits <= 2 ^ 48 ->
    dealloc_range bits cfg kernel x (k * MIN_OWNERSHIP_SIZE bits) (Z.of_nat n * MIN_OWNERSHIP_SIZE bits)
      st = Done st' ->
    step comps st st'.

Inductive steps (comps : list MonzaRange) : RangeState -> RangeState -> Prop :=
| steps_refl st : steps comps st st
| steps_step st1 st2 st3 : steps comps st1 st2 -> step comps st2 st3 -> steps comps st1 st3.

End PageFault.

(** ** Invariant *)

(** User mode can write [va] through the table of [x]. *)
Definition user_writes (cfg : page_config) (st : RangeState) (x : MonzaRange) (va : Z) : Prop :=
  exists pa, hw_access cfg (root_depth cfg) (rs_pt st) (r_root x) va = Some (pa, true, true).

Definition user_reads (cfg : page_config) (st : RangeState) (x : MonzaRange) (va : Z) : Prop :=
  exists pa w, hw_access cfg (root_depth cfg) (rs_pt st) (r_root x) va = Some (pa, w, true).

#[export] Instance MonzaRange_eq_dec : EqDecision MonzaRange.
Proof. solve_decision. Defined.

(** Distinct compartments have distinct tables and owners. *)
Definition comps_distinct (comps : list MonzaRange) : Prop :=
  forall x y, x ∈ comps -> y ∈ comps -> x <> y -> r_root x <> r_root y /\ r_owner x <> r_owner y.

Record isolated (bits : Z) (cfg : page_config) (comps : list MonzaRange) (lab : gmap Z label)
  (st : RangeState) : Prop := {
  is_wf : pt_wf cfg (rs_pt st) lab;
  is_owner : forall x, x ∈ comps -> r_owner x <> null_owner;
  is_table : forall x, x ∈ comps -> table lab (r_root x) false;
  is_writes : forall x va, x ∈ comps -> canonical va -> user_writes cfg st x va ->
    get_monza_owner bits (rs_own st) va = r_owner x;
}.

Section Facts.
Context (bits : Z) (cfg : page_config) (Hbits : page_bits cfg <= bits < 48).
Context `{SnmallocBits, !SnmallocBitsOk, NodeAllocator, !NodeAllocatorOk} (kernel : Z) (hr : HeapRanges).

Notation "'SZ'" := (MIN_OWNERSHIP_SIZE bits).

(** Ownership changes whatever the lists look like. *)
Lemma add_owners cs owner h st st' :
  NoDup cs -> owner <> null_owner ->
  ofold (fun s c => add_monza_owner_at bits owner (Some h) (c * SZ) s) cs st = Done st' ->
  Forall (fun c => get_owner_of st c = null_owner) cs /\
  forall c, get_owner_of st' c = if decide (c ∈ cs) then owner else get_owner_of st c.
Proof.
  intros Hnd Ho. revert st; induction cs as [|c cs IH]; intros st Hst; cbn [ofold] in Hst.
  { injection Hst as <-. split; [constructor|]. intros c. by rewrite decide_False by apply not_elem_of_nil. }
  apply NoDup_cons in Hnd as [Hc Hnd]. apply obind_done in Hst as (st1 & Hadd & Hst).
  assert (get_owner_of st c = null_owner /\
          forall c', get_owner_of st1 c' = if decide (c' = c) then owner else get_owner_of st c') as [Hn Hg].
  { unfold add_monza_owner_at in Hadd. rewrite (chunk_of_mul bits cfg Hbits) in Hadd.
    destruct (Z.eqb_spec (get_owner_of st c) null_owner); [|done]. split; [done|]. cbn in Hadd.
    unfold head_add in Hadd. case_match; [|done]. injection Hadd as <-. intros c'.
    rewrite <- get_set_owner. unfold get_owner_of, lazy_init. cbn. by case_match. }
  destruct (IH Hnd st1 Hst) as [Hall Hg']. split.
  - constructor; [done|]. rewrite Forall_forall in *. intros c' Hc'. rewrite <- (Hall c' Hc'), Hg.
    case_decide; [by subst|done].
  - intros c'. rewrite Hg', Hg. repeat case_decide; rewrite ?elem_of_cons in *; try done; tauto.
Qed.

Lemma remove_owners cs owner st st' :
  NoDup cs -> ofold (fun s c => remove_monza_owner_at bits owner (c * SZ) s) cs st = Done st' ->
  Forall (fun c => get_owner_of st c = owner) cs /\
  forall c, get_owner_of st' c = if decide (c ∈ cs) then null_owner else get_owner_of st c.
Proof.
  intros Hnd. revert st; induction cs as [|c cs IH]; intros st Hst; cbn [ofold] in Hst.
  { injection Hst as <-. split; [constructor|]. intros c. by rewrite decide_False by apply not_elem_of_nil. }
  apply NoDup_cons in Hnd as [Hc Hnd]. apply obind_done in Hst as (st1 & Hrem & Hst).
  assert (get_owner_of st c = owner /\
          forall c', get_owner_of st1 c' = if decide (c' = c) then null_owner else get_owner_of st c') as [Hn Hg].
  { unfold remove_monza_owner_at in Hrem. rewrite (chunk_of_mul bits cfg Hbits) in Hrem.
    destruct (Z.eqb_spec (get_owner_of st c) owner); [|done]. split; [done|]. cbn in Hrem.
    unfold entry_remove in Hrem. intros c'. rewrite <- get_set_owner. unfold get_owner_of.
    repeat case_match; try done; by injection Hrem as <-. }
  destruct (IH Hnd st1 Hst) as [Hall Hg']. split.
  - constructor; [done|]. rewrite Forall_forall in *. intros c' Hc'. rewrite <- (Hall c' Hc'), Hg.
    case_decide; [by subst|done].
  - intros c'. rewrite Hg', Hg. repeat case_decide; rewrite ?elem_of_cons in *; try done; tauto.
Qed.

Lemma chunk_bounds k n va : k * SZ <= va < (k + Z.of_nat n) * SZ <-> chunk_of bits va ∈ chunks k n.
Proof.
  pose proof (size_pos bits cfg Hbits). rewrite elem_of_chunks. unfold chunk_of.
  pose proof (Z.div_mod va SZ ltac:(lia)). pose proof (Z.mod_pos_bound va SZ ltac:(lia)). nia.
Qed.

(** The page of an address lies in the address's chunk. *)
Lemma page_in_chunk a va :
  canonical a -> align_down a (PAGE_SIZE cfg) <= va < align_down a (PAGE_SIZE cfg) + PAGE_SIZE cfg ->
  chunk_of bits va = chunk_of bits a.
Proof.
  intros Ha Hva. pose proof (size_pos bits cfg Hbits) as Hsz. pose proof (page_size_bounds cfg) as Hps.
  destruct (page_divides_chunk bits cfg Hbits) as [q Hq].
  rewrite align_down_eq in Hva by (apply page_size_pow2 || (unfold is_u64, canonical in *; lia)).
  assert (va / PAGE_SIZE cfg = a / PAGE_SIZE cfg) as Hp.
  { pose proof (Z.div_mod a (PAGE_SIZE cfg) ltac:(lia)).
    symmetry. apply Z.div_unique with (va - (a - a mod PAGE_SIZE cfg)); lia. }
  unfold chunk_of. rewrite Hq, (Z.mul_comm q), <- !Z.div_div by nia. by rewrite Hp.
Qed.

Context (comps : list MonzaRange) (Hdist : comps_distinct comps).

(** An operation on the table of [x] that makes addresses writable only where
    [x] is the owner afterwards, while the chunks of the others keep theirs. *)
Lemma isolated_table_op x acc lo hi st st' lab lab' :
  x ∈ comps -> isolated bits cfg comps lab st ->
  table_op cfg (r_root x) acc lo hi (rs_pt st) lab (rs_pt st') lab' ->
  (forall va pa, canonical va -> lo <= va < hi -> acc va = Some (pa, true, true) ->
     get_monza_owner bits (rs_own st') va = r_owner x) ->
  (forall va, ~ lo <= va < hi -> get_monza_owner bits (rs_own st) va = r_owner x ->
     get_monza_owner bits (rs_own st') va = r_owner x) ->
  (forall va y, y ∈ comps -> y <> x -> get_monza_owner bits (rs_own st) va = r_owner y ->
     get_monza_owner bits (rs_own st') va = r_owner y) ->
  isolated bits cfg comps lab' st'.
Proof.
  intros Hx [Hw Ho Ht Hwr] Hop Hin Hout Hoth. split.
  - apply Hop.
  - done.
  - intros y Hy. eapply lookup_weaken; [by apply Ht|apply Hop].
  - intros y va Hy Hva [pa Hpa]. destruct (decide (y = x)) as [->|Hne].
    + rewrite (to_access _ _ _ _ _ _ _ _ _ Hop) in Hpa by done.
      destruct (in_bounds lo hi va) eqn:E.
      * apply in_bounds_spec in E. by eapply Hin.
      * apply in_bounds_false in E. apply Hout; [done|]. apply Hwr; [done|done|]. by exists pa.
    + destruct (Hdist y x Hy Hx Hne) as [Hr _].
      rewrite (to_others _ _ _ _ _ _ _ _ _ Hop _ false) in Hpa by auto.
      apply Hoth; [done|done|]. apply Hwr; [done|done|]. by exists pa.
Qed.

Lemma page_end a : canonical a -> 0 <= align_down a (PAGE_SIZE cfg) /\
  align_down a (PAGE_SIZE cfg) + PAGE_SIZE cfg <= 2 ^ 48.
Proof.
  intros Ha. unfold canonical in Ha. pose proof (page_size_bounds cfg) as Hps.
  destruct (align_down_spec a (PAGE_SIZE cfg)) as [[q Hq] ?];
    [apply page_size_pow2|unfold is_u64; lia|].
  destruct (page_size_cases cfg) as [Hc|Hc]; rewrite Hc in *; lia.
Qed.

Lemma fault_isolated x st address err m' lab :
  x ∈ comps -> canonical address -> isolated bits cfg comps lab st ->
  page_fault_handler bits cfg hr (rs_own st) (r_owner x) address (r_root x) err (rs_pt st) = Done m' ->
  exists lab', isolated bits cfg comps lab' (with_pt st m').
Proof.
  intros Hx Ha Hi Hf. pose proof Hi as [Hw Ho Ht Hwr]. destruct (page_end address Ha) as [Hb He].
  pose proof (page_size_bounds cfg) as Hps.
  assert (forall perm m1, add_to_compartment_pagetable cfg (r_root x) (align_down address (PAGE_SIZE cfg))
    (PAGE_SIZE cfg) perm (rs_pt st) = Done m1 ->
    (access_of false perm = access_of false PT_COMPARTMENT_READ \/
     get_monza_owner bits (rs_own st) address = r_owner x) ->
    exists lab', isolated bits cfg comps lab' (with_pt st m1)) as Hadd.
  { intros perm m1 Hm1 Hc. unfold add_to_compartment_pagetable in Hm1.
    destruct (misaligned _ _ _) eqn:E; [done|]. apply misaligned_false in E as [Ha1 Ha2].
    destruct (add_table_op cfg (r_root x) false (align_down address (PAGE_SIZE cfg)) (PAGE_SIZE cfg) perm
      NORMAL_TYPE (rs_pt st) lab) as [_ Hd]; auto; try lia.
    destruct (Hd m1 Hm1) as [lab' Hop]. exists lab'.
    eapply (isolated_table_op x); [done|done|exact Hop| |done|done].
    intros va pa Hva Hin Hacc. destruct Hc as [Hc|Hc]; [by rewrite Hc in Hacc|].
    cbn. rewrite <- Hc. unfold get_monza_owner. f_equal. by apply page_in_chunk. }
  unfold page_fault_handler, is_active_stack in Hf.
  destruct (Z.land err 4 =? 0); [done|]. destruct (negb (is_heap_address hr address)); [done|].
  destruct (Z.eqb_spec (get_monza_owner bits (rs_own st) address) (r_owner x)) as [Heq|_].
  - eapply Hadd; [exact Hf|by right].
  - destruct (_ && _) in Hf; [|done]. eapply Hadd; [exact Hf|by left].
Qed.

Lemma alloc_isolated x st k n rg st' lab :
  x ∈ comps -> 0 <= k -> (k + Z.of_nat n) * SZ <= 2 ^ 48 -> isolated bits cfg comps lab st ->
  alloc_range bits cfg x (k * SZ) (Z.of_nat n * SZ) st = Done (rg, st') ->
  exists lab', isolated bits cfg comps lab' st'.
Proof.
  intros Hx Hk Hn Hi Ha. pose proof Hi as [Hw Ho Ht Hwr]. pose proof (size_pos bits cfg Hbits).
  unfold alloc_range in Ha. destruct (_ && _) eqn:Ec in Ha; [|injection Ha as <- <-; by exists lab].
  apply obind_done in Ha as (o & Hadd & Ha). apply obind_done in Ha as (m & Hpt & Ha).
  injection Ha as <- <-. unfold add_monza_owner in Hadd. rewrite (chunk_loop_eq bits cfg Hbits) in Hadd by lia.
  destruct (add_owners _ _ _ _ _ (chunks_nodup k n) (Ho x Hx) Hadd) as [Hnull Hg].
  rewrite Forall_forall in Hnull.
  unfold add_to_compartment_pagetable in Hpt.
  destruct (misaligned _ _ _) eqn:E; [done|]. apply misaligned_false in E as [Ha1 Ha2].
  destruct (add_table_op cfg (r_root x) false (k * SZ) (Z.of_nat n * SZ) PT_COMPARTMENT_WRITE NORMAL_TYPE
    (rs_pt st) lab) as [_ Hd]; auto; try lia.
  destruct (Hd m Hpt) as [lab' Hop]. rewrite <- Z.mul_add_distr_r in Hop. exists lab'.
  eapply (isolated_table_op x); [done|done|exact Hop| | |]; unfold get_monza_owner; cbn.
  - intros va pa _ Hin _. apply chunk_bounds in Hin. by rewrite Hg, decide_True.
  - intros va Hout Hold. rewrite Hg. by case_decide.
  - intros va y Hy Hne Hold. rewrite Hg. case_decide as Hc; [|done].
    rewrite (Hnull _ Hc) in Hold. by destruct (Ho y Hy).
Qed.

Lemma dealloc_isolated x st k n st' lab :
  x ∈ comps -> 0 <= k -> (k + Z.of_nat n) * SZ <= 2 ^ 48 -> isolated bits cfg comps lab st ->
  dealloc_range bits cfg kernel x (k * SZ) (Z.of_nat n * SZ) st = Done st' ->
  exists lab', isolated bits cfg comps lab' st'.
Proof.
  intros Hx Hk Hn Hi Hd. pose proof Hi as [Hw Ho Ht Hwr]. pose proof (size_pos bits cfg Hbits).
  unfold dealloc_range in Hd. destruct (Z.eqb_spec null_owner (r_owner x)) as [Habs|_];
    [by destruct (Ho x Hx)|]. cbn [negb] in Hd.
  apply obind_done in Hd as (st1 & Hd & Hst). injection Hst as <-.
  apply obind_done in Hd as (m & Hpt & Hd). apply obind_done in Hd as (o & Hrem & Hd). injection Hd as <-.
  unfold remove_monza_owner in Hrem. rewrite (chunk_loop_eq bits cfg Hbits) in Hrem by lia.
  destruct (remove_owners _ _ _ _ (chunks_nodup k n) Hrem) as [Hown Hg]. rewrite Forall_forall in Hown.
  unfold remove_from_compartment_pagetable in Hpt.
  destruct (misaligned _ _ _) eqn:E; [done|]. apply misaligned_false in E as [Ha1 Ha2].
  destruct (r_root x =? kernel); [done|].
  destruct (remove_table_op cfg (r_root x) false (k * SZ) (Z.of_nat n * SZ) (rs_pt st) lab) as [_ Hdd];
    auto; try lia.
  destruct (Hdd m Hpt) as [lab' Hop]. rewrite <- Z.mul_add_distr_r in Hop. exists lab'.
  eapply (isolated_table_op x); [done|done|exact Hop|done| |]; unfold get_monza_owner; cbn.
  - intros va Hout Hold. rewrite Hg. case_decide as Hc; [|done]. exfalso. apply Hout. by apply chunk_bounds.
  - intros va y Hy Hne Hold. rewrite Hg. case_decide as Hc; [|done].
    rewrite (Hown _ Hc) in Hold. destruct (Hdist y x Hy Hx Hne) as [_ ?]. congruence.
Qed.

Lemma steps_isolated st st' lab :
  isolated bits cfg comps lab st -> steps bits cfg kernel hr comps st st' ->
  exists lab', isolated bits cfg comps lab' st'.
Proof.
  intros Hi Hs. induction Hs as [|st1 st2 st3 _ IH Hstep]; [by exists lab|].
  destruct (IH Hi) as [lab2 Hi2]. destruct Hstep.
  - by eapply fault_isolated.
  - by eapply alloc_isolated.
  - by eapply dealloc_isolated.
Qed.

(** Write isolation. However compartments allocate, free and fault, an address
    that user mode can write through the table of a compartment belongs to that
    compartment; so no address is ever writable by two compartments. *)
Theorem write_isolation st st' lab :
  isolated bits cfg comps lab st -> steps bits cfg kernel hr comps st st' ->
  forall x y va, x ∈ comps -> y ∈ comps -> canonical va -> user_writes cfg st' x va ->
    get_monza_owner bits (rs_own st') va = r_owner x /\ (x <> y -> ~ user_writes cfg st' y va).
Proof.
  intros Hi Hs x y va Hx Hy Hva Hwx. destruct (steps_isolated _ _ _ Hi Hs) as [lab' [_ _ _ Hw]].
  pose proof (Hw x va Hx Hva Hwx) as Hox. split; [done|]. intros Hne Hwy.
  pose proof (Hw y va Hy Hva Hwy) as Hoy. destruct (Hdist x y Hx Hy Hne) as [_ ?]. congruence.
Qed.

(** Where the handler refuses the access. *)
Definition fault_refused (own owner : CompartmentOwner) (address err : Z) : Prop :=
  Z.land err 4 = 0 \/ is_heap_address hr address = false \/
  (own <> owner /\ (own <> null_owner \/ Z.land err 2 <> 0)).

(** Mapping one page. *)
Lemma add_page_spec root address perm m lab :
  pt_wf cfg m lab -> table lab root false -> canonical address ->
  let page := align_down address (PAGE_SIZE cfg) in
  let result := add_to_compartment_pagetable cfg root page (PAGE_SIZE cfg) perm m in
  (exists m' lab', result = Done m' /\ table_op cfg root (access_of false perm) page (page + PAGE_SIZE cfg) m lab m' lab') \/
  (result = Kabort /\ exists m1, dom m ⊆ dom m1 /\ alloc_node_page false m1 = None).
Proof.
  clear Hbits. intros Hw Ht Ha page result. destruct (page_end address Ha) as [Hb He].
  pose proof (page_size_bounds cfg) as Hps.
  destruct (align_down_spec address (PAGE_SIZE cfg)) as [Hdiv _];
    [apply page_size_pow2|unfold is_u64, canonical in *; lia|].
  assert (result = add_to_pagetable cfg (root_depth cfg) false root page (PAGE_SIZE cfg) perm NORMAL_TYPE m) as ->.
  { unfold result, add_to_compartment_pagetable.
    rewrite (proj2 (misaligned_false _ _ _)); [done|]. split; [done|apply Z.divide_refl]. }
  destruct (add_table_op cfg root false page (PAGE_SIZE cfg) perm NORMAL_TYPE m lab Hw Ht Hb ltac:(lia) He Hdiv
    (Z.divide_refl _)) as [Hh Hop].
  pose proof (add_to_pagetable_grows cfg false (root_depth cfg) root page (PAGE_SIZE cfg) perm NORMAL_TYPE m) as Hg.
  destruct (add_to_pagetable _ _ _ _ _ _ _ _ _) as [m'| |]; [left|right|done]; [|done].
  destruct (Hop m' eq_refl) as [lab' Hl]. by exists m', lab'.
Qed.

Lemma page_fault_exact st owner address root err m lab :
  pt_wf cfg m lab -> table lab root false -> canonical address ->
  let own := get_monza_owner bits st address in
  let page := align_down address (PAGE_SIZE cfg) in
  let result := page_fault_handler bits cfg hr st owner address root err m in
  (fault_refused own owner address err -> result = Kabort) /\
  (~ fault_refused own owner address err ->
   (exists m' lab', result = Done m' /\
      table_op cfg root
        (access_of false (if decide (own = owner) then PT_COMPARTMENT_WRITE else PT_COMPARTMENT_READ))
        page (page + PAGE_SIZE cfg) m lab m' lab') \/
   (result = Kabort /\ exists m1, dom m ⊆ dom m1 /\ alloc_node_page false m1 = None)).
Proof.
  clear Hbits. intros Hw Ht Ha own page result. pose proof (fun perm => add_page_spec root address perm m lab Hw Ht Ha) as Hadd.
  unfold result, page_fault_handler, is_active_stack, fault_refused. fold own.
  destruct (Z.eqb_spec (Z.land err 4) 0) as [E4|E4]; [split; [done|tauto]|].
  destruct (is_heap_address hr address); cbn [negb]; [|split; [done|tauto]].
  destruct (Z.eqb_spec own owner) as [Heq|Hne].
  - rewrite decide_True by done. split; [intros [?|[?|[? _]]]; done|]. intros _. apply Hadd.
  - rewrite decide_False by done. destruct (Z.eqb_spec (Z.land err 2) 0) as [E2|E2]; cbn [negb andb];
      [|split; [done|tauto]].
    destruct (Z.eqb_spec own null_owner) as [En|En]; [|split; [done|tauto]].
    split; [intros [?|[?|[_ [?|?]]]]; done|]. intros _. apply Hadd.
Qed.

(** What a fault that is handled has done. *)
Lemma page_fault_table_op st owner address root err m lab m' :
  pt_wf cfg m lab -> table lab root false -> canonical address ->
  page_fault_handler bits cfg hr st owner address root err m = Done m' ->
  let page := align_down address (PAGE_SIZE cfg) in
  exists lab', table_op cfg root
    (access_of false (if decide (get_monza_owner bits st address = owner) then PT_COMPARTMENT_WRITE else PT_COMPARTMENT_READ))
    page (page + PAGE_SIZE cfg) m lab m' lab'.
Proof.
  intros Hw Ht Ha Hd. destruct (page_fault_exact st owner address root err m lab Hw Ht Ha) as [Hr Ho].
  assert (~ fault_refused (get_monza_owner bits st address) owner address err) as Hnr by (intros E%Hr; congruence).
  destruct (Ho Hnr) as [(m2 & lab' & E & Hop)|[E _]]; [|congruence]. exists lab'. by replace m' with m2 by congruence.
Qed.


End Facts.

(** ** Reads are not isolated *)

(** Two compartments with empty tables, and 32 kB of heap at 0x8000. *)
Definition comp_a : MonzaRange := mkMonzaRange 1 9 0x1000.
Definition comp_b : MonzaRange := mkMonzaRange 2 10 0x2000.
Definition two_tables : pt_mem := <[0x2000 := zero_node]> example_mem.
Definition two_labels : gmap Z label := <[0x2000 := root_label 0x2000 false]> (example_lab false).
Definition two_state : RangeState := mkRS own_initial two_tables [].
Definition two_heap : HeapRanges := mkHeap (Span 0x8000 0x8000) (replicate 32 (Span 0 0)) 0.

Lemma two_isolated :
  comps_distinct [comp_a; comp_b] /\ isolated 14 SmallPages [comp_a; comp_b] two_labels two_state.
Proof.
  split.
  { intros x y Hx Hy Hne. rewrite !elem_of_cons, !elem_of_nil in *.
    destruct Hx as [->|[->|[]]], Hy as [->|[->|[]]]; done. }
  destruct (example_wf SmallPages false) as [Hwf Ht].
  destruct (@alloc_root ref_alloc ref_alloc_ok SmallPages false example_mem (example_lab false) 0x2000
    two_tables Hwf) as (Hwf2 & Hext & Ht2 & _ & Hnone & Hoth); [vm_compute; reflexivity|].
  split; [exact Hwf2| | |].
  - intros x Hx. rewrite !elem_of_cons, elem_of_nil in Hx. by destruct Hx as [->|[->|[]]].
  - intros x Hx. rewrite !elem_of_cons, elem_of_nil in Hx. destruct Hx as [->|[->|[]]]; [|exact Ht2].
    by eapply lookup_weaken.
  - intros x va Hx Hva [pa Hpa]. rewrite !elem_of_cons, elem_of_nil in Hx.
    destruct Hx as [->|[->|[]]]; cbn [comp_a comp_b r_root two_state rs_pt] in Hpa.
    + rewrite (Hoth 0x1000 false Ht va Hva) in Hpa.
      destruct (@alloc_root ref_alloc ref_alloc_ok SmallPages false ∅ ∅ 0x1000 example_mem
        (empty_wf SmallPages)) as (_ & _ & _ & _ & Hn & _); [vm_compute; reflexivity|].
      rewrite Hn in Hpa. done.
    + rewrite Hnone in Hpa. done.
Qed.

(** C34: Reads are not isolated: compartment A reads an unowned heap page and keeps
    the mapping it is given when compartment B then allocates the page, so A can
    read memory that belongs to B. *)
Theorem stale_read :
  exists st', @steps ref_bits ref_alloc 14 SmallPages 0 two_heap [comp_a; comp_b] two_state st' /\
    user_reads SmallPages st' comp_a 0x8000 /\
    get_monza_owner 14 (rs_own st') 0x8000 = r_owner comp_b.
Proof.
  run_done (@page_fault_handler ref_bits ref_alloc 14 SmallPages two_heap own_initial 9 0x8000 0x1000 4
    two_tables) E1. rename a into m1.
  assert (is_done (@alloc_range 14 ref_bits ref_alloc SmallPages comp_b (2 * MIN_OWNERSHIP_SIZE 14)
    (Z.of_nat 1 * MIN_OWNERSHIP_SIZE 14) (with_pt two_state m1)) = true) as Hd.
  { assert (match @page_fault_handler ref_bits ref_alloc 14 SmallPages two_heap own_initial 9 0x8000 0x1000
      4 two_tables with Done m1 => is_done (@alloc_range 14 ref_bits ref_alloc SmallPages comp_b
      (2 * MIN_OWNERSHIP_SIZE 14) (Z.of_nat 1 * MIN_OWNERSHIP_SIZE 14) (with_pt two_state m1))
      | _ => false end = true) as Hc by (vm_compute; reflexivity). by rewrite E1 in Hc. }
  destruct (alloc_range _ _ _ _ _ _) as [[rg st']| |] eqn:E2; [|done|done]. exists st'.
  assert (match @page_fault_handler ref_bits ref_alloc 14 SmallPages two_heap own_initial 9 0x8000 0x1000
      4 two_tables with Done m1 => match @alloc_range 14 ref_bits ref_alloc SmallPages comp_b
      (2 * MIN_OWNERSHIP_SIZE 14) (Z.of_nat 1 * MIN_OWNERSHIP_SIZE 14) (with_pt two_state m1) with
      Done (_, st') => hw_access SmallPages 3 (rs_pt st') 0x1000 0x8000 = Some (0x8000, false, true) /\
        get_monza_owner 14 (rs_own st') 0x8000 = 10 | _ => False end | _ => False end) as Hc
    by (vm_compute; split; reflexivity).
  rewrite E1, E2 in Hc. destruct Hc as [Hr Ho]. split_and!; [|by exists 0x8000, false|exact Ho].
  eapply steps_step; [eapply steps_step; [apply steps_refl|]|].
  - apply (step_fault _ _ _ _ _ comp_a two_state 0x8000 4); [by left|unfold canonical; lia|exact E1].
  - apply (step_alloc _ _ _ _ _ comp_b _ 2 1 rg); [by right; left|lia|vm_compute; discriminate|exact E2].
Qed.

(** ** Witnesses *)

Lemma write_isolation_witness :
  exists st', @steps ref_bits ref_alloc 14 SmallPages 0 two_heap [comp_a; comp_b] two_state st' /\
    user_writes SmallPages st' comp_b 0x8000 /\
    get_monza_owner 14 (rs_own st') 0x8000 = r_owner comp_b /\
    ~ user_writes SmallPages st' comp_a 0x8000.
Proof.
  run_done (@alloc_range 14 ref_bits ref_alloc SmallPages comp_b (2 * MIN_OWNERSHIP_SIZE 14)
    (Z.of_nat 1 * MIN_OWNERSHIP_SIZE 14) two_state) E. destruct a as [rg st'].
  assert (@steps ref_bits ref_alloc 14 SmallPages 0 two_heap [comp_a; comp_b] two_state st') as Hs.
  { eapply steps_step; [apply steps_refl|].
    apply (step_alloc _ _ _ _ _ comp_b two_state 2 1 rg); [by right; left|lia|vm_compute; discriminate|exact E]. }
  assert (user_writes SmallPages st' comp_b 0x8000) as Hw.
  { exists 0x8000. assert (match @alloc_range 14 ref_bits ref_alloc SmallPages comp_b
      (2 * MIN_OWNERSHIP_SIZE 14) (Z.of_nat 1 * MIN_OWNERSHIP_SIZE 14) two_state with
      Done (_, st') => hw_access SmallPages 3 (rs_pt st') 0x2000 0x8000 | _ => None end =
      Some (0x8000, true, true)) as Hc by (vm_compute; reflexivity). by rewrite E in Hc. }
  exists st'. split; [exact Hs|]. split; [exact Hw|]. destruct two_isolated as [Hd Hi].
  destruct (@write_isolation 14 SmallPages example_bits ref_bits ref_bits_ok ref_alloc ref_alloc_ok 0 two_heap
    [comp_a; comp_b] Hd two_state st' two_labels Hi Hs comp_b comp_a 0x8000) as [Ho Hn];
    [right; left|left|unfold canonical; lia|exact Hw|].
  split; [exact Ho|]. apply Hn. discriminate.
Defined.

(** A write to an unowned page is refused; a read of it maps the page read-only, and a write to a page that the compartment owns maps it writable. *)
Definition owned_chunk : OwnStore := set_chunk_owner 2 9 own_initial.

