(* ===== verification/Lifecycle.v ===== *)
(** * Compartments that come and go

    The construction of a compartment's page table, allocator state and range
    component (experimental/include/arch_compartment.h, [LocalState] of
    include/public/snmalloc/snmalloc.h), their destruction, and the system in which
    compartments are created, allocate, free, fault and are destroyed in any order.
    The allocator stages between a compartment's memory and its range component are
    snmalloc's; whatever they ask the range component for is a step. *)

From S2P Require Import Prelude External Address Heap PageTable PageTableWf PageTableOps.
From S2P Require Import PageTableProps Ownership OwnershipProps Isolation.

(** ** Construction *)

(** [List::Head head{}]: the links of a new head are null, whatever was there. *)
Definition head_construct (h : Z) (st : OwnStore) : OwnStore :=
  mkOwn (delete (inl h) (nexts st)) (delete (inl h) (prevs st)) (owners st).

(** [MonzaRange::Type()]: a component without an owner. *)
Definition monza_range_construct (h : Z) (st : RangeState) : MonzaRange * RangeState :=
  (mkMonzaRange h null_owner 0, with_own st (head_construct h (rs_own st))).

(** [LocalState(owner, root)]. *)
Definition local_state_construct (h : Z) (owner : CompartmentOwner) (root : Z) (st : RangeState)
  : outcome (MonzaRange * RangeState) :=
  let '(r, st1) := monza_range_construct h st in
  let* r1 := set_owner r owner root in
  Done (r1, st1).

(** [ArchitecturalCompartmentBase()] up to the first allocation: [this] is the address
    of the compartment, [h] that of the list head in its allocator state. *)
Definition compartment_construct `{SnmallocBits, NodeAllocator} (cfg : page_config)
  (predefined interrupt_stack_map : list MapEntry) (this h : Z) (st : RangeState)
  : outcome (MonzaRange * RangeState) :=
  let* r := create_compartment_pagetable cfg predefined interrupt_stack_map (rs_pt st) in
  let '(pagetable, m) := r in
  local_state_construct h this pagetable (with_pt st m).

(** ** Operations on one list leave the others alone *)

(** The links of the nodes outside [N] are the same in both stores. *)
Definition same_outside (N : node -> Prop) (st st' : OwnStore) : Prop :=
  forall a, ~ N a -> nexts st' !! a = nexts st !! a /\ prevs st' !! a = prevs st !! a.

#[export] Instance same_outside_refl N : Reflexive (same_outside N).
Proof. by intros st a _. Qed.

#[export] Instance same_outside_trans N : Transitive (same_outside N).
Proof. intros s1 s2 s3 H1 H2 a Ha. destruct (H1 a Ha), (H2 a Ha). split; congruence. Qed.

Lemma same_outside_mono (N N' : node -> Prop) st st' :
  (forall a, N a -> N' a) -> same_outside N st st' -> same_outside N' st st'.
Proof. intros Hn Hs a Ha. apply Hs. auto. Qed.

Definition nodes_of (h : Z) (l : list Z) (a : node) : Prop := a ∈ cycle h l.

Lemma nodes_of_head h l h' : nodes_of h l (inl h') <-> h' = h.
Proof.
  unfold nodes_of, cycle. rewrite elem_of_cons, elem_of_app, list_elem_of_singleton.
  pose proof (inl_not_map h' l). split; [|intros ->; by left]. by intros [[= ->]|[?|[= ->]]].
Qed.

Lemma nodes_of_chunk h l c : nodes_of h l (inr c) <-> c ∈ l.
Proof.
  unfold nodes_of, cycle. rewrite elem_of_cons, elem_of_app, elem_of_map_inr, list_elem_of_singleton.
  split; [by intros [?|[?|?]]|by right; left].
Qed.

Lemma nodes_of_mono h l l' : l ⊆ l' -> forall a, nodes_of h l a -> nodes_of h l' a.
Proof. intros Hl [x|c]; rewrite ?nodes_of_head, ?nodes_of_chunk; auto. Qed.

Lemma elem_of_removelast {A} (x : A) l : x ∈ removelast l -> x ∈ l.
Proof.
  induction l as [|y l IH]; [done|]. destruct l as [|z l]; [by intros ?%elem_of_nil|].
  cbn [removelast]. rewrite !elem_of_cons in *. tauto.
Qed.

Lemma elem_of_tl {A} (x : A) l : x ∈ tl l -> x ∈ l.
Proof. destruct l; [done|]. cbn. by right. Qed.

(** A list whose nodes are untouched stays. *)
Lemma list_repr_outside N st st' h l :
  same_outside N st st' -> ~ N (inl h) -> (forall c, c ∈ l -> ~ N (inr c)) ->
  list_repr st h l -> list_repr st' h l.
Proof.
  intros Hs Hh Hl [Hnd Hc]. split; [done|].
  assert (forall a, a ∈ cycle h l -> ~ N a) as Hcyc.
  { intros [x|c] Ha; [by apply nodes_of_head in Ha as ->|by apply Hl, (nodes_of_chunk h)]. }
  destruct Hc as [Hc|[-> Hn]]; [left|right].
  - eapply chain_ext; [| |exact Hc].
    + intros a Ha%elem_of_removelast. by apply Hs, Hcyc.
    + intros a Ha%elem_of_tl. by apply Hs, Hcyc.
  - split; [done|]. by rewrite (proj1 (Hs (inl h) Hh)).
Qed.

(** The first node after the head. *)
Lemma chain_first st h l n : chain st (cycle h l) -> nexts st !! inl h = Some n -> nodes_of h l n.
Proof.
  intros Hc Hn. destruct l as [|c l]; cbn in Hc; destruct Hc as (Hf & _); rewrite Hf in Hn;
    injection Hn as <-; [by apply nodes_of_head|]. apply nodes_of_chunk. by left.
Qed.

Lemma lazy_init_outside h l st : same_outside (nodes_of h l) st (lazy_init h st).
Proof.
  unfold lazy_init. case_match; [reflexivity|]. intros a Ha. cbn.
  rewrite !lookup_insert_ne; [done| |]; intros <-; by apply Ha, nodes_of_head.
Qed.

Lemma head_add_outside st h l c st' :
  list_repr st h l -> head_add h c st = Done st' -> same_outside (nodes_of h (c :: l)) st st'.
Proof.
  intros Hr Ha. destruct (lazy_init_repr _ _ _ Hr) as [_ Hch]. unfold head_add in Ha.
  etransitivity; [apply (lazy_init_outside h (c :: l))|].
  cbn [set_prev nexts] in Ha. case_match eqn:En; [|done]. injection Ha as <-.
  pose proof (chain_first _ _ _ _ Hch En) as Hn.
  apply (nodes_of_mono h l (c :: l)) in Hn; [|by intros ??; right].
  intros a Hout. cbn [set_next set_prev nexts prevs].
  assert (forall b, nodes_of h (c :: l) b -> b <> a) as Hne by congruence.
  rewrite !lookup_insert_ne; [done|..]; apply Hne; auto;
    (by apply nodes_of_head) || (apply nodes_of_chunk; by left).
Qed.

(** Both neighbours of an entry are nodes of its list. *)
Lemma chain_around st h l1 c l2 n p :
  chain st (cycle h (l1 ++ c :: l2)) -> nexts st !! inr c = Some n -> prevs st !! inr c = Some p ->
  nodes_of h (l1 ++ c :: l2) n /\ nodes_of h (l1 ++ c :: l2) p.
Proof.
  intros Hch Hn Hp. unfold nodes_of. unfold cycle in *. rewrite map_app, <- app_assoc, app_comm_cons in *.
  change (map inr (c :: l2) ++ [inl h]) with (inr c :: (map inr l2 ++ [inl h]) : list node) in *.
  destruct (exists_last (l := inl h :: map inr l1)) as (A & q & HA); [done|]. rewrite HA in *.
  destruct (map inr l2 ++ [inl h]) as [|x B] eqn:HB; [by destruct l2|].
  rewrite <- app_assoc in Hch. apply chain_app in Hch as [_ (_ & Hpc & Hnc & _)].
  assert (n = x) as -> by congruence. assert (p = q) as -> by congruence.
  rewrite <- app_assoc, !elem_of_app, !elem_of_cons. tauto.
Qed.

Lemma entry_remove_outside st h l c st' :
  list_repr st h l -> c ∈ l -> entry_remove c st = Done st' -> same_outside (nodes_of h l) st st'.
Proof.
  intros [_ [Hch|[-> _]]] Hc Hr; [|by apply elem_of_nil in Hc].
  apply list_elem_of_split in Hc as (l1 & l2 & ->). unfold entry_remove in Hr.
  destruct (nexts st !! inr c) as [n|] eqn:En; [|by injection Hr as <-].
  destruct (prevs st !! inr c) as [p|] eqn:Ep; [|done]. injection Hr as <-.
  destruct (chain_around _ _ _ _ _ _ _ Hch En Ep) as [Hn Hp].
  intros a Ha. cbn. rewrite !lookup_insert_ne; [done|congruence|congruence].
Qed.

Section Frames.
Context (bits : Z) (cfg : page_config) (Hbits : page_bits cfg <= bits < 48).

Notation "'SZ'" := (MIN_OWNERSHIP_SIZE bits).

Lemma add_at_outside st h owner l c st' :
  list_repr st h l -> add_monza_owner_at bits owner (Some h) (c * SZ) st = Done st' ->
  same_outside (nodes_of h (c :: l)) st st'.
Proof.
  intros Hr Ha. unfold add_monza_owner_at in Ha. rewrite (chunk_of_mul bits cfg Hbits) in Ha.
  destruct (negb _); [done|]. eapply (head_add_outside (set_chunk_owner c owner st)); [|exact Ha].
  by apply list_repr_owner.
Qed.

Lemma add_chunks_outside st h owner l cs st' :
  owner <> null_owner -> owned_list st h owner l ->
  ofold (fun s c => add_monza_owner_at bits owner (Some h) (c * SZ) s) cs st = Done st' ->
  same_outside (nodes_of h (rev cs ++ l)) st st'.
Proof.
  intros Ho. revert st l; induction cs as [|c cs IH]; intros st l Hl Hst; cbn [ofold] in Hst.
  { by injection Hst as <-. }
  apply obind_done in Hst as (st1 & Hadd & Hst).
  pose proof (add_owner_at_spec bits cfg Hbits st h owner l c Ho Hl) as Hs.
  case_decide; [|congruence]. destruct Hs as (st1' & Hadd' & Hl1 & _).
  assert (st1' = st1) as -> by congruence.
  cbn [rev]. rewrite <- app_assoc. cbn [app]. etransitivity; [|by apply IH].
  eapply same_outside_mono; [|by eapply add_at_outside; [apply Hl|]].
  apply nodes_of_mono. intros x Hx. apply elem_of_app. by right.
Qed.

Lemma remove_at_outside st h owner l c st' :
  list_repr st h l -> c ∈ l -> remove_monza_owner_at bits owner (c * SZ) st = Done st' ->
  same_outside (nodes_of h l) st st'.
Proof.
  intros Hr Hc Ha. unfold remove_monza_owner_at in Ha. rewrite (chunk_of_mul bits cfg Hbits) in Ha.
  destruct (negb _); [done|]. apply (entry_remove_outside (clear_owner c st) h l c); [|done|done].
  by apply list_repr_owner.
Qed.

Lemma remove_chunks_outside st h owner l cs st' :
  owner <> null_owner -> owned_list st h owner l ->
  ofold (fun s c => remove_monza_owner_at bits owner (c * SZ) s) cs st = Done st' ->
  same_outside (nodes_of h l) st st'.
Proof.
  intros Ho. revert st l; induction cs as [|c cs IH]; intros st l Hl Hst; cbn [ofold] in Hst.
  { by injection Hst as <-. }
  apply obind_done in Hst as (st1 & Hrem & Hst).
  pose proof (remove_owner_at_spec bits cfg Hbits st h owner l c Ho Hl) as Hs.
  case_decide as Hin; [|congruence]. destruct Hs as (st1' & l1 & l2 & Hrem' & -> & Hl1 & _).
  assert (st1' = st1) as -> by congruence.
  etransitivity; [by eapply remove_at_outside; [apply Hl|..]|].
  eapply same_outside_mono; [|by apply (IH st1 (l1 ++ l2))].
  apply nodes_of_mono. intros x. rewrite !elem_of_app, elem_of_cons. tauto.
Qed.

Context `{SnmallocBits, !SnmallocBitsOk, NodeAllocator, !NodeAllocatorOk} (kernel : Z).

Lemma alloc_range_outside r k n st l rg st' :
  r_owner r <> null_owner -> owned_list (rs_own st) (r_head r) (r_owner r) l ->
  0 <= k -> (k + Z.of_nat n) * SZ <= 2 ^ 48 ->
  alloc_range bits cfg r (k * SZ) (Z.of_nat n * SZ) st = Done (rg, st') ->
  same_outside (nodes_of (r_head r) (rev (chunks k n) ++ l)) (rs_own st) (rs_own st').
Proof.
  intros Ho Hl Hk Hn Ha. pose proof (size_pos bits cfg Hbits). unfold alloc_range in Ha.
  destruct (_ && _); [|by injection Ha as _ <-].
  apply obind_done in Ha as (o & Hadd & Ha). apply obind_done in Ha as (m & _ & Ha).
  injection Ha as _ <-. unfold add_monza_owner in Hadd.
  rewrite (chunk_loop_eq bits cfg Hbits) in Hadd by lia. by eapply add_chunks_outside.
Qed.

Lemma dealloc_range_outside r k n st l st' :
  r_owner r <> null_owner -> owned_list (rs_own st) (r_head r) (r_owner r) l ->
  0 <= k -> (k + Z.of_nat n) * SZ <= 2 ^ 48 ->
  dealloc_range bits cfg kernel r (k * SZ) (Z.of_nat n * SZ) st = Done st' ->
  same_outside (nodes_of (r_head r) l) (rs_own st) (rs_own st').
Proof.
  intros Ho Hl Hk Hn Ha. pose proof (size_pos bits cfg Hbits). unfold dealloc_range in Ha.
  apply obind_done in Ha as (st1 & Ha & Hd). injection Hd as <-. cbn [rs_own].
  destruct (negb _); [|by injection Ha as <-].
  apply obind_done in Ha as (m & _ & Ha). apply obind_done in Ha as (o & Hrem & Ha).
  injection Ha as <-. unfold remove_monza_owner in Hrem.
  rewrite (chunk_loop_eq bits cfg Hbits) in Hrem by lia. by eapply remove_chunks_outside.
Qed.

Lemma dealloc_entry_outside r c l st st' :
  r_owner r <> null_owner -> owned_list (rs_own st) (r_head r) (r_owner r) l ->
  0 <= c -> (c + 1) * SZ <= 2 ^ 48 -> dealloc_entry bits cfg kernel r c st = Done st' ->
  same_outside (nodes_of (r_head r) l) (rs_own st) (rs_own st').
Proof.
  intros Ho Hl Hc Hn Hd. unfold dealloc_entry in Hd. apply obind_done in Hd as (st1 & Hd & Hst).
  injection Hst as <-.
  apply (dealloc_range_outside r c 1 (mkRS (rs_own st) (rs_pt st) (rs_calls st ++ [SetMetaentry (c * SZ) SZ]))
    l st1); try done.
  change (Z.of_nat 1) with 1. by rewrite Z.mul_1_l.
Qed.

Lemma forall_dealloc_outside r l : forall fuel st lab st',
  range_ok cfg r st l lab -> r_root r <> kernel -> Forall (fun c => 0 <= c /\ (c + 1) * SZ <= 2 ^ 48) l ->
  forall_loop rs_own (dealloc_entry bits cfg kernel r) fuel (r_head r)
      (hd (inl (r_head r)) (map inr l)) st = Done st' ->
  same_outside (nodes_of (r_head r) l) (rs_own st) (rs_own st').
Proof.
  induction l as [|c l IH]; intros fuel st lab st' Hok Hne Hr Hrun; cbn [map hd] in Hrun.
  { destruct fuel; cbn in Hrun; rewrite decide_True in Hrun by done; by injection Hrun as <-. }
  apply Forall_cons in Hr as [[Hc Hn] Hr]. destruct fuel as [|fuel]; cbn [forall_loop] in Hrun;
    rewrite decide_False in Hrun by done; [done|].
  assert (nexts (rs_own st) !! inr c = Some (hd (inl (r_head r)) (map inr l))) as Hnext.
  { destruct (ro_list _ _ _ _ _ Hok) as [[_ [Hch|[? _]]] _]; [|done].
    unfold cycle in Hch. cbn in Hch. destruct l; cbn in *; tauto. }
  rewrite Hnext in Hrun. apply obind_done in Hrun as (st1 & Hd & Hrun).
  destruct (dealloc_entry_first bits cfg Hbits kernel r c l st lab Hok Hne Hc Hn)
    as (st1' & lab1 & Hd' & Hok1 & _). assert (st1' = st1) as -> by congruence.
  etransitivity; [eapply dealloc_entry_outside; try done; apply Hok|].
  eapply same_outside_mono; [|by eapply IH]. apply nodes_of_mono. by intros ??; right.
Qed.

Lemma dealloc_all_outside r l fuel st lab st' :
  range_ok cfg r st l lab -> r_root r <> kernel -> Forall (fun c => 0 <= c /\ (c + 1) * SZ <= 2 ^ 48) l ->
  dealloc_all bits cfg kernel fuel r st = Done st' ->
  same_outside (nodes_of (r_head r) l) (rs_own st) (rs_own st').
Proof.
  intros Hok Hne Hr Hd. unfold dealloc_all in Hd. pose proof Hok as [Ho [Hrep Hiff] Hw Ht].
  destruct (lazy_init_repr _ _ _ Hrep) as [Hnd Hch].
  etransitivity; [apply (lazy_init_outside (r_head r) l)|].
  set (st0 := with_own st (lazy_init (r_head r) (rs_own st))) in *.
  assert (nexts (rs_own st0) !! inl (r_head r) = Some (hd (inl (r_head r)) (map inr l))) as Hnext.
  { cbn. unfold cycle in Hch. destruct l; cbn in *; tauto. }
  rewrite Hnext in Hd. apply (forall_dealloc_outside r l fuel st0 lab); try done.
  split; try done. split; [split; [done|by left]|]. intros c. rewrite Hiff. unfold get_owner_of, st0. cbn.
  unfold lazy_init. by destruct (nexts (rs_own st) !! inl (r_head r)).
Qed.

End Frames.

(** ** The system *)

Section System.
Context `{SnmallocBits, NodeAllocator} (bits : Z) (cfg : page_config) (kernel : Z) (hr : HeapRanges).
Context (predefined interrupt_stack_map : list MapEntry) (boot_tables : pt_mem).

(** The allocator states that exist, one for each compartment and held by shared pointers: a compartment
    object has one ([alloc_local_state]), and so has every [CompartmentMemory] made for it, so an allocator state
    may be there after its compartment object has gone. The list head is a member of the allocator state, hence in no other one;
    the owner recorded in the page map is the address of the compartment object, [this], and nothing in the code
    keeps a new object from having the address of one whose allocator state is still there. With [fresh], that does not happen.
    An allocator state is destroyed with the last pointer to it, after whatever the memories have given back before. *)
Inductive reach (fresh : bool) : list MonzaRange -> RangeState -> Prop :=
| reach_boot : reach fresh [] (mkRS own_initial boot_tables [])
| reach_construct comps st this h x st' :
    reach fresh comps st -> this <> null_owner -> (fresh = true -> this ∉ map r_owner comps) -> h ∉ map r_head comps ->
    compartment_construct cfg predefined interrupt_stack_map this h st = Done (x, st') ->
    reach fresh (x :: comps) st'
| reach_step comps st st' :
    reach fresh comps st -> step bits cfg kernel hr comps st st' -> reach fresh comps st'
| reach_destroy comps comps' x st fuel st' :
    reach fresh comps st -> comps ≡ₚ x :: comps' ->
    monza_range_destroy bits cfg kernel fuel x st = Done st' -> reach fresh comps' st'.

End System.

(** ** Invariant *)

Record sys_ok (bits : Z) (cfg : page_config) (kernel : Z) (rights : Z -> option (Z * bool * bool))
  (comps : list MonzaRange) (lab : gmap Z label) (st : RangeState) : Prop := {
  so_heads : NoDup (map r_head comps);
  so_owners : NoDup (map r_owner comps);
  so_roots : NoDup (map r_root comps);
  so_wf : pt_wf cfg (rs_pt st) lab;
  so_ranges : forall x, x ∈ comps -> exists l, range_ok cfg x st l lab;
  so_writes : forall x va, x ∈ comps -> canonical va ->
    user_writes cfg st x va <-> get_monza_owner bits (rs_own st) va = r_owner x;
  so_live : forall c, get_owner_of (rs_own st) c <> null_owner ->
    exists x, x ∈ comps /\ get_owner_of (rs_own st) c = r_owner x;
  so_bounds : forall c, get_owner_of (rs_own st) c <> null_owner ->
    0 <= c /\ (c + 1) * MIN_OWNERSHIP_SIZE bits <= 2 ^ 48;
  so_kernel : table lab kernel true;
  so_rights : forall va, canonical va ->
    hw_access cfg (root_depth cfg) (rs_pt st) kernel va = rights va;
}.

Lemma nodup_map_inj {A B} (f : A -> B) l x y : NoDup (map f l) -> x ∈ l -> y ∈ l -> f x = f y -> x = y.
Proof.
  induction l as [|z l IH]; intros Hnd Hx Hy Hf; [by apply elem_of_nil in Hx|].
  cbn in Hnd. apply NoDup_cons in Hnd as [Hz Hnd]. apply elem_of_cons in Hx, Hy.
  assert (forall w, w ∈ l -> f w ∈ map f l) as Hin by (intros w Hw; by apply list_elem_of_fmap_2).
  destruct Hx as [->|Hx], Hy as [->|Hy]; auto; exfalso; apply Hz; [rewrite Hf|rewrite <- Hf]; auto.
Qed.

(** Only chunks of the owner, before or after, change owner. *)
Definition owner_change (owner : CompartmentOwner) (st st' : OwnStore) : Prop :=
  forall c, get_owner_of st' c = get_owner_of st c \/
    ((get_owner_of st c = null_owner \/ get_owner_of st c = owner) /\
     (get_owner_of st' c = null_owner \/ get_owner_of st' c = owner)).

Section Preserved.
Context (bits : Z) (cfg : page_config) (Hbits : page_bits cfg <= bits < 48).
Context `{SnmallocBits, !SnmallocBitsOk, NodeAllocator, !NodeAllocatorOk}.
Context (kernel : Z) (hr : HeapRanges) (rights : Z -> option (Z * bool * bool)).

Notation "'SZ'" := (MIN_OWNERSHIP_SIZE bits).
Notation "'inv'" := (sys_ok bits cfg kernel rights).

Lemma sys_ok_perm comps comps' lab st : comps ≡ₚ comps' -> inv comps lab st -> inv comps' lab st.
Proof.
  intros Hp [K1 K2 K3 K4 K5 K6 K7 K8 K9 K10].
  assert (forall x, x ∈ comps' <-> x ∈ comps) as Hin by (intros x; by rewrite Hp).
  split; try done.
  - by rewrite <- Hp.
  - by rewrite <- Hp.
  - by rewrite <- Hp.
  - intros x Hx. by apply K5, Hin.
  - intros x va Hx. by apply K6, Hin.
  - intros c Hc. destruct (K7 c Hc) as (x & Hx & ?). exists x. by rewrite Hin.
Qed.

Lemma root_not_kernel comps lab st x : inv comps lab st -> x ∈ comps -> r_root x <> kernel.
Proof.
  intros Hi Hx Heq. destruct (so_ranges _ _ _ _ _ _ _ Hi x Hx) as [l [_ _ _ Ht]].
  pose proof (so_kernel _ _ _ _ _ _ _ Hi) as Hk. unfold table in *. rewrite Heq, Hk in Ht. done.
Qed.

(** An operation of [x] on its own list, chunks and table. *)
Lemma sys_op comps x l l' acc st lab st' lab' :
  inv comps lab st -> x ∈ comps -> range_ok cfg x st l lab -> range_ok cfg x st' l' lab' ->
  table_step cfg (r_root x) acc (rs_pt st) lab (rs_pt st') lab' ->
  same_outside (nodes_of (r_head x) (l' ++ l)) (rs_own st) (rs_own st') ->
  owner_change (r_owner x) (rs_own st) (rs_own st') ->
  (forall c, c ∈ l' -> c ∈ l \/ 0 <= c /\ (c + 1) * SZ <= 2 ^ 48) ->
  (forall va, canonical va -> user_writes cfg st' x va <->
     get_monza_owner bits (rs_own st') va = r_owner x) ->
  inv comps lab' st'.
Proof.
  intros Hi Hx Hr Hr' Hts Hout Hoc Hb Hw. pose proof Hi as [K1 K2 K3 K4 K5 K6 K7 K8 K9 K10].
  pose proof Hr as [Ho [_ Hl] _ _]. pose proof Hr' as [_ [_ Hl'] _ _].
  assert (forall y, y ∈ comps -> y <> x ->
    r_head y <> r_head x /\ r_owner y <> r_owner x /\ r_root y <> r_root x) as Hne.
  { intros y Hy Hyx. split_and!; intros He; apply Hyx; by eapply nodup_map_inj in He. }
  assert (forall y c, y ∈ comps -> y <> x ->
    get_owner_of (rs_own st') c = r_owner y <-> get_owner_of (rs_own st) c = r_owner y) as Hoth.
  { intros y c Hy Hyx. destruct (Hne y Hy Hyx) as (_ & Hoy & _).
    destruct (K5 y Hy) as [ly [Hny _ _ _]].
    destruct (Hoc c) as [->|[[E|E] [E'|E']]]; [done|..]; split; congruence. }
  split; try done; [apply Hts| | | | | |].
  - intros y Hy. destruct (decide (y = x)) as [->|Hyx]; [by exists l'|].
    destruct (K5 y Hy) as [ly [Hny [Hrep Hly] _ Hty]]. destruct (Hne y Hy Hyx) as (Hhy & Hoy & _).
    exists ly. split; try done; [|apply Hts|by eapply lookup_weaken, Hts]. split.
    + eapply list_repr_outside; [exact Hout|by rewrite nodes_of_head| |done].
      intros c Hc. rewrite nodes_of_chunk, elem_of_app, Hl, Hl'. apply Hly in Hc.
      pose proof (proj2 (Hoth y c Hy Hyx) Hc). intros [?|?]; congruence.
    + intros c. by rewrite Hly, Hoth.
  - intros y va Hy Hva. destruct (decide (y = x)) as [->|Hyx]; [by apply Hw|].
    destruct (K5 y Hy) as [ly [_ _ _ Hty]]. destruct (Hne y Hy Hyx) as (_ & _ & Hry).
    unfold user_writes. rewrite (ts_others _ _ _ _ _ _ _ Hts _ false) by done.
    unfold get_monza_owner. rewrite (Hoth y) by done. by apply K6.
  - intros c Hc. destruct (Hoc c) as [Hs|[_ [?|?]]]; [|done|by exists x].
    rewrite Hs in Hc |- *. by apply K7.
  - intros c Hc. destruct (Hoc c) as [Hs|[_ [?|Hs]]]; [|done|].
    + rewrite Hs in Hc. by apply K8.
    + apply Hl' in Hs. destruct (Hb c Hs) as [Hcl|?]; [|done]. apply K8. apply Hl in Hcl. congruence.
  - by eapply lookup_weaken, Hts.
  - intros va Hva. rewrite (ts_others _ _ _ _ _ _ _ Hts _ true); try done; [by apply K10|].
    intros E. by apply (root_not_kernel comps lab st x Hi Hx).
Qed.

Lemma fault_preserves comps lab st x address err m' :
  inv comps lab st -> x ∈ comps -> canonical address ->
  page_fault_handler bits cfg hr (rs_own st) (r_owner x) address (r_root x) err (rs_pt st) = Done m' ->
  exists lab', inv comps lab' (with_pt st m').
Proof.
  intros Hi Hx Ha Hf. destruct (so_ranges _ _ _ _ _ _ _ Hi x Hx) as [l Hr]. pose proof Hr as [Ho Hl Hw Ht].
  destruct (page_fault_table_op bits cfg hr (rs_own st) (r_owner x) address (r_root x) err (rs_pt st) lab
    m' Hw Ht Ha Hf) as [lab' Hop]. exists lab'. cbn zeta in Hop.
  pose proof (table_op_step _ _ _ _ _ _ _ _ _ Hop) as Hts.
  eapply (sys_op comps x l l); try done.
  - split; try done; [apply Hop|by eapply lookup_weaken, Hts].
  - intros c. by left.
  - intros c Hc. by left.
  - intros va Hva. unfold user_writes. cbn [with_pt rs_pt rs_own] in *. rewrite (ts_access _ _ _ _ _ _ _ Hts) by done.
    destruct (in_bounds _ _ va) eqn:E; [|by apply (so_writes _ _ _ _ _ _ _ Hi)].
    apply in_bounds_spec in E. replace (get_monza_owner bits (rs_own st) va) with (get_monza_owner bits (rs_own st) address)
      by (unfold get_monza_owner; f_equal; symmetry; by apply (page_in_chunk bits cfg Hbits)).
    case_decide; split; try done; [by eexists|by intros [pa Hpa]].
Qed.

Lemma alloc_preserves comps lab st x k n rg st' :
  inv comps lab st -> x ∈ comps -> 0 <= k -> (k + Z.of_nat n) * SZ <= 2 ^ 48 ->
  alloc_range bits cfg x (k * SZ) (Z.of_nat n * SZ) st = Done (rg, st') ->
  exists lab', inv comps lab' st'.
Proof.
  intros Hi Hx Hk Hn Ha. destruct (so_ranges _ _ _ _ _ _ _ Hi x Hx) as [l Hr].
  destruct (decide (k = 0)) as [->|Hk0].
  { unfold alloc_range in Ha. injection Ha as _ <-. by exists lab. }
  pose proof (size_pos bits cfg Hbits) as Hsz.
  pose proof Hr as [Ho Hl _ _]. pose proof (alloc_range_outside bits cfg Hbits x k n st l rg st' Ho Hl Hk Hn Ha) as Hout.
  destruct (alloc_range_spec bits cfg Hbits x k n st l lab rg st' Hr ltac:(lia) Hn Ha)
    as (_ & Hnull & Hg & lab' & Hr' & Hop). exists lab'.
  pose proof (table_op_step _ _ _ _ _ _ _ _ _ Hop) as Hts.
  eapply (sys_op comps x l (rev (chunks k n) ++ l)); try done.
  - eapply same_outside_mono; [|exact Hout]. apply nodes_of_mono. intros c Hc. apply elem_of_app. by left.
  - intros c. rewrite Hg. case_decide as Hc; [right|by left]. rewrite (Hnull c Hc). auto.
  - intros c [Hc|Hc]%elem_of_app; [|by left]. right.
    rewrite list_elem_of_In, <- in_rev, <- list_elem_of_In in Hc. apply elem_of_chunks in Hc. nia.
  - intros va Hva. unfold user_writes. rewrite (ts_access _ _ _ _ _ _ _ Hts) by done.
    unfold get_monza_owner. rewrite Hg. destruct (in_bounds _ _ va) eqn:E.
    + apply in_bounds_spec, (chunk_bounds bits cfg Hbits), elem_of_chunks in E. rewrite decide_True by done.
      split; [done|by eexists].
    + apply in_bounds_false in E. rewrite decide_False; [by apply (so_writes _ _ _ _ _ _ _ Hi)|].
      intros Hc. apply E, (chunk_bounds bits cfg Hbits). by apply elem_of_chunks.
Qed.

Lemma dealloc_preserves comps lab st x k n st' :
  inv comps lab st -> x ∈ comps -> 0 <= k -> (k + Z.of_nat n) * SZ <= 2 ^ 48 ->
  dealloc_range bits cfg kernel x (k * SZ) (Z.of_nat n * SZ) st = Done st' ->
  exists lab', inv comps lab' st'.
Proof.
  intros Hi Hx Hk Hn Ha. destruct (so_ranges _ _ _ _ _ _ _ Hi x Hx) as [l Hr]. pose proof Hr as [Ho Hl _ _].
  pose proof (dealloc_range_outside bits cfg Hbits kernel x k n st l st' Ho Hl Hk Hn Ha) as Hout.
  pose proof (root_not_kernel _ _ _ _ Hi Hx) as Hrk.
  destruct (dealloc_range_spec bits cfg Hbits kernel x k n st l lab Hr Hrk Hk Hn) as [Hall Hd].
  pose proof (proj2 Hall (ex_intro _ st' Ha)) as Hin.
  destruct (Hd st' Ha) as (Hg & _ & l' & lab' & Hr' & Hl' & Hop). exists lab'.
  pose proof (table_op_step _ _ _ _ _ _ _ _ _ Hop) as Hts.
  eapply (sys_op comps x l l'); try done.
  - eapply same_outside_mono; [|exact Hout]. apply nodes_of_mono. intros c Hc. apply elem_of_app. by right.
  - intros c. rewrite Hg. case_decide as Hc; [right|by left]. destruct Hl as [_ Hl].
    rewrite (proj1 (Hl c) (Hin c Hc)). auto.
  - intros c Hc. left. by apply Hl' in Hc as [? _].
  - intros va Hva. unfold user_writes. rewrite (ts_access _ _ _ _ _ _ _ Hts) by done.
    unfold get_monza_owner. rewrite Hg. destruct (in_bounds _ _ va) eqn:E.
    + apply in_bounds_spec, (chunk_bounds bits cfg Hbits), elem_of_chunks in E. rewrite decide_True by done.
      split; [by intros [pa Hpa]|congruence].
    + apply in_bounds_false in E. rewrite decide_False; [by apply (so_writes _ _ _ _ _ _ _ Hi)|].
      intros Hc. apply E, (chunk_bounds bits cfg Hbits). by apply elem_of_chunks.
Qed.

(** More fuel does not change a result. *)
Lemma forall_loop_fuel {S} (store : S -> OwnStore) f h : forall fuel fuel' curr s s',
  (fuel <= fuel')%nat -> forall_loop store f fuel h curr s = Done s' ->
  forall_loop store f fuel' h curr s = Done s'.
Proof.
  induction fuel as [|fuel IH]; intros fuel' curr s s' Hle Hrun.
  { destruct fuel'; cbn in *; case_decide; done. }
  destruct fuel' as [|fuel']; [lia|]. cbn [forall_loop] in *. case_decide; [done|].
  case_match; [|done]. case_match; [done|]. apply obind_done in Hrun as (s1 & -> & Hrun). cbn [obind].
  apply IH; [lia|done].
Qed.

Lemma dealloc_all_fuel fuel fuel' x st st' :
  (fuel <= fuel')%nat -> dealloc_all bits cfg kernel fuel x st = Done st' ->
  dealloc_all bits cfg kernel fuel' x st = Done st'.
Proof. intros Hle. unfold dealloc_all. case_match; [|done]. by apply forall_loop_fuel. Qed.

(** Everything the compartment owns is taken from it. *)
Lemma dealloc_all_preserves comps lab st x fuel st' :
  inv comps lab st -> x ∈ comps -> dealloc_all bits cfg kernel fuel x st = Done st' ->
  exists lab', inv comps lab' st' /\ (forall c, get_owner_of (rs_own st') c <> r_owner x) /\
    forall c, get_owner_of (rs_own st') c =
      if decide (get_owner_of (rs_own st) c = r_owner x) then null_owner else get_owner_of (rs_own st) c.
Proof.
  intros Hi Hx Ha. destruct (so_ranges _ _ _ _ _ _ _ Hi x Hx) as [l Hr]. pose proof Hr as [Ho [_ Hl] _ _].
  pose proof (root_not_kernel _ _ _ _ Hi Hx) as Hrk.
  assert (Forall (fun c => 0 <= c /\ (c + 1) * SZ <= 2 ^ 48) l) as Hb.
  { apply Forall_forall. intros c Hc%Hl. apply (so_bounds _ _ _ _ _ _ _ Hi). congruence. }
  apply (dealloc_all_fuel _ (Nat.max fuel (length l))) in Ha; [|lia].
  pose proof (dealloc_all_outside bits cfg Hbits kernel x l _ st lab st' Hr Hrk Hb Ha) as Hout.
  destruct (dealloc_all_spec bits cfg Hbits kernel x st l lab (Nat.max fuel (length l)) Hr Hrk Hb ltac:(lia))
    as (st1 & lab' & Hd & Hr' & Hg & _ & Hts). assert (st1 = st') as -> by congruence.
  exists lab'. split_and!; [|intros c Hc; destruct Hr' as [_ [_ Hl'] _ _]; by apply Hl', elem_of_nil in Hc|
    intros c; rewrite Hg; apply decide_ext, Hl].
  eapply (sys_op comps x l []); try done.
  - intros c. rewrite Hg. case_decide as Hc; [right|by left]. apply Hl in Hc. auto.
  - intros c Hc. by apply elem_of_nil in Hc.
  - intros va Hva. unfold user_writes. rewrite (ts_access _ _ _ _ _ _ _ Hts) by done.
    unfold unmapped, get_monza_owner. rewrite Hg. case_decide as Hc.
    + split; [by intros [pa Hpa]|congruence].
    + by apply (so_writes _ _ _ _ _ _ _ Hi).
Qed.

(** The table of a compartment without memory is given back. *)
Lemma release_table_preserves comps x lab st :
  inv (x :: comps) lab st -> (forall c, get_owner_of (rs_own st) c <> r_owner x) ->
  inv comps (filter (fun p => l_root p.2 <> r_root x) lab)
    (with_pt st (deallocate_compartment_pagetable cfg (r_root x) (rs_pt st))).
Proof.
  intros Hi Hnone. assert (x ∈ x :: comps) as Hx by by left.
  pose proof (root_not_kernel _ _ _ _ Hi Hx) as Hrk.
  pose proof Hi as [K1 K2 K3 K4 K5 K6 K7 K8 K9 K10]. destruct (K5 x Hx) as [lx [Hox _ _ Htx]].
  cbn in K1, K2, K3. apply NoDup_cons in K1 as [_ K1], K2 as [_ K2], K3 as [Hr3 K3].
  destruct (deallocate_compartment_pagetable_safe cfg _ lab K4 (r_root x) Htx) as (_ & _ & Hacc).
  assert (forall y, y ∈ comps -> r_root y <> r_root x) as Hne.
  { intros y Hy E. apply Hr3. rewrite <- E. by apply list_elem_of_fmap_2. }
  assert (forall y, y ∈ comps -> y ∈ x :: comps) as Hin by (intros y Hy; by right).
  split; try done.
  - by apply deallocate_compartment_pagetable_wf.
  - intros y Hy. destruct (K5 y (Hin y Hy)) as [l [Hy1 Hy2 _ Hy4]]. exists l. split; try done.
    + by apply deallocate_compartment_pagetable_wf.
    + apply map_lookup_filter_Some. split; [done|]. cbn. by apply Hne.
  - intros y va Hy Hva. destruct (K5 y (Hin y Hy)) as [l [_ _ _ Hy4]]. unfold user_writes. cbn.
    rewrite (Hacc _ false) by auto. by apply K6; [auto|].
  - intros c Hc. destruct (K7 c Hc) as (y & Hy & Hcy). apply elem_of_cons in Hy as [->|Hy]; [|by exists y].
    by destruct (Hnone c).
  - apply map_lookup_filter_Some. split; [done|]. cbn. by intros E.
  - intros va Hva. cbn. rewrite (Hacc _ true) by auto. auto.
Qed.

Lemma destroy_preserves comps comps' x lab st fuel st' :
  inv comps lab st -> comps ≡ₚ x :: comps' -> monza_range_destroy bits cfg kernel fuel x st = Done st' ->
  (exists lab', inv comps' lab' st') /\
  forall c, get_owner_of (rs_own st') c =
    if decide (get_owner_of (rs_own st) c = r_owner x) then null_owner else get_owner_of (rs_own st) c.
Proof.
  intros Hi Hp Hd. apply (sys_ok_perm _ _ _ _ Hp) in Hi. assert (x ∈ x :: comps') as Hx by by left.
  unfold monza_range_destroy in Hd. apply obind_done in Hd as (st1 & Ha & Hd).
  destruct (so_ranges _ _ _ _ _ _ _ Hi x Hx) as [l [Ho _ _ _]].
  destruct (Z.eqb_spec null_owner (r_owner x)); [congruence|]. cbn in Hd. injection Hd as <-.
  destruct (dealloc_all_preserves _ _ _ _ _ _ Hi Hx Ha) as (lab' & Hi' & Hnone & Hsame).
  split; [|done]. eexists. by apply release_table_preserves.
Qed.

(** ** Creation, and all reachable states *)

Context (predefined interrupt_stack_map : list MapEntry).
Context (Hmap : Forall (fun e => region_ok (map_range e) /\ entry_aligned cfg e)
  (predefined ++ interrupt_stack_map)).
Context (Hperm : Forall (fun e => map_perm e <> PT_COMPARTMENT_WRITE) (predefined ++ interrupt_stack_map)).

Lemma construct_result this h st x st' :
  compartment_construct cfg predefined interrupt_stack_map this h st = Done (x, st') ->
  exists root m, create_compartment_pagetable cfg predefined interrupt_stack_map (rs_pt st) = Done (root, m) /\
    x = mkMonzaRange h this root /\ st' = mkRS (head_construct h (rs_own st)) m (rs_calls st).
Proof.
  intros Hc. unfold compartment_construct in Hc. apply obind_done in Hc as ([root m] & Hpt & Hc).
  unfold local_state_construct, set_owner in Hc. cbn in Hc. rewrite andb_false_r in Hc. cbn in Hc.
  injection Hc as <- <-. by exists root, m.
Qed.

(** The head of a new list is nobody else's. *)
Lemma head_construct_outside h st : same_outside (fun a => a = inl h) st (head_construct h st).
Proof. intros a Ha. cbn. by rewrite !lookup_delete_ne by congruence. Qed.

Lemma construct_preserves comps lab st this h x st' :
  inv comps lab st -> this <> null_owner -> this ∉ map r_owner comps -> h ∉ map r_head comps ->
  compartment_construct cfg predefined interrupt_stack_map this h st = Done (x, st') ->
  exists lab', inv (x :: comps) lab' st'.
Proof.
  intros Hi Hthis Hown Hh Hc. apply construct_result in Hc as (root & m & Hpt & -> & ->).
  pose proof Hi as [K1 K2 K3 K4 K5 K6 K7 K8 K9 K10].
  destruct (create_compartment_spec cfg _ _ _ _ _ _ K4 Hmap Hperm Hpt)
    as (lab' & Hw & Hext & Ht & Hnew & _ & Hnw & Hoth). exists lab'.
  assert (forall y, y ∈ comps -> r_root y <> root) as Hroot.
  { intros y Hy E. subst root. destruct (K5 y Hy) as [l [_ _ _ Hty]]. unfold table in Hty. congruence. }
  split; cbn [map r_head r_owner r_root rs_own rs_pt]; try done.
  - by apply NoDup_cons.
  - by apply NoDup_cons.
  - apply NoDup_cons. split; [|done]. intros (y & E & Hy)%list_elem_of_fmap. by apply (Hroot y).
  - intros y [->|Hy]%elem_of_cons.
    + exists []. split; try done. cbn. split; [split; [constructor|right; split; [done|apply lookup_delete_eq]]|].
      intros c. rewrite elem_of_nil. split; [done|]. intros Hc. exfalso.
      destruct (K7 c) as (y & Hy & Hcy); [unfold get_owner_of in *; cbn in Hc; congruence|].
      apply Hown. unfold get_owner_of in *. cbn in Hc. rewrite Hc in Hcy. rewrite Hcy.
      by apply list_elem_of_fmap_2.
    + destruct (K5 y Hy) as [l [Hy1 [Hrep Hl] _ Hy4]]. exists l. split; try done; [|by eapply lookup_weaken].
      split; [|done]. apply (list_repr_outside _ _ _ _ _ (head_construct_outside h (rs_own st))); [|done|done].
      intros [= E]. apply Hh. rewrite <- E. by apply list_elem_of_fmap_2.
  - intros y va [->|Hy]%elem_of_cons Hva; unfold user_writes; cbn.
    + split.
      * intros [pa Hpa]. destruct (Hnw va pa true true Hva Hpa) as [_ E]. by specialize (E eq_refl).
      * intros Hc. exfalso. destruct (K7 (chunk_of bits va)) as (y & Hy & Hcy); [unfold get_monza_owner, get_owner_of in *; cbn in Hc; congruence|].
        apply Hown. unfold get_monza_owner, get_owner_of in *. cbn in Hc. rewrite Hc in Hcy. rewrite Hcy.
        by apply list_elem_of_fmap_2.
    + destruct (K5 y Hy) as [l [_ _ _ Hy4]]. rewrite (Hoth _ false) by done. by apply (K6 y va Hy Hva).
  - intros c Hc. destruct (K7 c Hc) as (y & Hy & Hcy). exists y. split; [by right|done].
  - by eapply lookup_weaken.
  - intros va Hva. rewrite (Hoth _ true) by done. auto.
Qed.

Context (boot_tables : pt_mem) (lab0 : gmap Z label) (Hwf0 : pt_wf cfg boot_tables lab0).
Context (Hkernel : table lab0 kernel true).
Context (Hrights : forall va, hw_access cfg (root_depth cfg) boot_tables kernel va = rights va).

Lemma reach_inv comps st :
  reach bits cfg kernel hr predefined interrupt_stack_map boot_tables true comps st ->
  exists lab, inv comps lab st.
Proof.
  induction 1 as [|comps st this h x st' _ [lab IH] ? Hf ? Hc|comps st st' _ [lab IH] Hs|
    comps comps' x st fuel st' _ [lab IH] Hp Hd].
  - exists lab0. split; try done; try constructor; try (intros; by rewrite ?elem_of_nil in * ).
  - specialize (Hf eq_refl). by eapply construct_preserves.
  - destruct Hs; [by eapply fault_preserves|by eapply alloc_preserves|by eapply dealloc_preserves].
  - by eapply (proj1 (destroy_preserves _ _ _ _ _ _ _ IH Hp Hd)).
Qed.

(** ** What the kernel can write under the table of a compartment *)

(** The entries that the kernel can write and user mode cannot are those of the boot-time maps that force it. *)
Definition forced (va : Z) : Prop :=
  exists e, e ∈ predefined ++ interrupt_stack_map /\ map_perm e = PT_FORCE_KERNEL_WRITE /\
    in_bounds (start (map_range e)) (end_ (map_range e)) va = true.

Definition ring0_ok (comps : list MonzaRange) (m : pt_mem) : Prop := forall x va pa,
  x ∈ comps -> canonical va -> hw_access cfg (root_depth cfg) m (r_root x) va = Some (pa, true, false) -> forced va.

Lemma map_access_forced va pa :
  map_access false (predefined ++ interrupt_stack_map) va None = Some (pa, true, false) -> forced va.
Proof.
  assert (forall l old, (forall e, e ∈ l -> e ∈ predefined ++ interrupt_stack_map) ->
    (old = Some (pa, true, false) -> forced va) -> map_access false l va old = Some (pa, true, false) -> forced va) as Hgen.
  { induction l as [|e l IH]; intros old Hl Hold; [exact Hold|]. apply IH; [intros e' He'; apply Hl; by right|].
    destruct (in_bounds _ _ va) eqn:Eb; [|exact Hold]. intros He. exists e. split_and!; [apply Hl; by left| |done].
    by destruct (map_perm e). }
  by apply Hgen.
Qed.

Lemma ring0_step comps lab st x acc m' lab' :
  inv comps lab st -> x ∈ comps -> table_step cfg (r_root x) acc (rs_pt st) lab m' lab' ->
  (forall va old pa, acc va old = Some (pa, true, false) -> old = Some (pa, true, false)) ->
  ring0_ok comps (rs_pt st) -> ring0_ok comps m'.
Proof.
  intros Hi Hx Hts Hacc Hr y va pa Hy Hva Hpa. destruct (decide (y = x)) as [->|Hne].
  - rewrite (ts_access _ _ _ _ _ _ _ Hts) in Hpa by done. by eapply Hr, Hacc.
  - destruct (so_ranges _ _ _ _ _ _ _ Hi y Hy) as [l [_ _ _ Hty]].
    rewrite (ts_others _ _ _ _ _ _ _ Hts _ false) in Hpa; try done; [by eapply Hr|].
    intros E. apply Hne. eapply nodup_map_inj; [apply (so_roots _ _ _ _ _ _ _ Hi)|done|done|done].
Qed.

Lemma ring0_op comps lab st x f lo hi m' lab' :
  inv comps lab st -> x ∈ comps -> table_op cfg (r_root x) f lo hi (rs_pt st) lab m' lab' ->
  (forall va pa, f va <> Some (pa, true, false)) -> ring0_ok comps (rs_pt st) -> ring0_ok comps m'.
Proof.
  intros Hi Hx Hop Hf. eapply ring0_step; [done|done|by apply table_op_step|].
  intros va old pa. cbn. destruct (in_bounds lo hi va); [|done]. intros E. by destruct (Hf va pa).
Qed.

Lemma step_ring0 comps lab st st' :
  inv comps lab st -> step bits cfg kernel hr comps st st' -> ring0_ok comps (rs_pt st) -> ring0_ok comps (rs_pt st').
Proof.
  intros Hi Hs Hr. destruct Hs as [x st address err m' Hx Ha Hf|x st k n rg st' Hx Hk Hn Ha|x st k n st' Hx Hk Hn Hd];
    destruct (so_ranges _ _ _ _ _ _ _ Hi x Hx) as [l Hro].
  - pose proof Hro as [_ _ Hw Ht].
    destruct (page_fault_table_op bits cfg hr _ _ _ _ _ _ lab m' Hw Ht Ha Hf) as [lab' Hop]. cbn zeta in Hop.
    eapply ring0_op; [done|done|exact Hop| |done]. intros va pa. by case_decide.
  - destruct (decide (k = 0)) as [->|Hk0]; [unfold alloc_range in Ha; by injection Ha as _ <-|].
    destruct (alloc_range_spec bits cfg Hbits x k n st l lab rg st' Hro ltac:(lia) Hn Ha) as (_ & _ & _ & lab' & _ & Hop).
    by eapply ring0_op.
  - destruct (dealloc_range_spec bits cfg Hbits kernel x k n st l lab Hro (root_not_kernel _ _ _ _ Hi Hx) Hk Hn) as [_ Hdd].
    destruct (Hdd st' Hd) as (_ & _ & l' & lab' & _ & _ & Hop). by eapply ring0_op.
Qed.

Lemma destroy_ring0 comps comps' x lab st fuel st' :
  inv comps lab st -> comps ≡ₚ x :: comps' -> monza_range_destroy bits cfg kernel fuel x st = Done st' ->
  ring0_ok comps (rs_pt st) -> ring0_ok comps' (rs_pt st').
Proof.
  intros Hi Hp Hd Hr. assert (x ∈ comps) as Hx by (rewrite Hp; by left).
  unfold monza_range_destroy in Hd. apply obind_done in Hd as (st1 & Ha & Hd).
  destruct (so_ranges _ _ _ _ _ _ _ Hi x Hx) as [l Hro]. pose proof Hro as [Ho [_ Hl] _ _].
  destruct (Z.eqb_spec null_owner (r_owner x)); [congruence|]. cbn in Hd. injection Hd as <-.
  pose proof (root_not_kernel _ _ _ _ Hi Hx) as Hrk.
  assert (Forall (fun c => 0 <= c /\ (c + 1) * SZ <= 2 ^ 48) l) as Hb.
  { apply Forall_forall. intros c Hc%Hl. apply (so_bounds _ _ _ _ _ _ _ Hi). congruence. }
  apply (dealloc_all_fuel _ (Nat.max fuel (length l))) in Ha; [|lia].
  destruct (dealloc_all_spec bits cfg Hbits kernel x st l lab (Nat.max fuel (length l)) Hro Hrk Hb ltac:(lia))
    as (st2 & lab' & Hd & [_ _ Hw' Ht'] & _ & _ & Hts). assert (st2 = st1) as -> by congruence.
  assert (ring0_ok comps (rs_pt st1)) as Hr1.
  { eapply ring0_step; [exact Hi|exact Hx|exact Hts| |done]. intros va old pa. cbn. unfold unmapped. by case_decide. }
  destruct (deallocate_compartment_pagetable_safe cfg _ lab' Hw' (r_root x) Ht') as (_ & _ & Hacc).
  pose proof (sys_ok_perm _ _ _ _ Hp Hi) as Hi'. pose proof (so_roots _ _ _ _ _ _ _ Hi') as Hnd. cbn in Hnd. apply NoDup_cons in Hnd as [Hnx _].
  intros y va pa Hy Hva. assert (y ∈ comps) as Hyc by (rewrite Hp; by right).
  destruct (so_ranges _ _ _ _ _ _ _ Hi y Hyc) as [ly [_ _ _ Hty]]. cbn.
  rewrite (Hacc _ false); [by apply Hr1|intros E; apply Hnx; rewrite <- E; by apply list_elem_of_fmap_2| |done].
  by eapply lookup_weaken, Hts.
Qed.

(** Under the table of a compartment the kernel can write what the compartment can and what the boot-time maps force. *)
Lemma reach_ring0 comps st :
  reach bits cfg kernel hr predefined interrupt_stack_map boot_tables true comps st -> ring0_ok comps (rs_pt st).
Proof.
  induction 1 as [|comps st this h x st' Hreach IH Hthis Hf Hh Hc|comps st st' Hreach IH Hs|
    comps comps' x st fuel st' Hreach IH Hp Hd]; [by intros x va pa Hx%elem_of_nil|..];
    destruct (reach_inv _ _ Hreach) as [lab Hi].
  - apply construct_result in Hc as (root & m & Hpt & -> & ->). pose proof Hi as [K1 K2 K3 K4 K5 K6 K7 K8 K9 K10].
    destruct (create_compartment_spec cfg _ _ _ _ _ _ K4 Hmap Hperm Hpt) as (lab' & _ & _ & _ & _ & Hacc & _ & Hoth).
    intros y va pa [->|Hy]%elem_of_cons Hva; cbn.
    + rewrite Hacc by done. apply map_access_forced.
    + destruct (K5 y Hy) as [l [_ _ _ Hy4]]. rewrite (Hoth _ false) by done. by apply IH.
  - by eapply step_ring0.
  - by eapply destroy_ring0.
Qed.

(** The kernel writes no address that the compartment does not own and no map forces. *)
Lemma reach_not_writable comps st x va pa u :
  reach bits cfg kernel hr predefined interrupt_stack_map boot_tables true comps st ->
  x ∈ comps -> canonical va -> get_monza_owner bits (rs_own st) va <> r_owner x -> ~ forced va ->
  hw_access cfg (root_depth cfg) (rs_pt st) (r_root x) va <> Some (pa, true, u).
Proof.
  intros Hreach Hx Hva Hown Hforced Hw. destruct (reach_inv _ _ Hreach) as [lab Hi]. destruct u.
  - apply Hown, (so_writes _ _ _ _ _ _ _ Hi x va Hx Hva). by exists pa.
  - by eapply Hforced, (reach_ring0 _ _ Hreach x va pa).
Qed.

(** Destroying an allocator state that exists succeeds. *)
Lemma destroy_succeeds comps lab st x :
  inv comps lab st -> x ∈ comps ->
  exists l, NoDup l /\ (forall c, c ∈ l <-> get_owner_of (rs_own st) c = r_owner x) /\
    forall fuel, (length l <= fuel)%nat ->
    exists st', monza_range_destroy bits cfg kernel fuel x st = Done st' /\
      rs_calls st' = rs_calls st ++ flat_map (release_calls bits) l /\
      rs_pt st' !! r_root x = None /\
      forall c, get_owner_of (rs_own st') c =
        if decide (c ∈ l) then null_owner else get_owner_of (rs_own st) c.
Proof.
  intros Hi Hx. destruct (so_ranges _ _ _ _ _ _ _ Hi x Hx) as [l Hr]. pose proof Hr as [Ho [Hrep Hl] _ _].
  exists l. split; [apply Hrep|]. split; [done|]. intros fuel Hf.
  assert (Forall (fun c => 0 <= c /\ (c + 1) * SZ <= 2 ^ 48) l) as Hb.
  { apply Forall_forall. intros c Hc%Hl. apply (so_bounds _ _ _ _ _ _ _ Hi). congruence. }
  destruct (dealloc_all_spec bits cfg Hbits kernel x st l lab fuel Hr (root_not_kernel _ _ _ _ Hi Hx) Hb Hf)
    as (st1 & lab' & Hd & [_ _ Hw Ht] & Hg & Hc & _).
  unfold monza_range_destroy. rewrite Hd. cbn [obind].
  destruct (Z.eqb_spec null_owner (r_owner x)); [congruence|]. cbn [negb]. eexists. split; [done|].
  split_and!; [done| |done]. cbn.
  by destruct (deallocate_compartment_pagetable_safe cfg _ lab' Hw (r_root x) Ht) as (? & _).
Qed.

End Preserved.

(** C1: Isolation over the life of the system, on one condition: no compartment is constructed at the address
    of one whose allocator state still exists. (That state is shared with every [CompartmentMemory], so it can outlive the
    compartment object; the condition holds where no memory does so, [tidy_life_isolated], and the code does not
    ensure it, [memory_outlives_compartment].) On it, however compartments are constructed, allocate, free,
    fault and have their allocator states destroyed: the addresses that user mode can write through a table are exactly those
    on record for that table's owner, and are writable through no other table of an allocator state that exists; every chunk with an owner
    is that of an allocator state that exists; the kernel's rights never change; and any allocator state can be
    destroyed, which gives back exactly its chunks, each once, and its root table. *)
Theorem compartments_come_and_go (bits : Z) (cfg : page_config)
  `{SnmallocBits, !SnmallocBitsOk, NodeAllocator, !NodeAllocatorOk}
  (kernel : Z) (hr : HeapRanges) (predefined interrupt_stack_map : list MapEntry)
  (boot_tables : pt_mem) (lab0 : gmap Z label) comps st :
  page_bits cfg <= bits < 48 ->
  Forall (fun e => region_ok (map_range e) /\ entry_aligned cfg e) (predefined ++ interrupt_stack_map) ->
  Forall (fun e => map_perm e <> PT_COMPARTMENT_WRITE) (predefined ++ interrupt_stack_map) ->
  pt_wf cfg boot_tables lab0 -> table lab0 kernel true ->
  reach bits cfg kernel hr predefined interrupt_stack_map boot_tables true comps st ->
  (forall x va, x ∈ comps -> canonical va ->
     (user_writes cfg st x va <-> get_monza_owner bits (rs_own st) va = r_owner x) /\
     (user_writes cfg st x va -> forall y, y ∈ comps -> y <> x -> ~ user_writes cfg st y va)) /\
  (forall c, get_owner_of (rs_own st) c <> null_owner ->
     exists x, x ∈ comps /\ get_owner_of (rs_own st) c = r_owner x) /\
  (forall va, canonical va -> hw_access cfg (root_depth cfg) (rs_pt st) kernel va =
     hw_access cfg (root_depth cfg) boot_tables kernel va) /\
  (forall x, x ∈ comps -> exists l, NoDup l /\
     (forall c, c ∈ l <-> get_owner_of (rs_own st) c = r_owner x) /\
     forall fuel, (length l <= fuel)%nat ->
     exists st', monza_range_destroy bits cfg kernel fuel x st = Done st' /\
       rs_calls st' = rs_calls st ++ flat_map (release_calls bits) l /\
       rs_pt st' !! r_root x = None /\
       forall c, get_owner_of (rs_own st') c =
         if decide (c ∈ l) then null_owner else get_owner_of (rs_own st) c).
Proof.
  intros Hbits Hmap Hperm Hwf Hk Hr.
  destruct (reach_inv bits cfg Hbits kernel hr _ predefined interrupt_stack_map Hmap Hperm boot_tables lab0
    Hwf Hk (fun _ => eq_refl) comps st Hr) as [lab Hi].
  pose proof Hi as [_ Ko _ _ _ Kw Kl _ _ Kr]. split_and!; [|done|done|].
  - intros x va Hx Hva. split; [by apply Kw|]. intros Hwx y Hy Hne Hwy.
    apply Hne, (nodup_map_inj r_owner comps); try done.
    by rewrite <- (proj1 (Kw x va Hx Hva) Hwx), (proj1 (Kw y va Hy Hva) Hwy).
  - intros x Hx. by eapply destroy_succeeds.
Qed.

(** ** Witness *)

(** A kernel table at 0x1000; a compartment is constructed and allocates 16 kB. *)
Definition example_life : outcome (MonzaRange * RangeState * RangeState) :=
  let* r := @compartment_construct ref_bits ref_alloc SmallPages example_predefined example_stacks 9 5
              (mkRS own_initial example_mem []) in
  let* a := @alloc_range 14 ref_bits ref_alloc SmallPages (fst r) (2 * MIN_OWNERSHIP_SIZE 14)
              (Z.of_nat 1 * MIN_OWNERSHIP_SIZE 14) (snd r) in
  Done (fst r, snd r, snd a).

Lemma compartments_come_and_go_witness :
  exists x st, @reach ref_bits ref_alloc 14 SmallPages 0x1000 two_heap example_predefined example_stacks
      example_mem true [x] st /\
    user_writes SmallPages st x 0x8000 /\ get_monza_owner 14 (rs_own st) 0x8000 = r_owner x /\
    exists fuel st', @monza_range_destroy 14 ref_bits SmallPages 0x1000 fuel x st = Done st' /\
      get_monza_owner 14 (rs_own st') 0x8000 = null_owner.
Proof.
  assert (match example_life with
    | Done (x, _, st) => hw_access SmallPages 3 (rs_pt st) (r_root x) 0x8000 = Some (0x8000, true, true)
    | _ => False end) as Hw by (vm_compute; reflexivity).
  run_done example_life E. destruct a as [[x st1] st]. unfold example_life in E.
  apply obind_done in E as ([x' st1'] & Ec & E). apply obind_done in E as ([rg st'] & Ea & E).
  injection E as -> -> ->. cbn [fst snd] in Ea.
  exists x, st.
  assert (@reach ref_bits ref_alloc 14 SmallPages 0x1000 two_heap example_predefined example_stacks
      example_mem true [x] st) as Hr.
  { eapply reach_step; [eapply reach_construct; [apply reach_boot|..|exact Ec]|];
      [done|intros _; apply not_elem_of_nil|apply not_elem_of_nil|].
    apply (step_alloc _ _ _ _ _ x st1 2 1 rg); [by left|lia|vm_compute; discriminate|exact Ea]. }
  destruct (example_wf SmallPages true) as [Hwf Ht].
  destruct (@compartments_come_and_go 14 SmallPages ref_bits ref_bits_ok ref_alloc ref_alloc_ok 0x1000 two_heap
    example_predefined example_stacks example_mem (example_lab true) [x] st) as (Hwr & _ & _ & Hd);
    [exact example_bits|apply entries_okb; vm_compute; reflexivity| |exact Hwf|exact Ht|exact Hr|].
  { repeat constructor; discriminate. }
  assert (user_writes SmallPages st x 0x8000) as Huw by (exists 0x8000; exact Hw).
  split; [exact Hr|]. split; [exact Huw|].
  destruct (Hwr x 0x8000) as [Hiff _]; [by left|unfold canonical; lia|]. pose proof (proj1 Hiff Huw) as Ho. split; [exact Ho|].
  destruct (Hd x) as (l & _ & Hl & Hdes); [by left|].
  destruct (Hdes (length l)) as (st2 & Hst2 & _ & _ & Hg); [done|].
  exists (length l), st2. split; [exact Hst2|]. unfold get_monza_owner. rewrite Hg, decide_True; [done|].
  apply Hl. exact Ho.
Defined.
