(* ===== verification/CompartmentSpec.v ===== *)
(** * The memory of compartments, specified

    What the runtime promises about memory, without lists, page maps or tables: compartments come
    into being without memory, chunks that nobody has are granted to one of them, are taken
    back from it, and all it has is taken back when it ends. Every run of the system of [Lifecycle] is one
    of this machine, and what a compartment can write in it is what it has here, as long as no compartment is
    constructed at the address of one whose allocator state still exists. *)

From S2P Require Import Prelude External Address Heap PageTable PageTableWf PageTableOps PageTableProps.
From S2P Require Import Ownership OwnershipProps Isolation Lifecycle.

(** ** The specification *)

(** The chunks of each owner on record: the compartments whose allocator state exists. *)
Abbreviation memory_spec := (gmap CompartmentOwner (gset Z)).

Inductive spec_event : Type :=
| Created (o : CompartmentOwner)
| Granted (o : CompartmentOwner) (cs : gset Z)
| Revoked (o : CompartmentOwner) (cs : gset Z)
| Ended (o : CompartmentOwner)
| Quiet.

(** One step; [None] where the specification does not allow it. *)
Definition spec_step (e : spec_event) (s : memory_spec) : option memory_spec :=
  match e with
  | Created o => if decide (o = null_owner \/ is_Some (s !! o)) then None else Some (<[o := ∅]> s)
  | Granted o cs => own ← s !! o; if decide (map_Forall (fun _ own' => own' ## cs) s) then Some (<[o := own ∪ cs]> s) else None
  | Revoked o cs => own ← s !! o; if decide (cs ⊆ own) then Some (<[o := own ∖ cs]> s) else None
  | Ended o => _ ← s !! o; Some (delete o s)
  | Quiet => Some s
  end.

Fixpoint spec_run (es : list spec_event) (s : memory_spec) : option memory_spec :=
  match es with [] => Some s | e :: es' => s' ← spec_step e s; spec_run es' s' end.

(** No chunk has two owners, and none is the null owner's. *)
Definition spec_ok (s : memory_spec) : Prop :=
  s !! null_owner = None /\
  forall o o' own own' c, s !! o = Some own -> s !! o' = Some own' -> c ∈ own -> c ∈ own' -> o = o'.

Lemma spec_step_ok e s s' : spec_ok s -> spec_step e s = Some s' -> spec_ok s'.
Proof.
  intros [Hn Hd] Hs. destruct e as [o|o cs|o cs|o|]; cbn in Hs.
  - case_decide as Ho; [done|]. injection Hs as <-. split; [rewrite lookup_insert_ne; [done|]; naive_solver|].
    intros o1 o2 own1 own2 c H1 H2. apply lookup_insert_Some in H1 as [[_ <-]|[_ H1]]; [set_solver|].
    apply lookup_insert_Some in H2 as [[_ <-]|[_ H2]]; [set_solver|]. by apply (Hd o1 o2 own1 own2).
  - destruct (s !! o) as [own|] eqn:Eo; [|done]. cbn in Hs. case_decide as Hf; [|done]. injection Hs as <-.
    assert (o <> null_owner) as Hne by congruence. split; [by rewrite lookup_insert_ne|].
    assert (forall o1 own1 c, s !! o1 = Some own1 -> c ∈ own1 -> c ∈ own ∪ cs -> o1 = o) as Hx.
    { intros o1 own1 c H1 Hc [Hc'|Hc']%elem_of_union; [by apply (Hd o1 o own1 own c)|].
      specialize (Hf o1 own1 H1). set_solver. }
    intros o1 o2 own1 own2 c H1 H2 Hc1 Hc2. apply lookup_insert_Some in H1 as [[<- <-]|[_ H1]], H2 as [[<- <-]|[_ H2]];
      [done|symmetry; by eapply Hx|by eapply Hx|by apply (Hd o1 o2 own1 own2 c)].
  - destruct (s !! o) as [own|] eqn:Eo; [|done]. cbn in Hs. case_decide as Hf; [|done]. injection Hs as <-.
    assert (o <> null_owner) as Hne by congruence. split; [by rewrite lookup_insert_ne|].
    intros o1 o2 own1 own2 c H1 H2 Hc1 Hc2.
    apply lookup_insert_Some in H1 as [[<- <-]|[_ H1]], H2 as [[<- <-]|[_ H2]]; [done|..];
      (eapply (Hd _ _ _ _ c); [done|done|set_solver|set_solver]).
  - destruct (s !! o) as [own|] eqn:Eo; [|done]. injection Hs as <-. split; [by apply lookup_delete_None; right|].
    intros o1 o2 own1 own2 c [_ H1]%lookup_delete_Some [_ H2]%lookup_delete_Some. by apply (Hd o1 o2).
  - by injection Hs as <-.
Qed.

Lemma spec_run_snoc es e s s1 s2 : spec_run es s = Some s1 -> spec_step e s1 = Some s2 -> spec_run (es ++ [e]) s = Some s2.
Proof.
  revert s. induction es as [|e' es IH]; intros s Hr Hs; cbn in *.
  - injection Hr as ->. by rewrite Hs.
  - destruct (spec_step e' s) as [s'|]; [|done]. cbn in *. by apply IH.
Qed.

(** ** The system with its events *)

Section Labelled.
Context `{SnmallocBits, NodeAllocator} (bits : Z) (cfg : page_config) (kernel : Z) (hr : HeapRanges).
Context (predefined interrupt_stack_map : list MapEntry) (boot_tables : pt_mem).

Definition chunk_set (k : Z) (n : nat) : gset Z := list_to_set (chunks k n).

(** [reach] with what happened. The parent that has no memory returns a null range, and nothing is
    granted. *)
Inductive traced (fresh : bool) : list spec_event -> list MonzaRange -> RangeState -> Prop :=
| traced_boot : traced fresh [] [] (mkRS own_initial boot_tables [])
| traced_construct es comps st this h x st' :
    traced fresh es comps st -> this <> null_owner -> (fresh = true -> this ∉ map r_owner comps) -> h ∉ map r_head comps ->
    compartment_construct cfg predefined interrupt_stack_map this h st = Done (x, st') ->
    traced fresh (es ++ [Created this]) (x :: comps) st'
| traced_fault es comps st x address err m' :
    traced fresh es comps st -> x ∈ comps -> canonical address ->
    page_fault_handler bits cfg hr (rs_own st) (r_owner x) address (r_root x) err (rs_pt st) = Done m' ->
    traced fresh (es ++ [Quiet]) comps (with_pt st m')
| traced_alloc es comps st x k n rg st' :
    traced fresh es comps st -> x ∈ comps -> 0 <= k -> (k + Z.of_nat n) * MIN_OWNERSHIP_SIZE bits <= 2 ^ 48 ->
    alloc_range bits cfg x (k * MIN_OWNERSHIP_SIZE bits) (Z.of_nat n * MIN_OWNERSHIP_SIZE bits) st = Done (rg, st') ->
    traced fresh (es ++ [if decide (k = 0) then Quiet else Granted (r_owner x) (chunk_set k n)]) comps st'
| traced_dealloc es comps st x k n st' :
    traced fresh es comps st -> x ∈ comps -> 0 <= k -> (k + Z.of_nat n) * MIN_OWNERSHIP_SIZE bits <= 2 ^ 48 ->
    dealloc_range bits cfg kernel x (k * MIN_OWNERSHIP_SIZE bits) (Z.of_nat n * MIN_OWNERSHIP_SIZE bits) st = Done st' ->
    traced fresh (es ++ [Revoked (r_owner x) (chunk_set k n)]) comps st'
| traced_destroy es comps comps' x st fuel st' :
    traced fresh es comps st -> comps ≡ₚ x :: comps' -> monza_range_destroy bits cfg kernel fuel x st = Done st' ->
    traced fresh (es ++ [Ended (r_owner x)]) comps' st'.

Lemma traced_reach fresh comps st :
  reach bits cfg kernel hr predefined interrupt_stack_map boot_tables fresh comps st <-> exists es, traced fresh es comps st.
Proof.
  split.
  - induction 1 as [|comps st this h x st' _ [es IH] ? ? ? Hc|comps st st' _ [es IH] Hs|comps comps' x st fuel st' _ [es IH] Hp Hd].
    + exists []. constructor.
    + eexists. by eapply traced_construct.
    + destruct Hs; eexists; [by eapply traced_fault|by eapply traced_alloc|by eapply traced_dealloc].
    + eexists. by eapply traced_destroy.
  - intros [es Ht]. induction Ht; [constructor|by eapply reach_construct|..|by eapply reach_destroy];
      (eapply reach_step; [done|]); [by eapply step_fault|by eapply step_alloc|by eapply step_dealloc].
Qed.

End Labelled.

(** ** Simulation *)

(** The specification's state for a state of the system. *)
Record abstracts (comps : list MonzaRange) (st : RangeState) (s : memory_spec) : Prop := {
  ab_dom : forall o, is_Some (s !! o) <-> o ∈ map r_owner comps;
  ab_own : forall o own c, s !! o = Some own -> c ∈ own <-> get_owner_of (rs_own st) c = o;
}.

Section Simulation.
Context (bits : Z) (cfg : page_config) (Hbits : page_bits cfg <= bits < 48).
Context `{SnmallocBits, !SnmallocBitsOk, NodeAllocator, !NodeAllocatorOk}.
Context (kernel : Z) (hr : HeapRanges) (rights : Z -> option (Z * bool * bool)).
Context (predefined interrupt_stack_map : list MapEntry).
Context (Hmap : Forall (fun e => region_ok (map_range e) /\ entry_aligned cfg e) (predefined ++ interrupt_stack_map)).
Context (Hperm : Forall (fun e => map_perm e <> PT_COMPARTMENT_WRITE) (predefined ++ interrupt_stack_map)).

Notation "'SZ'" := (MIN_OWNERSHIP_SIZE bits).
Notation "'inv'" := (sys_ok bits cfg kernel rights).

Lemma elem_of_chunk_set k n c : c ∈ chunk_set k n <-> k <= c < k + Z.of_nat n.
Proof. unfold chunk_set. by rewrite elem_of_list_to_set, elem_of_chunks. Qed.

(** Owners in the specification are those of compartments, and not null. *)
Lemma abstract_owner comps lab st s o own : inv comps lab st -> abstracts comps st s -> s !! o = Some own ->
  o <> null_owner /\ o ∈ map r_owner comps.
Proof.
  intros Hi [Hd _] Ho. assert (o ∈ map r_owner comps) as Hin by (apply Hd; by exists own). split; [|done].
  apply list_elem_of_fmap in Hin as (x & -> & Hx). destruct (so_ranges _ _ _ _ _ _ _ Hi x Hx) as [l [Hn _ _ _]]. exact Hn.
Qed.

Lemma simulate_construct comps lab st this h x st' s :
  inv comps lab st -> abstracts comps st s -> this <> null_owner -> this ∉ map r_owner comps ->
  compartment_construct cfg predefined interrupt_stack_map this h st = Done (x, st') ->
  exists s', spec_step (Created this) s = Some s' /\ abstracts (x :: comps) st' s'.
Proof.
  intros Hi [Hd Ho] Hn Hnew Hc. apply construct_result in Hc as (root & m & _ & -> & ->).
  cbn [spec_step]. rewrite decide_False by (intros [?|?]; [done|by apply Hnew, Hd]). eexists. split; [done|]. split; cbn [map r_owner rs_own].
  - intros o. rewrite elem_of_cons, <- Hd. destruct (decide (this = o)) as [<-|Hne].
    + rewrite lookup_insert_eq. split; [by left|done].
    + rewrite lookup_insert_ne by done. naive_solver.
  - intros o own c [[<- <-]|[Hne Hl]]%lookup_insert_Some; [|by apply Ho]. split; [set_solver|]. intros Hc. exfalso.
    change (get_owner_of (rs_own st) c = this) in Hc.
    destruct (so_live _ _ _ _ _ _ _ Hi c) as (y & Hy & Hcy); [congruence|].
    apply Hnew. rewrite <- Hc, Hcy. by apply list_elem_of_fmap_2.
Qed.

Lemma simulate_alloc comps lab st x k n rg st' s :
  inv comps lab st -> abstracts comps st s -> x ∈ comps -> 0 <= k -> (k + Z.of_nat n) * SZ <= 2 ^ 48 ->
  alloc_range bits cfg x (k * SZ) (Z.of_nat n * SZ) st = Done (rg, st') ->
  exists s', spec_step (if decide (k = 0) then Quiet else Granted (r_owner x) (chunk_set k n)) s = Some s' /\
    abstracts comps st' s'.
Proof.
  intros Hi Hab Hx Hk Hhi Ha. case_decide as Hk0.
  { subst k. unfold alloc_range in Ha. injection Ha as _ <-. by exists s. }
  destruct (so_ranges _ _ _ _ _ _ _ Hi x Hx) as [l Hr].
  destruct (alloc_range_spec bits cfg Hbits x k n st l lab rg st' Hr ltac:(lia) Hhi Ha) as (_ & Hnull & Hg & _).
  pose proof Hab as [Hd Ho]. destruct (proj2 (Hd (r_owner x))) as [own Hown]; [by apply list_elem_of_fmap_2|].
  cbn [spec_step]. rewrite Hown. cbn [mbind option_bind]. rewrite decide_True.
  2: { intros o own' Ho' c Hc Hck. apply (Ho o own' c Ho') in Hc. apply elem_of_chunk_set in Hck.
       rewrite (Hnull c Hck) in Hc. destruct (abstract_owner comps lab st s o own' Hi Hab Ho') as [Hne _]. congruence. }
  eexists. split; [done|]. split.
  - intros o. rewrite <- Hd. destruct (decide (r_owner x = o)) as [<-|Hne].
    + rewrite lookup_insert_eq, Hown. done.
    + by rewrite lookup_insert_ne.
  - intros o own' c Hl. rewrite Hg. apply lookup_insert_Some in Hl as [[<- <-]|[Hne Hl]].
    + rewrite elem_of_union, elem_of_chunk_set, (Ho _ _ _ Hown). case_decide; naive_solver.
    + rewrite (Ho _ _ _ Hl). case_decide as Hc; [|done]. rewrite (Hnull c Hc).
      destruct (abstract_owner comps lab st s o own' Hi Hab Hl) as [Hno _]. split; congruence.
Qed.

Lemma simulate_dealloc comps lab st x k n st' s :
  inv comps lab st -> abstracts comps st s -> x ∈ comps -> 0 <= k -> (k + Z.of_nat n) * SZ <= 2 ^ 48 ->
  dealloc_range bits cfg kernel x (k * SZ) (Z.of_nat n * SZ) st = Done st' ->
  exists s', spec_step (Revoked (r_owner x) (chunk_set k n)) s = Some s' /\ abstracts comps st' s'.
Proof.
  intros Hi Hab Hx Hk Hhi Ha. destruct (so_ranges _ _ _ _ _ _ _ Hi x Hx) as [l Hr]. pose proof Hr as [Hxn [_ Hl] _ _].
  destruct (dealloc_range_spec bits cfg Hbits kernel x k n st l lab Hr (root_not_kernel _ _ _ _ _ _ _ _ Hi Hx) Hk Hhi) as [Hall Hd'].
  pose proof (proj2 Hall (ex_intro _ st' Ha)) as Hin. destruct (Hd' st' Ha) as (Hg & _).
  pose proof Hab as [Hd Ho]. destruct (proj2 (Hd (r_owner x))) as [own Hown]; [by apply list_elem_of_fmap_2|].
  cbn [spec_step]. rewrite Hown. cbn [mbind option_bind]. rewrite decide_True.
  2: { intros c Hc%elem_of_chunk_set. by apply (Ho _ _ _ Hown), Hl, Hin. }
  eexists. split; [done|]. split.
  - intros o. rewrite <- Hd. destruct (decide (r_owner x = o)) as [<-|Hne].
    + rewrite lookup_insert_eq, Hown. done.
    + by rewrite lookup_insert_ne.
  - intros o own' c Hlo. rewrite Hg. apply lookup_insert_Some in Hlo as [[<- <-]|[Hne Hlo]].
    + rewrite elem_of_difference, elem_of_chunk_set, (Ho _ _ _ Hown). case_decide; naive_solver.
    + rewrite (Ho _ _ _ Hlo). case_decide as Hc; [|done]. rewrite (proj1 (Hl c) (Hin c Hc)).
      destruct (abstract_owner comps lab st s o own' Hi Hab Hlo) as [Hno _]. split; congruence.
Qed.

Lemma simulate_destroy comps comps' lab st x fuel st' s :
  inv comps lab st -> abstracts comps st s -> comps ≡ₚ x :: comps' ->
  monza_range_destroy bits cfg kernel fuel x st = Done st' ->
  exists s', spec_step (Ended (r_owner x)) s = Some s' /\ abstracts comps' st' s'.
Proof.
  intros Hi Hab Hp Hd. destruct (destroy_preserves bits cfg Hbits kernel rights _ _ _ _ _ _ _ Hi Hp Hd) as [_ Hg].
  pose proof Hab as [Hdom Ho]. pose proof (so_owners _ _ _ _ _ _ _ Hi) as Hnd.
  assert (forall o, o ∈ map r_owner comps <-> o = r_owner x \/ o ∈ map r_owner comps') as Hin
    by (intros o; by rewrite Hp, <- elem_of_cons).
  rewrite Hp in Hnd. cbn [map] in Hnd. apply NoDup_cons in Hnd as [Hnot _].
  destruct (proj2 (Hdom (r_owner x))) as [own Hown]; [apply Hin; by left|].
  cbn [spec_step]. rewrite Hown. cbn [mbind option_bind]. eexists. split; [done|]. split.
  - intros o. destruct (decide (r_owner x = o)) as [<-|Hne].
    + rewrite lookup_delete_eq. split; [by intros [? [=]]|done].
    + rewrite lookup_delete_ne, Hdom, Hin by done. naive_solver.
  - intros o own' c [Hne Hl]%lookup_delete_Some. rewrite (Ho _ _ _ Hl), Hg.
    destruct (abstract_owner comps lab st s o own' Hi Hab Hl) as [Hno _]. case_decide; split; congruence.
Qed.

Context (boot_tables : pt_mem) (lab0 : gmap Z label) (Hwf0 : pt_wf cfg boot_tables lab0).
Context (Hkernel : table lab0 kernel true).
Context (Hrights : forall va, hw_access cfg (root_depth cfg) boot_tables kernel va = rights va).

(** The specification follows every run, event by event. *)
Lemma traced_simulated es comps st :
  traced bits cfg kernel hr predefined interrupt_stack_map boot_tables true es comps st ->
  exists lab s, inv comps lab st /\ spec_run es ∅ = Some s /\ spec_ok s /\ abstracts comps st s.
Proof.
  induction 1 as [|es comps st this h x st' _ (lab & s & Hi & Hr & Hs & Ha) Hn Hnew Hh Hc
    |es comps st x a err m' _ (lab & s & Hi & Hr & Hs & Ha) Hx Hcan Hf
    |es comps st x k n rg st' _ (lab & s & Hi & Hr & Hs & Ha) Hx Hk Hhi Hal
    |es comps st x k n st' _ (lab & s & Hi & Hr & Hs & Ha) Hx Hk Hhi Hd
    |es comps comps' x st fuel st' _ (lab & s & Hi & Hr & Hs & Ha) Hp Hd].
  - exists lab0, ∅. split_and!; [|done|split; [done|]|split].
    + split; try done; try constructor; try (intros; by rewrite ?elem_of_nil in * ).
    + intros o o' own own' c Ho. by rewrite lookup_empty in Ho.
    + intros o. rewrite lookup_empty. cbn. rewrite elem_of_nil. split; [by intros [? ?]|done].
    + intros o own c Ho. by rewrite lookup_empty in Ho.
  - specialize (Hnew eq_refl). destruct (simulate_construct _ _ _ _ _ _ _ _ Hi Ha Hn Hnew Hc) as (s' & Hstep & Ha').
    destruct (construct_preserves bits cfg kernel rights _ _ Hmap Hperm _ _ _ _ _ _ _ Hi Hn Hnew Hh Hc) as [lab' Hi'].
    exists lab', s'. split_and!; [done|by eapply spec_run_snoc|by eapply spec_step_ok|done].
  - destruct (fault_preserves bits cfg Hbits kernel hr rights _ _ _ _ _ _ _ Hi Hx Hcan Hf) as [lab' Hi'].
    exists lab', s. split_and!; [done|by eapply spec_run_snoc|done|]. destruct Ha as [Hd Ho]. by split.
  - destruct (simulate_alloc _ _ _ _ _ _ _ _ _ Hi Ha Hx Hk Hhi Hal) as (s' & Hstep & Ha').
    destruct (alloc_preserves bits cfg Hbits kernel rights _ _ _ _ _ _ _ _ Hi Hx Hk Hhi Hal) as [lab' Hi'].
    exists lab', s'. split_and!; [done|by eapply spec_run_snoc|by eapply spec_step_ok|done].
  - destruct (simulate_dealloc _ _ _ _ _ _ _ _ Hi Ha Hx Hk Hhi Hd) as (s' & Hstep & Ha').
    destruct (dealloc_preserves bits cfg Hbits kernel rights _ _ _ _ _ _ _ Hi Hx Hk Hhi Hd) as [lab' Hi'].
    exists lab', s'. split_and!; [done|by eapply spec_run_snoc|by eapply spec_step_ok|done].
  - destruct (simulate_destroy _ _ _ _ _ _ _ _ Hi Ha Hp Hd) as (s' & Hstep & Ha').
    destruct (destroy_preserves bits cfg Hbits kernel rights _ _ _ _ _ _ _ Hi Hp Hd) as [[lab' Hi'] _].
    exists lab', s'. split_and!; [done|by eapply spec_run_snoc|by eapply spec_step_ok|done].
Qed.

End Simulation.

(** C2: The system implements the specification of compartment memory, on the condition that no compartment is
    constructed at the address of one whose allocator state still exists (the code does not ensure it, see
    [memory_outlives_compartment]; where no memory outlives its compartment it holds, see [tidy_life_isolated]). Every
    such run of the system, from boot through any order of constructions, page faults, allocations, frees and
    destructions of allocator states, is a run of the specification with the events it makes: only chunks that nobody has are
    granted, only chunks that a compartment has are taken from it, and a compartment comes into being without memory.
    The owners of the specification are those of the allocator states that exist, no chunk has two owners there, and user mode
    can write an address through a compartment's page table exactly when the specification gives the compartment its chunk. *)
Theorem system_refines_spec (bits : Z) (cfg : page_config)
  `{SnmallocBits, !SnmallocBitsOk, NodeAllocator, !NodeAllocatorOk}
  (kernel : Z) (hr : HeapRanges) (predefined interrupt_stack_map : list MapEntry)
  (boot_tables : pt_mem) (lab0 : gmap Z label) es comps st :
  page_bits cfg <= bits < 48 ->
  Forall (fun e => region_ok (map_range e) /\ entry_aligned cfg e) (predefined ++ interrupt_stack_map) ->
  Forall (fun e => map_perm e <> PT_COMPARTMENT_WRITE) (predefined ++ interrupt_stack_map) ->
  pt_wf cfg boot_tables lab0 -> table lab0 kernel true ->
  traced bits cfg kernel hr predefined interrupt_stack_map boot_tables true es comps st ->
  exists s, spec_run es ∅ = Some s /\ spec_ok s /\
    (forall o, is_Some (s !! o) <-> o ∈ map r_owner comps) /\
    forall x own va, x ∈ comps -> s !! r_owner x = Some own -> canonical va ->
      (user_writes cfg st x va <-> chunk_of bits va ∈ own).
Proof.
  intros Hbits Hmap Hperm Hwf Hk Ht.
  destruct (traced_simulated bits cfg Hbits kernel hr _ predefined interrupt_stack_map Hmap Hperm boot_tables lab0
    Hwf Hk (fun _ => eq_refl) es comps st Ht) as (lab & s & Hi & Hr & Hs & [Hd Ho]).
  exists s. split_and!; [done|done|done|]. intros x own va Hx Hown Hva.
  rewrite (Ho _ _ _ Hown). by apply (so_writes _ _ _ _ _ _ _ Hi).
Qed.

(** A compartment is constructed and allocates the chunk at 0x8000: the specification has granted it that chunk. *)
Lemma system_refines_spec_witness :
  exists x st own, @traced ref_bits ref_alloc 14 SmallPages 0x1000 two_heap example_predefined example_stacks
      example_mem true [Created (r_owner x); Granted (r_owner x) (chunk_set 2 1)] [x] st /\
    spec_run [Created (r_owner x); Granted (r_owner x) (chunk_set 2 1)] ∅ = Some {[ r_owner x := own ]} /\
    2 ∈ own /\ user_writes SmallPages st x 0x8000.
Proof.
  run_done example_life E. destruct a as [[x st1] st]. unfold example_life in E.
  apply obind_done in E as ([x' st1'] & Ec & E). apply obind_done in E as ([rg st'] & Ea & E).
  injection E as -> -> ->. cbn [fst snd] in Ea.
  pose proof (construct_result _ _ _ _ _ _ _ _ Ec) as (root & m & _ & Ex & _).
  assert (@traced ref_bits ref_alloc 14 SmallPages 0x1000 two_heap example_predefined example_stacks
      example_mem true [Created (r_owner x); Granted (r_owner x) (chunk_set 2 1)] [x] st) as Hr.
  { rewrite Ex. apply (traced_alloc _ _ _ _ _ _ _ _ [Created 9] _ st1 _ 2 1 rg);
      [|by left|lia|vm_compute; discriminate|rewrite <- Ex; exact Ea].
    rewrite <- Ex. eapply (traced_construct _ _ _ _ _ _ _ _ [] [] (mkRS own_initial example_mem []) 9 5); [constructor|done|intros _; apply not_elem_of_nil|apply not_elem_of_nil|exact Ec]. }
  destruct (example_wf SmallPages true) as [Hwf Ht].
  destruct (@system_refines_spec 14 SmallPages ref_bits ref_bits_ok ref_alloc ref_alloc_ok 0x1000 two_heap
    example_predefined example_stacks example_mem (example_lab true)
    [Created (r_owner x); Granted (r_owner x) (chunk_set 2 1)] [x] st) as (s & Hrun & _ & Hd & Hw);
    [exact example_bits|apply entries_okb; vm_compute; reflexivity| |exact Hwf|exact Ht|exact Hr|].
  { repeat constructor; discriminate. }
  exists x, st, (∅ ∪ chunk_set 2 1). split; [exact Hr|].
  assert (s = {[ r_owner x := ∅ ∪ chunk_set 2 1 ]}) as ->.
  { rewrite Ex in Hrun. vm_compute in Hrun. injection Hrun as <-. rewrite Ex. vm_compute. reflexivity. }
  split; [exact Hrun|]. split; [vm_compute; reflexivity|].
  apply (Hw x (∅ ∪ chunk_set 2 1)); [by left|by rewrite lookup_singleton_eq|unfold canonical; lia|].
  vm_compute. reflexivity.
Defined.
