(* ===== verification/CompartmentLife.v ===== *)
(** * The life of a compartment's memory

    A compartment (experimental/include/arch_compartment.h, compartment.h) and every [CompartmentMemory]
    (compartment_utils.h) made for it share the allocator state, which a reference count keeps
    alive; its destructor takes the chunks back and releases the page table. The
    owner of the chunks is the address of the compartment. The system has the compartments that exist, the
    memories that were handed out, and the allocator states whose compartment has gone. *)

From S2P Require Import Prelude External Address Heap PageTable PageTableWf PageTableOps PageTableProps.
From S2P Require Import Ownership OwnershipProps Isolation Lifecycle.

(** The allocator state with its use count. *)
Record SharedState : Type := mkShared { sh_range : MonzaRange; sh_count : nat }.

(** An allocator state, the number of stacks of the compartment object where that exists, and
    the number of memories that others hold. *)
Record Entry : Type := mkEntry { en_shared : SharedState; en_stacks : option nat; en_held : nat }.

Abbreviation en_range e := (sh_range (en_shared e)).

Record LifeState : Type := mkLife { ls_entries : list Entry; ls_st : RangeState }.

(** Chunks that the stages of the allocator hand back: first chunk and number. *)
Abbreviation blocks := (list (Z * nat)).

Inductive comp_event : Type :=
| EvConstruct (this h : Z)
| EvFault (i : nat) (address err : Z)
| EvAlloc (i : nat) (k : Z) (n : nat)
| EvDealloc (i : nat) (k : Z) (n : nat)
| EvPushStack (i : nat)
| EvPopStack (i : nat) (g : blocks)
| EvHold (i : nat)
| EvDrop (i : nat) (g : blocks)
| EvEnd (i : nat) (data : blocks) (stacks : list blocks) (tls : blocks).

Section Life.
Context `{SnmallocBits, NodeAllocator} (bits : Z) (cfg : page_config) (kernel : Z) (hr : HeapRanges).
Context (predefined interrupt_stack_map : list MapEntry) (boot_tables : pt_mem) (fuel : nat).

Notation "'SZ'" := (MIN_OWNERSHIP_SIZE bits).

(** ** Objects *)

Definition block_okb (b : Z * nat) : bool := (0 <=? fst b) && ((fst b + Z.of_nat (snd b)) * SZ <=? 2 ^ 48).

(** The stages between a memory and the range component pass on [g] when the memory is released. *)
Definition give_back (x : MonzaRange) (g : blocks) (st : RangeState) : outcome RangeState :=
  ofold (fun s b => dealloc_range bits cfg kernel x (fst b * SZ) (Z.of_nat (snd b) * SZ) s) g st.

(** The destructor of a [std::shared_ptr]: the last one destroys the allocator state. *)
Definition shared_drop (s : SharedState) (st : RangeState) : outcome (option SharedState * RangeState) :=
  match sh_count s with
  | S (S n) => Done (Some (mkShared (sh_range s) (S n)), st)
  | _ => let* st' := monza_range_destroy bits cfg kernel fuel (sh_range s) st in Done (None, st')
  end.

(** [~CompartmentMemory]: the body, then the member [alloc_state]. *)
Definition memory_end (g : blocks) (s : SharedState) (st : RangeState) : outcome (option SharedState * RangeState) :=
  let* st1 := give_back (sh_range s) g st in shared_drop s st1.

(** Memories destroyed one after the other; the state is never freed before the last, as [memories_end_counts] shows. *)
Fixpoint memories_end (gs : list blocks) (s : SharedState) (st : RangeState)
  : outcome (option SharedState * RangeState) :=
  match gs with
  | [] => Done (Some s, st)
  | g :: gs' =>
    let* r := memory_end g s st in
    match fst r with Some s' => memories_end gs' s' (snd r) | None => Done r end
  end.

(** [~ArchitecturalCompartmentBase]: the stacks from the back, then the members [tls_memory] and [alloc_local_state]. *)
Definition arch_end (stacks : list blocks) (tls : blocks) (s : SharedState) (st : RangeState)
  : outcome (option SharedState * RangeState) :=
  let* r := memories_end (stacks ++ [tls]) s st in
  match fst r with Some s' => shared_drop s' (snd r) | None => Done r end.

(** [~Compartment]: the member [data], then the bases; the callbacks that [~CompartmentBase]
    deletes are objects of the kernel's own heap. *)
Definition compartment_end (data : blocks) (stacks : list blocks) (tls : blocks) (s : SharedState) (st : RangeState)
  : outcome (option SharedState * RangeState) :=
  let* r := memory_end data s st in
  match fst r with Some s' => arch_end stacks tls s' (snd r) | None => Done r end.

(** ** The system *)

Definition is_object (e : Entry) : bool := match en_stacks e with Some _ => true | None => false end.

(** What is left of entry [i]. *)
Definition put_entry (i : nat) (r : option SharedState) (stacks : option nat) (held : nat) (l : list Entry) : list Entry :=
  match r with Some s => <[i := mkEntry s stacks held]> l | None => delete i l end.

Definition shared_inc (s : SharedState) : SharedState := mkShared (sh_range s) (S (sh_count s)).

Definition completed {A} (m : outcome A) : option A := match m with Done a => Some a | _ => None end.

(** One event; [None] where it is not possible or stops the machine. A new compartment is an
    object where no other one is, and its list head is in no allocator state that exists. The object
    refers to its allocator state itself, by its data, by its thread-local block and by its first stack. *)
Definition life_step (ev : comp_event) (s : LifeState) : option LifeState :=
  let l := ls_entries s in
  match ev with
  | EvConstruct this h =>
    if decide (this = null_owner \/ this ∈ map (fun e => r_owner (en_range e)) (filter is_object l) \/
        h ∈ map (fun e => r_head (en_range e)) l) then None
    else '(x, st') ← completed (compartment_construct cfg predefined interrupt_stack_map this h (ls_st s));
      Some (mkLife (mkEntry (mkShared x 4) (Some 1%nat) 0 :: l) st')
  | EvFault i address err =>
    e ← l !! i; _ ← en_stacks e;
    if (0 <=? address) && (address <? 2 ^ 48)
    then m' ← completed (page_fault_handler bits cfg hr (rs_own (ls_st s)) (r_owner (en_range e)) address
                      (r_root (en_range e)) err (rs_pt (ls_st s)));
      Some (mkLife l (with_pt (ls_st s) m'))
    else None
  | EvAlloc i k n =>
    e ← l !! i; _ ← en_stacks e;
    if block_okb (k, n)
    then r ← completed (alloc_range bits cfg (en_range e) (k * SZ) (Z.of_nat n * SZ) (ls_st s)); Some (mkLife l (snd r))
    else None
  | EvDealloc i k n =>
    e ← l !! i; _ ← en_stacks e;
    if block_okb (k, n)
    then st' ← completed (dealloc_range bits cfg kernel (en_range e) (k * SZ) (Z.of_nat n * SZ) (ls_st s)); Some (mkLife l st')
    else None
  | EvPushStack i =>
    e ← l !! i; n ← en_stacks e;
    Some (mkLife (<[i := mkEntry (shared_inc (en_shared e)) (Some (S n)) (en_held e)]> l) (ls_st s))
  | EvPopStack i g =>
    e ← l !! i; n ← en_stacks e;
    if (1 <? n)%nat && forallb block_okb g
    then r ← completed (memory_end g (en_shared e) (ls_st s));
      Some (mkLife (put_entry i (fst r) (Some (pred n)) (en_held e) l) (snd r))
    else None
  | EvHold i =>
    e ← l !! i; n ← en_stacks e;
    Some (mkLife (<[i := mkEntry (shared_inc (en_shared e)) (Some n) (S (en_held e))]> l) (ls_st s))
  | EvDrop i g =>
    e ← l !! i;
    if (0 <? en_held e)%nat && forallb block_okb g
    then r ← completed (memory_end g (en_shared e) (ls_st s));
      Some (mkLife (put_entry i (fst r) (en_stacks e) (pred (en_held e)) l) (snd r))
    else None
  | EvEnd i data stacks tls =>
    e ← l !! i; n ← en_stacks e;
    if (length stacks =? n)%nat && forallb (forallb block_okb) (data :: tls :: stacks)
    then r ← completed (compartment_end data stacks tls (en_shared e) (ls_st s));
      Some (mkLife (put_entry i (fst r) None (en_held e) l) (snd r))
    else None
  end.

(** A run of events that [ok] allows. *)
Fixpoint life_run (ok : comp_event -> LifeState -> bool) (evs : list comp_event) (s : LifeState) : option LifeState :=
  match evs with
  | [] => Some s
  | ev :: evs' => if ok ev s then s' ← life_step ev s; life_run ok evs' s' else None
  end.

Definition life_boot : LifeState := mkLife [] (mkRS own_initial boot_tables []).

(** No compartment ends while somebody else holds memory of it. *)
Definition tidy (ev : comp_event) (s : LifeState) : bool :=
  match ev with
  | EvEnd i _ _ _ => match ls_entries s !! i with Some e => (en_held e =? 0)%nat | None => true end
  | _ => true
  end.

End Life.

(** ** Reference counts *)

(** The allocator state is referred to by the object, its data, its thread-local block and its
    stacks, and by the memories outside; it is gone when nothing refers to it. *)
Definition counted (e : Entry) : Prop :=
  sh_count (en_shared e) = (en_held e + match en_stacks e with Some n => n + 3 | None => 0 end)%nat /\
  (0 < sh_count (en_shared e))%nat.

Section Tidy.
Context `{SnmallocBits, !SnmallocBitsOk, NodeAllocator, !NodeAllocatorOk}.
Context (bits : Z) (cfg : page_config) (kernel : Z) (hr : HeapRanges).
Context (predefined interrupt_stack_map : list MapEntry) (boot_tables : pt_mem) (fuel : nat).

Notation "'SZ'" := (MIN_OWNERSHIP_SIZE bits).
Notation "'reached'" := (reach bits cfg kernel hr predefined interrupt_stack_map boot_tables true).

Lemma block_okb_spec b : block_okb bits b = true <-> 0 <= fst b /\ (fst b + Z.of_nat (snd b)) * SZ <= 2 ^ 48.
Proof. unfold block_okb. by rewrite andb_true_iff, !Z.leb_le. Qed.

Lemma give_back_reached comps x g st st' :
  x ∈ comps -> forallb (block_okb bits) g = true -> reached comps st ->
  give_back bits cfg kernel x g st = Done st' -> reached comps st'.
Proof.
  intros Hx Hg. rewrite forallb_forall in Hg. unfold give_back. apply ofold_inv.
  intros s [k n] s1 Hb Hs Hd. apply Hg, block_okb_spec in Hb as [Hk Hn]. cbn in *.
  eapply reach_step; [done|]. by eapply step_dealloc.
Qed.

(** A memory that is not the last reference only gives its blocks back. *)
Lemma memory_end_reached comps g s st r st' :
  sh_range s ∈ comps -> forallb (block_okb bits) g = true -> (1 < sh_count s)%nat -> reached comps st ->
  memory_end bits cfg kernel fuel g s st = Done (r, st') ->
  r = Some (mkShared (sh_range s) (pred (sh_count s))) /\ reached comps st'.
Proof.
  intros Hx Hg Hc Hr Hm. unfold memory_end in Hm. apply obind_done in Hm as (st1 & Hb & Hm).
  unfold shared_drop in Hm. destruct (sh_count s) as [|[|n]]; [lia..|]. injection Hm as <- <-.
  split; [done|]. by eapply give_back_reached.
Qed.

(** The loop over the stacks never frees the state, and counts them off. *)
Lemma memories_end_counts comps gs : forall s st r st',
  sh_range s ∈ comps -> forallb (forallb (block_okb bits)) gs = true -> (length gs < sh_count s)%nat -> reached comps st ->
  memories_end bits cfg kernel fuel gs s st = Done (r, st') ->
  r = Some (mkShared (sh_range s) (sh_count s - length gs)) /\ reached comps st'.
Proof.
  induction gs as [|g gs IH]; intros s st r st' Hx Hg Hc Hr Hm.
  - injection Hm as <- <-. rewrite Nat.sub_0_r. by destruct s.
  - cbn in Hg, Hc, Hm. apply andb_true_iff in Hg as [Hg Hgs]. apply obind_done in Hm as ([r1 st1] & Hm1 & Hm).
    destruct (memory_end_reached _ _ _ _ _ _ Hx Hg ltac:(lia) Hr Hm1) as [-> Hr1]. cbn [fst snd] in Hm.
    destruct (IH (mkShared (sh_range s) (pred (sh_count s))) st1 r st' Hx Hgs ltac:(cbn; lia) Hr1 Hm) as [-> Hr'].
    split; [|done]. cbn. do 2 f_equal. lia.
Qed.

(** The end of a compartment nobody else holds memory of destroys its allocator state. *)
Lemma compartment_end_last comps comps' data stacks tls s st r st' :
  comps ≡ₚ sh_range s :: comps' -> forallb (forallb (block_okb bits)) (data :: tls :: stacks) = true ->
  sh_count s = (length stacks + 3)%nat -> reached comps st ->
  compartment_end bits cfg kernel fuel data stacks tls s st = Done (r, st') -> r = None /\ reached comps' st'.
Proof.
  intros Hp Hg Hc Hr He. assert (sh_range s ∈ comps) as Hx by (rewrite Hp; by left).
  cbn in Hg. apply andb_true_iff in Hg as [Hd Hg]. apply andb_true_iff in Hg as [Ht Hs].
  unfold compartment_end in He. apply obind_done in He as ([r1 st1] & Hm & He).
  destruct (memory_end_reached _ _ _ _ _ _ Hx Hd ltac:(lia) Hr Hm) as [-> Hr1]. cbn [fst snd] in He.
  unfold arch_end in He. apply obind_done in He as ([r2 st2] & Hm2 & He).
  assert (length (stacks ++ [tls]) = (length stacks + 1)%nat) as Hlen by by rewrite length_app.
  destruct (memories_end_counts comps (stacks ++ [tls]) (mkShared (sh_range s) (pred (sh_count s))) st1 r2 st2 Hx)
    as [-> Hr2]; [by rewrite forallb_app, Hs; cbn; rewrite Ht|cbn; lia|done|done|].
  cbn [fst snd sh_range sh_count] in He. rewrite Hlen in He. unfold shared_drop in He. cbn [sh_count sh_range] in He.
  replace (pred (sh_count s) - (length stacks + 1))%nat with 1%nat in He by lia.
  apply obind_done in He as (st3 & Hdes & He). injection He as <- <-. split; [done|]. by eapply reach_destroy.
Qed.

(** ** Runs *)

Record life_ok (s : LifeState) : Prop := {
  lo_reach : reached (map (fun e => en_range e) (ls_entries s)) (ls_st s);
  lo_counted : Forall counted (ls_entries s);
  lo_object : Forall (fun e => is_object e = true) (ls_entries s);
}.

Lemma range_in l i (e : Entry) : l !! i = Some e -> en_range e ∈ map (fun e => en_range e) l.
Proof. intros He. apply (list_elem_of_fmap_2 (fun e => en_range e)). by eapply list_elem_of_lookup_2. Qed.

(** An entry whose allocator state stays is replaced by one for the same range. *)
Lemma replace_entry l i e e' st st' :
  life_ok (mkLife l st) -> l !! i = Some e -> en_range e' = en_range e -> counted e' -> is_object e' = true ->
  reached (map (fun e => en_range e) l) st' -> life_ok (mkLife (<[i := e']> l) st').
Proof.
  intros [_ Hc Ho] Hi He Hc' Ho' Hr. split; cbn [ls_entries ls_st] in *; [|by apply Forall_insert..].
  change (map (fun e => en_range e) (<[i := e']> l)) with ((fun e => en_range e) <$> <[i := e']> l).
  rewrite list_fmap_insert, He, list_insert_id; [done|]. by rewrite list_lookup_fmap, Hi.
Qed.

Lemma same_entries l st st' : life_ok (mkLife l st) -> reached (map (fun e => en_range e) l) st' -> life_ok (mkLife l st').
Proof. intros [_ Hc Ho] Hr. by split. Qed.

Lemma completed_spec {A} (m : outcome A) a : completed m = Some a <-> m = Done a.
Proof. destruct m; cbn; split; congruence. Qed.

Notation "'step_of'" := (life_step bits cfg kernel hr predefined interrupt_stack_map fuel).

Lemma entry_facts l st i e n : life_ok (mkLife l st) -> l !! i = Some e -> en_stacks e = Some n ->
  sh_count (en_shared e) = (en_held e + (n + 3))%nat.
Proof.
  intros [_ Hc _] Hi Hn. cbn in Hc. eapply Forall_lookup_1 in Hc as [Hc _]; [|exact Hi]. by rewrite Hn in Hc.
Qed.

Lemma construct_ok this h l st s' :
  life_ok (mkLife l st) -> step_of (EvConstruct this h) (mkLife l st) = Some s' -> life_ok s'.
Proof.
  intros [Hr Hc Ho] Hs. cbn in Hs, Hr, Hc, Ho. case_decide as Hg; [done|].
  destruct (completed _) as [[x st']|] eqn:Ec; [|done]. apply completed_spec in Ec. injection Hs as <-.
  split; cbn; [|constructor; [split; cbn; lia|done]|by constructor].
  eapply (reach_construct _ _ _ _ _ _ _ _ _ _ this h); [exact Hr| | | |exact Ec]; [by intros ->; apply Hg; left| |].
  - intros _ Hin. apply Hg. right. left. apply list_elem_of_fmap in Hin as (y & -> & Hy).
    apply list_elem_of_fmap in Hy as (e & -> & He). apply list_elem_of_fmap. exists e. split; [done|].
    apply list_elem_of_filter. split; [|done]. rewrite Forall_forall in Ho. by rewrite (Ho e He).
  - intros Hin. apply Hg. right. right. rewrite list_elem_of_fmap in Hin. destruct Hin as (y & -> & Hy).
    apply list_elem_of_fmap in Hy as (e & -> & He). by apply (list_elem_of_fmap_2 (fun e => r_head (en_range e))).
Qed.

(** Events that only use the range component. *)
Lemma range_event_ok ev l st s' :
  match ev with EvFault _ _ _ | EvAlloc _ _ _ | EvDealloc _ _ _ => True | _ => False end ->
  life_ok (mkLife l st) -> step_of ev (mkLife l st) = Some s' -> life_ok s'.
Proof.
  intros Hev Hok Hs. pose proof (lo_reach _ Hok) as Hr. cbn [ls_entries ls_st] in Hr.
  destruct ev; try done; cbn in Hs; (destruct (l !! i) as [e|] eqn:Ei; [|done]); cbn in Hs;
    (destruct (en_stacks e) as [n0|] eqn:En; [|done]); cbn in Hs; (case_match eqn:Eg; [|done]);
    (destruct (completed _) as [r|] eqn:Ed; [|done]); apply completed_spec in Ed; injection Hs as <-;
    apply (same_entries _ st); try done; (eapply reach_step; [exact Hr|]); pose proof (range_in _ _ _ Ei) as Hx.
  - eapply step_fault; [exact Hx| |exact Ed]. unfold canonical. apply andb_true_iff in Eg as [?%Z.leb_le ?%Z.ltb_lt]. lia.
  - apply block_okb_spec in Eg as [? ?]. destruct r as [rg st']. by eapply step_alloc.
  - apply block_okb_spec in Eg as [? ?]. by eapply step_dealloc.
Qed.

(** Events that take or drop a reference while the compartment exists. *)
Lemma reference_event_ok ev l st s' :
  match ev with EvPushStack _ | EvPopStack _ _ | EvHold _ | EvDrop _ _ => True | _ => False end ->
  life_ok (mkLife l st) -> step_of ev (mkLife l st) = Some s' -> life_ok s'.
Proof.
  intros Hev Hok Hs. pose proof (lo_reach _ Hok) as Hr. cbn [ls_entries ls_st] in Hr.
  assert (forall i e, l !! i = Some e -> exists n, en_stacks e = Some n) as Hobj.
  { intros i e Hi. pose proof (lo_object _ Hok) as Ho. eapply Forall_lookup_1 in Ho; [|exact Hi].
    unfold is_object in Ho. destruct (en_stacks e) as [n|]; [by exists n|done]. }
  destruct ev; try done; cbn [life_step ls_entries ls_st] in Hs; (destruct (l !! i) as [e|] eqn:Ei; [|done]); cbn [mbind option_bind] in Hs;
    destruct (Hobj i e Ei) as [n0 En]; pose proof (entry_facts _ _ _ _ _ Hok Ei En) as Hcnt;
    rewrite ?En in Hs; cbn [mbind option_bind] in Hs; pose proof (range_in _ _ _ Ei) as Hx.
  1, 3: injection Hs as <-; eapply replace_entry; try done; split; cbn; lia.
  all: case_match eqn:Eg; [|done]; apply andb_true_iff in Eg as [Eg1%Nat.ltb_lt Eg2];
    destruct (completed _) as [[r st']|] eqn:Ed; [|done]; apply completed_spec in Ed; injection Hs as <-;
    destruct (memory_end_reached _ _ _ _ _ _ Hx Eg2 ltac:(lia) Hr Ed) as [-> Hr'];
    (eapply replace_entry; try done; split; cbn; lia).
Qed.

Lemma end_event_ok i data stacks tls l st s' :
  life_ok (mkLife l st) -> tidy (EvEnd i data stacks tls) (mkLife l st) = true ->
  step_of (EvEnd i data stacks tls) (mkLife l st) = Some s' -> life_ok s'.
Proof.
  intros Hok Ht Hs. pose proof Hok as [Hr Hc Ho]. cbn [ls_entries ls_st] in Hr, Hc, Ho. cbn [tidy life_step ls_entries ls_st] in Ht, Hs.
  destruct (l !! i) as [e|] eqn:Ei; [|done]. cbn [mbind option_bind] in Hs. apply Nat.eqb_eq in Ht.
  destruct (en_stacks e) as [n|] eqn:En; [|done]. cbn [mbind option_bind] in Hs. case_match eqn:Eg; [|done].
  apply andb_true_iff in Eg as [Eg1%Nat.eqb_eq Eg2].
  destruct (completed _) as [[r st']|] eqn:Ed; [|done]. apply completed_spec in Ed. injection Hs as <-.
  pose proof (entry_facts _ _ _ _ _ Hok Ei En) as Hcnt.
  assert (map (fun e => en_range e) l ≡ₚ en_range e :: map (fun e => en_range e) (delete i l)) as Hp.
  { exact (Permutation_map (fun e => en_range e) (delete_Permutation l i e Ei)). }
  destruct (compartment_end_last _ _ _ _ _ _ _ _ _ Hp Eg2 ltac:(lia) Hr Ed) as [-> Hr'].
  split; cbn; [done|by apply Forall_delete..].
Qed.

Lemma tidy_run_ok evs : forall s s', life_ok s ->
  life_run bits cfg kernel hr predefined interrupt_stack_map fuel tidy evs s = Some s' -> life_ok s'.
Proof.
  induction evs as [|ev evs IH]; intros s s' Hok Hr; [by injection Hr as <-|]. cbn in Hr.
  destruct (tidy ev s) eqn:Et; [|done]. destruct (step_of ev s) as [s1|] eqn:Es; [|done]. cbn in Hr.
  apply (IH s1); [|done]. destruct s as [l st].
  destruct ev; first [exact (construct_ok _ _ _ _ _ Hok Es)|refine (range_event_ok _ _ _ _ _ Hok Es); exact I
    |refine (reference_event_ok _ _ _ _ _ Hok Es); exact I|exact (end_event_ok _ _ _ _ _ _ _ Hok Et Es)].
Qed.

Lemma life_boot_ok : life_ok (life_boot boot_tables).
Proof. split; [apply reach_boot|constructor..]. Qed.

End Tidy.

(** C7: Memory of a compartment and the compartment itself. Where no compartment ends while others hold memory
    of it, however compartments, their stacks and their memories come and go: the use count of each allocator
    state is the number of references to it, every allocator state that exists is that of a compartment that
    exists (so the end of a compartment destroys it), the run is one of the system of compartments in which no address
    on record is used again, and
    user mode writes through the table of a compartment exactly what it owns. *)
Theorem tidy_life_isolated (bits : Z) (cfg : page_config)
  `{SnmallocBits, !SnmallocBitsOk, NodeAllocator, !NodeAllocatorOk}
  (kernel : Z) (hr : HeapRanges) (predefined interrupt_stack_map : list MapEntry)
  (boot_tables : pt_mem) (lab0 : gmap Z label) (fuel : nat) evs s :
  page_bits cfg <= bits < 48 ->
  Forall (fun e => region_ok (map_range e) /\ entry_aligned cfg e) (predefined ++ interrupt_stack_map) ->
  Forall (fun e => map_perm e <> PT_COMPARTMENT_WRITE) (predefined ++ interrupt_stack_map) ->
  pt_wf cfg boot_tables lab0 -> table lab0 kernel true ->
  life_run bits cfg kernel hr predefined interrupt_stack_map fuel tidy evs (life_boot boot_tables) = Some s ->
  Forall (fun e => is_object e = true /\ counted e) (ls_entries s) /\
  reach bits cfg kernel hr predefined interrupt_stack_map boot_tables true (map (fun e => en_range e) (ls_entries s)) (ls_st s) /\
  forall e va, e ∈ ls_entries s -> canonical va ->
    (user_writes cfg (ls_st s) (en_range e) va <-> get_monza_owner bits (rs_own (ls_st s)) va = r_owner (en_range e)).
Proof.
  intros Hbits Hmap Hperm Hwf Hk Hrun.
  destruct (tidy_run_ok _ _ _ _ _ _ boot_tables _ _ _ _ (life_boot_ok _ _ _ _ _ _ _) Hrun) as [Hr Hc Ho].
  split; [by apply Forall_and|]. split; [done|]. intros e va He Hva.
  destruct (reach_inv bits cfg Hbits kernel hr _ predefined interrupt_stack_map Hmap Hperm boot_tables lab0
    Hwf Hk (fun _ => eq_refl) _ _ Hr) as [lab Hi].
  apply (so_writes _ _ _ _ _ _ _ Hi); [|done]. by apply (list_elem_of_fmap_2 (fun e => en_range e)).
Qed.

(** ** Memory that outlives its compartment *)

(** A compartment at address 9 allocates a chunk, memory in it is held when the compartment ends; a
    new compartment at the same address faults on the chunk; the memory is dropped, and a third
    compartment allocates the chunk. *)
Definition orphan_events : list comp_event :=
  [EvConstruct 9 5; EvAlloc 0 2 1; EvHold 0; EvEnd 0 [] [[]] []; EvConstruct 9 6; EvFault 0 0x8000 6;
   EvDrop 1 []; EvConstruct 10 7; EvAlloc 0 2 1].

Definition example_run (ok : comp_event -> LifeState -> bool) (evs : list comp_event) : option LifeState :=
  @life_run ref_bits ref_alloc 14 SmallPages 0x1000 two_heap example_predefined example_stacks 10 ok evs
    (life_boot example_mem).

(** Of each allocator state its owner, the memories held, whether the compartment exists, and its rights at 0x8000. *)
Definition observe (s : LifeState) : list (Z * nat * bool * option (Z * bool * bool)) :=
  map (fun e => (r_owner (en_range e), en_held e, is_object e,
                 hw_access SmallPages 3 (rs_pt (ls_st s)) (r_root (en_range e)) 0x8000)) (ls_entries s).

Lemma observe_run ok evs obs owner :
  (s ← example_run ok evs; Some (observe s, get_monza_owner 14 (rs_own (ls_st s)) 0x8000)) = Some (obs, owner) ->
  exists s, example_run ok evs = Some s /\ observe s = obs /\ get_monza_owner 14 (rs_own (ls_st s)) 0x8000 = owner.
Proof. destruct (example_run ok evs) as [s|]; [|done]. intros [= <- <-]. by exists s. Qed.

Lemma observe_two s o1 n1 b1 o2 n2 b2 :
  observe s = [(o1, n1, b1, Some (0x8000, true, true)); (o2, n2, b2, Some (0x8000, true, true))] ->
  exists e1 e2, ls_entries s = [e1; e2] /\ r_owner (en_range e1) = o1 /\ r_owner (en_range e2) = o2 /\
    en_held e2 = n2 /\ is_object e2 = b2 /\
    user_writes SmallPages (ls_st s) (en_range e1) 0x8000 /\ user_writes SmallPages (ls_st s) (en_range e2) 0x8000.
Proof.
  unfold observe. destruct (ls_entries s) as [|e1 [|e2 [|? ?]]]; [discriminate..| |discriminate].
  intros Ho. injection Ho as <- _ _ H1 <- <- <- H2. exists e1, e2. split_and!; try reflexivity; exists 0x8000; assumption.
Qed.

(** C33: Memory that outlives its compartment breaks isolation. The chunks of a held [CompartmentMemory] keep the
    address of the compartment as their owner after that has ended. A compartment constructed at the same
    address is taken for their owner by the page-fault handler and can write the held memory; when the memory
    is dropped the chunks are unmapped from the table of the old compartment only, and the new one keeps
    writing them after a third compartment has allocated them. *)
Theorem memory_outlives_compartment :
  exists s a b, example_run (fun _ _ => true) orphan_events = Some s /\
    map (fun e => en_range e) (ls_entries s) = [a; b] /\ r_owner a <> r_owner b /\
    get_monza_owner 14 (rs_own (ls_st s)) 0x8000 = r_owner a /\
    user_writes SmallPages (ls_st s) a 0x8000 /\ user_writes SmallPages (ls_st s) b 0x8000 /\
    exists s', example_run (fun _ _ => true) (take 6 orphan_events) = Some s' /\
      match ls_entries s' with
      | [e; held] => en_held held = 1%nat /\ en_stacks held = None /\ user_writes SmallPages (ls_st s') (en_range e) 0x8000
      | _ => False
      end.
Proof.
  destruct (observe_run (fun _ _ => true) (take 6 orphan_events) [(9, 0%nat, true, Some (0x8000, true, true)); (9, 1%nat, false, Some (0x8000, true, true))] 9)
    as (s' & Hs' & Ho' & _); [vm_compute; reflexivity|].
  destruct (observe_run (fun _ _ => true) orphan_events [(10, 0%nat, true, Some (0x8000, true, true)); (9, 0%nat, true, Some (0x8000, true, true))] 10)
    as (s & Hs & Ho & Hown); [vm_compute; reflexivity|].
  destruct (observe_two _ _ _ _ _ _ _ Ho') as (e' & held & El' & _ & _ & Hh & Hobj & Hw' & _).
  destruct (observe_two _ _ _ _ _ _ _ Ho) as (a & b & El & Ha & Hb & _ & _ & Hwa & Hwb).
  exists s, (en_range a), (en_range b). rewrite El, Ha, Hb. split; [exact Hs|]. split_and!; [reflexivity|lia|exact Hown|exact Hwa|exact Hwb|].
  exists s'. split; [exact Hs'|]. rewrite El'. split; [exact Hh|]. split; [|exact Hw'].
  unfold is_object in Hobj. destruct (en_stacks held); [discriminate|reflexivity].
Qed.

(** ** Witness *)

(** The same with the memory dropped first: the second compartment at address 9 owns nothing. *)
Definition tidy_events : list comp_event :=
  [EvConstruct 9 5; EvAlloc 0 2 1; EvHold 0; EvPushStack 0; EvPopStack 0 []; EvDrop 0 [(2, 1%nat)]; EvEnd 0 [] [[]] [];
   EvConstruct 9 6; EvFault 0 0x8000 4].

Lemma tidy_life_isolated_witness :
  exists s e, example_run tidy tidy_events = Some s /\ ls_entries s = [e] /\ counted e /\
    ~ user_writes SmallPages (ls_st s) (en_range e) 0x8000.
Proof.
  destruct (observe_run tidy tidy_events [(9, 0%nat, true, Some (0x8000, false, true))] 0) as (s & E & Hobs & Ho);
    [vm_compute; reflexivity|].
  destruct (ls_entries s) as [|e [|? ?]] eqn:He; unfold observe in Hobs; rewrite He in Hobs; [discriminate Hobs| |discriminate Hobs].
  injection Hobs as Hown _ _ _.
  destruct (example_wf SmallPages true) as [Hwf Ht].
  destruct (@tidy_life_isolated 14 SmallPages ref_bits ref_bits_ok ref_alloc ref_alloc_ok 0x1000 two_heap
    example_predefined example_stacks example_mem (example_lab true) 10 tidy_events s) as (Hc & _ & Hw);
    [exact example_bits|apply entries_okb; vm_compute; reflexivity| |exact Hwf|exact Ht|exact E|].
  { repeat constructor; discriminate. }
  exists s, e. split; [done|]. split; [done|]. rewrite He in Hc, Hw. split.
  - apply Forall_inv in Hc. by destruct Hc.
  - intros Hu. apply (Hw e 0x8000) in Hu; [congruence|by left|unfold canonical; lia].
Defined.
