(* ===== verification/Tlb.v ===== *)
(** * Cached translations (inc/pagetable_arch.h, arch/x86_64/pagetable.cc, compartment.asm)

    Every core keeps translations it has used. The code never executes the instruction
    that drops one ([PagetableEntry::invalidate] has no caller); what empties the cache
    of a core is that entering and leaving a compartment loads CR3. This file adds the caches of any number
    of cores to the system of [Lifecycle]: the processor may cache whatever the current
    table grants, at any time, and may forget it. *)

From S2P Require Import Prelude External Address Heap PageTable PageTableWf PageTableOps.
From S2P Require Import PageTableProps Ownership OwnershipProps Isolation Lifecycle.

(** ** One core *)

(** The flag [PTE_GLOBAL] of the entry that maps the address; the code sets it in
    entries of [PERSISTENT_TYPE], for a purpose of its own. *)
Fixpoint hw_global (cfg : page_config) (depth : nat) (m : pt_mem) (root va : Z) : bool :=
  let e := pt_read m root (pagetable_index va (level_of cfg depth)) in
  match depth with
  | O => Z.testbit e 8
  | S depth' => hw_global cfg depth' m (next_level e) va
  end.

(** For an address, the cached translation with its rights, and whether it is global. *)
Definition tlb : Type := Z -> option (Z * bool * bool * bool).

(** The processor caches the translation of a page, if there is one. *)
Definition tlb_fill (cfg : page_config) (m : pt_mem) (root page : Z) (t : tlb) : tlb := fun va =>
  if va / PAGE_SIZE cfg =? page then
    match hw_access cfg (root_depth cfg) m root va with
    | Some a => Some (a, hw_global cfg (root_depth cfg) m root va)
    | None => t va
    end
  else t va.

Definition tlb_evict (cfg : page_config) (page : Z) (t : tlb) : tlb := fun va =>
  if va / PAGE_SIZE cfg =? page then None else t va.

(** [PagetableEntry::invalidate]: [invlpg] of the address the entry points to. *)
Definition invalidate (cfg : page_config) (e : Z) (t : tlb) : tlb :=
  tlb_evict cfg (next_level e / PAGE_SIZE cfg) t.

(** For the entry of an address mapped to itself it would be the right one. *)
Lemma invalidate_drops cfg e t va :
  next_level e + va mod PAGE_SIZE cfg = va -> invalidate cfg e t va = None.
Proof.
  intros He. pose proof (page_size_bounds cfg) as Hp. unfold invalidate, tlb_evict.
  assert (va / PAGE_SIZE cfg = next_level e / PAGE_SIZE cfg) as ->; [|by rewrite Z.eqb_refl].
  replace (next_level e) with (va / PAGE_SIZE cfg * PAGE_SIZE cfg) by (Z.div_mod_to_equations; lia).
  by rewrite Z.div_mul by lia.
Qed.

(** [mov cr3]: global translations stay if CR4.PGE is set. *)
Definition load_cr3 (pge : bool) (t : tlb) : tlb := fun va =>
  match t va with
  | Some (a, true) => if pge then Some (a, true) else None
  | _ => None
  end.

(** A core runs the kernel or a compartment. *)
Record Core : Type := mkCore { core_in : option MonzaRange; core_tlb : tlb }.

Definition core_root (kernel : Z) (c : Core) : Z :=
  match core_in c with Some x => r_root x | None => kernel end.

(** What an access of the core at an address gets. *)
Definition core_access (cfg : page_config) (kernel : Z) (m : pt_mem) (c : Core) (va : Z)
  : option (Z * bool * bool) :=
  match core_tlb c va with
  | Some (a, _) => Some a
  | None => hw_access cfg (root_depth cfg) m (core_root kernel c) va
  end.

(** The table switch of [compartment_enter] and [compartment_resume], and of
    [kernel_enter] and the handlers of exceptions. *)
Definition enter_table (pge : bool) (x : MonzaRange) (c : Core) : Core :=
  mkCore (Some x) (load_cr3 pge (core_tlb c)).
Definition leave_table (pge : bool) (c : Core) : Core := mkCore None (load_cr3 pge (core_tlb c)).

(** ** The system *)

(** The compartments, the memory and ownership, and the cores. *)
Record Mmu : Type := mkMmu {
  mm_comps : list MonzaRange;
  mm_st : RangeState;
  mm_cores : nat -> Core;
}.

Definition on_core (i : nat) (c : Core) (s : Mmu) : Mmu :=
  mkMmu (mm_comps s) (mm_st s) (fun j => if decide (j = i) then c else mm_cores s j).

Section System.
Context `{SnmallocBits, NodeAllocator} (bits : Z) (cfg : page_config) (kernel : Z) (hr : HeapRanges).
Context (predefined interrupt_stack_map : list MapEntry) (pge : bool).

(** An operation of the kernel, with the compartment whose mappings it takes away; [fresh] as in [reach]. *)
Inductive kernel_op (fresh : bool) (comps : list MonzaRange) (st : RangeState)
  : option MonzaRange -> list MonzaRange -> RangeState -> Prop :=
| op_construct this h x st' :
    this <> null_owner -> (fresh = true -> this ∉ map r_owner comps) -> h ∉ map r_head comps ->
    compartment_construct cfg predefined interrupt_stack_map this h st = Done (x, st') ->
    kernel_op fresh comps st None (x :: comps) st'
| op_fault x address err m' :
    x ∈ comps -> canonical address ->
    page_fault_handler bits cfg hr (rs_own st) (r_owner x) address (r_root x) err (rs_pt st) = Done m' ->
    kernel_op fresh comps st None comps (with_pt st m')
| op_alloc x k n rg st' :
    x ∈ comps -> 0 <= k -> (k + Z.of_nat n) * MIN_OWNERSHIP_SIZE bits <= 2 ^ 48 ->
    alloc_range bits cfg x (k * MIN_OWNERSHIP_SIZE bits) (Z.of_nat n * MIN_OWNERSHIP_SIZE bits) st
      = Done (rg, st') ->
    kernel_op fresh comps st None comps st'
| op_dealloc x k n st' :
    x ∈ comps -> 0 <= k -> (k + Z.of_nat n) * MIN_OWNERSHIP_SIZE bits <= 2 ^ 48 ->
    dealloc_range bits cfg kernel x (k * MIN_OWNERSHIP_SIZE bits) (Z.of_nat n * MIN_OWNERSHIP_SIZE bits)
      st = Done st' ->
    kernel_op fresh comps st (Some x) comps st'
| op_destroy comps' x fuel st' :
    comps ≡ₚ x :: comps' -> monza_range_destroy bits cfg kernel fuel x st = Done st' ->
    kernel_op fresh comps st (Some x) comps' st'.

(** With [exclusive], mappings of a compartment are only taken away while no core runs it. *)
Inductive mmu_step (fresh exclusive : bool) (s : Mmu) : Mmu -> Prop :=
| mmu_fill i page :
    mmu_step fresh exclusive s (on_core i (mkCore (core_in (mm_cores s i))
      (tlb_fill cfg (rs_pt (mm_st s)) (core_root kernel (mm_cores s i)) page (core_tlb (mm_cores s i)))) s)
| mmu_evict i page :
    mmu_step fresh exclusive s (on_core i (mkCore (core_in (mm_cores s i))
      (tlb_evict cfg page (core_tlb (mm_cores s i)))) s)
| mmu_enter i x :
    core_in (mm_cores s i) = None -> x ∈ mm_comps s ->
    mmu_step fresh exclusive s (on_core i (enter_table pge x (mm_cores s i)) s)
| mmu_leave i x :
    core_in (mm_cores s i) = Some x ->
    mmu_step fresh exclusive s (on_core i (leave_table pge (mm_cores s i)) s)
| mmu_kernel i taken comps' st' :
    core_in (mm_cores s i) = None -> kernel_op fresh (mm_comps s) (mm_st s) taken comps' st' ->
    (exclusive = true -> forall j x, taken = Some x -> core_in (mm_cores s j) <> Some x) ->
    mmu_step fresh exclusive s (mkMmu comps' st' (mm_cores s)).

(** After the boot no compartment exists, and all cores run the kernel. *)
Definition mmu_boot (boot_tables : pt_mem) : Mmu :=
  mkMmu [] (mkRS own_initial boot_tables []) (fun _ => mkCore None (fun _ => None)).

Inductive mmu_reach (fresh exclusive : bool) (boot_tables : pt_mem) : Mmu -> Prop :=
| mmu_start : mmu_reach fresh exclusive boot_tables (mmu_boot boot_tables)
| mmu_more s s' : mmu_reach fresh exclusive boot_tables s -> mmu_step fresh exclusive s s' ->
    mmu_reach fresh exclusive boot_tables s'.

End System.

(** ** Invariant *)

Section Invariant.
Context (bits : Z) (cfg : page_config) (Hbits : page_bits cfg <= bits < 48).
Context `{SnmallocBits, !SnmallocBitsOk, NodeAllocator, !NodeAllocatorOk}.
Context (kernel : Z) (hr : HeapRanges) (rights : Z -> option (Z * bool * bool)).
Context (predefined interrupt_stack_map : list MapEntry) (pge : bool).
Context (Hmap : Forall (fun e => region_ok (map_range e) /\ entry_aligned cfg e)
  (predefined ++ interrupt_stack_map)).
Context (Hperm : Forall (fun e => map_perm e <> PT_COMPARTMENT_WRITE) (predefined ++ interrupt_stack_map)).

Notation "'inv'" := (sys_ok bits cfg kernel rights).

(** An operation keeps the invariant of [Lifecycle], and a chunk that has an owner keeps
    it unless the operation takes it away. *)
Lemma kernel_op_keeps comps lab st taken comps' st' :
  inv comps lab st -> kernel_op bits cfg kernel hr predefined interrupt_stack_map true comps st taken comps' st' ->
  (exists lab', inv comps' lab' st') /\
  (forall c, get_owner_of (rs_own st) c <> null_owner ->
     (exists x, taken = Some x /\ get_owner_of (rs_own st) c = r_owner x) \/
     get_owner_of (rs_own st') c = get_owner_of (rs_own st) c) /\
  (forall x, x ∈ comps -> taken <> Some x -> x ∈ comps').
Proof.
  intros Hi Hop. destruct Hop as [this h x st' ? Hfresh ? Hc|x address err m' Hx Ha Hf|
    x k n rg st' Hx Hk Hn Ha|x k n st' Hx Hk Hn Ha|comps' x fuel st' Hp Hd].
  - specialize (Hfresh eq_refl). split_and!; [by eapply construct_preserves| |intros y Hy _; by right].
    intros c _. right. apply construct_result in Hc as (root & m & _ & _ & ->). done.
  - split_and!; [by eapply fault_preserves| |done]. intros c _. by right.
  - split_and!; [by eapply alloc_preserves| |done]. intros c Hc. right.
    destruct (so_ranges _ _ _ _ _ _ _ Hi x Hx) as [l Hr]. destruct (decide (k = 0)) as [->|Hk0].
    { unfold alloc_range in Ha. by injection Ha as _ <-. }
    destruct (alloc_range_spec bits cfg Hbits x k n st l lab rg st' Hr ltac:(lia) Hn Ha) as (_ & Hnull & Hg & _).
    rewrite Hg. case_decide as Hin; [by destruct Hc; apply Hnull|done].
  - split_and!; [by eapply dealloc_preserves| |done]. intros c Hc.
    destruct (so_ranges _ _ _ _ _ _ _ Hi x Hx) as [l Hr]. pose proof Hr as [_ [_ Hl] _ _].
    destruct (dealloc_range_spec bits cfg Hbits kernel x k n st l lab Hr (root_not_kernel _ _ _ _ _ _ _ _ Hi Hx) Hk Hn)
      as [Hall Hd]. pose proof (proj2 Hall (ex_intro _ st' Ha)) as Hin. destruct (Hd st' Ha) as (Hg & _).
    rewrite Hg. case_decide as Hc2; [left|by right]. exists x. split; [done|]. by apply Hl, Hin.
  - destruct (destroy_preserves bits cfg Hbits kernel rights _ _ _ _ _ _ _ Hi Hp Hd) as [Hi' Hsame].
    split_and!; [done| |].
    + intros c Hc. destruct (decide (get_owner_of (rs_own st) c = r_owner x)); [left; by exists x|right]. by rewrite Hsame, decide_False.
    + intros y Hy Hne. rewrite Hp, elem_of_cons in Hy. destruct Hy as [->|Hy]; [done|done].
Qed.

(** What a core may have cached: in a compartment, write rights only to what the
    compartment owns; in the kernel, the kernel's rights. *)
Definition core_ok (s : Mmu) (c : Core) : Prop :=
  match core_in c with
  | Some x => x ∈ mm_comps s /\ forall va a g, canonical va -> core_tlb c va = Some (a, g) ->
      g = false /\
      forall pa, a = (pa, true, true) -> get_monza_owner bits (rs_own (mm_st s)) va = r_owner x
  | None => forall va a g, canonical va -> core_tlb c va = Some (a, g) -> g = false /\ rights va = Some a
  end.

Lemma core_ok_local s c va a g : core_ok s c -> canonical va -> core_tlb c va = Some (a, g) -> g = false.
Proof.
  unfold core_ok. destruct (core_in c); [intros [_ Hc]|intros Hc]; intros Hva Ht; by destruct (Hc va a g Hva Ht).
Qed.

Definition mmu_ok (s : Mmu) : Prop :=
  (exists lab, inv (mm_comps s) lab (mm_st s)) /\ forall i, core_ok s (mm_cores s i).

Lemma on_core_ok i c s : mmu_ok s -> core_ok s c -> mmu_ok (on_core i c s).
Proof.
  intros [Hi Hc] Hn. split; [done|]. intros j. cbn. destruct (decide (j = i)); [exact Hn|apply Hc].
Qed.

Lemma load_cr3_empty s c va : core_ok s c -> canonical va -> load_cr3 pge (core_tlb c) va = None.
Proof.
  intros Hc Hva. unfold load_cr3. destruct (core_tlb c va) as [[a g]|] eqn:Et; [|done].
  by rewrite (core_ok_local _ _ _ _ _ Hc Hva Et).
Qed.

(** No entry that maps a page is global: the type is not passed on to the lower levels. *)
Lemma hw_not_global m lab depth : pt_wf cfg m lab -> forall p x va,
  lab !! p = Some x -> l_level x = level_of cfg depth -> hw_access cfg depth m p va <> None ->
  hw_global cfg depth m p va = false.
Proof.
  intros Hwf. induction depth as [|d IH]; intros p x va Hp Hl Ha; cbn [hw_access hw_global] in *;
    pose proof (index_range va (level_of cfg 0)) as Hi0.
  - apply (wf_leaf _ _ _ Hwf p x); [done| |done]. rewrite Hl. unfold level_of. lia.
  - pose proof (index_range va (level_of cfg (S d))) as Hi.
    destruct (wf_next _ _ _ Hwf p x _ Hp ltac:(rewrite Hl; unfold level_of; lia) Hi) as [[Hz _]|(_ & Hc & _)].
    { by rewrite Hz in Ha. }
    apply (IH _ _ va Hc); [cbn; rewrite Hl; unfold level_of; lia|].
    destruct (negb _); [done|]. by destruct (hw_access cfg d m _ va).
Qed.

Lemma core_table s i lab :
  inv (mm_comps s) lab (mm_st s) -> core_ok s (mm_cores s i) ->
  exists k, table lab (core_root kernel (mm_cores s i)) k.
Proof.
  intros Hi Hc. unfold core_ok, core_root in *. destruct (core_in (mm_cores s i)) as [x|].
  - destruct Hc as [Hx _]. destruct (so_ranges _ _ _ _ _ _ _ Hi x Hx) as [l [_ _ _ Ht]]. by exists false.
  - exists true. apply (so_kernel _ _ _ _ _ _ _ Hi).
Qed.

Lemma fill_ok i page s :
  mmu_ok s -> core_ok s (mkCore (core_in (mm_cores s i))
    (tlb_fill cfg (rs_pt (mm_st s)) (core_root kernel (mm_cores s i)) page (core_tlb (mm_cores s i)))).
Proof.
  intros [[lab Hi] Hc]. specialize (Hc i). destruct (core_table s i lab Hi Hc) as [k Ht].
  assert (forall va, hw_access cfg (root_depth cfg) (rs_pt (mm_st s)) (core_root kernel (mm_cores s i)) va <> None ->
    hw_global cfg (root_depth cfg) (rs_pt (mm_st s)) (core_root kernel (mm_cores s i)) va = false) as Hg.
  { intros va Ha. eapply (hw_not_global _ lab); [apply (so_wf _ _ _ _ _ _ _ Hi)|exact Ht|by rewrite root_level|done]. }
  unfold core_ok, core_root in *. cbn [core_in core_tlb].
  destruct (core_in (mm_cores s i)) as [x|]; unfold tlb_fill.
  - destruct Hc as [Hx Hc]. split; [done|]. intros va a g Hva. specialize (Hg va). case_if_prop; [|by apply Hc].
    destruct (hw_access _ _ _ _ va) as [a'|] eqn:Ea; [|by apply Hc]. intros [= -> <-].
    split; [by apply Hg|]. intros pa ->. apply (so_writes _ _ _ _ _ _ _ Hi x va Hx Hva). by exists pa.
  - intros va a g Hva. specialize (Hg va). case_if_prop; [|by apply Hc].
    destruct (hw_access _ _ _ _ va) as [a'|] eqn:Ea; [|by apply Hc]. intros [= -> <-].
    split; [by apply Hg|]. by rewrite <- (so_rights _ _ _ _ _ _ _ Hi va Hva).
Qed.

Lemma evict_ok i page s : mmu_ok s ->
  core_ok s (mkCore (core_in (mm_cores s i)) (tlb_evict cfg page (core_tlb (mm_cores s i)))).
Proof.
  intros [_ Hc]. specialize (Hc i). unfold core_ok in *. cbn. unfold tlb_evict. destruct (core_in _).
  - destruct Hc as [Hx Hc]. split; [done|]. intros va a g Hva. case_if_prop; [done|]. by apply Hc.
  - intros va a g Hva. case_if_prop; [done|]. by apply Hc.
Qed.

(** An operation of the kernel does not take away what a core has cached. *)
Lemma kernel_ok s taken comps' st' :
  mmu_ok s -> kernel_op bits cfg kernel hr predefined interrupt_stack_map true (mm_comps s) (mm_st s) taken comps' st' ->
  (forall j x, taken = Some x -> core_in (mm_cores s j) <> Some x) -> mmu_ok (mkMmu comps' st' (mm_cores s)).
Proof.
  intros [[lab Hi] Hc] Hop Hex. destruct (kernel_op_keeps _ _ _ _ _ _ Hi Hop) as (Hi' & Hown & Hcomps).
  split; [done|]. intros j. specialize (Hc j). unfold core_ok in *. cbn.
  destruct (core_in (mm_cores s j)) as [x|] eqn:Ej; [|done]. destruct Hc as [Hx Hc].
  assert (taken <> Some x) as Hnt by (intros ->; by eapply (Hex j x)). split; [auto|].
  intros va a g Hva Ht. destruct (Hc va a g Hva Ht) as [Hg Hw]. split; [done|]. intros pa Ha.
  specialize (Hw pa Ha). unfold get_monza_owner in *.
  destruct (so_ranges _ _ _ _ _ _ _ Hi x Hx) as [l [Hnull _ _ _]].
  destruct (Hown (chunk_of bits va)) as [(y & -> & Hy)|Hsame]; [congruence| |congruence].
  exfalso. apply Hnt. f_equal. symmetry. apply (nodup_map_inj r_owner (mm_comps s)); try done.
  - apply (so_owners _ _ _ _ _ _ _ Hi).
  - inversion Hop; subst; [done|]. match goal with H : _ ≡ₚ _ |- _ => rewrite H end. by left.
  - congruence.
Qed.

Lemma mmu_step_ok s s' :
  mmu_ok s -> mmu_step bits cfg kernel hr predefined interrupt_stack_map pge true true s s' -> mmu_ok s'.
Proof.
  intros Hok Hs. pose proof Hok as [_ Hc]. destruct Hs as [i page|i page|i x Hin Hx|i x Hin|i taken comps' st' Hin Hop Hex].
  - by apply on_core_ok, fill_ok.
  - by apply on_core_ok, evict_ok.
  - apply on_core_ok; [done|]. split; [done|]. intros va a g Hva. cbn. by rewrite (load_cr3_empty s) by done.
  - apply on_core_ok; [done|]. intros va a g Hva. cbn. by rewrite (load_cr3_empty s) by done.
  - apply (kernel_ok s taken); [done..|]. by apply Hex.
Qed.

Context (boot_tables : pt_mem) (lab0 : gmap Z label) (Hwf0 : pt_wf cfg boot_tables lab0).
Context (Hkernel : table lab0 kernel true).
Context (Hrights : forall va, hw_access cfg (root_depth cfg) boot_tables kernel va = rights va).

Lemma mmu_reach_ok s :
  mmu_reach bits cfg kernel hr predefined interrupt_stack_map pge true true boot_tables s -> mmu_ok s.
Proof.
  induction 1 as [|s s' _ IH Hs]; [|by eapply mmu_step_ok]. split; [|done].
  exact (reach_inv bits cfg Hbits kernel hr rights predefined interrupt_stack_map Hmap Hperm boot_tables lab0
    Hwf0 Hkernel Hrights _ _ (reach_boot _ _ _ _ _ _ _ _)).
Qed.

End Invariant.

(** C6: Isolation holds on the machine, with the translations its cores have cached and
    although the code never invalidates one, on two conditions that the code does not ensure:
    memory is taken from a compartment only while no core runs it (else see [stale_translation_writes]), and
    no compartment is constructed at the address of one whose allocator state still exists (else see
    [memory_outlives_compartment]). Then, whatever
    the processors cache or forget, whoever enters or leaves what on any number of cores and
    however compartments come and go otherwise, a core that runs a compartment can write only what
    the compartment owns at that moment, hence nothing that a core in another compartment can write, and a core
    in the kernel has exactly the rights of the boot's table. CR4.PGE may be set or not: the flag of global
    pages never reaches an entry that maps a page. *)
Theorem cached_translations_isolated (bits : Z) (cfg : page_config)
  `{SnmallocBits, !SnmallocBitsOk, NodeAllocator, !NodeAllocatorOk}
  (kernel : Z) (hr : HeapRanges) (predefined interrupt_stack_map : list MapEntry)
  (boot_tables : pt_mem) (lab0 : gmap Z label) (pge : bool) s :
  page_bits cfg <= bits < 48 ->
  Forall (fun e => region_ok (map_range e) /\ entry_aligned cfg e) (predefined ++ interrupt_stack_map) ->
  Forall (fun e => map_perm e <> PT_COMPARTMENT_WRITE) (predefined ++ interrupt_stack_map) ->
  pt_wf cfg boot_tables lab0 -> table lab0 kernel true ->
  mmu_reach bits cfg kernel hr predefined interrupt_stack_map pge true true boot_tables s ->
  let sees i va := core_access cfg kernel (rs_pt (mm_st s)) (mm_cores s i) va in
  (forall i x va pa, core_in (mm_cores s i) = Some x -> canonical va -> sees i va = Some (pa, true, true) ->
     get_monza_owner bits (rs_own (mm_st s)) va = r_owner x /\
     forall j y pa', core_in (mm_cores s j) = Some y -> y <> x -> sees j va <> Some (pa', true, true)) /\
  (forall i va, core_in (mm_cores s i) = None -> canonical va ->
     sees i va = hw_access cfg (root_depth cfg) boot_tables kernel va).
Proof.
  intros Hbits Hmap Hperm Hwf Hk Hr sees.
  destruct (mmu_reach_ok bits cfg Hbits kernel hr _ predefined interrupt_stack_map pge Hmap Hperm boot_tables lab0
    Hwf Hk (fun _ => eq_refl) s Hr) as [[lab Hi] Hc].
  assert (forall i x va pa, core_in (mm_cores s i) = Some x -> canonical va -> sees i va = Some (pa, true, true) ->
    x ∈ mm_comps s /\ get_monza_owner bits (rs_own (mm_st s)) va = r_owner x) as Hown.
  { intros i x va pa Hin Hva Hs. specialize (Hc i). unfold core_ok in Hc. rewrite Hin in Hc.
    destruct Hc as [Hx Hc]. split; [done|]. unfold sees, core_access, core_root in Hs. rewrite Hin in Hs.
    destruct (core_tlb (mm_cores s i) va) as [[a g]|] eqn:Et; [injection Hs as ->; by eapply (proj2 (Hc va _ g Hva Et))|].
    apply (so_writes _ _ _ _ _ _ _ Hi x va Hx Hva). by exists pa. }
  split.
  - intros i x va pa Hin Hva Hs. destruct (Hown i x va pa Hin Hva Hs) as [Hx Ho]. split; [done|].
    intros j y pa' Hj Hne Hs'. destruct (Hown j y va pa' Hj Hva Hs') as [Hy Hoy].
    apply Hne, (nodup_map_inj r_owner (mm_comps s)); [apply (so_owners _ _ _ _ _ _ _ Hi)|done|done|congruence].
  - intros i va Hin Hva. specialize (Hc i). unfold core_ok in Hc. rewrite Hin in Hc.
    unfold sees, core_access, core_root. rewrite Hin.
    destruct (core_tlb (mm_cores s i) va) as [[a g]|] eqn:Et; [symmetry; by eapply (proj2 (Hc va a g Hva Et))|].
    apply (so_rights _ _ _ _ _ _ _ Hi va Hva).
Qed.

(** ** Without the condition *)

Section Runs.
#[local] Existing Instances ref_bits ref_alloc.
Context (pge exclusive : bool).
Notation "'runs'" := (mmu_reach 14 SmallPages 0x1000 two_heap example_predefined example_stacks pge true exclusive
  example_mem).

(** Compartments A and B are constructed and A gets the chunk at 0x8000. *)
Definition two_comps : outcome (MonzaRange * MonzaRange * RangeState) :=
  let* a := compartment_construct SmallPages example_predefined example_stacks 9 5 (mkRS own_initial example_mem []) in
  let* b := compartment_construct SmallPages example_predefined example_stacks 10 6 (snd a) in
  let* r := alloc_range 14 SmallPages (fst a) (2 * MIN_OWNERSHIP_SIZE 14) (Z.of_nat 1 * MIN_OWNERSHIP_SIZE 14) (snd b) in
  Done (fst a, fst b, snd r).

(** A gives the chunk back and B gets it. *)
Definition chunk_moves : outcome (MonzaRange * MonzaRange * RangeState * RangeState) :=
  let* s := two_comps in
  let '(a, b, st) := s in
  let* st1 := dealloc_range 14 SmallPages 0x1000 a (2 * MIN_OWNERSHIP_SIZE 14) (Z.of_nat 1 * MIN_OWNERSHIP_SIZE 14) st in
  let* r := alloc_range 14 SmallPages b (2 * MIN_OWNERSHIP_SIZE 14) (Z.of_nat 1 * MIN_OWNERSHIP_SIZE 14) st1 in
  Done (a, b, st, snd r).

Lemma kernel_reach s taken comps' st' :
  runs s -> core_in (mm_cores s 0%nat) = None ->
  kernel_op 14 SmallPages 0x1000 two_heap example_predefined example_stacks true (mm_comps s) (mm_st s) taken comps' st' ->
  (exclusive = true -> forall j x, taken = Some x -> core_in (mm_cores s j) <> Some x) ->
  runs (mkMmu comps' st' (mm_cores s)).
Proof. intros Hr Hin Hop Hex. eapply mmu_more; [exact Hr|]. by eapply (mmu_kernel _ _ _ _ _ _ _ _ _ _ 0%nat). Qed.

Lemma two_comps_reach a b st :
  two_comps = Done (a, b, st) -> runs (mkMmu [b; a] st (mm_cores (mmu_boot example_mem))).
Proof.
  intros E. unfold two_comps in E. apply obind_done in E as ([a' st1] & Ea & E).
  apply obind_done in E as ([b' st2] & Eb & E). apply obind_done in E as ([rg st3] & Er & E).
  injection E as -> -> ->. cbn [fst snd] in *.
  assert (runs (mkMmu [a] st1 (mm_cores (mmu_boot example_mem)))) as H1.
  { apply (kernel_reach (mmu_boot example_mem) None); [apply mmu_start|done| |done].
    eapply op_construct; [..|exact Ea]; [done|intros _; apply not_elem_of_nil|apply not_elem_of_nil]. }
  assert (runs (mkMmu [b; a] st2 (mm_cores (mmu_boot example_mem)))) as H2.
  { apply (kernel_reach _ None _ _ H1); [done| |done]. cbn [mm_comps mm_st].
    eapply op_construct; [..|exact Eb]; [done|..]; apply construct_result in Ea as (root & m & _ & -> & _); cbn;
      intros; by rewrite elem_of_cons, elem_of_nil; intros [|[]]. }
  apply (kernel_reach _ None _ _ H2); [done| |done]. cbn [mm_comps mm_st].
  apply (op_alloc _ _ _ _ _ _ _ _ _ a 2 1 rg); [by right; left|lia|vm_compute; discriminate|exact Er].
Qed.

End Runs.

(** Core 1 runs compartment A and has cached the page at 0x8000. *)
Definition one_inside (pge : bool) (a b : MonzaRange) (st : RangeState) : Mmu :=
  let s := mkMmu [b; a] st (mm_cores (mmu_boot example_mem)) in
  let s1 := on_core 1 (enter_table pge a (mm_cores s 1%nat)) s in
  on_core 1 (mkCore (core_in (mm_cores s1 1%nat))
    (tlb_fill SmallPages (rs_pt st) (core_root 0x1000 (mm_cores s1 1%nat)) 8 (core_tlb (mm_cores s1 1%nat)))) s1.

(** C35: Nothing in the code keeps the condition that memory is only taken from a compartment no core runs. While one core runs a
    compartment, the kernel on another core takes a chunk from it and gives the chunk to a second
    compartment; as no translation is invalidated, the first core can go on
    writing memory that now belongs to the second compartment. *)
Theorem stale_translation_writes :
  exists s a b, @mmu_reach ref_bits ref_alloc 14 SmallPages 0x1000 two_heap example_predefined example_stacks
      false true false example_mem s /\
    core_in (mm_cores s 1%nat) = Some a /\ r_owner a <> r_owner b /\
    get_monza_owner 14 (rs_own (mm_st s)) 0x8000 = r_owner b /\
    hw_access SmallPages (root_depth SmallPages) (rs_pt (mm_st s)) (r_root a) 0x8000 = None /\
    core_access SmallPages 0x1000 (rs_pt (mm_st s)) (mm_cores s 1%nat) 0x8000 = Some (0x8000, true, true).
Proof.
  assert (match chunk_moves with
    | Done (a, b, st, st') => r_owner a <> r_owner b /\ get_monza_owner 14 (rs_own st') 0x8000 = r_owner b /\
        hw_access SmallPages (root_depth SmallPages) (rs_pt st') (r_root a) 0x8000 = None /\
        core_access SmallPages 0x1000 (rs_pt st') (mm_cores (one_inside false a b st) 1%nat) 0x8000 = Some (0x8000, true, true)
    | _ => False end) as Hc by (vm_compute; split_and!; [discriminate|reflexivity..]).
  destruct chunk_moves as [[[[a b] st] st']| |] eqn:E; [|destruct Hc..]. unfold chunk_moves in E.
  apply obind_done in E as ([[a' b'] st0] & E0 & E). apply obind_done in E as (st1 & E1 & E).
  apply obind_done in E as ([rg st2] & E2 & E). injection E as -> -> -> ->. cbn [fst snd] in *.
  exists (mkMmu [b; a] st' (mm_cores (one_inside false a b st))), a, b. split; [|split; [reflexivity|exact Hc]].
  pose proof (two_comps_reach false false a b st E0) as H0.
  assert (@mmu_reach ref_bits ref_alloc 14 SmallPages 0x1000 two_heap example_predefined example_stacks
    false true false example_mem (one_inside false a b st)) as H1.
  { eapply mmu_more; [|apply mmu_fill]. eapply mmu_more; [exact H0|]. apply mmu_enter; [reflexivity|]. right; left. }
  assert (@mmu_reach ref_bits ref_alloc 14 SmallPages 0x1000 two_heap example_predefined example_stacks
    false true false example_mem (mkMmu [b; a] st1 (mm_cores (one_inside false a b st)))) as H2.
  { apply (kernel_reach false false _ (Some a) _ _ H1); [reflexivity| |discriminate].
    apply (op_dealloc _ _ _ _ _ _ _ _ _ a 2 1); [by right; left|lia|vm_compute; discriminate|exact E1]. }
  apply (kernel_reach false false _ None _ _ H2); [reflexivity| |discriminate].
  apply (op_alloc _ _ _ _ _ _ _ _ _ b 2 1 rg); [by left|lia|vm_compute; discriminate|exact E2].
Qed.

(** ** Witness *)

Lemma cached_translations_isolated_witness :
  exists s a, @mmu_reach ref_bits ref_alloc 14 SmallPages 0x1000 two_heap example_predefined example_stacks
      true true true example_mem s /\
    core_in (mm_cores s 1%nat) = Some a /\
    core_access SmallPages 0x1000 (rs_pt (mm_st s)) (mm_cores s 1%nat) 0x8000 = Some (0x8000, true, true) /\
    get_monza_owner 14 (rs_own (mm_st s)) 0x8000 = r_owner a.
Proof.
  assert (match two_comps with
    | Done (a, b, st) => core_access SmallPages 0x1000 (rs_pt st) (mm_cores (one_inside true a b st) 1%nat) 0x8000 =
        Some (0x8000, true, true)
    | _ => False end) as Hc by (vm_compute; reflexivity).
  destruct two_comps as [[[a b] st]| |] eqn:E; [|destruct Hc..].
  assert (@mmu_reach ref_bits ref_alloc 14 SmallPages 0x1000 two_heap example_predefined example_stacks
    true true true example_mem (one_inside true a b st)) as H1.
  { eapply mmu_more; [|apply mmu_fill]. eapply mmu_more; [exact (two_comps_reach true true a b st E)|].
    apply mmu_enter; [reflexivity|]. right; left. }
  exists (one_inside true a b st), a. split; [exact H1|]. split; [reflexivity|]. split; [exact Hc|].
  destruct (example_wf SmallPages true) as [Hwf Ht].
  destruct (@cached_translations_isolated 14 SmallPages ref_bits ref_bits_ok ref_alloc ref_alloc_ok 0x1000 two_heap
    example_predefined example_stacks example_mem (example_lab true) true (one_inside true a b st)) as [Hw _];
    [exact example_bits|apply entries_okb; vm_compute; reflexivity| |exact Hwf|exact Ht|exact H1|].
  { repeat constructor; discriminate. }
  destruct (Hw 1%nat a 0x8000 0x8000) as [Ho _]; [reflexivity|unfold canonical; lia|exact Hc|exact Ho].
Defined.
