(* ===== verification/Compartment.v ===== *)
(** * Compartments (experimental/include/*.h, crt/compartment.cc, crt/output.cc)

    Invocation of compartments with their stacks, validity and callbacks, and the
    kernel's side of the system calls a compartment can make. A compartment is
    not trusted: what it does when it is entered is a parameter. *)

From S2P Require Import Prelude External Address Heap PageTable Ownership OwnershipProps.

(** ** Stacks *)

(** [ArchitecturalCompartmentBase]: the deque of stacks, innermost last. *)
Record ArchCompartment : Type := mkArch {
  stack_of_stacks : list span;
  is_initial_stack_used : bool;
  stack_limit_low : Z;
  stack_limit_high : Z;
}.

(** [new_stack] is the memory a push allocates. *)
Definition get_stack (stack_size : Z) (new_stack : span) (c : ArchCompartment) : span * ArchCompartment :=
  let '(range, stacks, used) :=
    if Nat.eqb (length (stack_of_stacks c)) 1 && negb (is_initial_stack_used c)
    then (subspan (hd (Span 0 0) (stack_of_stacks c)) 0 stack_size, stack_of_stacks c, true)
    else (new_stack, stack_of_stacks c ++ [new_stack], is_initial_stack_used c) in
  (range, mkArch stacks used (span_data range) (u64 (span_data range + span_size range))).

Definition release_stack (c : ArchCompartment) : ArchCompartment :=
  if Nat.eqb (length (stack_of_stacks c)) 1
  then mkArch (stack_of_stacks c) false (stack_limit_low c) (stack_limit_high c)
  else mkArch (removelast (stack_of_stacks c)) (is_initial_stack_used c)
         (stack_limit_low c) (stack_limit_high c).

(** [InvokeScopedStack]: the range and the bytes reserved at its top. *)
Record InvokeScopedStack : Type := mkScoped { scoped_range : span; reserved : Z }.

Definition STACK_ALIGNMENT : Z := 16.

(** [std::span::last]. *)
Definition span_last (s : span) (count : Z) : span :=
  Span (u64 (span_data s + (span_size s - count))) count.

Section Stack.
Context `{SnmallocBits}.

Definition reserve (sizeof_T alignof_T : Z) (s : InvokeScopedStack) : Z * InvokeScopedStack :=
  let r := align_up (u64 (reserved s + sizeof_T)) alignof_T in
  (span_data (span_last (scoped_range s) r), mkScoped (scoped_range s) r).

Definition scoped_get (s : InvokeScopedStack) : Z :=
  align_down (span_data (span_last (scoped_range s) (reserved s))) STACK_ALIGNMENT.

End Stack.

(** ** Compartment memory *)

(** [CompartmentMemory<T>]; [sizeof_T] is [sizeof(T)]. *)
Record CompartmentMemory : Type := mkCM { cm_base : Z; cm_alloc_size : Z }.

Definition memory_alloc_size (next_pow2 : Z -> Z) (MIN_CHUNK_SIZE sizeof_T count : Z) : Z :=
  Z.max (next_pow2 (u64 (count * sizeof_T))) MIN_CHUNK_SIZE.

(** The second constructor: nothing is allocated for a count of 0; a null range
    aborts. [alloc] is the range allocation. *)
Definition memory_construct (next_pow2 : Z -> Z) (MIN_CHUNK_SIZE sizeof_T count : Z)
  (alloc : Z -> Z) : outcome CompartmentMemory :=
  if count =? 0 then Done (mkCM 0 0)
  else
    let alloc_size := memory_alloc_size next_pow2 MIN_CHUNK_SIZE sizeof_T count in
    let base := alloc alloc_size in
    if base =? 0 then Kabort else Done (mkCM base alloc_size).

(** The move constructor: the new object and what is left of the source. *)
Definition memory_move (source : CompartmentMemory) : CompartmentMemory * CompartmentMemory :=
  (source, mkCM 0 0).

(** What the destructor gives back. *)
Definition memory_destroy (m : CompartmentMemory) : option (Z * Z) :=
  if cm_alloc_size m >? 0 then Some (cm_base m, cm_alloc_size m) else None.

(** [fill] of [count] elements: whether the copy is made. *)
Definition memory_fill (sizeof_T count : Z) (m : CompartmentMemory) : bool :=
  u64 (sizeof_T * count) <? cm_alloc_size m.

(** [span()]: base and number of elements of type [T]. *)
Definition memory_span (m : CompartmentMemory) : span := Span (cm_base m) (cm_alloc_size m).

(** ** Invocation *)

(** [CompartmentErrorOr<T>]. *)
Inductive CompartmentErrorOr (T : Type) : Type :=
| CError
| CValue (value : T).
Arguments CError {T}.
Arguments CValue {T} value.

Definition get_success {T} (e : CompartmentErrorOr T) : bool :=
  match e with CValue _ => true | CError => false end.

(** [CompartmentBase]; a callback is what the kernel runs for an index. *)
Record CompartmentBase (CB : Type) : Type := mkComp {
  is_valid : bool;
  callbacks : list CB;
  arch : ArchCompartment;
}.
Arguments mkComp {CB} is_valid callbacks arch.
Arguments is_valid {CB} c : rename.
Arguments callbacks {CB} c : rename.
Arguments arch {CB} c : rename.

Section Invoke.
Context {CB : Type}.

Definition check_valid (c : CompartmentBase CB) : bool := is_valid c.

(** The handle holds the index of the new callback. *)
Definition register_callback (f : CB) (c : CompartmentBase CB) : Z * CompartmentBase CB :=
  (Z.of_nat (length (callbacks c)), mkComp (is_valid c) (callbacks c ++ [f]) (arch c)).

Definition get_callback (index : Z) (c : CompartmentBase CB) : option CB :=
  if index <? Z.of_nat (length (callbacks c)) then callbacks c !! Z.to_nat index else None.

Definition invalidate (c : CompartmentBase CB) : CompartmentBase CB :=
  mkComp false (callbacks c) (arch c).

Definition with_arch (a : ArchCompartment) (c : CompartmentBase CB) : CompartmentBase CB :=
  mkComp (is_valid c) (callbacks c) a.

(** [invoke_typed]: [enter] is [compartment_enter], the run of the compartment on
    the stack pointer it is given; it returns whether it came back by
    [compartment_return], the result found at the address reserved for it, and the
    compartment as the system calls made meanwhile left it. The destructor of
    [InvokeScopedStack] releases the stack on both ways out. *)
Definition invoke_typed `{SnmallocBits} {T} (stack_size : Z) (new_stack : span) (sizeof_R alignof_R : Z)
  (enter : Z -> Z -> CompartmentBase CB -> bool * T * CompartmentBase CB) (c : CompartmentBase CB)
  : CompartmentErrorOr T * CompartmentBase CB :=
  if negb (is_valid c) then (CError, c)
  else
    let '(range, a) := get_stack stack_size new_stack (arch c) in
    let stack := mkScoped range 0 in
    let '(compartment_ret, stack1) := reserve sizeof_R alignof_R stack in
    let '(ret, value, c') := enter compartment_ret (scoped_get stack1) (with_arch a c) in
    let c'' := with_arch (release_stack (arch c')) c' in
    (if negb ret then CError else CValue value, c'').

End Invoke.

(** ** System calls *)

(** [abort_kernel_callback] leaves the system call and ends the compartment's
    invocation. *)
Inductive syscall_result (A : Type) : Type :=
| SysOk (a : A)
| SysAbort.
Arguments SysOk {A} a.
Arguments SysAbort {A}.

Definition sbind {A B} (m : syscall_result A) (k : A -> syscall_result B) : syscall_result B :=
  match m with SysOk a => k a | SysAbort => SysAbort end.

(** Goes on if the check says yes; a check that does not come back cannot. *)
Definition require (b : outcome bool) : syscall_result unit :=
  match b with Done true => SysOk tt | _ => SysAbort end.

Section Syscalls.
Context (bits : Z).
(** What snmalloc reads from the allocator bits and the page map. *)
Context (ras_remote ras_slab_size meta_slab_size : Z -> Z) (sizeof_remote : Z).

(** [compartment_forward_alloc_chunk] up to the allocation itself. *)
Definition forward_alloc_chunk_check (st : OwnStore) (owner : CompartmentOwner) (size ras : Z)
  : syscall_result unit :=
  let remote := ras_remote ras in
  sbind (if negb (remote =? 0) then require (validate_owner bits st owner sizeof_remote remote 1)
         else SysOk tt) (fun _ =>
  if negb (ras_slab_size ras =? size) then SysAbort else SysOk tt).

(** [compartment_forward_dealloc_chunk]: the chunk given to the backend. *)
Definition forward_dealloc_chunk `{SnmallocBits} (st : OwnStore) (owner : CompartmentOwner) (p size : Z)
  : syscall_result (Z * Z) :=
  sbind (require (validate_owner_range bits st owner p size)) (fun _ =>
  let slab_size := meta_slab_size p in
  if negb (slab_size =? size) then SysAbort
  else
    let aligned_p := align_down p slab_size in
    if negb (aligned_p =? p) then SysAbort else SysOk (p, size)).

(** [compartment_forward_callback] and [Callback::callback]: the function that is
    run on the data and whose result is stored. *)
Definition forward_callback {A} (c : CompartmentBase (Z * Z * A)) (st : OwnStore)
  (owner : CompartmentOwner) (index ret data : Z) : syscall_result A :=
  match get_callback index c with
  | None => SysAbort
  | Some (sizeof_A, sizeof_R, f) =>
      sbind (require (validate_owner bits st owner sizeof_A data 1)) (fun _ =>
      sbind (require (validate_owner bits st owner sizeof_R ret 1)) (fun _ => SysOk f))
  end.

(** [validate_owner] as a test. *)
Definition validated (st : OwnStore) (owner : CompartmentOwner) (sizeof_T ptr size : Z) : bool :=
  match validate_owner bits st owner sizeof_T ptr size with Done b => b | _ => false end.

(** [kwritev_stdout]: the bytes written and their number; [mem] reads memory. *)
Definition buffer_bytes (mem : Z -> Z) (b : span) : list Z :=
  map (fun i => mem (span_data b + Z.of_nat i)) (seq 0 (Z.to_nat (span_size b))).

Definition kwritev_stdout (mem : Z -> Z) (data : list span) : list Z * Z :=
  (flat_map (buffer_bytes mem) data, fold_left (fun n b => u64 (n + span_size b)) data 0).

(** [kwritev_stdout_protected]: [data_ptr] is where the array of spans lies. *)
Definition SIZEOF_SPAN : Z := 16.

Definition kwritev_stdout_protected (mem : Z -> Z) (st : OwnStore) (owner : CompartmentOwner)
  (data_ptr : Z) (unsafe_data : list span) : syscall_result (list Z * Z) :=
  if negb (validated st owner SIZEOF_SPAN data_ptr (Z.of_nat (length unsafe_data))) then SysAbort
  else if existsb (fun b => negb (validated st null_owner 1 (span_data b) (span_size b)) &&
                            negb (validated st owner 1 (span_data b) (span_size b))) unsafe_data
  then SysAbort
  else SysOk (kwritev_stdout mem unsafe_data).

End Syscalls.

(** [compartment_forward_exit]. *)
Definition forward_exit {CB} (c : CompartmentBase CB) : CompartmentBase CB := invalidate c.
