(* ===== verification/CompartmentProps.v ===== *)
(** * Compartments: stack discipline, exits, and the checks of the system calls *)

From S2P Require Import Prelude External Address Heap PageTable PageTableWf PageTableOps.
From S2P Require Import PageTableProps Ownership OwnershipProps Compartment.

(** ** Stacks in use *)

(** The stacks of the invocations under way, outermost first: the pre-allocated
    one counts only while it is used. *)
Definition active (c : ArchCompartment) : list span :=
  if is_initial_stack_used c then stack_of_stacks c else tl (stack_of_stacks c).

(** There is a pre-allocated stack; it is the only one while it is unused. *)
Definition arch_wf (c : ArchCompartment) : Prop :=
  exists init rest, stack_of_stacks c = init :: rest /\ (is_initial_stack_used c = false -> rest = []).

(** What the kernel has to know of the stacks: the limits in the TCB apart. *)
Definition same_stacks (c c' : ArchCompartment) : Prop :=
  stack_of_stacks c' = stack_of_stacks c /\ is_initial_stack_used c' = is_initial_stack_used c.

#[export] Instance same_stacks_equiv : Equivalence same_stacks.
Proof.
  split; unfold same_stacks.
  - intros c. done.
  - intros c c' [-> ->]. done.
  - intros c c' c'' [-> ->] [-> ->]. done.
Qed.

#[export] Instance arch_wf_proper : Proper (same_stacks ==> iff) arch_wf.
Proof. intros c c' [Hs Hu]. unfold arch_wf. by rewrite Hs, Hu. Qed.

#[export] Instance active_proper : Proper (same_stacks ==> eq) active.
Proof. intros c c' [Hs Hu]. unfold active. by rewrite Hs, Hu. Qed.

Lemma release_stack_proper c c' : same_stacks c c' -> same_stacks (release_stack c) (release_stack c').
Proof. intros [Hs Hu]. unfold release_stack. rewrite Hs. by case_if_prop; split; cbn; rewrite ?Hu. Qed.

(** [get_stack] pushes a stack on those in use: the pre-allocated one when no
    invocation is under way, the new allocation otherwise. *)
Lemma get_stack_push size fresh c :
  arch_wf c -> let '(range, c') := get_stack size fresh c in
  arch_wf c' /\
  exists s, active c' = active c ++ [s] /\
    (active c = [] /\ hd_error (stack_of_stacks c) = Some s /\ range = subspan s 0 size \/
     active c <> [] /\ s = fresh /\ range = fresh).
Proof.
  intros (init & rest & Hs & Hu). unfold get_stack, active, arch_wf. rewrite Hs.
  destruct (is_initial_stack_used c); cbn.
  - rewrite andb_false_r. cbn. split; [by exists init, (rest ++ [fresh])|]. exists fresh. eauto.
  - rewrite (Hu eq_refl). cbn. split; [by exists init, []|]. exists init. eauto.
Qed.

(** [release_stack] undoes it. *)
Lemma release_get size fresh c :
  arch_wf c -> same_stacks c (release_stack (snd (get_stack size fresh c))).
Proof.
  intros (init & rest & Hs & Hu). unfold get_stack. rewrite Hs.
  destruct (is_initial_stack_used c) eqn:E; cbn.
  - rewrite andb_false_r. cbn [snd]. unfold release_stack. cbn [stack_of_stacks].
    rewrite app_comm_cons, length_app, Nat.add_comm. cbn [length Nat.add Nat.eqb].
    split; cbn [stack_of_stacks is_initial_stack_used]; [by rewrite removelast_last, Hs|done].
  - rewrite (Hu eq_refl) in *. cbn. split; cbn; [by rewrite Hs|done].
Qed.

(** [get_stack] and [release_stack] are push and pop on the stacks in use, for
    any depth of re-entry. [get_stack] hands out the pre-allocated stack exactly
    when no invocation is under way and the newly allocated memory otherwise, so a
    stack in use is never handed out again; [release_stack] takes the last one
    away. *)
Theorem get_release_stack_discipline size fresh c range c' :
  arch_wf c -> get_stack size fresh c = (range, c') ->
  arch_wf c' /\ arch_wf (release_stack c') /\
  active (release_stack c') = active c /\
  stack_of_stacks (release_stack c') = stack_of_stacks c /\
  (exists s, active c' = active c ++ [s] /\ (range = s \/ range = subspan s 0 size)) /\
  (~ fresh ∈ stack_of_stacks c -> NoDup (stack_of_stacks c) -> NoDup (active c')).
Proof.
  intros Hw Hg. pose proof (get_stack_push size fresh c Hw) as Hp. pose proof (release_get size fresh c Hw) as Hr.
  rewrite Hg in Hp, Hr. cbn in Hr. destruct Hp as (Hw' & s & Ha & Hs).
  split; [done|]. split; [by rewrite <- Hr|]. split; [by rewrite <- Hr|].
  split; [apply Hr|]. split.
  - exists s. split; [done|]. destruct Hs as [(_ & _ & ->)|(_ & -> & ->)]; auto.
  - intros Hf Hnd. rewrite Ha. destruct Hs as [(-> & _ & _)|(_ & -> & _)]; [apply NoDup_singleton|].
    unfold active. apply NoDup_app. split_and!.
    + case_match; [done|]. destruct Hw as (i & r & Hs & _). rewrite Hs in *. by inversion Hnd.
    + intros x Hx Hxf. apply list_elem_of_singleton in Hxf as ->. apply Hf. case_match; [done|].
      destruct Hw as (i & r & Hs & _). rewrite Hs in *. by right.
    + apply NoDup_singleton.
Qed.

Lemma get_release_stack_discipline_witness :
  let c := mkArch [Span 0x10000 0x4000] true 0 0 in
  active (release_stack (snd (get_stack 0x4000 (Span 0x20000 0x4000) c))) = [Span 0x10000 0x4000].
Proof.
  intros c.
  destruct (get_release_stack_discipline 0x4000 (Span 0x20000 0x4000) c
    (fst (get_stack 0x4000 (Span 0x20000 0x4000) c)) (snd (get_stack 0x4000 (Span 0x20000 0x4000) c)))
    as (_ & _ & H & _).
  - exists (Span 0x10000 0x4000), []. done.
  - reflexivity.
  - exact H.
Defined.

(** ** The frame at the top of a stack *)

Section Frame.
Context `{SnmallocBits, !SnmallocBitsOk}.

(** The result slot that [reserve] carves out of a fresh stack and the stack
    pointer of [get] both lie inside the stack, the slot is aligned for its type
    and ends at or below the top of the stack, and the stack pointer is 16-byte
    aligned and not above the slot. *)
Theorem reserve_get_frame range sizeof_R alignof_R :
  is_pow2 alignof_R -> 0 < sizeof_R -> 0 <= span_data range -> span_data range + span_size range < 2 ^ 64 ->
  sizeof_R + alignof_R <= span_size range ->
  (alignof_R | span_data range + span_size range) -> (16 | span_data range) ->
  let '(slot, stack) := reserve sizeof_R alignof_R (mkScoped range 0) in
  let sp := scoped_get stack in
  (alignof_R | slot) /\ (16 | sp) /\
  span_data range <= sp <= slot /\ slot - sp < 16 /\ slot + sizeof_R <= span_data range + span_size range.
Proof.
  intros Ha HR Hd Htop Hsz Hal H16. pose proof (is_pow2_pos _ Ha) as Hpos.
  unfold reserve. cbn [reserved scoped_range].
  rewrite (u64_small (0 + sizeof_R)) by (unfold is_u64; lia). rewrite Z.add_0_l.
  destruct (align_up_spec sizeof_R alignof_R Ha ltac:(lia) ltac:(lia)) as [Hr Hb].
  set (r := align_up sizeof_R alignof_R) in *. unfold scoped_get. cbn [reserved scoped_range span_last span_data].
  rewrite u64_small by (unfold is_u64; lia).
  set (slot := span_data range + (span_size range - r)).
  assert (is_pow2 16) as Hp by (exists 4; lia).
  assert (is_u64 slot) as Hslot by (unfold is_u64, slot; lia).
  destruct (align_down_spec slot 16 Hp Hslot) as [Hdv Hds]. unfold STACK_ALIGNMENT.
  assert (span_data range <= align_down slot 16).
  { destruct H16 as [k Hk], Hdv as [j Hj]. unfold slot in *. lia. }
  split_and!; [|done|lia|lia|lia|unfold slot; lia].
  unfold slot. replace (span_data range + (span_size range - r)) with (span_data range + span_size range - r) by lia.
  by apply Z.divide_sub_r.
Qed.

End Frame.

Lemma reserve_get_frame_witness :
  let '(slot, stack) := @reserve ref_bits 12 8 (mkScoped (Span 0x10000 0x4000) 0) in
  (8 | slot) /\ (16 | @scoped_get ref_bits stack).
Proof.
  pose proof (@reserve_get_frame ref_bits ref_bits_ok (Span 0x10000 0x4000) 12 8) as H.
  cbv zeta in H. destruct (@reserve ref_bits 12 8 (mkScoped (Span 0x10000 0x4000) 0)) as [slot stack].
  destruct H as (H1 & H2 & _); [exists 3; lia|lia|cbn; lia|cbn; lia|cbn; lia| | |].
  - exists 0x2800. reflexivity.
  - exists 0x1000. reflexivity.
  - split; assumption.
Defined.

(** ** Nested invocations *)

Section Nested.
Context {CB : Type} `{SnmallocBits} (stack_size sizeof_R alignof_R : Z).

(** What one invocation does. While the compartment runs, its system calls let the kernel register
    callbacks for it and enter it again, each time on a newly allocated stack; the invocation ends by
    [compartment_return] or by an exit or abort. *)
#[warnings="-register-all"] Inductive activity : Type := Act (fresh : span) (events : list (CB + activity)) (exits : bool).

Definition act_exits (a : activity) : bool := let '(Act _ _ exits) := a in exits.

(** The result of an invocation: which of the invocations made meanwhile succeeded, in their order. *)
Fixpoint run_activity (a : activity) (c : CompartmentBase CB) : CompartmentErrorOr (list bool) * CompartmentBase CB :=
  let '(Act fresh events exits) := a in
  invoke_typed stack_size fresh sizeof_R alignof_R
    (fun _ _ c1 =>
       let '(rs, c2) := fold_left (fun '(rs, c) e =>
         match e with
         | inl f => (rs, snd (register_callback f c))
         | inr a => let '(r, c') := run_activity a c in (rs ++ [get_success r], c')
         end) events ([], c1) in
       if exits then (false, rs, forward_exit c2) else (true, rs, c2)) c.

Definition run_events (events : list (CB + activity)) (rs : list bool) (c : CompartmentBase CB)
  : list bool * CompartmentBase CB :=
  fold_left (fun '(rs, c) e =>
    match e with
    | inl f => (rs, snd (register_callback f c))
    | inr a => let '(r, c') := run_activity a c in (rs ++ [get_success r], c')
    end) events (rs, c).

(** Nothing exits, at any depth. *)
Fixpoint survives (a : activity) : bool :=
  let '(Act _ events exits) := a in
  negb exits && forallb (fun e => match e with inl _ => true | inr a => survives a end) events.

(** Whether each of the invocations made by [events] succeeds: the compartment is still valid and that invocation
    does not itself exit; once one of them has exited, at any depth below it, all that follow fail. *)
Fixpoint seen (valid : bool) (events : list (CB + activity)) : list bool :=
  match events with
  | [] => []
  | inl _ :: es => seen valid es
  | inr a :: es => (valid && negb (act_exits a)) :: seen (valid && survives a) es
  end.

(** The callbacks registered: those of the invocations that take place. *)
Fixpoint registered (valid : bool) (a : activity) : list CB :=
  let '(Act _ events _) := a in
  if valid then
    snd (fold_left (fun '(v, l) e =>
      match e with
      | inl f => (v, l ++ [f])
      | inr a => (v && survives a, l ++ registered v a)
      end) events (true, []))
  else [].

Definition registered_by (events : list (CB + activity)) (v : bool) (l : list CB) : bool * list CB :=
  fold_left (fun '(v, l) e =>
    match e with
    | inl f => (v, l ++ [f])
    | inr a => (v && survives a, l ++ registered v a)
    end) events (v, l).

Definition on_event (P : activity -> Prop) (e : CB + activity) : Prop := match e with inl _ => True | inr a => P a end.

Definition activity_ind' (P : activity -> Prop)
  (step : forall fresh events exits, Forall (on_event P) events -> P (Act fresh events exits)) : forall a, P a :=
  fix go a := match a with
  | Act fresh events exits => step fresh events exits
      ((fix all l : Forall (on_event P) l := match l with
        | [] => Forall_nil_2 _
        | x :: l' => Forall_cons_2 _ x l' (match x return on_event P x with inl _ => I | inr a => go a end) (all l')
        end) events)
  end.

(** Stacks as before, callbacks kept, and a compartment that has exited stays so. *)
Definition balanced (c c' : CompartmentBase CB) : Prop :=
  same_stacks (arch c) (arch c') /\ callbacks c' = callbacks c /\ (is_valid c = false -> is_valid c' = false).

#[export] Instance balanced_preorder : PreOrder balanced.
Proof.
  split.
  - intros c. by split_and!.
  - intros c c' c'' (Hs & Hc & Hv) (Hs' & Hc' & Hv'). split_and!; [by etransitivity|congruence|tauto].
Qed.

(** An invocation is balanced if the run of the compartment is. *)
Lemma invoke_balanced {T} fresh (enter : Z -> Z -> CompartmentBase CB -> bool * T * CompartmentBase CB) c :
  arch_wf (arch c) ->
  (forall r sp c1, arch_wf (arch c1) -> balanced c1 (snd (enter r sp c1))) ->
  balanced c (snd (invoke_typed stack_size fresh sizeof_R alignof_R enter c)).
Proof.
  intros Hw He. unfold invoke_typed. destruct (is_valid c) eqn:Hv; [|done]. cbn [negb].
  pose proof (release_get stack_size fresh (arch c) Hw) as Hr.
  pose proof (get_stack_push stack_size fresh (arch c) Hw) as Hg.
  destruct (get_stack stack_size fresh (arch c)) as [range a]. cbn [snd] in Hr. destruct Hg as [Hwa _].
  destruct (reserve _ _ _) as [slot stack1]. specialize (He slot (scoped_get stack1) (with_arch a c) Hwa).
  destruct (enter _ _ _) as [[ret v] c']. cbn in He. destruct He as (Hs & Hc & Hvv).
  split_and!; cbn; [|done|by rewrite Hv].
  etransitivity; [exact Hr|]. by apply release_stack_proper.
Qed.

(** What an invocation of a valid compartment comes to, given the run of the compartment. *)
Lemma invoke_enter {T} fresh (enter : Z -> Z -> CompartmentBase CB -> bool * T * CompartmentBase CB) c :
  arch_wf (arch c) -> is_valid c = true ->
  exists r sp c1, arch_wf (arch c1) /\ is_valid c1 = true /\ callbacks c1 = callbacks c /\
    let '(ret, v, c2) := enter r sp c1 in
    same_stacks (arch c1) (arch c2) ->
    let '(res, c') := invoke_typed stack_size fresh sizeof_R alignof_R enter c in
    res = (if ret then CValue v else CError) /\ same_stacks (arch c) (arch c') /\
    is_valid c' = is_valid c2 /\ callbacks c' = callbacks c2.
Proof.
  intros Hw Hv. unfold invoke_typed. rewrite Hv. cbn [negb].
  pose proof (release_get stack_size fresh (arch c) Hw) as Hr.
  pose proof (get_stack_push stack_size fresh (arch c) Hw) as Hg.
  destruct (get_stack stack_size fresh (arch c)) as [range a]. cbn [snd] in Hr. destruct Hg as [Hwa _].
  destruct (reserve _ _ _) as [slot stack1]. exists slot, (scoped_get stack1), (with_arch a c). split_and!; [done..|].
  destruct (enter _ _ _) as [[ret v] c2]. intros Hs. split_and!; [by destruct ret| |done..].
  cbn. etransitivity; [exact Hr|]. by apply release_stack_proper.
Qed.

Definition run_ok (a : activity) : Prop := forall c, arch_wf (arch c) ->
  let '(res, c') := run_activity a c in
  same_stacks (arch c) (arch c') /\ is_valid c' = is_valid c && survives a /\
  callbacks c' = callbacks c ++ registered (is_valid c) a /\ get_success res = is_valid c && negb (act_exits a).

Lemma run_events_ok events : forall rs c l0 l,
  Forall (on_event run_ok) events ->
  arch_wf (arch c) -> callbacks c = l0 ++ l ->
  let '(rs', c') := run_events events rs c in
  same_stacks (arch c) (arch c') /\ rs' = rs ++ seen (is_valid c) events /\
  is_valid c' = is_valid c && forallb (fun e => match e with inl _ => true | inr a => survives a end) events /\
  callbacks c' = l0 ++ snd (registered_by events (is_valid c) l).
Proof.
  unfold run_events, registered_by. induction events as [|[f|a] es IH]; intros rs c l0 l HF Hw Hc.
  - cbn. by rewrite app_nil_r, andb_true_r.
  - apply Forall_cons in HF as [_ HF]. cbn [fold_left register_callback snd seen forallb andb].
    exact (IH rs (snd (register_callback f c)) l0 (l ++ [f]) HF Hw ltac:(cbn; by rewrite Hc, app_assoc)).
  - apply Forall_cons in HF as [Ha HF]. specialize (Ha c Hw). cbn [fold_left seen forallb].
    destruct (run_activity a c) as [r c1]. destruct Ha as (Hs & Hv & Hcb & Hr).
    assert (arch_wf (arch c1)) as Hw1 by (by rewrite <- Hs).
    specialize (IH (rs ++ [get_success r]) c1 l0 (l ++ registered (is_valid c) a) HF Hw1 ltac:(by rewrite Hcb, Hc, <- app_assoc)).
    rewrite Hv in IH. match goal with |- context [fold_left ?f es (?x, c1)] => destruct (fold_left f es (x, c1)) as [rs' c'] end.
    destruct IH as (Hs' & Hrs & Hv' & Hcb'). split_and!.
    + by etransitivity.
    + by rewrite Hrs, <- app_assoc, Hr.
    + by rewrite Hv', andb_assoc.
    + exact Hcb'.
Qed.

(** The result in full; what [run_ok] says of every activity follows from it by induction. *)
Lemma run_activity_step fresh events exits c :
  Forall (on_event run_ok) events -> arch_wf (arch c) ->
  let '(res, c') := run_activity (Act fresh events exits) c in
  same_stacks (arch c) (arch c') /\ is_valid c' = is_valid c && survives (Act fresh events exits) /\
  callbacks c' = callbacks c ++ registered (is_valid c) (Act fresh events exits) /\
  res = (if is_valid c && negb exits then CValue (seen true events) else CError).
Proof.
  intros HF Hw. cbn [run_activity survives registered]. destruct (is_valid c) eqn:Hv.
  - match goal with |- context [invoke_typed _ fresh _ _ ?f c] => destruct (invoke_enter fresh f c Hw Hv) as (r & sp & c1 & Hw1 & Hv1 & Hc1 & He) end.
    pose proof (run_events_ok events [] c1 (callbacks c1) [] HF Hw1 ltac:(by rewrite app_nil_r)) as Hev.
    unfold run_events, registered_by in Hev.
    match type of Hev with context [fold_left ?f events ([], c1)] => destruct (fold_left f events ([], c1)) as [rs c2] end.
    destruct Hev as (Hs & Hrs & Hvv & Hcb). rewrite Hv1 in Hrs, Hvv, Hcb. cbn [andb app] in *. rewrite Hrs in He.
    destruct exits; specialize (He Hs); destruct (invoke_typed _ _ _ _ _ _) as [res c'];
      destruct He as (-> & Hs' & Hv' & Hcb'); rewrite <- Hc1; split_and!; try done; cbn in *; congruence.
  - unfold invoke_typed. rewrite Hv. cbn. by rewrite app_nil_r.
Qed.

Lemma run_activity_ok a : run_ok a.
Proof.
  induction a as [fresh events exits IH] using activity_ind'. intros c Hw.
  pose proof (run_activity_step fresh events exits c IH Hw) as Hr.
  destruct (run_activity _ c) as [res c']. destruct Hr as (Hs & Hv & Hc & ->). split_and!; [done..|].
  cbn [act_exits]. by destruct (is_valid c), exits.
Qed.

Lemma Forall_run_ok events : Forall (on_event run_ok) events.
Proof. induction events as [|[f|a] es IH]; constructor; [done..|apply run_activity_ok|done]. Qed.

(** C18: However deeply a compartment is re-entered through callbacks, an invocation leaves its stacks as they were,
    and the compartment is valid afterwards exactly if it was before and nothing exited or was aborted, at any depth: an exit
    below is not forgotten when the invocations around it return. An invocation of a valid compartment that exits is an
    error; one that returns gives its value although one below it exited, and of the invocations it made through callbacks
    exactly those succeeded that did not exit themselves and came before every exit. An invocation of a compartment
    that has exited is an error and changes nothing. The callback table only grows, by the callbacks that the invocations which took
    place registered, in their order, so a handle keeps naming its callback. *)
Theorem nested_invocations fresh events exits c :
  arch_wf (arch c) ->
  let '(res, c') := run_activity (Act fresh events exits) c in
  same_stacks (arch c) (arch c') /\
  is_valid c' = is_valid c && survives (Act fresh events exits) /\
  res = (if is_valid c && negb exits then CValue (seen true events) else CError) /\
  callbacks c' = callbacks c ++ registered (is_valid c) (Act fresh events exits) /\
  (forall i cb, get_callback i c = Some cb -> get_callback i c' = Some cb) /\
  (is_valid c = false -> c' = c) /\
  (survives (Act fresh events exits) = false -> forall b, run_activity b c' = (CError, c')).
Proof.
  intros Hw. pose proof (run_activity_step fresh events exits c (Forall_run_ok events) Hw) as Hr.
  assert (is_valid c = false -> snd (run_activity (Act fresh events exits) c) = c) as Hinv.
  { intros Hv. cbn [run_activity]. unfold invoke_typed. by rewrite Hv. }
  destruct (run_activity _ c) as [res c']. destruct Hr as (Hs & Hv & Hc & Hres). split_and!; try done.
  - intros i cb. unfold get_callback. rewrite Hc, length_app. destruct (Z.ltb_spec i (Z.of_nat (length (callbacks c)))); [|done].
    destruct (Z.ltb_spec i (Z.of_nat (length (callbacks c) + length (registered (is_valid c) (Act fresh events exits))))); [|lia].
    apply lookup_app_l_Some.
  - intros Hsv [f es ex]. rewrite Hsv, andb_false_r in Hv. cbn [run_activity]. unfold invoke_typed. by rewrite Hv.
Qed.

End Nested.

(** The first call below exits two levels down, so the second fails, registers nothing and its callback table is that of the first. *)
Lemma nested_invocations_witness :
  let c := mkComp (CB := nat) true [] (mkArch [Span 0x10000 0x4000] false 0 0) in
  let inner := Act (Span 0x20000 0x4000) [inl 1%nat; inr (Act (Span 0x30000 0x4000) [inl 2%nat] true)] false in
  let a := Act (Span 0 0) [inr inner; inr inner; inl 3%nat] false in
  same_stacks (arch c) (arch (snd (@run_activity nat ref_bits 0x4000 8 8 a c))) /\
  is_valid (snd (@run_activity nat ref_bits 0x4000 8 8 a c)) = false /\
  fst (@run_activity nat ref_bits 0x4000 8 8 a c) = CValue [true; false] /\
  callbacks (snd (@run_activity nat ref_bits 0x4000 8 8 a c)) = [1; 2; 3]%nat.
Proof.
  intros c inner a. subst a.
  pose proof (@nested_invocations nat ref_bits 0x4000 8 8 (Span 0 0) [inr inner; inr inner; inl 3%nat] false c) as H.
  destruct (@run_activity nat ref_bits 0x4000 8 8 (Act (Span 0 0) [inr inner; inr inner; inl 3%nat] false) c) as [res c'].
  destruct H as (H1 & H2 & H3 & H4 & _); [by exists (Span 0x10000 0x4000), []|]. cbn [fst snd].
  split_and!; [exact H1|rewrite H2; reflexivity|rewrite H3; reflexivity|rewrite H4; reflexivity].
Defined.

(** [get_stack] stores the limits of the stack in the thread control block,
    but [release_stack] does not put back those of the stack below: after a
    callback has re-entered the compartment and returned, the outer invocation
    goes on with the limits of a stack that has been freed. *)
Theorem stack_limits_stale size outer fresh low high :
  span_data fresh <> span_data outer ->
  let c0 := mkArch [outer] false low high in
  let c1 := snd (get_stack size fresh c0) in
  let c2 := release_stack (snd (get_stack size fresh c1)) in
  active c2 = [outer] /\ ~ fresh ∈ stack_of_stacks c2 /\
  stack_limit_low c1 = u64 (span_data outer) /\ stack_limit_low c2 = span_data fresh /\
  stack_limit_high c2 = u64 (span_data fresh + span_size fresh).
Proof.
  intros Hne. cbn. rewrite Z.add_0_r. split_and!; try done.
  rewrite list_elem_of_singleton. intros ->. done.
Qed.

Lemma stack_limits_stale_witness :
  0x20000 <> 0x10000 /\
  stack_limit_low (release_stack (snd (get_stack 0x4000 (Span 0x20000 0x4000)
    (snd (get_stack 0x4000 (Span 0x20000 0x4000) (mkArch [Span 0x10000 0x4000] false 0 0)))))) = 0x20000.
Proof.
  split; [discriminate|].
  destruct (stack_limits_stale 0x4000 (Span 0x10000 0x4000) (Span 0x20000 0x4000) 0 0)
    as (_ & _ & _ & H & _); [discriminate|exact H].
Defined.

(** ** The checks of the system calls *)

Section Checks.
Context (bits : Z) (cfg : page_config) (Hbits : page_bits cfg <= bits < 48).

Notation "'SZ'" := (MIN_OWNERSHIP_SIZE bits).

Lemma require_ok b u : require b = SysOk u <-> b = Done true.
Proof. destruct b as [[]| |], u; cbn; by split. Qed.

Lemma sbind_ok {A B} (m : syscall_result A) (k : A -> syscall_result B) b :
  sbind m k = SysOk b <-> exists a, m = SysOk a /\ k a = SysOk b.
Proof. destruct m; cbn; split; [eauto|by intros (? & [= <-] & ?)|done|by intros (? & ? & _)]. Qed.

(** Whatever buffer and owner: if the check passes on a covered range, every byte
    belongs to the owner. *)
Lemma validated_owns st owner sizeof_T ptr size :
  0 <= ptr -> 0 <= sizeof_T * size < 2 ^ 64 -> ptr + sizeof_T * size + SZ <= 2 ^ 64 ->
  strides_cover bits ptr (sizeof_T * size) ->
  validated bits st owner sizeof_T ptr size = true <->
  (forall a, ptr <= a < ptr + sizeof_T * size -> get_monza_owner bits st a = owner).
Proof.
  intros Hp Hs Hhi Hc. unfold validated, validate_owner. rewrite u64_small by done.
  destruct (validate_exact bits cfg Hbits st owner ptr (sizeof_T * size) Hp ltac:(lia) Hhi Hc) as (b & -> & Hb).
  done.
Qed.

(** [compartment_forward_dealloc_chunk] gives a chunk back exactly when its
    size is the slab size recorded for its address, it is aligned to that size and
    every byte of it belongs to the calling compartment; in every other case the
    compartment's invocation is aborted. Slab sizes are powers of two and whole
    numbers of chunks. *)
Theorem forward_dealloc_chunk_exact `{SnmallocBits, !SnmallocBitsOk} slab_of st owner p size :
  is_pow2 (slab_of p) -> (SZ | slab_of p) -> 0 <= p -> p + slab_of p + SZ <= 2 ^ 64 ->
  forward_dealloc_chunk bits slab_of st owner p size = SysOk (p, size) /\
    size = slab_of p /\ (slab_of p | p) /\
    (forall a, p <= a < p + size -> get_monza_owner bits st a = owner) \/
  forward_dealloc_chunk bits slab_of st owner p size = SysAbort /\
    ~ (size = slab_of p /\ (slab_of p | p) /\
       (forall a, p <= a < p + size -> get_monza_owner bits st a = owner)).
Proof.
  intros Hpow Hd Hp Hhi. pose proof (is_pow2_pos _ Hpow) as Hpos. pose proof (size_pos bits cfg Hbits) as Hsz.
  assert (align_down p (slab_of p) = p <-> (slab_of p | p)) as Hal.
  { assert (is_u64 p) by (unfold is_u64; lia). destruct (align_down_spec p (slab_of p) Hpow ltac:(done)) as [Hx _].
    split; [intros He; by rewrite He in Hx|by apply align_down_aligned]. }
  unfold forward_dealloc_chunk. destruct (Z.eqb_spec (slab_of p) size) as [<-|Hne].
  2: { right. split; [by destruct (require _)|]. by intros [? _]. }
  destruct (Z.eqb_spec (align_down p (slab_of p)) p) as [He|Hna].
  2: { right. split; [by destruct (require _)|]. intros (_ & H' & _). by apply Hna, Hal. }
  apply Hal in He.
  destruct (validate_exact bits cfg Hbits st owner p (slab_of p) Hp ltac:(lia) Hhi) as (b & -> & Hb).
  { apply aligned_cover with cfg; [done|]. by transitivity (slab_of p). }
  destruct b; cbn; [left|right].
  - split_and!; try done. by apply Hb.
  - split; [done|]. intros (_ & _ & H'). by apply Hb in H'.
Qed.

Lemma register_all {CB} later : forall c : CompartmentBase CB,
  callbacks (fold_left (fun c f => snd (register_callback f c)) later c) = callbacks c ++ later.
Proof.
  induction later as [|g later IH]; intros c; cbn [fold_left]; [by rewrite app_nil_r|].
  rewrite IH. cbn. by rewrite <- app_assoc.
Qed.

(** The callback table: a handle keeps naming the callback it was made for
    however many are registered later, and a system call with an index past the
    table, or with an argument or result pointer that fails the ownership check,
    aborts without running any callback. *)
Theorem callback_dispatch {A} (c : CompartmentBase (Z * Z * A)) f later st owner index ret data g :
  (let '(i, c1) := register_callback f c in
   get_callback i (fold_left (fun c f => snd (register_callback f c)) later c1) = Some f) /\
  (Z.of_nat (length (callbacks c)) <= index -> forward_callback bits c st owner index ret data = SysAbort) /\
  (0 <= index -> forward_callback bits c st owner index ret data = SysOk g <->
     exists sizeof_A sizeof_R, callbacks c !! Z.to_nat index = Some (sizeof_A, sizeof_R, g) /\
       validate_owner bits st owner sizeof_A data 1 = Done true /\
       validate_owner bits st owner sizeof_R ret 1 = Done true).
Proof.
  split_and!.
  - unfold register_callback at 1, get_callback. rewrite register_all. cbn [callbacks].
    rewrite <- app_assoc. cbn [app].
    rewrite length_app. cbn. case_if_prop; [|lia]. rewrite Nat2Z.id. by apply list_lookup_middle.
  - intros Hi. unfold forward_callback, get_callback. case_if_prop; [lia|done].
  - intros Hi. unfold forward_callback, get_callback. case_if_prop.
    + destruct (callbacks c !! Z.to_nat index) as [[[sA sR] h]|]; [|by split; [|intros (? & ? & ? & _)]].
      rewrite sbind_ok. split.
      * intros ([] & H1%require_ok & H2). apply sbind_ok in H2 as ([] & H2%require_ok & [= ->]). by exists sA, sR.
      * intros (? & ? & [= -> -> ->] & H1 & H2). exists tt. rewrite require_ok, H2. done.
    + split; [done|]. intros (? & ? & Hl & _). apply lookup_lt_Some in Hl. lia.
Qed.

Lemma buffer_bytes_length mem b : length (buffer_bytes mem b) = Z.to_nat (span_size b).
Proof. unfold buffer_bytes. by rewrite length_map, length_seq. Qed.

(** When [kwritev_stdout_protected] prints, the output is the concatenation of
    the buffers, its count the sum of their lengths, and every byte printed lies in
    memory that is public or belongs to the calling compartment, for buffers whose
    chunks the ownership check visits (those inside one chunk, for example). *)
Theorem kwritev_protected_public mem st owner data_ptr bufs out n :
  Forall (fun b => 0 <= span_data b /\ 0 <= span_size b /\ span_data b + span_size b + SZ <= 2 ^ 64 /\
                   strides_cover bits (span_data b) (span_size b)) bufs ->
  kwritev_stdout_protected bits mem st owner data_ptr bufs = SysOk (out, n) ->
  (forall b a, b ∈ bufs -> span_data b <= a < span_data b + span_size b ->
     get_monza_owner bits st a = null_owner \/ get_monza_owner bits st a = owner) /\
  (forall x, x ∈ out -> exists b a, b ∈ bufs /\ span_data b <= a < span_data b + span_size b /\ x = mem a) /\
  n = u64 (Z.of_nat (length out)).
Proof.
  intros Hf Hk. unfold kwritev_stdout_protected in Hk. case_if_prop; [done|]. clear E.
  destruct (existsb _ bufs) eqn:E; [done|]. injection Hk as <- <-. split_and!.
  - intros b a Hb Ha. rewrite Forall_forall in Hf. destruct (Hf b Hb) as (H1 & H2 & H3 & H4).
    pose proof (size_pos bits cfg Hbits) as Hsz.
    apply not_true_iff_false in E. rewrite existsb_exists in E.
    assert (forall o, validated bits st o 1 (span_data b) (span_size b) = true ->
                      get_monza_owner bits st a = o) as Hv.
    { intros o. rewrite (validated_owns st o 1); rewrite ?Z.mul_1_l; try done; try lia. intros Ho. by apply Ho. }
    destruct (validated bits st null_owner 1 (span_data b) (span_size b)) eqn:E1; [left; by apply Hv|].
    destruct (validated bits st owner 1 (span_data b) (span_size b)) eqn:E2; [right; by apply Hv|].
    destruct E. exists b. split; [by apply list_elem_of_In|]. by rewrite E1, E2.
  - intros x Hx. apply list_elem_of_In, in_flat_map in Hx as (b & Hb & Hx).
    apply in_map_iff in Hx as (i & <- & Hi%in_seq). exists b, (span_data b + Z.of_nat i).
    split; [by apply list_elem_of_In|]. split; [lia|done].
  - clear E. assert (forall k, fold_left (fun n b => u64 (n + span_size b)) bufs (u64 k) =
      u64 (k + Z.of_nat (length (flat_map (buffer_bytes mem) bufs)))) as H'.
    { induction Hf as [|b l (_ & Hs & _) Hf IH]; intros k; cbn; [by rewrite Z.add_0_r|].
      rewrite u64_add_l, IH, length_app, buffer_bytes_length.
      f_equal. lia. }
    apply (H' 0).
Qed.

(** C32: A buffer across the end of the caller's chunk passes the check of
    [kwritev_stdout_protected], and the first byte of the next chunk, which belongs
    to another compartment, is printed. *)
Theorem kwritev_protected_leak mem :
  exists st owner buffer, get_monza_owner bits st SZ <> owner /\ get_monza_owner bits st SZ <> null_owner /\
    span_data buffer <= SZ < span_data buffer + span_size buffer /\
    kwritev_stdout_protected bits mem st owner 0 [buffer] = SysOk ([mem (SZ - 1); mem SZ], 2).
Proof.
  pose proof (size_pos bits cfg Hbits) as Hsz.
  set (st := mkOwn ∅ ∅ {[0 := 7; 1 := 8]}).
  assert (forall a, 0 <= a < SZ -> get_monza_owner bits st a = 7) as H7.
  { intros a Ha. unfold get_monza_owner, chunk_of. by rewrite Z.div_small by lia. }
  assert (get_monza_owner bits st SZ = 8) as H8.
  { unfold get_monza_owner, chunk_of. by rewrite Z.div_same by lia. }
  assert (validated bits st 7 1 (SZ - 1) 2 = true) as Hyes.
  { unfold validated, validate_owner. rewrite u64_small by (unfold is_u64; lia).
    rewrite (validate_owner_range_eq bits cfg Hbits) by lia. apply forallb_stride.
    unfold chunk_count. replace (1 * 2 + (SZ - 1)) with (1 * SZ + 1) by lia.
    rewrite Z.div_add_l, (Z.div_small 1) by lia. intros i Hi. replace i with 0 by lia.
    rewrite Z.mul_0_r, Z.add_0_r, H7 by lia. done. }
  exists st, 7, (Span (SZ - 1) 2). rewrite H8. split_and!; try done; try (cbn [span_data span_size]; lia).
  unfold kwritev_stdout_protected.
  assert (validated bits st 7 SIZEOF_SPAN 0 (Z.of_nat (length [Span (SZ - 1) 2])) = true) as ->.
  { apply validated_owns; cbn [length Z.of_nat]; unfold SIZEOF_SPAN; try lia.
    - apply aligned_cover with cfg; [done|apply Z.divide_0_r].
    - intros a Ha. apply H7. lia. }
  cbn -[validated MIN_OWNERSHIP_SIZE]. rewrite Hyes, andb_false_r. cbn -[MIN_OWNERSHIP_SIZE].
  unfold kwritev_stdout, buffer_bytes. cbn [flat_map span_data span_size Z.to_nat Pos.to_nat Pos.iter_op].
  change (Z.to_nat 2) with 2%nat. cbn [seq map app Z.of_nat fold_left].
  rewrite Z.add_0_r. by replace (SZ - 1 + Z.of_nat 1) with SZ by lia.
Qed.

End Checks.

Definition example_store : OwnStore := mkOwn ∅ ∅ {[2 := 9; 3 := 9]}.

Lemma example_owned a : 0x8000 <= a < 0x8000 + 0x8000 -> get_monza_owner 14 example_store a = 9.
Proof.
  intros Ha. unfold get_monza_owner, chunk_of. change (MIN_OWNERSHIP_SIZE 14) with 0x4000.
  assert (a / 0x4000 = 2 \/ a / 0x4000 = 3) as [-> | ->] by (Z.div_mod_to_equations; lia); reflexivity.
Qed.

Lemma forward_dealloc_chunk_exact_witness :
  @forward_dealloc_chunk 14 (fun _ => 0x8000) ref_bits example_store 9 0x8000 0x8000 = SysOk (0x8000, 0x8000).
Proof.
  destruct (@forward_dealloc_chunk_exact 14 SmallPages example_bits ref_bits ref_bits_ok (fun _ => 0x8000)
    example_store 9 0x8000 0x8000) as [[H _]|[_ H]].
  - exists 15. lia.
  - exists 2. reflexivity.
  - lia.
  - vm_compute. discriminate.
  - exact H.
  - destruct H. split; [reflexivity|]. split; [exists 1; reflexivity|]. apply example_owned.
Defined.

Lemma callback_dispatch_witness :
  let c := mkComp true [(8, 8, 41)] (mkArch [] false 0 0) in
  forward_callback 14 c example_store 9 1 0x8000 0x8010 = SysAbort /\
  forward_callback 14 c example_store 9 0 0x8000 0x8010 = SysOk 41.
Proof.
  intros c. split.
  - apply (callback_dispatch 14 c (8, 8, 0) [] example_store 9 1 0x8000 0x8010 41). vm_compute. discriminate.
  - apply (callback_dispatch 14 c (8, 8, 0) [] example_store 9 0 0x8000 0x8010 41); [lia|].
    exists 8, 8. split; [reflexivity|]. split; vm_compute; reflexivity.
Defined.

Lemma kwritev_protected_public_witness :
  exists out n, kwritev_stdout_protected 14 (fun a => a mod 256) example_store 9 0x8000 [Span 0x8040 2] =
    SysOk (out, n) /\ n = u64 (Z.of_nat (length out)).
Proof.
  exists [0x40; 0x41], 2.
  assert (kwritev_stdout_protected 14 (fun a => a mod 256) example_store 9 0x8000 [Span 0x8040 2] =
    SysOk ([0x40; 0x41], 2)) as E by (vm_compute; reflexivity).
  split; [exact E|].
  apply (kwritev_protected_public 14 SmallPages example_bits (fun a => a mod 256) example_store 9 0x8000
    [Span 0x8040 2]); [|exact E].
  constructor; [|constructor].
  split; [discriminate|]. split; [discriminate|]. split; [vm_compute; discriminate|right; reflexivity].
Defined.

(** ** Compartment memory *)

(** [CompartmentMemory] owns its allocation once: of an object and the object
    moved from, exactly one gives the range back, and it gives back what was
    allocated, which is at least the size asked for. [fill]
    writes inside the allocation, but it refuses a source of exactly the allocated
    size; and [span] counts bytes as elements, so that for elements of more than
    one byte it reaches past the allocation. *)
Theorem compartment_memory_spec next_pow2 MIN_CHUNK_SIZE sizeof_T count alloc m :
  (forall v, 0 <= v <= 2 ^ 63 -> v <= next_pow2 v) ->
  0 < sizeof_T -> 0 < MIN_CHUNK_SIZE -> 0 <= count -> count * sizeof_T <= 2 ^ 63 ->
  memory_construct next_pow2 MIN_CHUNK_SIZE sizeof_T count alloc = Done m ->
  memory_destroy (snd (memory_move m)) = None /\
  memory_destroy (fst (memory_move m)) =
    (if count =? 0 then None else Some (cm_base m, memory_alloc_size next_pow2 MIN_CHUNK_SIZE sizeof_T count)) /\
  count * sizeof_T <= cm_alloc_size m /\
  (forall n, 0 <= n -> sizeof_T * n < 2 ^ 64 -> memory_fill sizeof_T n m = true <-> sizeof_T * n < cm_alloc_size m) /\
  (0 < count -> 1 < sizeof_T -> cm_alloc_size m < span_size (memory_span m) * sizeof_T).
Proof.
  intros Hpow HT HM Hc Hsz Hm. unfold memory_construct in Hm.
  assert (0 <= count * sizeof_T) by nia.
  destruct (Z.eqb_spec count 0) as [->|Hne].
  - injection Hm as <-. split_and!; try done; try lia. intros n Hn Hb. unfold memory_fill. cbn [cm_alloc_size].
    rewrite u64_small by (unfold is_u64; nia). by rewrite Z.ltb_lt.
  - destruct (Z.eqb_spec (alloc (memory_alloc_size next_pow2 MIN_CHUNK_SIZE sizeof_T count)) 0); [done|].
    injection Hm as <-. unfold memory_destroy, memory_fill, memory_span, memory_alloc_size. cbn.
    rewrite (u64_small (count * sizeof_T)) by (unfold is_u64; lia).
    specialize (Hpow (count * sizeof_T) ltac:(lia)). split_and!; try done; try lia; try nia.
    + rewrite (proj2 (Z.gtb_gt _ _)) by lia. done.
    + intros k Hn Hb. rewrite u64_small by (unfold is_u64; nia). by rewrite Z.ltb_lt.
Qed.

Lemma compartment_memory_spec_witness :
  let m := mkCM 0x8000 0x4000 in
  memory_construct (fun v => 2 ^ Z.log2_up v) 0x4000 8 0x100 (fun _ => 0x8000) = Done m /\
  0x4000 < span_size (memory_span m) * 8.
Proof.
  intros m. assert (memory_construct (fun v => 2 ^ Z.log2_up v) 0x4000 8 0x100 (fun _ => 0x8000) = Done m) as E
    by (vm_compute; reflexivity).
  split; [exact E|].
  destruct (compartment_memory_spec (fun v => 2 ^ Z.log2_up v) 0x4000 8 0x100 (fun _ => 0x8000) m)
    as (_ & _ & _ & _ & H); [|lia..|exact E|].
  - intros v [Hv _]. destruct (Z.le_gt_cases v 1) as [H1|H1]; [rewrite Z.log2_up_eqn0 by done; cbn; lia|].
    apply Z.log2_up_spec. lia.
  - apply H; lia.
Defined.

Lemma kwritev_protected_leak_witness :
  exists st owner buffer, get_monza_owner 14 st (MIN_OWNERSHIP_SIZE 14) <> owner /\
    kwritev_stdout_protected 14 (fun a => a) st owner 0 [buffer] =
      SysOk ([MIN_OWNERSHIP_SIZE 14 - 1; MIN_OWNERSHIP_SIZE 14], 2).
Proof.
  destruct (kwritev_protected_leak 14 SmallPages example_bits (fun a => a)) as (st & o & b & H1 & _ & _ & H2).
  exists st, o, b. split; [exact H1|exact H2].
Defined.
