(* ===== verification/Backend.v ===== *)
(** * The allocator's backend across the boundary (snmalloc.h, crt/compartment.cc)

    Inside a compartment the backend of the allocator is a system call. The kernel can
    hand back one word, so it passes the address of the slab through the memory of the slab's
    metadata, from where the wrapper takes it and clears it. snmalloc's own backend is a
    parameter: it takes memory from the range component of the compartment and gives it back there, by
    the calls it makes, and those calls run here on the range component of [Ownership]. *)

From S2P Require Import Prelude External Address Heap PageTable PageTableWf PageTableOps PageTableProps.
From S2P Require Import Ownership OwnershipProps Isolation Lifecycle CompartmentSpec Compartment CompartmentProps.

(** Words of memory. *)
Definition word_mem : Type := Z -> Z.
Definition put_word (a v : Z) (m : word_mem) : word_mem := fun b => if b =? a then v else m b.

(** What the stages of snmalloc ask the range component for: [alloc_range] of [n] ownership chunks, answered by the parent with
    the block from chunk [k] on (null when [k] is 0), and [dealloc_range]. *)
Inductive range_call : Type := RangeAlloc (k : Z) (n : nat) | RangeDealloc (k : Z) (n : nat).

(** [BackendAllocator]: a failed allocation is a null pointer. The page map holds, for each address, the
    allocator bits and the metadata of its slab; [inner_held] are the ownership chunks that the stages have taken from the
    range component. Each operation also gives the calls it has made to the range component. *)
Class BackendInner (S : Type) : Type := {
  inner_alloc_chunk : S -> word_mem -> Z -> Z -> (Z * Z) * S * word_mem * list range_call;
  inner_alloc_meta_data : S -> word_mem -> Z -> Z * S * word_mem * list range_call;
  inner_dealloc_chunk : S -> word_mem -> Z -> Z -> Z -> S * word_mem * list range_call;
  inner_metaentry : S -> Z -> Z * Z;
  inner_held : S -> gset Z;
}.

Section Backend.
Context {S : Type} `{BackendInner S, SnmallocBits, NodeAllocator}.
Context (bits : Z) (cfg : page_config) (kernel : Z).

Notation "'SZ'" := (MIN_OWNERSHIP_SIZE bits).

(** The allocator of a compartment: snmalloc's state and the range component's. *)
Record BackendMem : Type := mkBackendMem { b_inner : S; b_ranges : RangeState }.

Definition range_call_run (x : MonzaRange) (rs : RangeState) (c : range_call) : outcome RangeState :=
  match c with
  | RangeAlloc k n => let* r := alloc_range bits cfg x (k * SZ) (Z.of_nat n * SZ) rs in Done (snd r)
  | RangeDealloc k n => dealloc_range bits cfg kernel x (k * SZ) (Z.of_nat n * SZ) rs
  end.

Definition with_calls (x : MonzaRange) (calls : list range_call) (st : S) (b : BackendMem) : outcome BackendMem :=
  let* rs := ofold (range_call_run x) calls (b_ranges b) in Done (mkBackendMem st rs).

(** The kernel's calls, of [Backend]: null is the end. *)
Definition kernel_alloc_chunk (x : MonzaRange) (b : BackendMem) (m : word_mem) (size ras : Z)
  : outcome ((Z * Z) * BackendMem * word_mem) :=
  let '(chunk, st1, m1, calls) := inner_alloc_chunk (b_inner b) m size ras in
  let* b1 := with_calls x calls st1 b in
  if fst chunk =? 0 then Kabort else Done (chunk, b1, m1).

Definition kernel_alloc_meta_data (x : MonzaRange) (b : BackendMem) (m : word_mem) (size : Z)
  : outcome (Z * BackendMem * word_mem) :=
  let '(p, st1, m1, calls) := inner_alloc_meta_data (b_inner b) m size in
  let* b1 := with_calls x calls st1 b in
  if p =? 0 then Kabort else Done (p, b1, m1).

Definition kernel_dealloc_chunk (x : MonzaRange) (b : BackendMem) (m : word_mem) (meta p size : Z)
  : outcome (BackendMem * word_mem) :=
  let '(st1, m1, calls) := inner_dealloc_chunk (b_inner b) m meta p size in
  let* b1 := with_calls x calls st1 b in Done (b1, m1).

Section Forward.
Context (ras_remote ras_slab_size : Z -> Z) (sizeof_remote : Z).

(** [compartment_forward_alloc_chunk]: the word handed back is the metadata's address. *)
Definition forward_alloc_chunk (x : MonzaRange) (b : BackendMem) (m : word_mem) (size ras : Z)
  : outcome (syscall_result (Z * BackendMem * word_mem)) :=
  match forward_alloc_chunk_check bits ras_remote ras_slab_size sizeof_remote (rs_own (b_ranges b)) (r_owner x) size ras with
  | SysAbort => Done SysAbort
  | SysOk _ =>
      let* r := kernel_alloc_chunk x b m size ras in
      let '((slab, meta), b1, m1) := r in Done (SysOk (meta, b1, put_word meta slab m1))
  end.

(** [compartment_forward_alloc_meta_data]. *)
Definition forward_alloc_meta_data (x : MonzaRange) (b : BackendMem) (m : word_mem) (size : Z)
  : outcome (Z * BackendMem * word_mem) :=
  let* r := kernel_alloc_meta_data x b m size in
  let '(result, b1, m1) := r in Done (result, b1, put_word result result m1).

(** [compartment_alloc_chunk_wrapper] and [compartment_alloc_meta_data_wrapper]: what they do
    with the word the system call gives. *)
Definition chunk_of_raw (raw_result : Z) (m : word_mem) : (Z * Z) * word_mem :=
  ((m raw_result, raw_result), put_word raw_result 0 m).

Definition meta_of_raw (raw_result : Z) (m : word_mem) : Z * word_mem :=
  (m raw_result, put_word raw_result 0 m).

Definition alloc_chunk_wrapper (x : MonzaRange) (b : BackendMem) (m : word_mem) (size ras : Z)
  : outcome (syscall_result ((Z * Z) * BackendMem * word_mem)) :=
  let* r := forward_alloc_chunk x b m size ras in
  match r with
  | SysAbort => Done SysAbort
  | SysOk (raw, b1, m1) => let '(chunk, m2) := chunk_of_raw raw m1 in Done (SysOk (chunk, b1, m2))
  end.

Definition alloc_meta_data_wrapper (x : MonzaRange) (b : BackendMem) (m : word_mem) (size : Z)
  : outcome (Z * BackendMem * word_mem) :=
  let* r := forward_alloc_meta_data x b m size in
  let '(raw, b1, m1) := r in let '(p, m2) := meta_of_raw raw m1 in Done (p, b1, m2).

(** [compartment_forward_dealloc_chunk] as a whole: the metadata is the one of the page map. *)
Definition forward_dealloc (x : MonzaRange) (b : BackendMem) (m : word_mem) (p size : Z)
  : outcome (syscall_result (BackendMem * word_mem)) :=
  match forward_dealloc_chunk bits (fun a => ras_slab_size (fst (inner_metaentry (b_inner b) a)))
          (rs_own (b_ranges b)) (r_owner x) p size with
  | SysAbort => Done SysAbort
  | SysOk (p', size') =>
      let* r := kernel_dealloc_chunk x b m (snd (inner_metaentry (b_inner b) p')) p' size' in Done (SysOk r)
  end.

(** [Backend::alloc_chunk], [Backend::alloc_meta_data] and [Backend::dealloc_chunk] of
    [MonzaGlobals]; [is_comp] is [is_compartment()]. *)
Definition alloc_chunk (is_comp : bool) (x : MonzaRange) (b : BackendMem) (m : word_mem)
  (size ras : Z) : outcome (syscall_result ((Z * Z) * BackendMem * word_mem)) :=
  if is_comp then alloc_chunk_wrapper x b m size ras
  else let* r := kernel_alloc_chunk x b m size ras in Done (SysOk r).

Definition alloc_meta_data (is_comp : bool) (x : MonzaRange) (b : BackendMem) (m : word_mem) (size : Z)
  : outcome (Z * BackendMem * word_mem) :=
  if is_comp then alloc_meta_data_wrapper x b m size else kernel_alloc_meta_data x b m size.

Definition dealloc_chunk (is_comp : bool) (x : MonzaRange) (b : BackendMem) (m : word_mem)
  (slab_metadata alloc size : Z) : outcome (syscall_result (BackendMem * word_mem)) :=
  if is_comp then forward_dealloc x b m alloc size
  else let* r := kernel_dealloc_chunk x b m slab_metadata alloc size in Done (SysOk r).

(** Those of [MonzaCompartmentGlobals], for code that is only ever compiled for compartments. *)
Definition compartment_alloc_chunk := alloc_chunk_wrapper.
Definition compartment_alloc_meta_data := alloc_meta_data_wrapper.
Definition compartment_dealloc_chunk (x : MonzaRange) (b : BackendMem) (m : word_mem)
  (slab_metadata alloc size : Z) : outcome (syscall_result (BackendMem * word_mem)) := forward_dealloc x b m alloc size.

(** A compartment that passes the checks gets from its backend exactly the chunk and
    metadata, and the same state of the ranges, as kernel code with the same ranges would;
    memory is the same but for the first word of the metadata, which is cleared. Metadata is
    handed over in the same way. Where the kernel's allocation fails, the whole machine
    stops, for a compartment as well as for the kernel. *)
Theorem backend_transparent x b m size ras :
  (match alloc_chunk true x b m size ras, alloc_chunk false x b m size ras with
   | Done (SysOk (chunk, st1, m1)), Done (SysOk (chunk', st1', m1')) =>
       chunk = chunk' /\ st1 = st1' /\ m1 (snd chunk) = 0 /\ forall a, a <> snd chunk -> m1 a = m1' a
   | Done SysAbort, _ => forward_alloc_chunk_check bits ras_remote ras_slab_size sizeof_remote (rs_own (b_ranges b)) (r_owner x) size ras = SysAbort
   | Kabort, Kabort | Hang, Hang => True
   | _, _ => False
   end) /\
  (match alloc_meta_data true x b m size, alloc_meta_data false x b m size with
   | Done (p, st1, m1), Done (p', st1', m1') =>
       p = p' /\ st1 = st1' /\ m1 p = 0 /\ forall a, a <> p -> m1 a = m1' a
   | Kabort, Kabort | Hang, Hang => True
   | _, _ => False
   end).
Proof.
  unfold alloc_chunk, alloc_meta_data, alloc_chunk_wrapper, alloc_meta_data_wrapper, forward_alloc_chunk, forward_alloc_meta_data, chunk_of_raw, meta_of_raw. split.
  - destruct (forward_alloc_chunk_check _ _ _ _ _ _ _ _) as [[]|] eqn:E; [|done].
    destruct (kernel_alloc_chunk x b m size ras) as [[[[slab meta] b1] m1]| |]; [|done..]. cbn.
    unfold put_word. rewrite !Z.eqb_refl. split_and!; [done..|]. intros a Ha. by destruct (Z.eqb_spec a meta).
  - destruct (kernel_alloc_meta_data x b m size) as [[[p b1] m1]| |]; [|done..]. cbn.
    unfold put_word. rewrite !Z.eqb_refl. split_and!; [done..|]. intros a Ha. by destruct (Z.eqb_spec a p).
Qed.

(** ** Chunks given back *)

Section Returned.
Context `{!SnmallocBitsOk, !NodeAllocatorOk} (Hbits : page_bits cfg <= bits < 48).

(** What the stages hold after the calls: what the range component gave them and they have not given back. *)
Fixpoint held_after (calls : list range_call) (held : gset Z) : option (gset Z) :=
  match calls with
  | [] => Some held
  | RangeAlloc k n :: cs => held_after cs (if decide (k = 0) then held else held ∪ chunk_set k n)
  | RangeDealloc k n :: cs => if decide (chunk_set k n ⊆ held) then held_after cs (held ∖ chunk_set k n) else None
  end.

Definition range_call_ok (c : range_call) : Prop :=
  match c with RangeAlloc k n | RangeDealloc k n => 0 <= k /\ (k + Z.of_nat n) * SZ <= 2 ^ 48 end.

Definition calls_ok (st : S) (calls : list range_call) (st1 : S) : Prop :=
  Forall range_call_ok calls /\ held_after calls (inner_held st) = Some (inner_held st1).

(** What snmalloc's backend promises: slabs have sizes that are powers of two and whole numbers of
    ownership chunks; a chunk it hands out is aligned, lies in memory it holds, and its bits and metadata are in the
    page map; and it only gives back to the range component what it holds. Nothing is promised about owners or page tables. *)
Class BackendInnerOk : Prop := {
  inner_slab_size ras : is_pow2 (ras_slab_size ras) /\ (SZ | ras_slab_size ras);
  inner_chunk st m size ras slab meta st1 m1 calls :
    inner_alloc_chunk st m size ras = ((slab, meta), st1, m1, calls) ->
    calls_ok st calls st1 /\
    (slab <> 0 -> ras_slab_size ras = size -> (size | slab) /\ 0 <= slab /\ inner_metaentry st1 slab = (ras, meta) /\
       forall a, slab <= a < slab + size -> chunk_of bits a ∈ inner_held st1);
  inner_meta st m size p st1 m1 calls :
    inner_alloc_meta_data st m size = (p, st1, m1, calls) -> calls_ok st calls st1;
  inner_dealloc st m meta p size st1 m1 calls :
    inner_dealloc_chunk st m meta p size = (st1, m1, calls) -> calls_ok st calls st1;
}.

Context `{!BackendInnerOk}.
Context (hr : HeapRanges) (predefined interrupt_stack_map : list MapEntry) (boot_tables : pt_mem) (lab0 : gmap Z label).
Context (Hmap : Forall (fun e => region_ok (map_range e) /\ entry_aligned cfg e) (predefined ++ interrupt_stack_map)).
Context (Hperm : Forall (fun e => map_perm e <> PT_COMPARTMENT_WRITE) (predefined ++ interrupt_stack_map)).
Context (Hwf : pt_wf cfg boot_tables lab0) (Hk : table lab0 kernel true).
Context (comps : list MonzaRange) (x : MonzaRange) (Hx : x ∈ comps).

Notation "'reached'" := (reach bits cfg kernel hr predefined interrupt_stack_map boot_tables true comps).

Definition backed (b : BackendMem) : Prop :=
  reached (b_ranges b) /\
  forall c, c ∈ inner_held (b_inner b) -> get_owner_of (rs_own (b_ranges b)) c = r_owner x.

(** A slab on record: its entry in the page map, and all its bytes the compartment's. *)
Definition recorded (b : BackendMem) (slab size ras meta : Z) : Prop :=
  inner_metaentry (b_inner b) slab = (ras, meta) /\
  forall a, slab <= a < slab + size -> get_monza_owner bits (rs_own (b_ranges b)) a = r_owner x.

Lemma reached_inv rs : reached rs ->
  exists lab, sys_ok bits cfg kernel (hw_access cfg (root_depth cfg) boot_tables kernel) comps lab rs.
Proof. exact (reach_inv bits cfg Hbits kernel hr _ predefined interrupt_stack_map Hmap Hperm boot_tables lab0 Hwf Hk (fun _ => eq_refl) comps rs). Qed.

(** A call of the range component keeps what is held in the compartment's hands. *)
Lemma range_call_backed held rs c rs1 held1 :
  reached rs -> range_call_ok c -> range_call_run x rs c = Done rs1 ->
  (forall c, c ∈ held -> get_owner_of (rs_own rs) c = r_owner x) -> held_after [c] held = Some held1 ->
  reached rs1 /\ forall c, c ∈ held1 -> get_owner_of (rs_own rs1) c = r_owner x.
Proof.
  intros Hr Hc Hrun Hh Ha. destruct (reached_inv rs Hr) as [lab Hi]. destruct (so_ranges _ _ _ _ _ _ _ Hi x Hx) as [l Hl].
  destruct c as [k n|k n]; destruct Hc as [Hk0 Hkn]; cbn [held_after range_call_run] in *.
  - apply obind_done in Hrun as ([rg rs2] & Hal & [= <-]). split; [eapply reach_step; [exact Hr|]; by eapply step_alloc|].
    injection Ha as <-. case_decide as E; [subst k; unfold alloc_range in Hal; injection Hal as _ <-; done|].
    destruct (alloc_range_spec bits cfg Hbits x k n rs l lab rg rs2 Hl ltac:(lia) Hkn Hal) as (_ & _ & Hg & _).
    cbn. intros c Hc. rewrite Hg. case_decide as Hin; [done|]. apply elem_of_union in Hc as [Hc|Hc]; [by apply Hh|].
    by apply elem_of_chunk_set in Hc.
  - split; [eapply reach_step; [exact Hr|]; by eapply step_dealloc|]. case_decide as E; [|done]. injection Ha as <-.
    destruct (dealloc_range_spec bits cfg Hbits kernel x k n rs l lab Hl (root_not_kernel _ _ _ _ _ _ _ _ Hi Hx) Hk0 Hkn) as [_ Hd].
    destruct (Hd rs1 Hrun) as (Hg & _). intros c [Hc Hn]%elem_of_difference. rewrite Hg. case_decide as Hin; [|by apply Hh].
    by destruct Hn; apply elem_of_chunk_set.
Qed.

Lemma held_after_app c cs held : held_after (c :: cs) held = held1 ← held_after [c] held; held_after cs held1.
Proof. destruct c; cbn; [done|]. by case_decide. Qed.

Lemma with_calls_backed calls st1 b b1 :
  backed b -> calls_ok (b_inner b) calls st1 -> with_calls x calls st1 b = Done b1 ->
  b_inner b1 = st1 /\ backed b1.
Proof.
  destruct b as [st rs]. cbn [b_inner b_ranges]. unfold with_calls. intros [Hr Hh] [Hok Ha] Hw. cbn [b_inner b_ranges] in *.
  apply obind_done in Hw as (rs1 & Hrun & [= <-]). split; [done|]. unfold backed. cbn [b_inner b_ranges].
  revert Hh Ha. generalize (inner_held st). clear st. revert rs Hr Hok Hrun.
  induction calls as [|c cs IH]; intros rs Hr Hok Hrun held Hh Ha.
  { injection Hrun as <-. injection Ha as <-. done. }
  cbn [ofold] in Hrun. apply obind_done in Hrun as (rs2 & Hc & Hrun). apply Forall_cons in Hok as [Hc1 Hcs].
  rewrite held_after_app in Ha. destruct (held_after [c] held) as [held1|] eqn:E; [|done]. cbn in Ha.
  destruct (range_call_backed held rs c rs2 held1 Hr Hc1 Hc Hh E) as [Hr2 Hh2]. by apply (IH rs2 Hr2 Hcs Hrun held1).
Qed.

(** The memory of a chunk that was handed out. *)
Lemma kernel_chunk_spec b m size ras slab meta b1 m1 :
  backed b -> ras_slab_size ras = size -> kernel_alloc_chunk x b m size ras = Done ((slab, meta), b1, m1) ->
  backed b1 /\ recorded b1 slab size ras meta /\ (size | slab) /\ 0 <= slab /\ slab + size <= 2 ^ 48 /\
  forall va, slab <= va < slab + size -> user_writes cfg (b_ranges b1) x va.
Proof.
  intros Hb Hs Ha. unfold kernel_alloc_chunk in Ha.
  destruct (inner_alloc_chunk (b_inner b) m size ras) as [[[[slab' meta'] st1] m'] calls] eqn:Ea.
  apply obind_done in Ha as (b2 & Hw & Ha). cbn [fst] in Ha. destruct (Z.eqb_spec slab' 0) as [|Hn]; [done|].
  injection Ha as -> -> -> ->. destruct (inner_chunk _ _ _ _ _ _ _ _ _ Ea) as [Hcalls Hchunk].
  destruct (Hchunk Hn Hs) as (Hd & Hge & Hme & Hin). destruct (with_calls_backed _ _ _ _ Hb Hcalls Hw) as [<- Hb1].
  pose proof Hb1 as [Hr Hh]. destruct (reached_inv _ Hr) as [lab Hi].
  assert (forall a, slab <= a < slab + size -> get_monza_owner bits (rs_own (b_ranges b1)) a = r_owner x) as Ho
    by (intros a Hra; by apply Hh, Hin).
  destruct (inner_slab_size ras) as [[e [He Hp2]] _]. assert (0 < size) as Hpos by (rewrite <- Hs, Hp2; apply Z.pow_pos_nonneg; lia).
  assert (slab + size <= 2 ^ 48) as Hhi.
  { destruct (so_ranges _ _ _ _ _ _ _ Hi x Hx) as [l [Hnull _ _ _]].
    destruct (so_bounds _ _ _ _ _ _ _ Hi (chunk_of bits (slab + size - 1))) as [_ Hc].
    { specialize (Ho (slab + size - 1) ltac:(lia)). unfold get_monza_owner in Ho. congruence. }
    unfold chunk_of in Hc. pose proof (size_pos bits cfg Hbits).
    pose proof (Z.mul_succ_div_gt (slab + size - 1) SZ ltac:(lia)). lia. }
  split_and!; [done|done|done|done|done|]. intros va Hva.
  apply (so_writes _ _ _ _ _ _ _ Hi x va Hx); [unfold canonical; lia|by apply Ho].
Qed.

Lemma alloc_chunk_ok b m size ras slab meta b1 m1 :
  alloc_chunk true x b m size ras = Done (SysOk ((slab, meta), b1, m1)) ->
  ras_slab_size ras = size /\ exists m', kernel_alloc_chunk x b m size ras = Done ((slab, meta), b1, m').
Proof.
  cbn [alloc_chunk]. unfold alloc_chunk_wrapper, forward_alloc_chunk.
  destruct (forward_alloc_chunk_check _ _ _ _ _ _ _ _) as [[]|] eqn:Hc; [|done].
  assert (ras_slab_size ras = size) as Hs.
  { unfold forward_alloc_chunk_check in Hc. apply sbind_ok in Hc as (_ & _ & Hc).
    destruct (Z.eqb_spec (ras_slab_size ras) size); [done|discriminate Hc]. }
  destruct (kernel_alloc_chunk x b m size ras) as [[[[slab' meta'] b'] m']| |]; [|done..]. cbn.
  unfold put_word. rewrite Z.eqb_refl. intros [= <- <- <- _]. split; [done|]. by exists m'.
Qed.

(** The system call gives back a slab if it is on record, and nothing else. *)
Lemma forward_dealloc_cases b m p size ras meta :
  inner_metaentry (b_inner b) p = (ras, meta) -> 0 <= p -> p + ras_slab_size ras + SZ <= 2 ^ 64 ->
  (forward_dealloc x b m p size = (let* r := kernel_dealloc_chunk x b m meta p size in Done (SysOk r)) /\
   size = ras_slab_size ras /\ (size | p) /\ recorded b p size ras meta) \/
  (forward_dealloc x b m p size = Done SysAbort /\
   ~ (size = ras_slab_size ras /\ (size | p) /\ recorded b p size ras meta)).
Proof.
  intros He Hp Hhi. destruct (inner_slab_size ras) as [Hp2 Hsz]. unfold forward_dealloc, recorded.
  pose proof (forward_dealloc_chunk_exact bits cfg Hbits (fun a => ras_slab_size (fst (inner_metaentry (b_inner b) a)))
    (rs_own (b_ranges b)) (r_owner x) p size) as Hex. cbv beta in Hex. rewrite He in Hex. cbn [fst] in Hex.
  destruct (Hex Hp2 Hsz Hp Hhi) as [(-> & -> & Hd & Ho)|(-> & Hno)]; [left|right].
  - rewrite He. done.
  - split; [done|]. intros (-> & Hd & _ & Ho). by apply Hno.
Qed.

Lemma kernel_dealloc_backed b m meta p size b1 m1 :
  backed b -> kernel_dealloc_chunk x b m meta p size = Done (b1, m1) -> backed b1.
Proof.
  intros Hb Hd. unfold kernel_dealloc_chunk in Hd. destruct (inner_dealloc_chunk _ _ _ _ _) as [[st1 m'] calls] eqn:E.
  apply obind_done in Hd as (b2 & Hw & [= -> _]). eapply with_calls_backed; [done| |done]. by eapply inner_dealloc.
Qed.

Lemma alloc_meta_backed b m size p b1 m1 : backed b -> alloc_meta_data true x b m size = Done (p, b1, m1) -> backed b1.
Proof.
  intros Hb Ha. cbn [alloc_meta_data] in Ha. unfold alloc_meta_data_wrapper, forward_alloc_meta_data, kernel_alloc_meta_data in Ha.
  destruct (inner_alloc_meta_data _ _ _) as [[[q st1] m'] calls] eqn:E. unfold meta_of_raw in Ha.
  destruct (with_calls x calls st1 b) as [b2| |] eqn:Hw; [|done..]. cbn in Ha. destruct (q =? 0); [done|]. cbn in Ha.
  injection Ha as _ <- _. eapply with_calls_backed; [done| |done]. by eapply inner_meta.
Qed.


End Returned.
End Forward.
End Backend.

(** ** Witness

    A backend with slabs of two ownership chunks, one of them, at 0x8000: its state says whether it holds the chunks and
    which bits are on record. It takes them from the range component for the slab and gives them back with it. *)

Definition one_slab : BackendInner (option Z) := {|
  inner_alloc_chunk st m _ ras :=
    match st with None => ((0x8000, 0x20000), Some ras, m, [RangeAlloc 2 2]) | Some _ => ((0, 0), st, m, []) end;
  inner_alloc_meta_data st m _ := (0x30000, st, m, []);
  inner_dealloc_chunk st m _ _ _ := (None, m, match st with None => [] | Some _ => [RangeDealloc 2 2] end);
  inner_metaentry st _ := (default 0 st, 0x20000);
  inner_held st := match st with None => ∅ | Some _ => chunk_set 2 2 end;
|}.

Lemma one_slab_ok : @BackendInnerOk (option Z) one_slab 14 (fun _ => 0x8000).
Proof.
  assert (held_after [RangeAlloc 2 2] ∅ = Some (chunk_set 2 2)) as E1 by (vm_compute; reflexivity).
  assert (held_after [RangeDealloc 2 2] (chunk_set 2 2) = Some ∅) as E2 by (vm_compute; reflexivity).
  assert (range_call_ok 14 (RangeAlloc 2 2) /\ range_call_ok 14 (RangeDealloc 2 2)) as [R1 R2]
    by (unfold range_call_ok, MIN_OWNERSHIP_SIZE; lia).
  constructor.
  - intros _. split; [exists 15; lia|exists 2; reflexivity].
  - intros [o|] m size ras slab meta st1 m1 calls [= <- <- <- <- <-]; [split; [split; [constructor|done]|done]|].
    split; [split; [by repeat constructor|done]|]. intros _ <-. split_and!; [exists 1; reflexivity|lia|done|].
    intros a Ha. apply elem_of_chunk_set. unfold chunk_of, MIN_OWNERSHIP_SIZE. zlia.
  - intros [o|] m size p st1 m1 calls [= <- <- <- <-]; (split; [constructor|done]).
  - intros [o|] m meta p size st1 m1 calls [= <- <- <-]; (split; [by repeat constructor|done]).
Qed.

#[local] Existing Instances one_slab one_slab_ok ref_bits ref_bits_ok ref_alloc ref_alloc_ok.

Abbreviation ex_alloc := (alloc_chunk 14 SmallPages 0x1000 (fun _ => 0) (fun _ => 0x8000) 8 true).
Abbreviation ex_dealloc := (dealloc_chunk 14 SmallPages 0x1000 (fun _ => 0x8000) true).

(** A new compartment allocates the slab and gives it back, naming no metadata at all. *)
Definition slab_life : outcome (MonzaRange * RangeState * (Z * Z * BackendMem * word_mem) * (BackendMem * word_mem)) :=
  let* r := compartment_construct SmallPages example_predefined example_stacks 9 5 (mkRS own_initial example_mem []) in
  let '(x, rs) := r in
  let* c := ex_alloc x (mkBackendMem (S := option Z) None rs) (fun _ => 0) 0x8000 7 in
  match c with
  | SysOk (chunk, b1, m1) =>
      let* d := ex_dealloc x b1 m1 0 (fst chunk) 0x8000 in
      match d with SysOk d => Done (x, rs, (chunk, b1, m1), d) | SysAbort => Kabort end
  | SysAbort => Kabort
  end.

