(* ===== verification/Ghcb.v ===== *)
(** * Requests through the GHCB page (arch/x86_64/hv_sev.cc, inc/sev_ghcb.h, inc/hv.h)

    The guest-host communication block is one page shared with the host. The
    guest writes a request into it and exits; the host may change the page in any
    way before the guest goes on. *)

From S2P Require Import Prelude External Sev.

(** ** The page *)

(** The 512 quad-words of [SevGhcb]; the three views of the union are accessors. *)
Notation "'ghcb_page'" := (list Z) (only parsing).

Definition get_q (i : Z) (g : ghcb_page) : Z := nth (Z.to_nat i) g 0.
Definition set_q (i v : Z) (g : ghcb_page) : ghcb_page := <[Z.to_nat i := v]> g.

(** [SevGhcbBase]: members of eight bytes, and the bitmap as two quad-words. *)
Definition get_base (f : GhcbField) (g : ghcb_page) : Z := get_q (ghcb_offset f / 8) g.
Definition set_base (f : GhcbField) (v : Z) (g : ghcb_page) : ghcb_page := set_q (ghcb_offset f / 8) v g.

Definition set_valid_bitmap (bm : SevGhcbValidBitmapData) (g : ghcb_page) : ghcb_page :=
  let i := ghcb_offset f_valid_bitmap / 8 in
  set_q (i + 1) (le_value (drop 8 bm)) (set_q i (le_value (take 8 bm)) g).

(** What the host reads: whether the bit of a member is set. *)
Definition host_sees_valid (f : GhcbField) (g : ghcb_page) : bool :=
  let k := ghcb_offset f / 8 in
  Z.testbit (get_q (ghcb_offset f_valid_bitmap / 8 + k / 64) g) (k mod 64).

(** [SevGhcbSuffix]: 16 reserved bits, the version and the format. *)
Inductive SevFormat : Type := FORMAT_BASE | FORMAT_HYPERCALL.
Definition format_code (f : SevFormat) : Z :=
  match f with FORMAT_BASE => 0 | FORMAT_HYPERCALL => 1 end.
Definition SUFFIX : Z := 511.

Definition set_format (f : SevFormat) (g : ghcb_page) : ghcb_page :=
  set_q SUFFIX (Z.lor (get_q SUFFIX g mod 2 ^ 32) (Z.shiftl (format_code f) 32)) g.
Definition set_version (v : Z) (g : ghcb_page) : ghcb_page :=
  let s := get_q SUFFIX g in
  set_q SUFFIX (Z.lor (s mod 2 ^ 16) (Z.lor (Z.shiftl v 16) (Z.shiftl (s / 2 ^ 32) 32))) g.
Definition get_format (g : ghcb_page) : Z := get_q SUFFIX g / 2 ^ 32.

Inductive SevExitCode : Type := EXIT_IOIO | EXIT_MSR | EXIT_GUEST_REQUEST | EXIT_CREATE_AP | EXIT_HV_IPI.
Definition exit_code (c : SevExitCode) : Z :=
  match c with
  | EXIT_IOIO => 0x7b | EXIT_MSR => 0x7c | EXIT_GUEST_REQUEST => 0x80000011
  | EXIT_CREATE_AP => 0x80000013 | EXIT_HV_IPI => 0x80000015
  end.

(** [SevGhcbHvHyperCall]. *)
Definition OUTPUT_PARAMS_GPA : Z := 509.
Definition HYPERCALL_WORD : Z := 510.

(** ** Hypercall words (hv.h) *)

(** [HyperCallInput]. *)
Record HyperCallInput : Type := mkHCI {
  call_code : Z;
  is_fast : Z;
  variable_header_size : Z;
  rep_count : Z;
  rep_start_index : Z;
}.

Definition hci_raw (h : HyperCallInput) : Z :=
  Z.lor (call_code h) (Z.lor (Z.shiftl (is_fast h) 16) (Z.lor (Z.shiftl (variable_header_size h) 17)
    (Z.lor (Z.shiftl (rep_count h) 32) (Z.shiftl (rep_start_index h) 48)))).

(** [HyperCallOutput]. *)
Definition hco_status (raw : Z) : Z := bitfield 0 16 raw.
Definition hco_elements (raw : Z) : Z := bitfield 32 12 raw.

Definition HV_STATUS_SUCCESS : Z := 0.
Definition HV_STATUS_TIMEOUT : Z := 0x78.

(** ** Exits through the page *)

(** The page of the current core and the pages the host was shown. *)
Record GhcbState : Type := mkGhcb { page : ghcb_page; exits : list ghcb_page }.

Section Exits.
(** What the host turns the page into, from the pages it has seen. *)
Context (host : list ghcb_page -> ghcb_page -> ghcb_page).

Definition on_page (f : ghcb_page -> ghcb_page) (s : GhcbState) : GhcbState :=
  mkGhcb (f (page s)) (exits s).

Definition ghcb_vmgexit (s : GhcbState) : GhcbState :=
  mkGhcb (host (exits s) (page s)) (exits s ++ [page s]).

(** [garbage] is the uninitialised bitmap of [initial_guest]. *)
Definition write_msr_virt_sev (garbage : SevGhcbValidBitmapData) (msr value : Z) (s : GhcbState)
  : outcome GhcbState :=
  let request g :=
    let g := set_format FORMAT_BASE g in
    let g := set_base f_rcx msr g in
    let g := set_base f_rax (Z.land value 0xFFFFFFFF) g in
    let g := set_base f_rdx (Z.land (Z.shiftr value 32) 0xFFFFFFFF) g in
    let g := set_base f_exit_code (exit_code EXIT_MSR) g in
    let g := set_base f_exit_info1 1 g in
    let g := set_base f_exit_info2 0 g in
    set_valid_bitmap
      (SEV_GHCB_SET_VALID_BITMAP (SEV_GHCB_SET_VALID_BITMAP (SEV_GHCB_SET_VALID_BITMAP
        (initial_guest garbage) f_rcx) f_rax) f_rdx) g in
  let s1 := ghcb_vmgexit (on_page request s) in
  if negb (get_base f_exit_info1 (page s1) =? 0) then Kabort else Done s1.

Definition COM1 : Z := 0x3f8.

Definition uartputc_sev (garbage : SevGhcbValidBitmapData) (c : Z) (s : GhcbState) : outcome GhcbState :=
  let request g :=
    let g := set_format FORMAT_BASE g in
    let g := set_base f_rax c g in
    let g := set_base f_exit_code (exit_code EXIT_IOIO) g in
    let g := set_base f_exit_info1 (Z.lor (Z.shiftl 1 4) (Z.shiftl COM1 16)) g in
    let g := set_base f_exit_info2 0 g in
    set_valid_bitmap (SEV_GHCB_SET_VALID_BITMAP (initial_guest garbage) f_rax) g in
  let s1 := ghcb_vmgexit (on_page request s) in
  if negb (get_base f_exit_info1 (page s1) =? 0) then Kabort else Done s1.

(** The loop of [call_hyperv_sev]: repeats from the element the host stopped at
    while the host reports a timeout. *)
Fixpoint hypercall_loop (fuel : nat) (input : HyperCallInput) (s : GhcbState) : outcome (Z * GhcbState) :=
  match fuel with
  | O => Hang
  | S fuel' =>
      let s1 := ghcb_vmgexit (on_page (set_q HYPERCALL_WORD (hci_raw input)) s) in
      let output := get_q HYPERCALL_WORD (page s1) in
      if negb (hco_status output =? HV_STATUS_TIMEOUT) then Done (hco_status output, s1)
      else hypercall_loop fuel'
             (mkHCI (call_code input) (is_fast input) (variable_header_size input) (rep_count input)
                    (hco_elements output)) s1
  end.

(** [ghcb] is the address of the page, 0 the null pointer. *)
Definition call_hyperv_sev (fuel : nat) (ghcb code input_params output_params : Z) (s : GhcbState)
  : outcome (Z * GhcbState) :=
  if negb (input_params =? 0) && negb (input_params =? ghcb) then Kabort
  else
    let s1 := on_page (fun g => set_q OUTPUT_PARAMS_GPA output_params (set_format FORMAT_HYPERCALL g)) s in
    hypercall_loop fuel (mkHCI code 0 0 0 0) s1.

Definition call_hyperv_sev_fast (fuel : nat) (ghcb code input_params output_params : Z) (s : GhcbState)
  : outcome (Z * GhcbState) :=
  call_hyperv_sev fuel ghcb code 0 output_params (on_page (set_q 0 input_params) s).

(** [sev_guest_request]: the status is 32 bits wide. *)
Definition sev_guest_request (garbage : SevGhcbValidBitmapData) (request_page response_page : Z)
  (s : GhcbState) : outcome GhcbState :=
  let request g :=
    let g := set_format FORMAT_BASE g in
    let g := set_base f_exit_code (exit_code EXIT_GUEST_REQUEST) g in
    let g := set_base f_exit_info1 request_page g in
    let g := set_base f_exit_info2 response_page g in
    set_valid_bitmap (initial_guest garbage) g in
  let s1 := ghcb_vmgexit (on_page request s) in
  if negb (u32 (get_base f_exit_info2 (page s1)) =? 0) then Kabort else Done s1.

End Exits.

(** ** Facts *)

Definition page_ok (g : ghcb_page) : Prop := length g = 512%nat.

Lemma set_q_length i v g : length (set_q i v g) = length g.
Proof. apply length_insert. Qed.

Lemma get_set_q i j v g :
  page_ok g -> 0 <= i < 512 -> 0 <= j < 512 -> get_q j (set_q i v g) = if i =? j then v else get_q j g.
Proof.
  unfold page_ok. intros Hg Hi Hj. unfold get_q, set_q. rewrite !nth_lookup.
  destruct (Z.eqb_spec i j) as [->|Hne].
  - rewrite list_lookup_insert_eq by lia. done.
  - rewrite list_lookup_insert_ne by lia. done.
Qed.

Lemma set_q_ok i v g : page_ok g -> page_ok (set_q i v g).
Proof. unfold page_ok. by rewrite set_q_length. Qed.

#[export] Hint Resolve set_q_ok : monza.

Lemma hci_decode h :
  0 <= call_code h < 2 ^ 16 -> 0 <= is_fast h < 2 -> 0 <= variable_header_size h < 2 ^ 9 ->
  0 <= rep_count h < 2 ^ 12 -> 0 <= rep_start_index h < 2 ^ 12 ->
  hci_raw h = call_code h + is_fast h * 2 ^ 16 + variable_header_size h * 2 ^ 17 +
              rep_count h * 2 ^ 32 + rep_start_index h * 2 ^ 48.
Proof.
  intros H1 H2 H3 H4 H5. unfold hci_raw. rewrite !Z.lor_assoc.
  rewrite (lor_shiftl_add _ (is_fast h)) by lia. rewrite (lor_shiftl_add _ (variable_header_size h)) by lia.
  rewrite (lor_shiftl_add _ (rep_count h)) by lia. rewrite (lor_shiftl_add _ (rep_start_index h)) by lia. done.
Qed.

(** ** The bitmap as the host reads it *)

Definition is_bytes (l : list Z) : Prop := Forall (fun b => 0 <= b < 2 ^ 8) l.

Lemma le_value_testbit l : is_bytes l -> forall i, 0 <= i ->
  Z.testbit (le_value l) i = Z.testbit (nth (Z.to_nat (i / 8)) l 0) (i mod 8).
Proof.
  intros Hl. induction Hl as [|b l Hb Hl IH]; intros i Hi.
  - cbn. rewrite Z.bits_0. by destruct (Z.to_nat (i / 8)); rewrite Z.bits_0.
  - cbn [le_value foldr]. change (foldr _ 0 l) with (le_value l).
    replace (b + 2 ^ 8 * le_value l) with (Z.lor b (Z.shiftl (le_value l) 8)) by (rewrite lor_shiftl_add; lia).
    rewrite Z.lor_spec, Z.shiftl_spec by done. destruct (Z.lt_ge_cases i 8) as [H8|H8].
    + rewrite (Z.testbit_neg_r (le_value l)), orb_false_r, Z.div_small, Z.mod_small by lia. done.
    + rewrite (proj1 (Z.bounded_iff_bits_nonneg 8 b ltac:(lia) ltac:(lia)) ltac:(lia) i H8).
      rewrite orb_false_l, IH by lia.
      replace (i / 8) with (Z.succ ((i - 8) / 8)) by (Z.div_mod_to_equations; lia).
      rewrite Z2Nat.inj_succ by (apply Z.div_pos; lia). cbn [nth].
      f_equal. Z.div_mod_to_equations; lia.
Qed.

Lemma set_bitmap_bytes bm f : is_bytes bm -> is_bytes (SEV_GHCB_SET_VALID_BITMAP bm f).
Proof.
  unfold is_bytes, SEV_GHCB_SET_VALID_BITMAP. intros Hb. apply Forall_alter; [done|].
  intros x _ Hx. assert (0 <= u8 (Z.shiftl 1 (ghcb_offset f / 8 mod 8)) < 2 ^ 8) as Hu
    by (unfold u8; apply Z.mod_pos_bound; lia).
  revert Hu. generalize (u8 (Z.shiftl 1 (ghcb_offset f / 8 mod 8))). intros y Hu.
  split; [apply Z.lor_nonneg; lia|].
  apply (Z.bounded_iff_bits_nonneg 8); [lia|apply Z.lor_nonneg; lia|]. intros i Hi.
  rewrite Z.lor_spec, (proj1 (Z.bounded_iff_bits_nonneg 8 x ltac:(lia) ltac:(lia)) ltac:(lia) i Hi).
  rewrite (proj1 (Z.bounded_iff_bits_nonneg 8 y ltac:(lia) ltac:(lia)) ltac:(lia) i Hi). done.
Qed.

Lemma set_bitmap_length (bm : SevGhcbValidBitmapData) f :
  length (SEV_GHCB_SET_VALID_BITMAP bm f) = length bm.
Proof. apply length_alter. Qed.

(** The host sees in the page exactly the bits of the bitmap. *)
Lemma host_sees_bitmap bm g f :
  page_ok g -> length bm = 16%nat -> is_bytes bm -> 0 <= ghcb_offset f / 8 < 128 ->
  host_sees_valid f (set_valid_bitmap bm g) = bitmap_valid bm (ghcb_offset f / 8).
Proof.
  intros Hg Hl Hb Hk. unfold host_sees_valid, set_valid_bitmap, bitmap_valid.
  set (k := ghcb_offset f / 8) in *. change (ghcb_offset f_valid_bitmap / 8) with 126.
  assert (k / 64 = 0 \/ k / 64 = 1) as Hc by (Z.div_mod_to_equations; lia).
  rewrite !get_set_q by (auto with monza; lia).
  destruct Hc as [Hc|Hc]; rewrite Hc;
    [change (126 + 1 =? 126 + 0) with false; change (126 =? 126 + 0) with true
    |change (126 + 1 =? 126 + 1) with true]; cbv iota;
    rewrite le_value_testbit by (by apply Forall_take || by apply Forall_drop || (apply Z.mod_pos_bound; lia)).
  - rewrite Z.mod_small by (Z.div_mod_to_equations; lia). f_equal. rewrite !nth_lookup, lookup_take_lt; [done|].
    Z.div_mod_to_equations; lia.
  - assert (k mod 64 = k - 64) as -> by (Z.div_mod_to_equations; lia).
    replace ((k - 64) mod 8) with (k mod 8) by (Z.div_mod_to_equations; lia). f_equal.
    rewrite !nth_lookup, lookup_drop. do 2 f_equal. Z.div_mod_to_equations; lia.
Qed.

(** ** Requests as the host reads them *)

(** Computes the members of a page that was just written. *)
Ltac read_page :=
  unfold get_base, set_base, get_format, set_format, SUFFIX, set_valid_bitmap;
  repeat match goal with |- context [ghcb_offset ?f / 8] =>
    let v := eval vm_compute in (ghcb_offset f / 8) in change (ghcb_offset f / 8) with v end;
  repeat (rewrite get_set_q by (auto 20 with monza; lia));
  cbn [Z.eqb Pos.eqb Z.add Pos.add Pos.succ].

Lemma get_base_bitmap bm f g :
  page_ok g -> 0 <= ghcb_offset f / 8 < 126 -> get_base f (set_valid_bitmap bm g) = get_base f g.
Proof.
  intros Hg Hf. unfold get_base, set_valid_bitmap. change (ghcb_offset f_valid_bitmap / 8) with 126.
  rewrite !get_set_q by (auto with monza; lia).
  rewrite !(proj2 (Z.eqb_neq _ _)) by lia. done.
Qed.

Lemma format_of_word w f :
  Z.lor (w mod 2 ^ 32) (Z.shiftl (format_code f) 32) / 2 ^ 32 = format_code f.
Proof.
  pose proof (Z.mod_pos_bound w (2 ^ 32) ltac:(lia)). rewrite lor_shiftl_add by lia.
  rewrite Z.div_add, Z.div_small by lia. done.
Qed.

Definition marks (fs : list GhcbField) (bm : SevGhcbValidBitmapData) : SevGhcbValidBitmapData :=
  fold_left SEV_GHCB_SET_VALID_BITMAP fs bm.

Lemma marks_spec fs : forall bm o,
  length bm = 16%nat -> Forall (fun f => 0 <= ghcb_offset f / 8 < 128) fs -> 0 <= o < 128 ->
  bitmap_valid (marks fs bm) o = bitmap_valid bm o || existsb (fun f => o =? ghcb_offset f / 8) fs.
Proof.
  induction fs as [|f fs IH]; intros bm o Hl Hf Ho; cbn; [by rewrite orb_false_r|].
  inversion Hf; subst. rewrite IH by (rewrite ?set_bitmap_length; done).
  rewrite bitmap_set_spec by done. by rewrite orb_assoc.
Qed.

Lemma marks_bytes fs : forall bm, is_bytes bm -> is_bytes (marks fs bm).
Proof. induction fs; intros bm Hb; cbn; [done|]. by apply IHfs, set_bitmap_bytes. Qed.

Lemma marks_length fs : forall bm, length (marks fs bm) = length bm.
Proof. induction fs; intros bm; cbn; [done|]. by rewrite IHfs, set_bitmap_length. Qed.

(** The page that [write_msr_virt_sev] shows to the host names the register
    and the value exactly: format, exit code and direction are those of an MSR
    write, [rcx] is the register, [rdx:rax] the 64-bit value, and every member used
    is marked valid; with a cleared bitmap nothing else is. The call comes back
    exactly when the host clears [exit_info1], and stops the machine otherwise. *)
Theorem write_msr_virt_sev_request host garbage msr value s :
  page_ok (page s) -> length garbage = 16%nat -> is_bytes garbage -> is_u64 value ->
  exists g, page_ok g /\
    write_msr_virt_sev host garbage msr value s =
      (let s1 := mkGhcb (host (exits s) g) (exits s ++ [g]) in
       if get_base f_exit_info1 (page s1) =? 0 then Done s1 else Kabort) /\
    get_format g = 0 /\ get_base f_exit_code g = 0x7c /\
    get_base f_exit_info1 g = 1 /\ get_base f_exit_info2 g = 0 /\
    get_base f_rcx g = msr /\ get_base f_rdx g * 2 ^ 32 + get_base f_rax g = value /\
    (forall f, f ∈ [f_exit_code; f_exit_info1; f_exit_info2; f_rcx; f_rax; f_rdx] ->
       host_sees_valid f g = true) /\
    (garbage = replicate 16 0 -> forall f, 0 <= ghcb_offset f / 8 < 128 -> host_sees_valid f g = true ->
       exists f', f' ∈ [f_exit_code; f_exit_info1; f_exit_info2; f_rcx; f_rax; f_rdx] /\
         ghcb_offset f / 8 = ghcb_offset f' / 8).
Proof.
  intros Hp Hl Hb Hv. set (fs := [f_exit_code; f_exit_info1; f_exit_info2; f_rcx; f_rax; f_rdx]).
  assert (Forall (fun f => 0 <= ghcb_offset f / 8 < 128) fs) as Hfs by (repeat constructor; vm_compute; done).
  unfold write_msr_virt_sev, ghcb_vmgexit, on_page. cbn [page exits].
  change (SEV_GHCB_SET_VALID_BITMAP (SEV_GHCB_SET_VALID_BITMAP
    (SEV_GHCB_SET_VALID_BITMAP (initial_guest garbage) f_rcx) f_rax) f_rdx) with (marks fs garbage).
  match goal with |- context [set_valid_bitmap (marks fs garbage) ?b] => set (body := b) end.
  assert (page_ok body) as Hbody by (unfold body, set_base, set_format; auto 20 with monza).
  eexists. split; [|split]; [|by case_if_prop; case_if_prop|].
  { unfold set_valid_bitmap. auto with monza. }
  assert (get_format (set_valid_bitmap (marks fs garbage) body) = 0) as Hfmt.
  { unfold body. read_page. apply (format_of_word _ FORMAT_BASE). }
  assert (forall f, 0 <= ghcb_offset f / 8 < 128 ->
    host_sees_valid f (set_valid_bitmap (marks fs garbage) body) =
    bitmap_valid garbage (ghcb_offset f / 8) || existsb (fun f' => ghcb_offset f / 8 =? ghcb_offset f' / 8) fs) as Hsee.
  { intros f Hf. rewrite host_sees_bitmap by (rewrite ?marks_length; auto using marks_bytes). by apply marks_spec. }
  rewrite !get_base_bitmap by (done || (vm_compute; done)).
  split_and!; try done; try (unfold body; read_page; done).
  - unfold body. read_page. rewrite !(land_ones_mod _ 32), Z.shiftr_div_pow2 by lia. zlia.
  - intros f Hf. rewrite Hsee by (rewrite Forall_forall in Hfs; by apply Hfs).
    apply orb_true_iff. right. apply existsb_exists. exists f. split; [by apply list_elem_of_In|lia].
  - intros -> f Hf. rewrite Hsee by done. intros Ho.
    assert (bitmap_valid (replicate 16 0) (ghcb_offset f / 8) = false) as Hz.
    { unfold bitmap_valid. rewrite nth_lookup. destruct (replicate 16 0 !! _) eqn:E; [|apply Z.bits_0].
      apply lookup_replicate in E as [-> _]. apply Z.bits_0. }
    rewrite Hz in Ho. apply existsb_exists in Ho as (f' & Hf' & He%Z.eqb_eq).
    exists f'. split; [by apply list_elem_of_In|done].
Qed.

Lemma write_msr_virt_sev_request_witness :
  exists g, write_msr_virt_sev (fun _ g => set_base f_exit_info1 0 g) (replicate 16 0) 0x40000000 0x8000000000000000
      (mkGhcb (replicate 512 0) []) = Done (mkGhcb (set_base f_exit_info1 0 g) [g]) /\
    get_base f_rcx g = 0x40000000.
Proof.
  destruct (write_msr_virt_sev_request (fun _ g => set_base f_exit_info1 0 g) (replicate 16 0) 0x40000000
    0x8000000000000000 (mkGhcb (replicate 512 0) [])) as (g & Hg & He & _ & _ & _ & _ & Hr & _).
  - reflexivity.
  - reflexivity.
  - repeat constructor; lia.
  - unfold is_u64. lia.
  - exists g. split; [|exact Hr]. rewrite He. cbv zeta. cbn [page exits app].
    assert (get_base f_exit_info1 (set_base f_exit_info1 0 g) = 0) as ->; [|reflexivity].
    unfold get_base, set_base. rewrite get_set_q; [apply Z.eqb_refl || reflexivity|exact Hg|vm_compute; split; congruence..].
Defined.
