(* ===== verification/GuestRequest.v ===== *)
(** * Guest requests to the security processor (arch/x86_64/hv_sev_guest_request.cc)

    Messages to the firmware go through pages the host controls, protected by
    AES-GCM under a key shared with the firmware; the sequence number is the
    initialisation vector. OpenSSL and the firmware are parameters; what the firmware does with a message is stated
    on the bytes of the page, by the offsets of its interface, and not with the guest's own functions. *)

From S2P Require Import Prelude External Sev Ghcb.

(** ** Messages *)

(** The constants of the payload classes. *)
Record PayloadType : Type := mkPayload { TYPE : Z; VERSION : Z; SIZE : nat; REQUEST : bool }.

Definition ReportRequestPayload : PayloadType := mkPayload 5 1 0x60 true.
Definition ReportResponsePayload : PayloadType := mkPayload 6 1 0x4c0 false.
Definition TscRequestPayload : PayloadType := mkPayload 17 1 0x80 true.
Definition TscResponsePayload : PayloadType := mkPayload 18 1 0x80 false.

Definition slice (off len : nat) (l : list Z) : list Z := take len (drop off l).

Definition zeros (n : nat) : list Z := replicate n 0.

(** [raw()] of a report request: more than 0x40 bytes of user data abort. *)
Definition report_request_raw (user_data : list Z) : outcome (list Z) :=
  if Nat.ltb 0x40 (length user_data) then Kabort
  else Done (user_data ++ zeros (0x40 - length user_data) ++ le_bytes 4 0 ++ zeros 0x1c).

Definition tsc_request_raw : list Z := zeros 0x80.

(** [report_data()]: offset in the payload and length of the report. *)
Definition report_data (payload : list Z) : nat * Z := (0x20%nat, le_value (slice 4 4 payload)).

(** [TscResponsePayload::state()]: scale, offset and factor. *)
Definition tsc_state (payload : list Z) : Z * Z * Z :=
  (le_value (slice 8 8 payload), le_value (slice 16 8 payload), le_value (slice 24 4 payload)).

Definition GUEST_REQUEST_VMPCK : Z := 0.
Definition HEADER_SIZE : nat := 0x60.

(** [GuestRequestMessage]: the members in order, packed. *)
Definition message_raw (t : PayloadType) (auth_tag : list Z) (msg_seq_num : Z) (payload_array : list Z) : list Z :=
  auth_tag ++ le_bytes 8 msg_seq_num ++ le_bytes 8 0 ++ [1; 1] ++ le_bytes 2 (Z.of_nat HEADER_SIZE) ++
  [TYPE t; VERSION t] ++ le_bytes 2 (Z.of_nat (SIZE t)) ++ le_bytes 4 0 ++
  [GUEST_REQUEST_VMPCK; 0] ++ le_bytes 2 0 ++ zeros 0x20 ++ payload_array.

(** Views of a message. *)
Definition authentication_data (message : list Z) : list Z := slice 0x30 0x30 message.
Definition authentication_tag (message : list Z) : list Z := slice 0 0x20 message.
Definition message_payload (t : PayloadType) (message : list Z) : list Z := slice HEADER_SIZE (SIZE t) message.
Definition sequence_number (message : list Z) : Z := le_value (slice 0x20 8 message).

(** ** The cipher *)

(** AES-256-GCM of OpenSSL with the key of the secret page: [seal] gives cipher
    text and tag, [open_] the plain text; [None] is any failing call, a tag that
    does not match included. *)
Class Aead : Type := {
  iv_length : nat;
  seal : list Z -> list Z -> list Z -> option (list Z * list Z);
  open_ : list Z -> list Z -> list Z -> list Z -> option (list Z);
}.

Definition tag_length : nat := 16.

(** What is sealed opens to the same text; lengths are kept; the IV of AES-GCM has 96 bits. *)
Class AeadOk `{Aead} : Prop := {
  iv_length_ok : iv_length = 12%nat;
  seal_open : forall iv aad pt ct tag, seal iv aad pt = Some (ct, tag) -> open_ iv aad ct tag = Some pt;
  seal_length : forall iv aad pt ct tag, seal iv aad pt = Some (ct, tag) ->
    length ct = length pt /\ length tag = tag_length;
}.

(** The uses of the key: for every encryption and decryption what went into the cipher and what came out. *)
Inductive KeyUse : Type :=
| Sealed (iv aad plain cipher tag : list Z)
| Opened (iv aad cipher tag plain : list Z).

(** A use that the cipher has made. *)
Definition genuine `{Aead} (u : KeyUse) : Prop :=
  match u with
  | Sealed iv aad plain cipher tag => seal iv aad plain = Some (cipher, tag)
  | Opened iv aad cipher tag plain => open_ iv aad cipher tag = Some plain
  end.

Record RequestState : Type := mkRequest {
  msg_seq_num : Z;
  rq_ghcb : GhcbState;
  key_uses : list KeyUse;
}.

Section GuestRequest.
Context `{Aead}.

Definition iv_of (sequence_number : Z) : list Z :=
  le_bytes 8 sequence_number ++ zeros (iv_length - 8).

(** [encrypt] fills a destination of [dest_len] bytes and a tag of [tag_len]; the use of the key is given, too. *)
Definition encrypt (sequence_number : Z) (source : list Z) (dest_len : nat) (aad : list Z) (tag_len : nat)
  : outcome (list Z * list Z * KeyUse) :=
  if negb (Nat.eqb (length source) dest_len) || Nat.ltb tag_len tag_length then Kabort
  else
    let iv := iv_of sequence_number in
    match seal iv aad source with
    | Some (ct, tag) => Done (ct, tag, Sealed iv aad source ct tag)
    | None => Kabort
    end.

Definition decrypt (sequence_number : Z) (source : list Z) (dest_len : nat) (aad tag : list Z)
  : outcome (list Z * KeyUse) :=
  if negb (Nat.eqb (length source) dest_len) || Nat.ltb (length tag) tag_length then Kabort
  else
    let iv := iv_of sequence_number in
    match open_ iv aad source (take tag_length tag) with
    | Some pt => Done (pt, Opened iv aad source (take tag_length tag) pt)
    | None => Kabort
    end.

(** The host: what it turns the GHCB into, and the response page it presents for
    the request, from the history. *)
Context (host : list ghcb_page -> ghcb_page -> ghcb_page)
  (respond : list KeyUse -> list Z -> list Z)
  (garbage : SevGhcbValidBitmapData) (request_page response_page : Z).

Definition sev_typed_guest_request (Req Resp : PayloadType) (request_payload : list Z) (st : RequestState)
  : outcome (list Z * RequestState) :=
  let seq := msg_seq_num st in
  let blank := message_raw Req (zeros 0x20) seq (zeros (SIZE Req)) in
  let* r := encrypt seq request_payload (SIZE Req) (authentication_data blank) 0x20 in
  let '(ct, tag, use) := r in
  let request := message_raw Req (tag ++ zeros (0x20 - tag_length)) seq ct in
  let uses1 := key_uses st ++ [use] in
  let* g := sev_guest_request host garbage request_page response_page (rq_ghcb st) in
  let response := take (HEADER_SIZE + SIZE Resp) (respond uses1 request) in
  let response_seq_num := sequence_number response in
  if negb (response_seq_num =? u64 (seq + 1)) then Kabort
  else
    let* d := decrypt response_seq_num (message_payload Resp response) (SIZE Resp)
                (authentication_data response) (authentication_tag response) in
    let '(pt, use') := d in
    Done (pt, mkRequest (u64 (seq + 2)) g (uses1 ++ [use'])).

Definition generate_attestation_report_sev (user_data : list Z) (st : RequestState)
  : outcome (list Z * (nat * Z) * RequestState) :=
  let* request := report_request_raw user_data in
  let* r := sev_typed_guest_request ReportRequestPayload ReportResponsePayload request st in
  let '(pt, st') := r in Done (pt, report_data pt, st').

Definition get_current_tsc_state_sev (st : RequestState) : outcome (Z * Z * Z * RequestState) :=
  let* r := sev_typed_guest_request TscRequestPayload TscResponsePayload tsc_request_raw st in
  let '(pt, st') := r in Done (tsc_state pt, st').

(** The requests a guest makes one after the other: reports and TSC queries. *)
Inductive guest_call : Type := CallReport (user_data : list Z) | CallTsc.

Definition do_call (st : RequestState) (c : guest_call) : outcome RequestState :=
  match c with
  | CallReport user_data => let* r := generate_attestation_report_sev user_data st in Done (snd r)
  | CallTsc => let* r := get_current_tsc_state_sev st in Done (snd r)
  end.

End GuestRequest.

(** ** Message layout *)

Lemma slice_app_skip k off len a b :
  length a = k -> slice (k + off) len (a ++ b) = slice off len b.
Proof. intros <-. unfold slice. by rewrite drop_app_add. Qed.

Lemma slice_app_head len a b : length a = len -> slice 0 len (a ++ b) = a.
Proof. intros Hl. unfold slice. rewrite drop_0. by apply take_app_length'. Qed.

Section Layout.
Context (t : PayloadType) (tag payload : list Z) (seq : Z).
Context (Htag : length tag = 0x20%nat) (Hpay : length payload = SIZE t).

Lemma message_length : length (message_raw t tag seq payload) = (HEADER_SIZE + SIZE t)%nat.
Proof. unfold message_raw, zeros. rewrite !length_app, !le_bytes_length, !length_replicate, Htag, Hpay. cbn. lia. Qed.

Lemma message_tag : authentication_tag (message_raw t tag seq payload) = tag.
Proof. by apply slice_app_head. Qed.

Lemma message_seq : is_u64 seq -> sequence_number (message_raw t tag seq payload) = seq.
Proof.
  intros Hs. unfold sequence_number, message_raw. change 0x20%nat with (0x20 + 0)%nat at 1.
  rewrite slice_app_skip, slice_app_head by (done || apply le_bytes_length). by apply le_value_bytes.
Qed.

Lemma message_payload_eq : message_payload t (message_raw t tag seq payload) = payload.
Proof.
  unfold message_payload, message_raw, zeros. rewrite !app_assoc.
  change HEADER_SIZE with (HEADER_SIZE + 0)%nat. rewrite slice_app_skip.
  - unfold slice. rewrite drop_0. apply take_ge. lia.
  - rewrite !length_app, !le_bytes_length, !length_replicate, Htag. done.
Qed.

End Layout.

(** The authenticated part of a message does not depend on tag and payload. *)
Lemma message_aad t tag seq payload tag' payload' :
  length tag = 0x20%nat -> length tag' = 0x20%nat ->
  authentication_data (message_raw t tag seq payload) = authentication_data (message_raw t tag' seq payload').
Proof.
  intros H1 H2. unfold authentication_data, message_raw.
  change 0x30%nat with (0x20 + (8 + (8 + 0)))%nat at 1 3.
  rewrite !slice_app_skip by (done || apply le_bytes_length).
  unfold slice. rewrite !drop_0, !app_assoc. rewrite (take_app_le _ payload), (take_app_le _ payload'); [done|..];
    unfold zeros; rewrite !length_app, !le_bytes_length, !length_replicate; cbn; lia.
Qed.

(** ** Initialisation vectors *)

Definition use_iv (u : KeyUse) : list Z := match u with Sealed iv _ _ _ _ | Opened iv _ _ _ _ => iv end.

Section Fresh.
Context `{Aead, !AeadOk}.
Context (host : list ghcb_page -> ghcb_page -> ghcb_page)
  (respond : list KeyUse -> list Z -> list Z)
  (garbage : SevGhcbValidBitmapData) (request_page response_page : Z).

Lemma iv_of_inj a b : is_u64 a -> is_u64 b -> iv_of a = iv_of b -> a = b.
Proof.
  intros Ha Hb He. rewrite <- (le_value_bytes 8 a Ha), <- (le_value_bytes 8 b Hb). f_equal.
  apply (f_equal (take 8)) in He. unfold iv_of in He.
  by rewrite !take_app_length' in He by (by rewrite le_bytes_length).
Qed.

Lemma encrypt_use seq source dest_len aad tag_len ct tag use :
  encrypt seq source dest_len aad tag_len = Done (ct, tag, use) -> use_iv use = iv_of seq /\ genuine use.
Proof.
  unfold encrypt. destruct (_ || _); [done|]. destruct (seal _ _ _) as [[ct' tag']|] eqn:E; [|done].
  by intros [= <- <- <-].
Qed.

Lemma decrypt_use seq source dest_len aad tag pt use :
  decrypt seq source dest_len aad tag = Done (pt, use) -> use_iv use = iv_of seq /\ genuine use.
Proof.
  unfold decrypt. destruct (_ || _); [done|]. destruct (open_ _ _ _ _) as [pt'|] eqn:E; [|done]. by intros [= <- <-].
Qed.

(** What a completed request does to the sequence number and the key. *)
Definition request_used (st st' : RequestState) : Prop :=
  msg_seq_num st' = u64 (msg_seq_num st + 2) /\
  exists use use', key_uses st' = key_uses st ++ [use; use'] /\ genuine use /\ genuine use' /\
    use_iv use = iv_of (msg_seq_num st) /\ use_iv use' = iv_of (u64 (msg_seq_num st + 1)).

Lemma request_uses Req Resp raw st r :
  sev_typed_guest_request host respond garbage request_page response_page Req Resp raw st = Done r ->
  request_used st (snd r).
Proof.
  unfold sev_typed_guest_request. intros Hr. apply obind_done in Hr as ([[ct tag] use] & He & Hr).
  apply obind_done in Hr as (g & _ & Hr). destruct (negb (sequence_number _ =? _)) eqn:Hseq; [done|].
  apply negb_false_iff, Z.eqb_eq in Hseq.
  apply obind_done in Hr as ([pt use'] & Hd & [= <-]). cbn [snd]. unfold request_used. cbn [msg_seq_num key_uses].
  apply encrypt_use in He as [Hi Hg]. apply decrypt_use in Hd as [Hi' Hg']. split; [done|]. exists use, use'.
  rewrite <- app_assoc. split_and!; try done. rewrite Hi'. by f_equal.
Qed.

Lemma call_uses st c st' :
  do_call host respond garbage request_page response_page st c = Done st' -> request_used st st'.
Proof.
  destruct c as [ud|]; cbn [do_call]; intros Hd.
  - unfold generate_attestation_report_sev in Hd. inv_done. destruct a1. inv_done. by apply request_uses in E1.
  - unfold get_current_tsc_state_sev in Hd. inv_done. destruct a0. inv_done. by apply request_uses in E0.
Qed.

Lemma calls_uses calls : forall st st',
  0 <= msg_seq_num st -> msg_seq_num st + 2 * Z.of_nat (length calls) < 2 ^ 64 ->
  ofold (do_call host respond garbage request_page response_page) calls st = Done st' ->
  msg_seq_num st' = msg_seq_num st + 2 * Z.of_nat (length calls) /\
  exists new, key_uses st' = key_uses st ++ new /\ Forall genuine new /\
    map use_iv new = map (fun k => iv_of (msg_seq_num st + Z.of_nat k)) (seq 0 (2 * length calls)).
Proof.
  induction calls as [|c calls IH]; intros st st' Hlo Hb Hf; cbn [ofold length] in *.
  - injection Hf as <-. split; [lia|]. exists []. split; [by rewrite app_nil_r|]. by split.
  - apply obind_done in Hf as (st1 & Hc & Hf). apply call_uses in Hc as [Hs (use & use' & Hk & Hg & Hg' & Hi & Hi')].
    rewrite u64_small in Hs by (unfold is_u64; lia). rewrite u64_small in Hi' by (unfold is_u64; lia).
    destruct (IH st1 st' ltac:(lia) ltac:(lia) Hf) as (Hs' & new & Hn & Hgn & Hm). split; [lia|].
    eexists. rewrite Hn, Hk, <- app_assoc. split; [reflexivity|]. split; [by repeat constructor|].
    replace (2 * S (length calls))%nat with (S (S (2 * length calls))) by lia. cbn [app map seq].
    rewrite Hm, Hi, Hi', <- !seq_shift, !map_map. f_equal; [f_equal; lia|]. f_equal.
    apply map_ext. intros k. rewrite Hs. f_equal. lia.
Qed.

(** C12: Whatever the host answers, over any sequence of attestation and TSC
    requests that complete one after the other (two threads at once: [guest_request_iv_race]), no initialisation vector is ever used twice with the
    key, neither for two requests nor for a request and a response. The record of the uses is that of what the cipher was
    called with: for every encryption and decryption the vector, the authenticated data and the texts are those of
    the call of the cipher. The sequence number goes up by two with each request. *)
Theorem guest_requests_fresh_ivs calls st st' :
  0 <= msg_seq_num st -> msg_seq_num st + 2 * Z.of_nat (length calls) < 2 ^ 64 ->
  ofold (do_call host respond garbage request_page response_page) calls st = Done st' ->
  msg_seq_num st' = msg_seq_num st + 2 * Z.of_nat (length calls) /\
  exists new, key_uses st' = key_uses st ++ new /\ Forall genuine new /\
    length new = (2 * length calls)%nat /\ NoDup (map use_iv new).
Proof.
  intros Hlo Hb Hf. destruct (calls_uses calls st st' Hlo Hb Hf) as (Hs & new & Hn & Hg & Hm).
  split; [done|]. exists new. split; [done|]. split; [done|]. split.
  - apply (f_equal length) in Hm. by rewrite !length_map, length_seq in Hm.
  - rewrite Hm. apply NoDup_fmap_2_strong; [|apply NoDup_seq].
    intros x y Hx%elem_of_seq Hy%elem_of_seq He. apply iv_of_inj in He; unfold is_u64; lia.
Qed.

End Fresh.

(** ** Round trip *)

(** The firmware's interface for guest messages, by the offsets of its fields in the page: authentication tag at 0x00,
    sequence number at 0x20, algorithm (1 for AES-256-GCM) at 0x30, version and size of the header at 0x31 and 0x32, type, version and size of the
    message at 0x34, 0x35 and 0x36, number of the key at 0x3C, payload at 0x60. *)
Record abi_header (page : list Z) (seqno type version size : Z) : Prop := {
  ab_seqno : le_value (slice 0x20 8 page) = seqno;
  ab_algo : slice 0x30 1 page = [1];
  ab_hdr_version : slice 0x31 1 page = [1];
  ab_hdr_size : le_value (slice 0x32 2 page) = 0x60;
  ab_type : slice 0x34 1 page = [type];
  ab_version : slice 0x35 1 page = [version];
  ab_size : le_value (slice 0x36 2 page) = size;
  ab_vmpck : slice 0x3C 1 page = [0];
}.

(** Type, version and size of the messages for a report and for the clock, and the size of the answer. *)
Definition abi_requests : list (Z * Z * nat * nat) := [(5, 1, 0x60%nat, 0x4c0%nat); (17, 1, 0x80%nat, 0x80%nat)].

(** What the firmware makes of a page, and its answer to a payload of a type. *)
Class Firmware : Type := { fw_reply : list Z -> list Z; fw_answer : Z -> list Z -> list Z }.

(** A message of the interface, whose payload opens with the sequence number as 96-bit IV and the bytes from 0x30 up to the payload
    as authenticated data, is answered by a message of the next type and sequence number, sealed in the same way. *)
Class FirmwareOk `{Aead, Firmware} : Prop := fw_ok : forall page seqno type version n rn pt,
  (type, version, n, rn) ∈ abi_requests -> 0 <= seqno -> seqno + 1 < 2 ^ 64 -> (0x60 + n <= length page)%nat ->
  abi_header page seqno type version (Z.of_nat n) ->
  open_ (le_bytes 12 seqno) (slice 0x30 0x30 page) (slice 0x60 n page) (slice 0 16 page) = Some pt ->
  let reply := fw_reply page in
  (0x60 + rn <= length reply)%nat /\ length (fw_answer type pt) = rn /\
  abi_header reply (seqno + 1) (type + 1) version (Z.of_nat rn) /\
  seal (le_bytes 12 (seqno + 1)) (slice 0x30 0x30 reply) (fw_answer type pt) = Some (slice 0x60 rn reply, slice 0 16 reply).

Section RoundTrip.
Context `{Aead, !AeadOk, Firmware, !FirmwareOk}.
Context (host : list ghcb_page -> ghcb_page -> ghcb_page)
  (respond : list KeyUse -> list Z -> list Z)
  (garbage : SevGhcbValidBitmapData) (request_page response_page : Z).

Lemma tag_padded tag : length tag = tag_length -> length (tag ++ zeros (0x20 - tag_length)) = 0x20%nat.
Proof. intros Hl. unfold zeros. rewrite length_app, length_replicate, Hl. done. Qed.

Lemma le_bytes_app a b : forall v, le_bytes (a + b) v = le_bytes a v ++ le_bytes b (v / 2 ^ (8 * Z.of_nat a)).
Proof.
  induction a as [|a IH]; intros v; [by rewrite Z.div_1_r|]. cbn [Nat.add le_bytes app]. f_equal. rewrite IH. do 2 f_equal.
  rewrite Z.div_div by lia. f_equal. rewrite <- Z.pow_add_r by lia. f_equal. lia.
Qed.

Lemma iv_of_le seqno : is_u64 seqno -> iv_of seqno = le_bytes 12 seqno.
Proof.
  intros Hs. unfold iv_of. rewrite iv_length_ok. change 12%nat with (8 + 4)%nat at 2. rewrite le_bytes_app. f_equal.
  change (8 * Z.of_nat 8) with 64. unfold is_u64 in Hs. rewrite Z.div_small by lia. reflexivity.
Qed.

Lemma slice_take off len k (l : list Z) : (off + len <= k)%nat -> slice off len (take k l) = slice off len l.
Proof.
  intros Hk. unfold slice. rewrite !take_drop_commute, take_take. by rewrite Nat.min_l by lia.
Qed.

(** The guest's messages are messages of the interface. *)
Lemma message_abi Req n rn tag seqno ct :
  (TYPE Req, VERSION Req, n, rn) ∈ abi_requests -> SIZE Req = n -> length tag = 0x20%nat -> is_u64 seqno ->
  abi_header (message_raw Req tag seqno ct) seqno (TYPE Req) (VERSION Req) (Z.of_nat n).
Proof.
  intros Hin Hn Ht Hs. pose proof (message_seq Req tag ct seqno Ht Hs) as Hseq.
  assert (forall off len, slice (0x20 + off) len (message_raw Req tag seqno ct) =
    slice off len (drop 0x20 (message_raw Req tag seqno ct))) as Hskip.
  { intros off len. unfold slice. by rewrite drop_drop. }
  assert (0 <= Z.of_nat n < 2 ^ 16) as Hb.
  { unfold abi_requests in Hin. rewrite !elem_of_cons, elem_of_nil in Hin. destruct Hin as [[= _ _ -> _]|[[= _ _ -> _]|[]]]; lia. }
  assert (drop 0x20 (message_raw Req tag seqno ct) = le_bytes 8 seqno ++ zeros 8 ++ [1; 1; 0x60; 0; TYPE Req; VERSION Req] ++
    le_bytes 2 (Z.of_nat n) ++ zeros 4 ++ [0; 0; 0; 0] ++ zeros 0x20 ++ ct) as Hd.
  { unfold message_raw. rewrite drop_app_length' by done. by rewrite Hn. }
  split; [exact Hseq|..];
    match goal with |- context [slice ?o _ _] => let k := eval cbv in (o - 0x20)%nat in change o with (0x20 + k)%nat end;
    rewrite Hskip, Hd; try reflexivity.
  change (le_value (le_bytes 2 (Z.of_nat n)) = Z.of_nat n). apply le_value_bytes. exact Hb.
Qed.

(** One exchange with the firmware. *)
Lemma typed_roundtrip Req Resp n rn raw st :
  (TYPE Req, VERSION Req, n, rn) ∈ abi_requests -> SIZE Req = n -> SIZE Resp = rn ->
  (forall iv aad pt, seal iv aad pt <> None) ->
  (forall e g, u32 (get_base f_exit_info2 (host e g)) = 0) ->
  (forall uses request, respond uses request = fw_reply request) ->
  length raw = n -> 0 <= msg_seq_num st -> msg_seq_num st + 2 < 2 ^ 64 ->
  exists st', sev_typed_guest_request host respond garbage request_page response_page Req Resp raw st
      = Done (fw_answer (TYPE Req) raw, st') /\ msg_seq_num st' = msg_seq_num st + 2.
Proof.
  intros Hin Hn Hrn Hseal Hhost Hresp Hraw Hlo Hb. assert (is_u64 (msg_seq_num st)) as Hu by (unfold is_u64; lia).
  unfold sev_typed_guest_request, encrypt. rewrite Hraw, Hn, Nat.eqb_refl. cbn [negb orb].
  change (Nat.ltb 0x20 tag_length) with false. cbv iota.
  set (aad := authentication_data _).
  destruct (seal (iv_of (msg_seq_num st)) aad raw) as [[ct tag]|] eqn:Es; [|by apply Hseal in Es].
  destruct (seal_length _ _ _ _ _ Es) as [Hct Htag]. cbn [obind]. unfold sev_guest_request at 1. cbn zeta.
  unfold ghcb_vmgexit at 1. cbn [page]. rewrite Hhost, Z.eqb_refl. cbn [negb obind].
  set (request := message_raw Req (tag ++ _) _ ct). rewrite Hresp.
  pose proof (tag_padded tag Htag) as Htp.
  assert (length request = (0x60 + n)%nat) as Hlen by (unfold request; rewrite message_length; [by rewrite Hn|done|lia]).
  destruct (fw_ok request (msg_seq_num st) (TYPE Req) (VERSION Req) n rn raw Hin Hlo ltac:(lia) ltac:(lia))
    as (Hrl & Hal & Hah & Hrs).
  { by apply (message_abi Req n rn). }
  { rewrite <- iv_of_le by done.
    change (slice 0x30 0x30 request) with (authentication_data request).
    replace (authentication_data request) with aad by (apply message_aad; [done|exact Htp]).
    replace (slice 0x60 n request) with ct by (rewrite <- Hn; symmetry; apply message_payload_eq; [done|lia]).
    replace (slice 0 16 request) with tag; [by apply seal_open|].
    unfold request, message_raw. rewrite <- app_assoc. symmetry. by apply slice_app_head. }
  set (reply := fw_reply request) in *. clearbody reply. set (response := take _ reply).
  assert (forall off len, (off + len <= 0x60 + rn)%nat -> slice off len response = slice off len reply) as Hsl.
  { intros off len Ho. unfold response. rewrite Hrn. by apply slice_take. }
  assert (sequence_number response = msg_seq_num st + 1) as Hseq.
  { unfold sequence_number. rewrite Hsl by lia. apply Hah. }
  rewrite Hseq, (u64_small (msg_seq_num st + 1)), Z.eqb_refl by (unfold is_u64; lia). cbn [negb].
  unfold decrypt, message_payload, authentication_data, authentication_tag. rewrite Hrn, !Hsl by (unfold HEADER_SIZE; lia).
  destruct (seal_length _ _ _ _ _ Hrs) as [Hlc Hlt]. change HEADER_SIZE with 0x60%nat. rewrite Hlc, Hal, Nat.eqb_refl.
  assert (length (slice 0 0x20 reply) = 0x20%nat) as Hl32 by (unfold slice; rewrite length_take, length_drop; lia).
  rewrite Hl32. change (Nat.ltb 0x20 tag_length) with false. cbn [negb orb]. cbv zeta iota.
  replace (take tag_length (slice 0 0x20 reply)) with (slice 0 16 reply) by (unfold slice; by rewrite take_take).
  rewrite iv_of_le by (unfold is_u64; lia). rewrite (seal_open _ _ _ _ _ Hrs). cbn [obind].
  eexists. split; [reflexivity|]. cbn. apply u64_small. unfold is_u64. lia.
Qed.

(** C13: When the host passes the pages on unchanged, the guest's two requests are understood by the firmware and its
    answers by the guest. The firmware is any that follows its message interface, stated by byte offsets: it accepts
    a page only with the sequence number, algorithm, header version and size, message type, version and size, and key number at
    their places, opens the payload at 0x60 with the sequence number as 96-bit IV and the bytes from 0x30 on as
    authenticated data, and answers under the next number. Then a report is
    that of the user data, padded with zeros, as message of type 5, and the clock state that of an empty message of type 17; the
    sequence number has gone up by two. *)
Theorem guest_request_roundtrip st :
  (forall iv aad pt, seal iv aad pt <> None) ->
  (forall e g, u32 (get_base f_exit_info2 (host e g)) = 0) ->
  (forall uses request, respond uses request = fw_reply request) ->
  0 <= msg_seq_num st -> msg_seq_num st + 2 < 2 ^ 64 ->
  (forall user_data, (length user_data <= 0x40)%nat ->
     let report := fw_answer 5 (user_data ++ zeros (0x60 - length user_data)) in
     exists st', generate_attestation_report_sev host respond garbage request_page response_page user_data st =
         Done (report, report_data report, st') /\ msg_seq_num st' = msg_seq_num st + 2) /\
  exists st', get_current_tsc_state_sev host respond garbage request_page response_page st =
      Done (tsc_state (fw_answer 17 (zeros 0x80)), st') /\ msg_seq_num st' = msg_seq_num st + 2.
Proof.
  intros Hseal Hhost Hresp Hlo Hb. split.
  - intros ud Hud report. unfold generate_attestation_report_sev, report_request_raw.
    destruct (Nat.ltb_spec 0x40 (length ud)); [lia|]. cbn [obind].
    assert (ud ++ zeros (0x40 - length ud) ++ le_bytes 4 0 ++ zeros 0x1c = ud ++ zeros (0x60 - length ud)) as ->.
    { f_equal. unfold zeros. change (le_bytes 4 0) with (replicate 4 0). rewrite <- !replicate_add. f_equal. lia. }
    destruct (typed_roundtrip ReportRequestPayload ReportResponsePayload 0x60 0x4c0 (ud ++ zeros (0x60 - length ud)) st)
      as (st' & E & Hs); try done; [by left|unfold zeros; rewrite length_app, length_replicate; lia|].
    rewrite E. by exists st'.
  - unfold get_current_tsc_state_sev.
    destruct (typed_roundtrip TscRequestPayload TscResponsePayload 0x80 0x80 tsc_request_raw st) as (st' & E & Hs);
      try done; [by right; left|]. rewrite E. by exists st'.
Qed.

End RoundTrip.

(** ** A reference cipher *)

(** Not a cipher, but it meets the laws: the tag is the IV. *)
Definition ref_aead : Aead := {|
  iv_length := 12%nat;
  seal iv aad pt := Some (pt, take tag_length (iv ++ zeros tag_length));
  open_ iv aad ct tag := if decide (tag = take tag_length (iv ++ zeros tag_length)) then Some ct else None;
|}.

Lemma ref_aead_ok : @AeadOk ref_aead.
Proof.
  split; cbn -[tag_length].
  - reflexivity.
  - intros iv aad pt ct tag [= <- <-]. by rewrite decide_True.
  - intros iv aad pt ct tag [= <- <-]. split; [done|].
    rewrite length_take, length_app. unfold zeros. rewrite length_replicate. lia.
Qed.

Definition ok_host (e : list ghcb_page) (g : ghcb_page) : ghcb_page := set_base f_exit_info2 0 g.

Lemma ok_host_status e g : u32 (get_base f_exit_info2 (ok_host e g)) = 0.
Proof.
  unfold ok_host, get_base, set_base, get_q, set_q. rewrite nth_lookup.
  change (Z.to_nat (ghcb_offset f_exit_info2 / 8)) with 116%nat.
  destruct (decide (116 < length g)%nat).
  - rewrite list_lookup_insert_eq by done. done.
  - rewrite lookup_ge_None_2; [done|]. rewrite length_insert. lia.
Qed.

Definition example_request : RequestState := mkRequest 1 (mkGhcb (replicate 512 0) []) [].

(** A firmware that knows the two messages: it answers with the type in every byte of the payload. It reads and writes
    the page byte by byte. *)
Definition ref_message (tag : list Z) (seqno type : Z) (payload : list Z) : list Z :=
  tag ++ zeros 16 ++ le_bytes 8 seqno ++ zeros 8 ++ [1; 1; 0x60; 0; type; 1] ++ le_bytes 2 (Z.of_nat (length payload)) ++ zeros 4 ++
  [0; 0; 0; 0] ++ zeros 32 ++ payload.

#[local] Existing Instance ref_aead.

Definition ref_answer (type : Z) (pt : list Z) : list Z := replicate (if type =? 5 then 0x4c0%nat else 0x80%nat) type.

Definition ref_reply (page : list Z) : list Z :=
  let seqno := le_value (slice 0x20 8 page) + 1 in
  let type := nth 0x34 page 0 in
  let payload := ref_answer type (slice 0x60 (Z.to_nat (le_value (slice 0x36 2 page))) page) in
  ref_message (take tag_length (le_bytes 12 seqno ++ zeros tag_length)) seqno (type + 1) payload.

Definition ref_firmware : Firmware := {| fw_reply := ref_reply; fw_answer := ref_answer |}.

Lemma nth_slice (l : list Z) i v : slice i 1 l = [v] -> nth i l 0 = v.
Proof.
  unfold slice. intros E. rewrite nth_lookup. rewrite <- (Nat.add_0_r i), <- lookup_drop.
  destruct (drop i l) as [|w d]; [discriminate E|]. by injection E as ->.
Qed.

Lemma ref_firmware_ok : @FirmwareOk ref_aead ref_firmware.
Proof.
  intros page seqno type version n rn pt Hin Hlo Hhi Hlen [Hs _ _ _ Ht Hv Hz _] Hopen reply.
  assert (nth 0x34 page 0 = type) as Hty by by apply nth_slice.
  assert (reply = ref_message (take tag_length (le_bytes 12 (seqno + 1) ++ zeros tag_length)) (seqno + 1) (type + 1) (ref_answer type pt)) as ->.
  { unfold reply. cbn [fw_reply ref_firmware]. unfold ref_reply. by rewrite Hs, Hty. }
  assert (length (ref_answer type pt) = rn /\ 0 <= Z.of_nat rn < 2 ^ 16 /\ version = 1) as (Hr & Hb & ->).
  { unfold abi_requests in Hin. rewrite !elem_of_cons, elem_of_nil in Hin. unfold ref_answer. rewrite length_replicate.
    destruct Hin as [[= -> -> _ ->]|[[= -> -> _ ->]|[]]]; split_and!; reflexivity || lia. }
  cbn [fw_answer ref_firmware]. set (payload := ref_answer type pt) in *. clearbody payload.
  set (tag := take tag_length _). assert (length tag = 16%nat) as Htag by (unfold tag; rewrite length_take, length_app, le_bytes_length; reflexivity).
  assert (slice 0x60 rn (ref_message tag (seqno + 1) (type + 1) payload) = payload) as Hp.
  { unfold ref_message, zeros. rewrite !app_assoc. change 0x60%nat with (0x60 + 0)%nat. rewrite slice_app_skip.
    - unfold slice. rewrite drop_0. apply take_ge. lia.
    - rewrite !length_app, !le_bytes_length, !length_replicate, Htag. reflexivity. }
  assert (slice 0 16 (ref_message tag (seqno + 1) (type + 1) payload) = tag) as Hg by by apply slice_app_head.
  split_and!; [|exact Hr| |by rewrite Hp, Hg].
  - unfold ref_message, zeros. rewrite !length_app, !le_bytes_length, !length_replicate, Htag, Hr. cbn. lia.
  - assert (forall off len, slice (16 + off) len (ref_message tag (seqno + 1) (type + 1) payload) =
      slice off len (drop 16 (ref_message tag (seqno + 1) (type + 1) payload))) as Hskip by (intros; unfold slice; by rewrite drop_drop).
    assert (drop 16 (ref_message tag (seqno + 1) (type + 1) payload) = zeros 16 ++ le_bytes 8 (seqno + 1) ++ zeros 8 ++ [1; 1; 0x60; 0; type + 1; 1] ++
      le_bytes 2 (Z.of_nat rn) ++ zeros 4 ++ [0; 0; 0; 0] ++ zeros 32 ++ payload) as Hd
      by (unfold ref_message; rewrite drop_app_length' by done; by rewrite Hr).
    split; match goal with |- context [slice ?o _ _] => let k := eval cbv in (o - 16)%nat in change o with (16 + k)%nat end;
      rewrite Hskip, Hd; try reflexivity.
    + change (le_value (le_bytes 8 (seqno + 1)) = seqno + 1). apply le_value_bytes. change (8 * Z.of_nat 8) with 64. lia.
    + change (le_value (le_bytes 2 (Z.of_nat rn)) = Z.of_nat rn). apply le_value_bytes. exact Hb.
Qed.

Definition pass_on (uses : list KeyUse) (request : list Z) : list Z := ref_reply request.

Lemma guest_request_roundtrip_witness :
  (exists st', generate_attestation_report_sev ok_host pass_on (replicate 16 0) 0x1000 0x2000 [1; 2; 3] example_request =
     Done (replicate 0x4c0 5, (0x20%nat, 0x05050505), st')) /\
  exists st', get_current_tsc_state_sev ok_host pass_on (replicate 16 0) 0x1000 0x2000 example_request =
      Done (tsc_state (replicate 0x80 17), st') /\ msg_seq_num st' = 1 + 2.
Proof.
  destruct (@guest_request_roundtrip ref_aead ref_aead_ok ref_firmware ref_firmware_ok ok_host pass_on (replicate 16 0) 0x1000 0x2000
    example_request) as [Hr Ht]; [discriminate|apply ok_host_status|reflexivity|cbn; lia|cbn; lia|].
  split; [|exact Ht]. destruct (Hr [1; 2; 3]) as (st' & E & _); [cbn; lia|]. exists st'. exact E.
Defined.

Lemma guest_requests_fresh_ivs_witness :
  exists st', ofold (@do_call ref_aead ok_host pass_on (replicate 16 0) 0x1000 0x2000) [CallTsc; CallTsc]
      example_request = Done st' /\ msg_seq_num st' = 5.
Proof.
  run_done (ofold (@do_call ref_aead ok_host pass_on (replicate 16 0) 0x1000 0x2000) [CallTsc; CallTsc]
      example_request) E.
  exists a. split; [reflexivity|].
  apply (@guest_requests_fresh_ivs ref_aead ok_host pass_on (replicate 16 0) 0x1000 0x2000
    [CallTsc; CallTsc] example_request a); [cbn; lia|cbn; lia|exact E].
Defined.

(** ** Two threads *)

(** The crypto object is shared: both [encrypt] and [decrypt] first write the
    sequence number into its IV buffer and then initialise the cipher from the
    buffer, and [decrypt] runs after the request lock was released. Where a thread
    is in [sev_typed_guest_request]: *)
Inductive request_pc : Type :=
| AtLock
| AtEncryptIv (seq : Z)
| AtEncryptInit (seq : Z)
| AtExchange (seq : Z)
| AtDecryptIv (response_seq : Z)
| AtDecryptInit (response_seq : Z)
| AtEnd.

Record Shared : Type := mkShared {
  iv_buffer : Z;
  shared_seq : Z;
  request_lock : bool;
  cipher_log : list (bool * Z * Z);  (** encryption?, the sequence number meant, the one used *)
}.

(** One step of a thread. *)
Inductive request_step : request_pc * Shared -> request_pc * Shared -> Prop :=
| rs_lock iv seq log :
    request_step (AtLock, mkShared iv seq false log) (AtEncryptIv seq, mkShared iv seq true log)
| rs_encrypt_iv s iv seq l log :
    request_step (AtEncryptIv s, mkShared iv seq l log) (AtEncryptInit s, mkShared s seq l log)
| rs_encrypt_init s iv seq l log :
    request_step (AtEncryptInit s, mkShared iv seq l log)
                 (AtExchange s, mkShared iv seq l (log ++ [(true, s, iv)]))
| rs_exchange s iv seq l log :
    request_step (AtExchange s, mkShared iv seq l log)
                 (AtDecryptIv (s + 1), mkShared iv (u64 (seq + 2)) false log)
| rs_decrypt_iv r iv seq l log :
    request_step (AtDecryptIv r, mkShared iv seq l log) (AtDecryptInit r, mkShared r seq l log)
| rs_decrypt_init r iv seq l log :
    request_step (AtDecryptInit r, mkShared iv seq l log)
                 (AtEnd, mkShared iv seq l (log ++ [(false, r, iv)])).

(** Two threads interleaved. *)
Inductive two_steps : request_pc * request_pc * Shared -> request_pc * request_pc * Shared -> Prop :=
| ts_refl x : two_steps x x
| ts_left a b s a' s' y : request_step (a, s) (a', s') -> two_steps (a', b, s') y -> two_steps (a, b, s) y
| ts_right a b s b' s' y : request_step (b, s) (b', s') -> two_steps (a, b', s') y -> two_steps (a, b, s) y.

(** C36: Because [decrypt] uses the shared cipher object after the request lock was
    released, two threads can reach a state in which the second request (sequence
    number 3) is encrypted with the IV of the first response (2), which the
    firmware has already used with the same key. *)
Theorem guest_request_iv_race :
  exists a b s, two_steps (AtLock, AtLock, mkShared 0 1 false []) (a, b, s) /\
    (true, 3, 2) ∈ cipher_log s.
Proof.
  do 3 eexists. split.
  - eapply ts_left; [apply rs_lock|]. eapply ts_left; [apply rs_encrypt_iv|].
    eapply ts_left; [apply rs_encrypt_init|]. eapply ts_left; [apply rs_exchange|].
    eapply ts_right; [apply rs_lock|]. eapply ts_right; [apply rs_encrypt_iv|].
    eapply ts_left; [apply rs_decrypt_iv|]. eapply ts_right; [apply rs_encrypt_init|]. apply ts_refl.
  - cbn. right. left.
Qed.
