(* ===== verification/SevSetup.v ===== *)
(** * Shared pages of the SEV platform (arch/x86_64/hv_sev.cc, hv_sev_guest_request.cc)

    Each core takes a page of host-visible memory for its communication block, the core that
    boots takes two more for guest requests. The host may change all shared pages at every
    exit. At the end, the initialisation of the cipher for guest requests. *)

From S2P Require Import Prelude External Address Heap Sev SevHeap SevVisible Ghcb GuestRequest.

Definition SEV_VERSION_CURRENT : Z := 2.

(** The pages the platform keeps: [hypervisor_input_page] of a core, [request_page] and
    [response_page]. *)
Inductive slot : Type := InputPage (core : nat) | RequestPage | ResponsePage.

#[export] Instance slot_eq_dec : EqDecision slot.
Proof. solve_decision. Defined.

Record SevPlatform : Type := mkPlatform {
  pf_trace : list SevEvent;
  pf_visible : VisibleState;
  pf_msr : nat -> Z;                   (** the GHCB MSR of each core *)
  pf_mem : Z -> ghcb_page;             (** the shared pages by address *)
  pf_exits : list ghcb_page;           (** communication blocks the host was shown *)
  pf_slot : slot -> Z;                 (** 0 is the null pointer *)
}.

Definition set_mem (a : Z) (g : ghcb_page) (mem : Z -> ghcb_page) : Z -> ghcb_page :=
  fun b => if b =? a then g else mem b.

Definition set_slot (k : slot) (a : Z) (p : SevPlatform) : SevPlatform :=
  mkPlatform (pf_trace p) (pf_visible p) (pf_msr p) (pf_mem p) (pf_exits p)
    (fun k' => if decide (k' = k) then a else pf_slot p k').

Definition write_page (a : Z) (g : ghcb_page) (p : SevPlatform) : SevPlatform :=
  mkPlatform (pf_trace p) (pf_visible p) (pf_msr p) (set_mem a g (pf_mem p)) (pf_exits p) (pf_slot p).

Section Setup.
Context `{SnmallocBits} (cfg : page_config) (above : span).
(** The host: its answers through the MSR, what it turns the shared pages into, what
    it turns the block into that it is shown. *)
Context (host : list SevEvent -> Z -> Z) (host_mem : list SevEvent -> (Z -> ghcb_page) -> Z -> ghcb_page)
  (host_ghcb : list ghcb_page -> ghcb_page -> ghcb_page) (garbage : SevGhcbValidBitmapData).

Definition core_sev (core : nat) (p : SevPlatform) : SevState := mkSev (pf_msr p core) (pf_trace p).

(** What exits of a core leave. *)
Definition after_exits (core : nat) (v : VisibleState) (s : SevState) (p : SevPlatform) : SevPlatform :=
  mkPlatform (trace s) v (fun i => if decide (i = core) then ghcb_msr s else pf_msr p i)
    (host_mem (trace s) (pf_mem p)) (pf_exits p) (pf_slot p).

Definition allocate_visible_page (core : nat) (p : SevPlatform) : outcome (Z * SevPlatform) :=
  let* r := allocate_visible_sev_vtom cfg host above HV_PAGE_SIZE (pf_visible p) (core_sev core p) in
  let '(a, v, s) := r in Done (a, after_exits core v s p).

(** [setup_ghcb] with the writes to the page. *)
Definition setup_ghcb_page (core : nat) (p : SevPlatform) : outcome (Z * SevPlatform) :=
  let* r := allocate_visible_page core p in
  let '(ghcb, p1) := r in
  let p2 := write_page ghcb (replicate 512 0) p1 in
  let* s := setup_ghcb host ghcb (core_sev core p2) in
  let p3 := after_exits core (pf_visible p2) s p2 in
  Done (ghcb, write_page ghcb (set_version SEV_VERSION_CURRENT (pf_mem p3 ghcb)) p3).

(** [ap_init_sev] on a core. *)
Definition ap_init_sev_core (core : nat) (p : SevPlatform) : outcome SevPlatform :=
  let* r := setup_ghcb_page core p in
  let '(ghcb, p1) := r in Done (set_slot (InputPage core) ghcb p1).

Definition setup_sev_guest_request (core : nat) (p : SevPlatform) : outcome SevPlatform :=
  let* r := allocate_visible_page core p in
  let '(request, p1) := r in
  let p2 := set_slot RequestPage request p1 in
  let* r2 := allocate_visible_page core p2 in
  let '(response, p3) := r2 in Done (set_slot ResponsePage response p3).

(** The shared range it sets is [Boot.stage2_shared]. *)
Definition setup_hypervisor_stage2_sev (core : nat) (p : SevPlatform) : outcome SevPlatform :=
  let ghcb := pf_slot p (InputPage core) in
  let* g := write_msr_virt_sev host_ghcb garbage HV_X64_MSR_GUEST_OS_ID
      (Z.lor (Z.lor (u64 (Z.shiftl MONZA_ID 48)) (u64 (Z.shiftl KERNEL_VERSION 16))) BUILD_ID)
      (mkGhcb (pf_mem p ghcb) (pf_exits p)) in
  let p1 := mkPlatform (pf_trace p) (pf_visible p) (pf_msr p) (set_mem ghcb (page g) (pf_mem p)) (exits g) (pf_slot p) in
  setup_sev_guest_request core p1.

(** Cores start once each; a core that has started does the second stage, once. *)
Inductive platform_step (p : SevPlatform) : SevPlatform -> Prop :=
| start_core core p' :
    pf_slot p (InputPage core) = 0 -> ap_init_sev_core core p = Done p' -> platform_step p p'
| start_requests core p' :
    pf_slot p (InputPage core) <> 0 -> pf_slot p RequestPage = 0 -> pf_slot p ResponsePage = 0 ->
    setup_hypervisor_stage2_sev core p = Done p' -> platform_step p p'.

Inductive platform_reach (p0 : SevPlatform) : SevPlatform -> Prop :=
| platform_start : platform_reach p0 p0
| platform_more p p' : platform_reach p0 p -> platform_step p p' -> platform_reach p0 p'.

(** When the boot has set up the heap: nothing is shared yet. *)
Definition platform_init (p : SevPlatform) : Prop :=
  pf_visible p = visible_initial /\ forall k, pf_slot p k = 0.

(** ** Invariant *)

Definition NORMAL_MSR (ghcb : Z) : Z := SimpleRequest_raw SEV_GHCB_INFO_NORMAL (ghcb / HV_PAGE_SIZE).

Definition placed (p : SevPlatform) (a : Z) : Prop :=
  span_data above <= a /\ a + HV_PAGE_SIZE <= next_block above (pf_visible p) /\ (HV_PAGE_SIZE | a).

Definition apart (a b : Z) : Prop := a + HV_PAGE_SIZE <= b \/ b + HV_PAGE_SIZE <= a.

Record platform_ok (p : SevPlatform) : Prop := {
  pk_visible : forall msr, visible_inv cfg above (pf_visible p) (mkSev msr (pf_trace p));
  pk_placed : forall k, pf_slot p k <> 0 -> placed p (pf_slot p k);
  pk_apart : forall k k', k <> k' -> pf_slot p k <> 0 -> pf_slot p k' <> 0 -> apart (pf_slot p k) (pf_slot p k');
  pk_msr : forall core, pf_slot p (InputPage core) <> 0 ->
    pf_msr p core = NORMAL_MSR (pf_slot p (InputPage core));
}.

End Setup.

Lemma visible_inv_trace cfg above v s s' t :
  trace s' = trace s ++ t -> visible_inv cfg above v s -> visible_inv cfg above v s'.
Proof.
  intros Ht [Ho Hoa Hav Hsh]. split; try done. intros f Hf. rewrite Ht. by apply frame_shared_app, Hsh.
Qed.

Lemma next_block_end cfg above v s :
  pool_ok cfg above -> visible_inv cfg above v s ->
  span_data above <= next_block above v <= span_data above + remaining_vtom_offset v /\ (HV_PAGE_SIZE | next_block above v).
Proof.
  intros [Hp Ha _ _] [Ho _ Hav _]. unfold next_block.
  destruct Hav as [[Hz ->]|(Hz & Hd & Hs & Hsum & Hdiv)]; cbn.
  - split; [lia|]. etransitivity; [apply rmp_divides_page|exact Ha].
  - case_if_prop; [lia|]. split; [lia|done].
Qed.

Section Preserved.
Context `{SnmallocBits, !SnmallocBitsOk} (cfg : page_config) (above : span) (Hpool : pool_ok cfg above).
Context (host : list SevEvent -> Z -> Z) (host_mem : list SevEvent -> (Z -> ghcb_page) -> Z -> ghcb_page)
  (host_ghcb : list ghcb_page -> ghcb_page -> ghcb_page) (garbage : SevGhcbValidBitmapData).

Notation "'ok'" := (platform_ok cfg above).

(** An allocation gives a page behind all others and leaves the rest. *)
Lemma allocate_page_ok core p a p' :
  ok p -> allocate_visible_page cfg above host host_mem core p = Done (a, p') ->
  ok p' /\ pf_slot p' = pf_slot p /\ a <> 0 /\ placed above p' a /\
  (forall k, pf_slot p k <> 0 -> apart (pf_slot p k) a).
Proof.
  intros [Hv Hp Ha Hm] Hr. unfold allocate_visible_page in Hr. apply obind_done in Hr as ([[b v] s] & Hr & E).
  injection E as -> <-. pose proof Hpool as [Hpos _ _ _].
  destruct (allocate_block cfg host above Hpool HV_PAGE_SIZE (pf_visible p) (core_sev core p) a v s)
    as (Hi & Hmsr & Hret & Hnext & Hge & Hlo & Hhi); [unfold HV_PAGE_SIZE; lia..|apply Hv|done|].
  destruct (align_up_spec HV_PAGE_SIZE HV_PAGE_SIZE) as [Hd Hal]; [by exists 12|unfold HV_PAGE_SIZE; lia..|].
  assert (align_up HV_PAGE_SIZE HV_PAGE_SIZE = HV_PAGE_SIZE) as Heq.
  { destruct Hd as [q Hq]. unfold HV_PAGE_SIZE in *. lia. }
  rewrite Heq in *. destruct (next_block_end cfg above _ _ Hpool (Hv 0)) as [Hb Hdiv]. rewrite <- Hret in Hb, Hdiv.
  split_and!; try done; try lia.
  - split; cbn [after_exits pf_visible pf_slot pf_msr pf_trace].
    + intros msr. eapply (visible_inv_trace _ _ _ s); [symmetry; apply app_nil_r|done].
    + intros k Hk. destruct (Hp k Hk) as (H1 & H2 & H3). split_and!; try done. cbn. rewrite Hnext, <- Hret in *. unfold HV_PAGE_SIZE in *. lia.
    + done.
    + intros i Hk. case_decide as Hc; [subst i; rewrite Hmsr|]; by apply Hm.
  - split_and!; try done; try lia. cbn. rewrite Hnext. lia.
  - intros k Hk. destruct (Hp k Hk) as (H1 & H2 & H3). left. rewrite Hret. done.
Qed.

Lemma set_slot_ok k a p :
  ok p -> pf_slot p k = 0 -> placed above p a -> (forall k', pf_slot p k' <> 0 -> apart (pf_slot p k') a) ->
  (forall core, k = InputPage core -> pf_msr p core = NORMAL_MSR a) -> ok (set_slot k a p).
Proof.
  intros [Hv Hp Ha Hm] Hk Hpl Hap Hmsr. split; cbn [set_slot pf_visible pf_slot pf_msr pf_trace].
  - done.
  - intros k' Hk'. case_decide; [done|]. by apply Hp.
  - intros k1 k2 Hne H1 H2. destruct (decide (k1 = k)) as [->|], (decide (k2 = k)) as [->|];
      [by destruct Hne| |by apply Hap|by apply Ha]. destruct (Hap k2 H2); [by right|by left].
  - intros core Hc. case_decide as Hd; [subst k; by apply Hmsr|by apply Hm].
Qed.

Lemma write_page_ok a g p : ok p -> ok (write_page a g p).
Proof. by intros [Hv Hp Ha Hm]. Qed.

Lemma ap_init_ok core p p' :
  ok p -> pf_slot p (InputPage core) = 0 -> ap_init_sev_core cfg above host host_mem core p = Done p' -> ok p'.
Proof.
  intros Hok Hz Hr. unfold ap_init_sev_core in Hr. apply obind_done in Hr as ([ghcb p4] & Hr & E). injection E as <-.
  unfold setup_ghcb_page in Hr. apply obind_done in Hr as ([a p1] & Ha & Hr).
  apply obind_done in Hr as (s & Hs & E). injection E as -> <-.
  destruct (allocate_page_ok core p ghcb p1 Hok Ha) as (Hok1 & Hsl & Hnz & Hpl & Hap).
  unfold setup_ghcb in Hs. destruct (negb _); [done|]. injection Hs as <-.
  set (p2 := write_page ghcb (replicate 512 0) p1). set (s := write_ghcb_msr _ _).
  assert (ok (after_exits host_mem core (pf_visible p2) s p2)) as Hok3.
  { destruct Hok1 as [Hv Hp Haa Hm]. split; cbn [after_exits pf_visible pf_slot pf_msr pf_trace write_page p2].
    - intros msr. eapply (visible_inv_trace _ _ _ (mkSev msr (pf_trace p1))); [reflexivity|apply Hv].
    - done.
    - done.
    - intros i Hi. case_decide as Hc; [|by apply Hm]. subst i. rewrite Hsl in Hi. done. }
  apply set_slot_ok; try done.
  - by apply write_page_ok.
  - cbn. by rewrite Hsl.
  - cbn. rewrite Hsl. exact Hap.
  - intros i [= <-]. cbn. by case_decide.
Qed.

Lemma guest_request_ok core p p' :
  ok p -> pf_slot p RequestPage = 0 -> pf_slot p ResponsePage = 0 ->
  setup_sev_guest_request cfg above host host_mem core p = Done p' -> ok p'.
Proof.
  intros Hok Hz1 Hz2 Hr. unfold setup_sev_guest_request in Hr. apply obind_done in Hr as ([a p1] & Ha & Hr).
  apply obind_done in Hr as ([b p3] & Hb & E). injection E as <-.
  destruct (allocate_page_ok core p a p1 Hok Ha) as (Hok1 & Hsl & _ & Hpl & Hap).
  assert (ok (set_slot RequestPage a p1)) as Hok2.
  { apply set_slot_ok; try done; [by rewrite Hsl|by rewrite Hsl]. }
  destruct (allocate_page_ok core _ b p3 Hok2 Hb) as (Hok3 & Hsl3 & _ & Hpl3 & Hap3).
  apply set_slot_ok; try done; rewrite Hsl3; [|done]. cbn. by rewrite Hsl.
Qed.

Lemma platform_reach_ok p0 p :
  platform_init p0 -> platform_reach cfg above host host_mem host_ghcb garbage p0 p -> ok p.
Proof.
  intros [Hv Hs] Hr. induction Hr as [|p p' _ IH Hstep].
  - split.
    + intros msr. rewrite Hv. by apply visible_inv_initial.
    + intros k Hk. by rewrite Hs in Hk.
    + intros k k' _ Hk. by rewrite Hs in Hk.
    + intros core Hk. by rewrite Hs in Hk.
  - destruct Hstep as [core p' Hz Ha|core p' Hnz Hz1 Hz2 Ha]; [by eapply ap_init_ok|].
    unfold setup_hypervisor_stage2_sev in Ha. apply obind_done in Ha as (g & _ & Ha).
    eapply (guest_request_ok core); [| | |exact Ha]; [by destruct IH|done|done].
Qed.

End Preserved.

(** C14: The pages shared with the host are never mixed up. However cores start and
    whichever of them prepares the guest requests, against any host: the communication
    blocks of the cores and the two pages for guest requests are pairwise disjoint pages of the memory
    above the virtual top of memory, each set to shared with the host's acknowledgement,
    and the GHCB MSR of every core that has started names that core's own block. *)
Theorem shared_pages_disjoint `{SnmallocBits, !SnmallocBitsOk} cfg above host host_mem host_ghcb garbage p0 p :
  pool_ok cfg above -> platform_init p0 ->
  platform_reach cfg above host host_mem host_ghcb garbage p0 p ->
  (forall k, pf_slot p k <> 0 ->
     span_data above <= pf_slot p k /\ pf_slot p k + HV_PAGE_SIZE <= span_data above + span_size above /\
     (HV_PAGE_SIZE | pf_slot p k) /\ frame_shared (pf_trace p) (pf_slot p k / HV_PAGE_SIZE)) /\
  (forall k k', k <> k' -> pf_slot p k <> 0 -> pf_slot p k' <> 0 -> apart (pf_slot p k) (pf_slot p k')) /\
  (forall core, pf_slot p (InputPage core) <> 0 -> pf_msr p core = NORMAL_MSR (pf_slot p (InputPage core))).
Proof.
  intros Hpool Hi Hr. destruct (platform_reach_ok cfg above Hpool host host_mem host_ghcb garbage p0 p Hi Hr) as [Hv Hp Ha Hm].
  split_and!; [|done|done]. intros k Hk. destruct (Hp k Hk) as (H1 & H2 & H3).
  destruct (next_block_end cfg above _ _ Hpool (Hv 0)) as [Hb _]. pose proof (Hv 0) as [Ho _ _ Hsh].
  split_and!; try done; [lia|]. apply (Hsh (pf_slot p k / HV_PAGE_SIZE)).
  destruct H3 as [q Hq]. rewrite Hq in *. unfold HV_PAGE_SIZE in *. rewrite Z.div_mul by lia. lia.
Qed.

(** The version survives what the host does to the page while it is registered. *)
Lemma ghcb_version_set g : page_ok g ->
  Z.shiftr (get_q SUFFIX (set_version SEV_VERSION_CURRENT g)) 16 mod 2 ^ 16 = SEV_VERSION_CURRENT.
Proof.
  intros Hg. unfold set_version. rewrite get_set_q by (done || (unfold SUFFIX; lia)). rewrite Z.eqb_refl.
  set (s := get_q SUFFIX g). pose proof (Z.mod_pos_bound s (2 ^ 16) ltac:(lia)) as Hs.
  rewrite Z.lor_assoc, (lor_shiftl_add (s mod 2 ^ 16) SEV_VERSION_CURRENT 16) by (unfold SEV_VERSION_CURRENT; lia).
  apply Z.bits_inj'. intros i Hi. destruct (Z.lt_ge_cases i 16) as [Hlt|Hge].
  - rewrite Z.mod_pow2_bits_low, Z.shiftr_spec, Z.lor_spec, Z.shiftl_spec_low by lia.
    rewrite orb_false_r. replace (s mod 2 ^ 16 + SEV_VERSION_CURRENT * 2 ^ 16) with (SEV_VERSION_CURRENT * 2 ^ 16 + s mod 2 ^ 16) by lia.
    rewrite <- Z.shiftr_spec, Z.shiftr_div_pow2, Z.div_add_l, (Z.div_small (s mod 2 ^ 16)), Z.add_0_r by lia. done.
  - rewrite Z.mod_pow2_bits_high by lia. symmetry. apply Z.bits_above_log2; unfold SEV_VERSION_CURRENT; cbn; lia.
Qed.

(** ** The cipher object of guest requests *)

(** The calls of OpenSSL that [GuestRequestCrypto::init] makes; [None] is failure. *)
Class OpenSslInit : Type := {
  EVP_CIPHER_CTX_new : option Z;
  EVP_CIPHER_fetch : option Z;
  EVP_CIPHER_iv_length : Z -> option Z;
}.

Record GuestRequestCrypto : Type := mkCrypto {
  cr_ctx : Z;
  cr_cipher : Z;
  cr_iv : list Z;
  cr_tag_length : nat;
}.

(** [uninit] is the content of new memory. *)
Definition crypto_init `{OpenSslInit} (uninit : nat -> list Z) : outcome GuestRequestCrypto :=
  match EVP_CIPHER_CTX_new with
  | None => Kabort
  | Some ctx =>
      match EVP_CIPHER_fetch with
      | None => Kabort
      | Some cipher =>
          match EVP_CIPHER_iv_length cipher with
          | None => Kabort
          | Some n => if n <? 8 then Kabort else Done (mkCrypto ctx cipher (uninit (Z.to_nat n)) 16)
          end
      end
  end.

(** How [encrypt] and [decrypt] fill the initialisation vector: clear it, then copy the number over
    its start. A copy past the end of the array is undefined. *)
Definition fill_iv (c : GuestRequestCrypto) (sequence_number : Z) : option (list Z) :=
  if Nat.ltb (length (cr_iv c)) 8 then None
  else Some (le_bytes 8 sequence_number ++ drop 8 (replicate (length (cr_iv c)) 0)).

(** Against any OpenSSL the initialisation stops the machine or leaves an object for which
    the vector of every message is written inside its array, and is the one
    that the theorems on guest requests are about. *)
Lemma crypto_init_iv `{OpenSslInit, Aead} uninit c seq :
  (forall n, length (uninit n) = n) -> crypto_init uninit = Done c -> iv_length = length (cr_iv c) ->
  (8 <= iv_length)%nat /\ cr_tag_length c = tag_length /\ fill_iv c seq = Some (iv_of seq).
Proof.
  intros Hu Hc Hl. unfold crypto_init in Hc. destruct EVP_CIPHER_CTX_new; [|done]. destruct EVP_CIPHER_fetch as [ci|]; [|done].
  destruct (EVP_CIPHER_iv_length ci) as [n|]; [|done]. destruct (Z.ltb_spec n 8); [done|]. injection Hc as <-.
  cbn [cr_iv cr_tag_length] in *. rewrite Hu in Hl. unfold fill_iv, iv_of. cbn [cr_iv]. rewrite Hu, Hl.
  split; [lia|]. split; [done|]. destruct (Nat.ltb_spec (Z.to_nat n) 8); [lia|].
  unfold zeros. by rewrite drop_replicate.
Qed.

(** ** Witness *)

(** A host that accepts page-state changes and registrations and clears the status. *)
Definition willing_host (t : list SevEvent) (msr : Z) : Z :=
  if Z.land msr 0xfff =? 0x14 then 0x15 else msr + 1.

Definition fresh_platform : SevPlatform :=
  mkPlatform [] visible_initial (fun _ => 0) (fun _ => replicate 512 0) [] (fun _ => 0).

Abbreviation ex_ap_init := (@ap_init_sev_core ref_bits SmallPages (Span 0x800000 0x4000) willing_host (fun _ m => m)).
Abbreviation ex_stage2 := (@setup_hypervisor_stage2_sev ref_bits SmallPages (Span 0x800000 0x4000) willing_host (fun _ m => m)
    (fun _ g => set_base f_exit_info1 0 g) (replicate 16 0)).
Abbreviation ex_reach := (@platform_reach ref_bits SmallPages (Span 0x800000 0x4000) willing_host (fun _ m => m)
    (fun _ g => set_base f_exit_info1 0 g) (replicate 16 0) fresh_platform).

(** One core boots and prepares the requests, then a second one starts. *)
Lemma boot_two_cores : exists p, ex_reach p /\
  pf_slot p (InputPage 0) = 0x800000 /\ pf_slot p ResponsePage = 0x802000 /\ pf_slot p (InputPage 1) = 0x803000.
Proof.
  assert (match ex_ap_init 0%nat fresh_platform with
    | Done p1 => (pf_slot p1 (InputPage 0) <> 0 /\ pf_slot p1 RequestPage = 0 /\ pf_slot p1 ResponsePage = 0) /\
        match ex_stage2 0%nat p1 with
        | Done p2 => pf_slot p2 (InputPage 1) = 0 /\
            match ex_ap_init 1%nat p2 with
            | Done p => pf_slot p (InputPage 0) = 0x800000 /\ pf_slot p ResponsePage = 0x802000 /\
                pf_slot p (InputPage 1) = 0x803000
            | _ => False
            end
        | _ => False
        end
    | _ => False
    end) as Hc by (vm_compute; split_and!; [discriminate|reflexivity..]).
  destruct (ex_ap_init 0%nat fresh_platform) as [p1| |] eqn:E1; [|destruct Hc..].
  destruct Hc as [(K0 & K1 & K2) Hc]. destruct (ex_stage2 0%nat p1) as [p2| |] eqn:E2; [|destruct Hc..].
  destruct Hc as [K3 Hc]. destruct (ex_ap_init 1%nat p2) as [p| |] eqn:E3; [|destruct Hc..].
  exists p. split; [|exact Hc].
  eapply platform_more; [eapply platform_more; [eapply platform_more; [apply platform_start|]|]|].
  - apply (start_core _ _ _ _ _ _ _ 0%nat); [reflexivity|exact E1].
  - apply (start_requests _ _ _ _ _ _ _ 0%nat); [exact K0|exact K1|exact K2|exact E2].
  - apply (start_core _ _ _ _ _ _ _ 1%nat); [exact K3|exact E3].
Qed.

Lemma shared_pages_disjoint_witness :
  exists p, ex_reach p /\ apart (pf_slot p (InputPage 1)) (pf_slot p ResponsePage) /\
    pf_msr p 0%nat = NORMAL_MSR 0x800000.
Proof.
  destruct boot_two_cores as (p & Hr & H0 & H2 & H3). exists p. split; [exact Hr|].
  destruct (@shared_pages_disjoint ref_bits ref_bits_ok SmallPages (Span 0x800000 0x4000) willing_host (fun _ m => m)
    (fun _ g => set_base f_exit_info1 0 g) (replicate 16 0) fresh_platform p) as (_ & Ha & Hm);
    [exact example_pool_ok|split; reflexivity|exact Hr|]. split.
  - apply Ha; [discriminate|rewrite H3; discriminate|rewrite H2; discriminate].
  - rewrite <- H0. apply Hm. rewrite H0. discriminate.
Defined.
