(* ===== verification/Locks.v ===== *)
(** * Mutexes and run-once (monza-libcxx/src/threading.cc)

    The sections of the mutexes that the spin lock protects, the recursive mutex, and
    the run-once flag as interleaved steps of threads. The system of threads that use
    mutexes and condition variables is in [LockSystem]. *)

From S2P Require Import Prelude.

(** Update of one thread's entry. *)
Definition upd {A} (f : nat -> A) (t : nat) (x : A) : nat -> A := fun u => if decide (u = t) then x else f u.

Lemma upd_same {A} (f : nat -> A) t x : upd f t x t = x.
Proof. unfold upd. by rewrite decide_True. Qed.

Lemma upd_other {A} (f : nat -> A) t u x : u <> t -> upd f t x u = f u.
Proof. intros. unfold upd. by rewrite decide_False. Qed.

(** ** [CustomMutexImpl] *)

Record Mutex : Type := mkMutex { taken : bool; waiters : list nat }.

(** The section of [lock] under the spin lock: whether the lock was got. *)
Definition lock_section (t : nat) (m : Mutex) : bool * Mutex :=
  if negb (taken m) then (true, mkMutex true (waiters m))
  else (false, mkMutex true (waiters m ++ [t])).

Definition trylock (m : Mutex) : bool * Mutex :=
  if negb (taken m) then (true, mkMutex true (waiters m)) else (false, mkMutex true (waiters m)).

(** The section of [unlock] under the spin lock: the entry to wake. *)
Definition unlock_section (m : Mutex) : option nat * Mutex :=
  match waiters m with
  | [] => (None, mkMutex false [])
  | w :: ws => (Some w, mkMutex false ws)
  end.

(** ** [CustomRecursiveMutexImpl] *)

(** Thread 0 stands for no thread. *)
Record RecMutex : Type := mkRec { r_taken : bool; r_thread : nat; r_waiters : list nat }.

(** The test before the loop of [lock]: the caller already has it. *)
Definition rec_owned (t : nat) (m : RecMutex) : bool := Nat.eqb (r_thread m) t.

Definition rec_lock_section (t : nat) (m : RecMutex) : bool * RecMutex :=
  if negb (r_taken m) then (true, mkRec true (r_thread m) (r_waiters m))
  else (false, mkRec true (r_thread m) (r_waiters m ++ [t])).

Definition rec_store_thread (t : nat) (m : RecMutex) : RecMutex := mkRec (r_taken m) t (r_waiters m).

(** [trylock] as a whole: its value and the state. *)
Definition rec_trylock (t : nat) (m : RecMutex) : bool * RecMutex :=
  if rec_owned t m then (false, m)
  else if negb (r_taken m) then (true, mkRec true t (r_waiters m))
  else (false, m).

Definition rec_unlock_section (m : RecMutex) : option nat * RecMutex :=
  match r_waiters m with
  | [] => (None, mkRec false (r_thread m) [])
  | w :: ws => (Some w, mkRec false (r_thread m) ws)
  end.

(** [lock] without interference: [true] if it returns, [false] if it sleeps. *)
Definition rec_lock (t : nat) (m : RecMutex) : bool * RecMutex :=
  if rec_owned t m then (true, m)
  else let '(ok, m1) := rec_lock_section t m in
       if ok then (true, rec_store_thread t m1) else (false, m1).

Definition rec_unlock (m : RecMutex) : option nat * RecMutex :=
  let '(e, m1) := rec_unlock_section m in (e, rec_store_thread 0 m1).

Definition rec_initial : RecMutex := mkRec false 0 [].

(** The recursive mutex does not count: after two locks and one unlock by the
    same thread another thread gets it, [trylock] by the thread that holds it
    fails, and since [unlock] clears the owner after it has let others in, the
    clearing can hit the next owner, whose nested [lock] then sleeps on a mutex it
    holds itself. *)
Theorem recursive_mutex_defects t u :
  t <> u -> t <> 0%nat -> u <> 0%nat ->
  (let m2 := snd (rec_lock t (snd (rec_lock t rec_initial))) in
   fst (rec_lock u (snd (rec_unlock m2))) = true) /\
  fst (rec_trylock t (snd (rec_lock t rec_initial))) = false /\
  (let m1 := snd (rec_unlock_section (snd (rec_lock t rec_initial))) in
   let m2 := snd (rec_lock u m1) in
   let m3 := rec_store_thread 0 m2 in
   fst (rec_lock u m2) = true /\ rec_lock u m3 = (false, mkRec true 0 [u])).
Proof.
  intros Htu Ht Hu.
  assert (Nat.eqb t u = false /\ Nat.eqb 0 t = false /\ Nat.eqb 0 u = false) as (H1 & H2 & H3)
    by (rewrite !Nat.eqb_neq; auto).
  unfold rec_unlock, rec_lock, rec_trylock, rec_owned, rec_initial.
  repeat (cbn [r_thread r_taken r_waiters negb fst snd rec_lock_section rec_unlock_section rec_store_thread app];
    rewrite ?H1, ?H2, ?H3, ?Nat.eqb_refl). done.
Qed.

Lemma recursive_mutex_defects_witness :
  fst (rec_lock 2 (snd (rec_unlock (snd (rec_lock 1 (snd (rec_lock 1 rec_initial))))))) = true.
Proof. exact (proj1 (recursive_mutex_defects 1 2 ltac:(lia) ltac:(lia) ltac:(lia))). Defined.

(** Case analysis on whose entry is read. *)
Ltac split_upd t u :=
  destruct (decide (u = t)) as [->|]; [rewrite ?upd_same in *|rewrite ?(upd_other _ t u) in * by done].
Ltac on_upd :=
  repeat match goal with
  | H : context [upd _ ?t _ ?u] |- _ => split_upd t u
  | |- context [upd _ ?t _ ?u] => split_upd t u
  end.

(** ** [CustomOnceImpl] *)

Inductive once_status : Type := IDLE | DOING | DONE.
#[export] Instance once_status_eq_dec : EqDecision once_status.
Proof. solve_decision. Defined.

(** Before the load, before the compare-exchange, in [init()], spinning, returned. *)
Inductive once_pc : Type := OStart | OCas | OInit | OWait | OReturned.

(** [init_started] and [init_ended] count the calls of the initialiser. *)
Record OnceSys : Type := mkOnce {
  control : once_status;
  init_started : nat;
  init_ended : nat;
  opc : nat -> once_pc;
}.

Definition once_initial : OnceSys := mkOnce IDLE 0 0 (fun _ => OStart).

(** The step [execute] takes at each point; [None] while it has to spin. *)
Definition once_next (s : OnceSys) (t : nat) : option OnceSys :=
  match opc s t with
  | OStart =>
      Some (mkOnce (control s) (init_started s) (init_ended s)
              (upd (opc s) t (if decide (control s = DONE) then OReturned else OCas)))
  | OCas =>
      if decide (control s = IDLE)
      then Some (mkOnce DOING (S (init_started s)) (init_ended s) (upd (opc s) t OInit))
      else Some (mkOnce (control s) (init_started s) (init_ended s) (upd (opc s) t OWait))
  | OInit => Some (mkOnce DONE (init_started s) (S (init_ended s)) (upd (opc s) t OReturned))
  | OWait =>
      if decide (control s = DONE)
      then Some (mkOnce (control s) (init_started s) (init_ended s) (upd (opc s) t OReturned))
      else None
  | OReturned => None
  end.

Inductive once_reachable : OnceSys -> Prop :=
| or_initial : once_reachable once_initial
| or_step s t s' : once_reachable s -> once_next s t = Some s' -> once_reachable s'.

(** [r] is the thread that runs the initialiser. *)
Record once_inv (r : option nat) (s : OnceSys) : Prop := {
  oi_runner : forall t, opc s t = OInit <-> r = Some t;
  oi_doing : control s = DOING <-> r <> None;
  oi_started : init_started s = if decide (control s = IDLE) then 0%nat else 1%nat;
  oi_ended : init_ended s = if decide (control s = DONE) then 1%nat else 0%nat;
  oi_wait : forall t, opc s t = OWait -> control s <> IDLE;
  oi_returned : forall t, opc s t = OReturned -> control s = DONE;
}.

(** A step that only moves the thread between points outside the initialiser. *)
Lemma once_inv_move r s t p :
  once_inv r s -> opc s t <> OInit -> p <> OInit ->
  (p = OWait -> control s <> IDLE) -> (p = OReturned -> control s = DONE) ->
  once_inv r (mkOnce (control s) (init_started s) (init_ended s) (upd (opc s) t p)).
Proof.
  intros [Hr Hd Hs He Hw Ht] Hp Hp' H1 H2. split; cbn; try done.
  - intros u. rewrite <- Hr. on_upd; done.
  - intros u Hu. on_upd; [by apply H1|by eapply Hw].
  - intros u Hu. on_upd; [by apply H2|by eapply Ht].
Qed.

Lemma once_inv_step r s t s' : once_inv r s -> once_next s t = Some s' -> exists r', once_inv r' s'.
Proof.
  intros Hi Hn. pose proof Hi as [Hr Hd Hs He Hw Ht]. unfold once_next in Hn. destruct (opc s t) eqn:Hp.
  - injection Hn as <-. exists r. destruct (decide (control s = DONE)); apply once_inv_move; try done; congruence.
  - destruct (decide (control s = IDLE)) as [Hc|Hc]; injection Hn as <-.
    + exists (Some t). assert (r = None) as -> by (destruct r; [|done]; rewrite (proj2 Hd) in Hc; done).
      rewrite Hc in *. split; cbn; try done.
      * intros u. on_upd; [done|]. rewrite Hr. split; [done|congruence].
      * by rewrite Hs.
      * intros u Hu. on_upd; [done|]. by apply Ht in Hu.
    + exists r. apply once_inv_move; try done; congruence.
  - injection Hn as <-. exists None. apply Hr in Hp as ->. assert (control s = DOING) as Hc by by apply Hd.
    rewrite Hc in *. split; cbn; try done.
    + intros u. on_upd; [done|]. rewrite Hr. split; congruence.
    + by rewrite He.
  - destruct (decide (control s = DONE)) as [Hc|Hc]; [|done]. injection Hn as <-. exists r. apply once_inv_move; done || congruence.
  - done.
Qed.

Lemma once_inv_reachable s : once_reachable s -> exists r, once_inv r s.
Proof.
  induction 1 as [|s t s' _ [r IH] Hn]; [|by eapply once_inv_step].
  exists None. split; cbn; done.
Qed.

(** However many threads call [execute] on the same flag and however they
    interleave, the initialiser is started at most once, a thread that has returned
    finds it finished exactly once, and a thread that has to spin does so while
    another one is running the initialiser, whose next step ends it. *)
Theorem once_runs_once s :
  once_reachable s ->
  (init_started s <= 1)%nat /\
  (forall t, opc s t = OReturned -> init_started s = 1%nat /\ init_ended s = 1%nat) /\
  (forall t, opc s t = OWait -> once_next s t = None ->
     exists u s', opc s u = OInit /\ once_next s u = Some s' /\ control s' = DONE).
Proof.
  intros Hr. destruct (once_inv_reachable s Hr) as [r [Hru Hd Hs He Hw Ht]]. split_and!.
  - rewrite Hs. destruct (decide (control s = IDLE)); lia.
  - intros t Hp. rewrite Hs, He, (Ht t Hp). done.
  - intros t Hp Hn. unfold once_next in Hn. rewrite Hp in Hn. destruct (decide (control s = DONE)) as [Hc|Hc]; [done|].
    assert (control s = DOING) as Hdo by (pose proof (Hw t Hp); by destruct (control s)).
    apply Hd in Hdo. destruct r as [u|]; [|done]. assert (opc s u = OInit) as Hu by by apply Hru.
    eexists u, _. split; [done|]. unfold once_next. rewrite Hu. done.
Qed.

Lemma once_runs_once_witness :
  exists s, once_reachable s /\ opc s 1%nat = OReturned /\ init_ended s = 1%nat.
Proof.
  pose proof or_initial as R.
  eapply (or_step _ 1) in R; [|reflexivity]. eapply (or_step _ 2) in R; [|reflexivity].
  eapply (or_step _ 1) in R; [|reflexivity]. eapply (or_step _ 2) in R; [|reflexivity].
  eapply (or_step _ 1) in R; [|reflexivity].
  eexists. split; [exact R|]. split; [reflexivity|].
  exact (proj2 (proj1 (proj2 (once_runs_once _ R)) 1%nat eq_refl)).
Defined.
