(* ===== verification/LockSystem.v ===== *)
(** * Threads, mutexes and condition variables (monza-libcxx/src/threading.cc)

    Any number of threads use any number of mutexes and condition variables, which
    share one semaphore per thread ([per_core_semaphores] of crt/thread.cc). The
    sections under a spin lock are single steps, because the spin lock excludes every
    other section it protects; everything between them interleaves. *)

From S2P Require Import Prelude Locks.

(** ** Condition variable sections *)

(** The section of [wait]. *)
Definition cv_wait_section (t : nat) (ws : list nat) : list nat := ws ++ [t].

(** The section of [signal]: the entry to wake. *)
Definition cv_signal_section (ws : list nat) : option nat * list nat :=
  match ws with [] => (None, []) | w :: ws' => (Some w, ws') end.

(** The loop of [broadcast] that moves the waiters to [local_queue]. *)
Fixpoint cv_drain (ws local_queue : list nat) : list nat :=
  match ws with [] => local_queue | w :: ws' => cv_drain ws' (local_queue ++ [w]) end.

(** ** The system *)

(** Where a thread is: between calls; before the section of [lock]; in [lock] with
    its entry queued; with threads still to wake before it returns; in [wait] before
    [m->unlock()], inside it with a thread to wake, and before or in its sleep. *)
Inductive thread_pc : Type :=
| Running
| AtTry (m : nat)
| AtSleep (m : nat)
| AtWake (ws : list nat)
| WaitUnlock (c m : nat)
| WaitWake (w c m : nat)
| WaitSleep (c m : nat).

(** [th_held] lists the mutexes whose [lock] has returned and that were not unlocked. *)
Record Thread : Type := mkThread { th_pc : thread_pc; th_held : list nat }.

Record Sys : Type := mkSys {
  mutexes : list Mutex;
  condvars : list (list nat);
  sem : nat -> nat;
  threads : list Thread;
}.

(** What a thread does next: a call, or going on with the one it is in. *)
Inductive action : Type :=
| DoLock (m : nat)
| DoTrylock (m : nat)
| DoUnlock (m : nat)
| DoWait (c m : nat)
| DoSignal (c : nat)
| DoBroadcast (c : nat)
| Continue.

Definition wake_pc (ws : list nat) : thread_pc := match ws with [] => Running | _ => AtWake ws end.
Definition of_entry (e : option nat) : list nat := match e with Some w => [w] | None => [] end.
Definition drop_held (m : nat) (held : list nat) : list nat := filter (fun x => x <> m) held.

Definition set_thread (t : nat) (p : thread_pc) (held : list nat) (s : Sys) : Sys :=
  mkSys (mutexes s) (condvars s) (sem s) (<[t := mkThread p held]> (threads s)).
Definition set_mutex (m : nat) (x : Mutex) (s : Sys) : Sys :=
  mkSys (<[m := x]> (mutexes s)) (condvars s) (sem s) (threads s).
Definition set_condvar (c : nat) (q : list nat) (s : Sys) : Sys :=
  mkSys (mutexes s) (<[c := q]> (condvars s)) (sem s) (threads s).
Definition set_sem (t n : nat) (s : Sys) : Sys :=
  mkSys (mutexes s) (condvars s) (upd (sem s) t n) (threads s).

(** [wake_thread]. *)
Definition wake (w : nat) (s : Sys) : Sys := set_sem w (S (sem s w)) s.

(** One step of thread [t]; [None] where it cannot take one. *)
Definition step (t : nat) (a : action) (s : Sys) : option Sys :=
  match threads s !! t with
  | None => None
  | Some (mkThread p held) =>
      match p, a with
      | Running, DoLock m =>
          match mutexes s !! m with Some _ => Some (set_thread t (AtTry m) held s) | None => None end
      | AtTry m, Continue =>
          match mutexes s !! m with
          | Some x =>
              let '(ok, x') := lock_section t x in
              Some (set_thread t (if ok : bool then Running else AtSleep m)
                      (if ok : bool then m :: held else held) (set_mutex m x' s))
          | None => None
          end
      | AtSleep m, Continue =>
          match sem s t with S n => Some (set_thread t (AtTry m) held (set_sem t n s)) | O => None end
      | Running, DoTrylock m =>
          match mutexes s !! m with
          | Some x =>
              let '(ok, x') := trylock x in
              Some (set_thread t Running (if ok : bool then m :: held else held) (set_mutex m x' s))
          | None => None
          end
      | Running, DoUnlock m =>
          match mutexes s !! m with
          | Some x =>
              if decide (m ∈ held) then
                let '(e, x') := unlock_section x in
                Some (set_thread t (wake_pc (of_entry e)) (drop_held m held) (set_mutex m x' s))
              else None
          | None => None
          end
      | AtWake (w :: ws), Continue => Some (set_thread t (wake_pc ws) held (wake w s))
      | Running, DoWait c m =>
          match condvars s !! c with
          | Some q =>
              if decide (m ∈ held)
              then Some (set_thread t (WaitUnlock c m) held (set_condvar c (cv_wait_section t q) s))
              else None
          | None => None
          end
      | WaitUnlock c m, Continue =>
          match mutexes s !! m with
          | Some x =>
              let '(e, x') := unlock_section x in
              Some (set_thread t (match e with Some w => WaitWake w c m | None => WaitSleep c m end)
                      (drop_held m held) (set_mutex m x' s))
          | None => None
          end
      | WaitWake w c m, Continue => Some (set_thread t (WaitSleep c m) held (wake w s))
      | WaitSleep c m, Continue =>
          match sem s t with S n => Some (set_thread t (AtTry m) held (set_sem t n s)) | O => None end
      | Running, DoSignal c =>
          match condvars s !! c with
          | Some q =>
              let '(e, q') := cv_signal_section q in
              Some (set_thread t (wake_pc (of_entry e)) held (set_condvar c q' s))
          | None => None
          end
      | Running, DoBroadcast c =>
          match condvars s !! c with
          | Some q => Some (set_thread t (wake_pc (cv_drain q [])) held (set_condvar c [] s))
          | None => None
          end
      | _, _ => None
      end
  end.

Definition sys_initial (nm nc nt : nat) : Sys :=
  mkSys (replicate nm (mkMutex false [])) (replicate nc []) (fun _ => O)
    (replicate nt (mkThread Running [])).

Inductive reachable (nm nc nt : nat) : Sys -> Prop :=
| reach_initial : reachable nm nc nt (sys_initial nm nc nt)
| reach_step s t a s' : reachable nm nc nt s -> step t a s = Some s' -> reachable nm nc nt s'.

(** ** The functions of libc++ *)

Inductive libcpp_call : Type :=
| MutexLock (m : nat) | MutexTrylock (m : nat) | MutexUnlock (m : nat) | MutexDestroy (m : nat)
| CondvarSignal (c : nat) | CondvarBroadcast (c : nat) | CondvarWait (c m : nat) | CondvarDestroy (c : nat).

(** The functions [__libcpp_mutex_] and [__libcpp_condvar_] ending in these names: the call they forward; nothing is destroyed. *)
Definition libcpp_forward (f : libcpp_call) : option action :=
  match f with
  | MutexLock m => Some (DoLock m)
  | MutexTrylock m => Some (DoTrylock m)
  | MutexUnlock m => Some (DoUnlock m)
  | CondvarSignal c => Some (DoSignal c)
  | CondvarBroadcast c => Some (DoBroadcast c)
  | CondvarWait c m => Some (DoWait c m)
  | MutexDestroy _ | CondvarDestroy _ => None
  end.

(** [std::condition_variable]. *)
Inductive condition_variable_call : Type := NotifyOne | NotifyAll | Wait (m : nat) | Destruct.

Definition condition_variable_forward (cv : nat) (f : condition_variable_call) : libcpp_call :=
  match f with
  | NotifyOne => CondvarSignal cv
  | NotifyAll => CondvarBroadcast cv
  | Wait m => CondvarWait cv m
  | Destruct => CondvarDestroy cv
  end.

(** ** Tokens *)

(** Occurrences of [t] in a list, and in all the lists [f] finds in [l]. *)
Definition occ (l : list nat) (t : nat) : nat := count_occ Nat.eq_dec l t.
Fixpoint occs {A} (f : A -> list nat) (l : list A) (t : nat) : nat :=
  match l with [] => O | x :: l' => (occ (f x) t + occs f l' t)%nat end.

Lemma occ_app l1 l2 t : occ (l1 ++ l2) t = (occ l1 t + occ l2 t)%nat.
Proof. apply count_occ_app. Qed.

Lemma occ_cons x l t : occ (x :: l) t = ((if decide (t = x) then 1 else 0) + occ l t)%nat.
Proof. unfold occ. cbn. destruct (Nat.eq_dec x t), (decide (t = x)); congruence || done. Qed.

Lemma occ_elem l t : t ∈ l <-> (0 < occ l t)%nat.
Proof. rewrite list_elem_of_In. apply count_occ_In. Qed.

Lemma occ_drop_held m held x : occ (drop_held m held) x = if decide (x = m) then O else occ held x.
Proof.
  unfold drop_held. induction held as [|y l IH]; [by case_decide|]. rewrite occ_cons.
  destruct (decide (y = m)) as [->|Hy].
  - rewrite filter_cons_False, IH by auto. repeat case_decide; congruence || done.
  - rewrite filter_cons_True, occ_cons, IH by done. repeat case_decide; congruence || done.
Qed.

Lemma occs_insert {A} (f : A -> list nat) (l : list A) i x y t :
  l !! i = Some x ->
  (occs f (<[i := y]> l) t + occ (f x) t = occs f l t + occ (f y) t)%nat.
Proof.
  revert i; induction l as [|z l IH]; intros [|i] Hi; try done.
  - injection Hi as ->. change (<[O := y]> (x :: l)) with (y :: l). cbn [occs]. lia.
  - specialize (IH i Hi). change (<[S i := y]> (z :: l)) with (z :: <[i := y]> l). cbn [occs]. lia.
Qed.

Lemma occs_lookup {A} (f : A -> list nat) (l : list A) i x t :
  l !! i = Some x -> (occ (f x) t <= occs f l t)%nat.
Proof.
  revert i; induction l as [|z l IH]; intros [|i] Hi; try done; cbn in *.
  - injection Hi as ->. lia.
  - specialize (IH i Hi). lia.
Qed.

Lemma occs_two {A} (f : A -> list nat) (l : list A) i j x y t :
  i <> j -> l !! i = Some x -> l !! j = Some y -> (occ (f x) t + occ (f y) t <= occs f l t)%nat.
Proof.
  revert i j; induction l as [|z l IH]; intros [|i] [|j] Hne Hi Hj; try done; cbn in *.
  - injection Hi as ->. pose proof (occs_lookup f l j y t Hj). lia.
  - injection Hj as ->. pose proof (occs_lookup f l i x t Hi). lia.
  - specialize (IH i j ltac:(lia) Hi Hj). lia.
Qed.

Lemma occs_pos {A} (f : A -> list nat) (l : list A) t :
  occs f l t <> O -> exists i x, l !! i = Some x /\ t ∈ f x.
Proof.
  induction l as [|z l IH]; cbn; [done|]. intros Hn.
  destruct (decide (occ (f z) t = O)) as [Hz|Hz].
  - destruct IH as (i & x & Hi & Hx); [lia|]. by exists (S i), x.
  - exists O, z. split; [done|]. apply occ_elem. lia.
Qed.

Lemma cv_drain_app ws q : cv_drain ws q = q ++ ws.
Proof.
  revert q; induction ws as [|w ws IH]; intros q; cbn; [by rewrite app_nil_r|]. by rewrite IH, <- app_assoc.
Qed.

(** Where [t] is; the threads a thread has still to wake; whether it waits for a
    wake-up, and on which condition variable. *)
Definition pc_of (s : Sys) (t : nat) : thread_pc :=
  match threads s !! t with Some th => th_pc th | None => Running end.
Definition held_of (s : Sys) (t : nat) : list nat :=
  match threads s !! t with Some th => th_held th | None => [] end.
Definition wakes (p : thread_pc) : list nat :=
  match p with AtWake ws => ws | WaitWake w _ _ => [w] | _ => [] end.
Definition awaits (p : thread_pc) : nat :=
  match p with AtSleep _ | WaitUnlock _ _ | WaitWake _ _ _ | WaitSleep _ _ => 1 | _ => 0 end.
Definition waits_on (p : thread_pc) : option nat :=
  match p with WaitUnlock c _ | WaitWake _ c _ | WaitSleep c _ => Some c | _ => None end.

(** The wake-ups under way for [t]: its queue entries, the threads about to wake it
    and the count of its semaphore. *)
Definition pending (s : Sys) (t : nat) : nat := occs (fun th => wakes (th_pc th)) (threads s) t.
Definition tokens (s : Sys) (t : nat) : nat :=
  (occs waiters (mutexes s) t + occs (fun q => q) (condvars s) t + pending s t + sem s t)%nat.
Definition holders (s : Sys) (m : nat) : nat := occs th_held (threads s) m.

Record sys_inv (s : Sys) : Prop := {
  iv_tokens : forall t, tokens s t = awaits (pc_of s t);
  iv_mutex : forall m x w, mutexes s !! m = Some x -> w ∈ waiters x -> pc_of s w = AtSleep m;
  iv_condvar : forall c q w, condvars s !! c = Some q -> w ∈ q -> waits_on (pc_of s w) = Some c;
  iv_held : forall m x, mutexes s !! m = Some x -> holders s m = if taken x then 1%nat else 0%nat;
  iv_wait : forall t c m, pc_of s t = WaitUnlock c m -> m ∈ held_of s t;
  iv_progress : forall m x, mutexes s !! m = Some x -> taken x = false -> waiters x <> [] ->
    exists t, pc_of s t = AtTry m \/ (pc_of s t = AtSleep m /\ t ∉ waiters x);
}.

Section Updates.
Context (s : Sys).

Lemma tokens_set_thread t th p h u :
  threads s !! t = Some th ->
  (tokens (set_thread t p h s) u + occ (wakes (th_pc th)) u = tokens s u + occ (wakes p) u)%nat.
Proof.
  intros Ht. unfold tokens, pending. cbn [mutexes condvars sem threads set_mutex set_condvar set_thread].
  pose proof (occs_insert (fun th => wakes (th_pc th)) _ _ _ (mkThread p h) u Ht) as E. cbn [th_pc] in E. lia.
Qed.

Lemma tokens_set_mutex m x x' u :
  mutexes s !! m = Some x ->
  (tokens (set_mutex m x' s) u + occ (waiters x) u = tokens s u + occ (waiters x') u)%nat.
Proof. intros Hm. unfold tokens, pending. cbn [mutexes condvars sem threads set_mutex set_condvar set_thread]. pose proof (occs_insert waiters _ _ _ x' u Hm). lia. Qed.

Lemma tokens_set_condvar c q q' u :
  condvars s !! c = Some q ->
  (tokens (set_condvar c q' s) u + occ q u = tokens s u + occ q' u)%nat.
Proof.
  intros Hc. unfold tokens, pending. cbn [mutexes condvars sem threads set_mutex set_condvar set_thread]. pose proof (occs_insert (fun q => q) _ _ _ q' u Hc) as E.
  cbn [th_pc] in E. lia.
Qed.

Lemma tokens_set_sem t n u :
  (tokens (set_sem t n s) u + (if decide (u = t) then sem s t else 0) =
   tokens s u + (if decide (u = t) then n else 0))%nat.
Proof. unfold tokens, pending, set_sem, upd. cbn [mutexes condvars sem threads]. case_decide; subst; lia. Qed.

Lemma pc_of_set t th p h u :
  threads s !! t = Some th -> pc_of (set_thread t p h s) u = if decide (u = t) then p else pc_of s u.
Proof.
  intros Ht. unfold pc_of. cbn. case_decide; subst.
  - rewrite list_lookup_insert_eq; [done|]. by eapply lookup_lt_Some.
  - by rewrite list_lookup_insert_ne.
Qed.

Lemma held_of_set t th p h u :
  threads s !! t = Some th -> held_of (set_thread t p h s) u = if decide (u = t) then h else held_of s u.
Proof.
  intros Ht. unfold held_of. cbn. case_decide; subst.
  - rewrite list_lookup_insert_eq; [done|]. by eapply lookup_lt_Some.
  - by rewrite list_lookup_insert_ne.
Qed.

Lemma holders_set t th p h m :
  threads s !! t = Some th ->
  (holders (set_thread t p h s) m + occ (th_held th) m = holders s m + occ h m)%nat.
Proof. intros Ht. unfold holders. cbn. exact (occs_insert th_held _ _ _ (mkThread p h) m Ht). Qed.

End Updates.

Lemma wakes_wake_pc ws : wakes (wake_pc ws) = ws.
Proof. by destruct ws. Qed.
Lemma awaits_wake_pc ws : awaits (wake_pc ws) = O.
Proof. by destruct ws. Qed.
Lemma pc_of_lookup s t p h : threads s !! t = Some (mkThread p h) -> pc_of s t = p.
Proof. intros Ht. unfold pc_of. by rewrite Ht. Qed.

(** The cases of a step. *)
Ltac step_cases H :=
  unfold step in H;
  let Ht := fresh "Ht" in let p := fresh "p" in let a := fresh "a" in
  match type of H with context [threads ?s !! ?t] =>
    destruct (threads s !! t) as [[p ?held]|] eqn:Ht; [|discriminate H] end;
  match type of H with context [match p with _ => _ end] => destruct p end;
  try match type of H with context [match ?a with _ => _ end] => is_var a; destruct a end; try discriminate H;
  cbv beta iota in H;
  unfold lock_section, trylock, unlock_section, cv_signal_section in H;
  repeat match type of H with context [match ?x with _ => _ end] =>
    lazymatch x with context [match _ with _ => _ end] => fail | _ => destruct x eqn:? end end;
  repeat match goal with E : decide _ = _ |- _ => clear E end; simplify_eq.

(** Rewrites what a step reads of the thread it changes. *)
Ltac read_pc s :=
  repeat match goal with
  | Ht : threads s !! ?t = Some _ |- context [pc_of (set_thread ?t ?p ?h ?s1) ?u] =>
      rewrite (pc_of_set s1 t _ p h u Ht); change (pc_of s1 u) with (pc_of s u)
  | Ht : threads s !! ?t = Some _, H : context [pc_of (set_thread ?t ?p ?h ?s1) ?u] |- _ =>
      rewrite (pc_of_set s1 t _ p h u Ht) in H; change (pc_of s1 u) with (pc_of s u) in H
  | Ht : threads s !! ?t = Some _ |- context [held_of (set_thread ?t ?p ?h ?s1) ?u] =>
      rewrite (held_of_set s1 t _ p h u Ht); change (held_of s1 u) with (held_of s u)
  end.

(** The balance of tokens of one step. *)
Ltac balance s :=
  match goal with Ht : threads s !! ?t = Some _ |- context [tokens (set_thread ?t ?p ?h ?s1) ?u] =>
    pose proof (tokens_set_thread s1 t _ p h u Ht);
    match s1 with
    | set_mutex ?m ?x s =>
        match goal with Hm : mutexes s !! m = Some _ |- _ => pose proof (tokens_set_mutex s m _ x u Hm) end
    | set_condvar ?c ?q s =>
        match goal with Hc : condvars s !! c = Some _ |- _ => pose proof (tokens_set_condvar s c _ q u Hc) end
    | set_sem ?v ?n s => pose proof (tokens_set_sem s v n u)
    | wake ?w s => pose proof (tokens_set_sem s w (S (sem s w)) u); unfold wake in *
    | s => idtac
    end
  end.

Lemma tokens_step s t a s' :
  sys_inv s -> step t a s = Some s' -> forall u, tokens s' u = awaits (pc_of s' u).
Proof.
  intros [Htok _ _ _ _ _] Hs u. specialize (Htok u).
  step_cases Hs; balance s; read_pc s; pose proof (pc_of_lookup s t _ _ Ht) as Hpc;
    unfold cv_wait_section in *; rewrite ?cv_drain_app, ?wakes_wake_pc, ?awaits_wake_pc in *;
    cbn [th_pc wakes waiters of_entry app] in *; rewrite ?occ_app, ?occ_cons in *;
    repeat match goal with E : waiters _ = _ |- _ => rewrite E in * end;
    rewrite ?occ_cons in *; change (occ [] u) with O in *;
    destruct (decide (u = t)) as [->|]; rewrite ?Hpc, ?awaits_wake_pc in *; cbn [awaits] in *;
    repeat case_decide; lia.
Qed.

Lemma step_other s t a s' u : step t a s = Some s' -> u <> t -> pc_of s' u = pc_of s u /\ held_of s' u = held_of s u.
Proof.
  intros Hs Hu. step_cases Hs; unfold pc_of, held_of; cbn; rewrite !list_lookup_insert_ne by done; done.
Qed.

(** A queue of the new state comes from one of the old; only the thread itself is new. *)
Lemma waiters_step s t a s' m x w :
  step t a s = Some s' -> mutexes s' !! m = Some x -> w ∈ waiters x ->
  (exists x0, mutexes s !! m = Some x0 /\ w ∈ waiters x0) \/ (w = t /\ pc_of s' t = AtSleep m).
Proof.
  intros Hs Hm Hw. step_cases Hs; cbn in Hm; eauto;
    (apply list_lookup_insert_Some in Hm as [(<- & <- & _)|[_ Hm]]; [|by eauto]); cbn in Hw;
    eauto; try (left; eexists; split; [done|]; match goal with E : waiters _ = _ |- _ => rewrite E end; by right);
    try (by apply elem_of_nil in Hw).
  apply elem_of_app in Hw as [Hw| ->%list_elem_of_singleton]; eauto. right. split; [done|]. read_pc s. by rewrite decide_True.
Qed.

Lemma condvars_step s t a s' c q w :
  step t a s = Some s' -> condvars s' !! c = Some q -> w ∈ q ->
  (exists q0, condvars s !! c = Some q0 /\ w ∈ q0) \/ (w = t /\ waits_on (pc_of s' t) = Some c).
Proof.
  intros Hs Hm Hw. step_cases Hs; cbn in Hm; eauto;
    (apply list_lookup_insert_Some in Hm as [(<- & <- & _)|[_ Hm]]; [|by eauto]); cbn in Hw;
    try (by apply elem_of_nil in Hw); try (left; eexists; split; [done|]; by right).
  apply elem_of_app in Hw as [Hw| ->%list_elem_of_singleton]; eauto. right. split; [done|]. read_pc s. by rewrite decide_True.
Qed.

(** A thread in a queue has no count in its semaphore. *)
Lemma queued_no_sem s t :
  sys_inv s -> (exists m x, mutexes s !! m = Some x /\ t ∈ waiters x) \/
               (exists c q, condvars s !! c = Some q /\ t ∈ q) -> sem s t = O.
Proof.
  intros Hi Hq. pose proof (iv_tokens s Hi t) as Ht. unfold tokens in Ht.
  assert (awaits (pc_of s t) <= 1)%nat by (destruct (pc_of s t); cbn; lia).
  destruct Hq as [(m & x & Hm & Hw)|(c & q & Hc & Hw)]; apply occ_elem in Hw.
  - pose proof (occs_lookup waiters _ _ _ t Hm). lia.
  - pose proof (occs_lookup (fun q => q) _ _ _ t Hc) as E. cbn beta in E. lia.
Qed.

Lemma mutex_step s t a s' :
  sys_inv s -> step t a s = Some s' -> forall m x w,
  mutexes s' !! m = Some x -> w ∈ waiters x -> pc_of s' w = AtSleep m.
Proof.
  intros Hi Hs m x w Hm Hw. destruct (waiters_step _ _ _ _ _ _ _ Hs Hm Hw) as [(x0 & Hm0 & Hw0)|[-> ?]]; [|done].
  pose proof (iv_mutex s Hi m x0 w Hm0 Hw0) as Hp.
  destruct (decide (w = t)) as [->|Hne]; [|by rewrite (proj1 (step_other _ _ _ _ w Hs Hne))].
  exfalso. pose proof (queued_no_sem s t Hi ltac:(eauto)) as Hz. unfold pc_of in Hp.
  step_cases Hs; rewrite ?Ht in Hp; cbn in Hp; congruence.
Qed.

Lemma condvar_step s t a s' :
  sys_inv s -> step t a s = Some s' -> forall c q w,
  condvars s' !! c = Some q -> w ∈ q -> waits_on (pc_of s' w) = Some c.
Proof.
  intros Hi Hs c q w Hc Hw. destruct (condvars_step _ _ _ _ _ _ _ Hs Hc Hw) as [(q0 & Hc0 & Hw0)|[-> ?]]; [|done].
  pose proof (iv_condvar s Hi c q0 w Hc0 Hw0) as Hp.
  destruct (decide (w = t)) as [->|Hne]; [|by rewrite (proj1 (step_other _ _ _ _ w Hs Hne))].
  pose proof (queued_no_sem s t Hi ltac:(eauto)) as Hz. unfold pc_of in Hp at 1.
  step_cases Hs; rewrite ?Ht in Hp; cbn in Hp; try congruence; read_pc s; rewrite decide_True by done; done.
Qed.

Lemma held_step s t a s' :
  sys_inv s -> step t a s = Some s' -> forall m x,
  mutexes s' !! m = Some x -> holders s' m = if taken x then 1%nat else 0%nat.
Proof.
  intros Hi Hs m x Hm. pose proof (iv_held s Hi) as Hh. pose proof (iv_wait s Hi t) as Hw.
  unfold pc_of, held_of in Hw.
  step_cases Hs; rewrite ?Ht in Hw;
    match goal with |- holders (set_thread _ ?p ?h ?s1) _ = _ =>
      pose proof (holders_set s1 t _ p h m Ht) as E; change (holders s1 m) with (holders s m) in E end;
    pose proof (occs_lookup th_held _ _ _ m Ht) as Hle; fold (holders s m) in Hle;
    cbn [th_held th_pc] in *; rewrite ?occ_drop_held, ?occ_cons in E;
    cbn [mutexes set_thread set_mutex set_condvar set_sem wake] in Hm;
    try (apply list_lookup_insert_Some in Hm as [(<- & <- & _)|[Hne Hm]]); simpl taken;
    repeat match goal with Hx : mutexes s !! _ = Some _ |- _ => apply Hh in Hx end;
    try specialize (Hw _ _ eq_refl);
    repeat match goal with Hx : _ ∈ _ |- _ => apply occ_elem in Hx end;
    repeat match goal with Hx : taken _ = _ |- _ => rewrite Hx in * end;
    repeat case_decide; repeat case_match; congruence || lia.
Qed.

Lemma wait_step s t a s' :
  sys_inv s -> step t a s = Some s' -> forall u c m, pc_of s' u = WaitUnlock c m -> m ∈ held_of s' u.
Proof.
  intros Hi Hs u c m Hp. destruct (decide (u = t)) as [->|Hne].
  - step_cases Hs; read_pc s; rewrite decide_True in Hp by done; rewrite decide_True by done;
      unfold wake_pc in Hp; repeat case_match; congruence.
  - destruct (step_other _ _ _ _ u Hs Hne) as [E1 E2]. rewrite E1 in Hp. rewrite E2. by apply (iv_wait s Hi u c).
Qed.

(** The thread a mutex's [unlock] takes from the queue is asleep and no longer queued. *)
Lemma dequeued s m x w ws :
  sys_inv s -> mutexes s !! m = Some x -> waiters x = w :: ws -> pc_of s w = AtSleep m /\ w ∉ ws.
Proof.
  intros Hi Hm Hx. assert (pc_of s w = AtSleep m) as Hp by (eapply iv_mutex; [done..|rewrite Hx; by left]).
  split; [done|]. intros Hw%occ_elem. pose proof (iv_tokens s Hi w) as Ht. rewrite Hp in Ht. cbn [awaits] in Ht.
  unfold tokens in Ht. pose proof (occs_lookup waiters _ _ _ w Hm) as Hl. rewrite Hx, occ_cons, decide_True in Hl by done.
  lia.
Qed.

Lemma progress_step s t a s' :
  sys_inv s -> step t a s = Some s' -> forall m x,
  mutexes s' !! m = Some x -> taken x = false -> waiters x <> [] ->
  exists u, pc_of s' u = AtTry m \/ (pc_of s' u = AtSleep m /\ u ∉ waiters x).
Proof.
  intros Hi Hs m x Hm Hf Hne.
  assert (mutexes s !! m = Some x \/
    exists x0 w ws, mutexes s !! m = Some x0 /\ waiters x0 = w :: ws /\ waiters x = ws /\
      (pc_of s t <> AtSleep m)) as [Hold|(x0 & w & ws & Hm0 & Hx0 & <- & Hpt)].
  { step_cases Hs; cbn in Hm; eauto;
      (apply list_lookup_insert_Some in Hm as [(<- & <- & _)|[_ Hm]]; [|by eauto]); cbn in *; try done;
      right; eexists _, _, _; (split; [eassumption|]); (split; [eassumption|]); (split; [reflexivity|]);
      by rewrite (pc_of_lookup s t _ _ Ht). }
  - destruct (iv_progress s Hi m x Hold Hf Hne) as (u & Hu).
    destruct (decide (u = t)) as [->|Hut]; [|exists u; by rewrite (proj1 (step_other _ _ _ _ u Hs Hut))].
    exists t. unfold pc_of in Hu at 1 2. step_cases Hs; rewrite ?Ht in Hu; cbn in Hu; destruct Hu as [Hu|[Hu ?]];
      simplify_eq; read_pc s; rewrite ?decide_True by done; auto; exfalso.
    all: cbn in Hm; apply list_lookup_insert_Some in Hm as [(_ & E & _)|[? _]]; [|done];
      apply (f_equal taken) in E; cbn in E; congruence.
  - destruct (dequeued s m x0 w _ Hi Hm0 Hx0) as [Hp Hn]. exists w. right. split; [|done].
    assert (w <> t) as Hwt by congruence. by rewrite (proj1 (step_other _ _ _ _ w Hs Hwt)).
Qed.

Lemma occs_replicate {A} (f : A -> list nat) n x t : f x = [] -> occs f (replicate n x) t = O.
Proof. intros Hf. induction n as [|n IH]; cbn; [done|]. rewrite Hf. exact IH. Qed.

Lemma inv_initial nm nc nt : sys_inv (sys_initial nm nc nt).
Proof.
  assert (forall t, pc_of (sys_initial nm nc nt) t = Running) as Hp.
  { intros t. unfold pc_of, sys_initial. cbn. destruct (replicate _ _ !! t) eqn:E; [|done].
    by apply lookup_replicate in E as [-> _]. }
  split.
  - intros t. rewrite Hp. unfold tokens, pending, sys_initial. cbn [mutexes condvars sem threads].
    rewrite !occs_replicate by done. done.
  - intros m x w [-> _]%lookup_replicate Hw. by apply elem_of_nil in Hw.
  - intros c q w [-> _]%lookup_replicate Hw. by apply elem_of_nil in Hw.
  - intros m x [-> _]%lookup_replicate. unfold holders, sys_initial. cbn [threads taken].
    by rewrite occs_replicate.
  - intros t c m Ht. by rewrite Hp in Ht.
  - intros m x [-> _]%lookup_replicate. done.
Qed.

Lemma inv_reachable nm nc nt s : reachable nm nc nt s -> sys_inv s.
Proof.
  induction 1 as [|s t a s' _ IH Hs]; [apply inv_initial|]. split.
  - by eapply tokens_step.
  - by eapply mutex_step.
  - by eapply condvar_step.
  - by eapply held_step.
  - by eapply wait_step.
  - by eapply progress_step.
Qed.

(** ** Properties *)

(** Some thread is on its way to the mutex: before the section of [lock], or asleep
    with its semaphore raised or a thread about to raise it. *)
Definition woken (s : Sys) (t : nat) : Prop := (0 < sem s t)%nat \/ exists v, t ∈ wakes (pc_of s v).
Definition on_its_way (s : Sys) (m : nat) : Prop :=
  exists t, pc_of s t = AtTry m \/ (pc_of s t = AtSleep m /\ woken s t).

(** A thread that awaits a wake-up and is in no queue is woken. *)
Lemma unqueued_woken s t :
  sys_inv s -> awaits (pc_of s t) = 1%nat ->
  (forall m x, mutexes s !! m = Some x -> t ∉ waiters x) ->
  (forall c q, condvars s !! c = Some q -> t ∉ q) -> woken s t.
Proof.
  intros Hi Ha Hm Hc. pose proof (iv_tokens s Hi t) as Ht. rewrite Ha in Ht. unfold tokens in Ht.
  destruct (decide (occs waiters (mutexes s) t = O)) as [H1|(m & x & H1 & H2)%occs_pos]; [|by destruct (Hm m x H1)].
  destruct (decide (occs (fun q => q) (condvars s) t = O)) as [H2|(c & q & H2 & H3)%occs_pos]; [|by destruct (Hc c q H2)].
  destruct (decide (pending s t = O)) as [H3|(v & th & H3 & H4)%occs_pos]; [left; lia|].
  right. exists v. unfold pc_of. by rewrite H3.
Qed.

Lemma asleep_woken s t m x :
  sys_inv s -> mutexes s !! m = Some x -> pc_of s t = AtSleep m -> t ∉ waiters x -> woken s t.
Proof.
  intros Hi Hm Hp Hn. apply unqueued_woken; [done|by rewrite Hp| |].
  - intros m' x' Hm' Hw. pose proof (iv_mutex s Hi m' x' t Hm' Hw). congruence.
  - intros c q Hc Hw. pose proof (iv_condvar s Hi c q t Hc Hw) as E. by rewrite Hp in E.
Qed.

Lemma held_lookup s t m : m ∈ held_of s t -> exists th, threads s !! t = Some th /\ m ∈ th_held th.
Proof. unfold held_of. case_match; [eauto|]. intros Hm. by apply elem_of_nil in Hm. Qed.

(** C19: In every state that threads reach by locking, trying, unlocking, waiting,
    signalling and broadcasting in any interleaving on any number of mutexes and
    condition variables, at most one thread holds a mutex, exactly when it is marked
    taken, and no wake-up is lost: while it is free and a thread sleeps in [lock],
    some thread is on its way to take it. *)
Theorem mutex_exclusion_and_wakeup nm nc nt s m x :
  reachable nm nc nt s -> mutexes s !! m = Some x ->
  (forall t u, m ∈ held_of s t -> m ∈ held_of s u -> t = u) /\
  (taken x = true <-> exists t, m ∈ held_of s t) /\
  (taken x = false -> forall t, pc_of s t = AtSleep m -> on_its_way s m).
Proof.
  intros Hr%inv_reachable Hm. pose proof (iv_held s Hr m x Hm) as Hh. split_and!.
  - intros t u (th & Ht & H1%occ_elem)%held_lookup (uh & Hu & H2%occ_elem)%held_lookup.
    destruct (decide (t = u)) as [|Hne]; [done|]. exfalso.
    pose proof (occs_two th_held _ _ _ _ _ m Hne Ht Hu) as E. fold (holders s m) in E. destruct (taken x); lia.
  - split.
    + intros Htk. rewrite Htk in Hh. destruct (occs_pos th_held (threads s) m) as (t & th & Ht & Hin).
      { fold (holders s m). lia. }
      exists t. unfold held_of. by rewrite Ht.
    + intros (t & (th & Ht & H1%occ_elem)%held_lookup). pose proof (occs_lookup th_held _ _ _ m Ht) as E.
      fold (holders s m) in E. destruct (taken x); [done|lia].
  - intros Hf t Hp. destruct (decide (t ∈ waiters x)) as [Hin|Hin].
    + destruct (iv_progress s Hr m x Hm Hf) as (u & [Hu|[Hu Hn]]); [intros E; rewrite E in Hin; by apply elem_of_nil in Hin|..].
      * exists u. auto.
      * exists u. right. split; [done|]. by eapply asleep_woken.
    + exists t. right. split; [done|]. by eapply asleep_woken.
Qed.

(** C20: Condition variables neither lose nor invent wake-ups: a thread asleep in
    [wait] cannot go on while its entry is queued, and once [signal] or [broadcast]
    has taken the entry its semaphore is raised or a thread is about to raise it.
    [signal] takes the longest waiting entry, [broadcast] all of them, and [wait]
    only returns after it has locked the mutex again. *)
Theorem condvar_wakeups nm nc nt s c q :
  reachable nm nc nt s -> condvars s !! c = Some q ->
  NoDup q /\
  (forall t m, pc_of s t = WaitSleep c m ->
     (t ∈ q -> step t Continue s = None) /\
     (t ∉ q -> woken s t) /\
     (forall s', step t Continue s = Some s' -> pc_of s' t = AtTry m)) /\
  (forall t s', step t (DoSignal c) s = Some s' ->
     condvars s' !! c = Some (tail q) /\ wakes (pc_of s' t) = take 1 q) /\
  (forall t s', step t (DoBroadcast c) s = Some s' ->
     condvars s' !! c = Some [] /\ wakes (pc_of s' t) = q) /\
  (forall t m s', pc_of s t = AtTry m -> step t Continue s = Some s' -> pc_of s' t = Running ->
     m ∈ held_of s' t).
Proof.
  intros Hr%inv_reachable Hc. split_and!.
  - apply NoDup_ListNoDup, (List.NoDup_count_occ Nat.eq_dec). intros t. change (occ q t <= 1)%nat.
    pose proof (occs_lookup (fun q => q) _ _ _ t Hc) as E. cbn beta in E.
    pose proof (iv_tokens s Hr t) as Ht. unfold tokens in Ht.
    assert (awaits (pc_of s t) <= 1)%nat by (destruct (pc_of s t); cbn; lia). lia.
  - intros t m Hp. split_and!.
    + intros Hin. pose proof (queued_no_sem s t Hr ltac:(eauto)) as Hz. unfold step. unfold pc_of in Hp.
      destruct (threads s !! t) as [[p h]|]; [|done]. cbn in Hp. subst p. by rewrite Hz.
    + intros Hn. apply unqueued_woken; [done|by rewrite Hp| |].
      * intros m' x' Hm' Hw. pose proof (iv_mutex s Hr m' x' t Hm' Hw). congruence.
      * intros c' q' Hc' Hw. pose proof (iv_condvar s Hr c' q' t Hc' Hw) as E. rewrite Hp in E. cbn in E. congruence.
    + intros s' Hs. unfold pc_of in Hp. step_cases Hs; rewrite ?Ht in Hp; cbn in Hp; simplify_eq.
      read_pc s. by rewrite decide_True.
  - intros t s' Hs. step_cases Hs; (split; [cbn; apply list_lookup_insert_eq; by eapply lookup_lt_Some|]);
      read_pc s; by rewrite decide_True.
  - intros t s' Hs. step_cases Hs. split; [cbn; apply list_lookup_insert_eq; by eapply lookup_lt_Some|].
    read_pc s. rewrite decide_True, wakes_wake_pc, cv_drain_app by done. done.
  - intros t m s' Hp Hs. unfold pc_of in Hp. step_cases Hs; rewrite ?Ht in Hp; cbn in Hp; simplify_eq;
      read_pc s; rewrite !decide_True by done; [by left|done].
Qed.

(** ** Witnesses *)

(** One mutex, one condition variable, two threads. *)
Ltac run_step t a R :=
  eapply (reach_step _ _ _ _ t a) in R; [|reflexivity].

(** Thread 1 finds the mutex taken and sleeps; thread 0 unlocks and is about to wake it. *)
Lemma mutex_exclusion_and_wakeup_witness :
  exists s x, reachable 1 1 2 s /\ mutexes s !! 0%nat = Some x /\ taken x = false /\
    pc_of s 1 = AtSleep 0 /\ on_its_way s 0.
Proof.
  pose proof (reach_initial 1 1 2) as R.
  run_step 0%nat (DoLock 0) R. run_step 0%nat Continue R. run_step 1%nat (DoLock 0) R.
  run_step 1%nat Continue R. run_step 0%nat (DoUnlock 0) R.
  eexists _, _. split; [exact R|]. split; [reflexivity|]. split; [reflexivity|]. split; [reflexivity|].
  refine (proj2 (proj2 (mutex_exclusion_and_wakeup 1 1 2 _ 0 _ R eq_refl)) _ 1%nat _); reflexivity.
Defined.

(** Thread 0 waits and sleeps; thread 1 signals while it holds the mutex. *)
Lemma condvar_wakeups_witness :
  exists s, reachable 1 1 2 s /\ pc_of s 0 = WaitSleep 0 0 /\ woken s 0.
Proof.
  pose proof (reach_initial 1 1 2) as R.
  run_step 0%nat (DoLock 0) R. run_step 0%nat Continue R. run_step 0%nat (DoWait 0 0) R.
  run_step 0%nat Continue R. run_step 1%nat (DoLock 0) R. run_step 1%nat Continue R.
  run_step 1%nat (DoSignal 0) R.
  eexists. split; [exact R|]. split; [reflexivity|].
  destruct (condvar_wakeups 1 1 2 _ 0 [] R eq_refl) as (_ & Hw & _).
  destruct (Hw 0%nat 0%nat eq_refl) as (_ & Hn & _). apply Hn, not_elem_of_nil.
Defined.
