(* ===== verification/RecursiveMutex.v ===== *)
(** * The recursive mutex among threads (monza-libcxx/src/threading.cc)

    [CustomRecursiveMutexImpl] with everything between two accesses to shared memory interleaving: the
    load of [taken_thread] before the loop, the section under the spin lock, the store of the owner after
    it, and the store of no owner after the section of [unlock]. Threads have identifiers
    from 1 on, as [get_thread_id] gives them. [th_held] of a thread lists a mutex once for each call of [lock] that
    has returned and was not undone. Used without nesting it is the plain mutex of [LockSystem]; nested it is
    not a mutex. *)

From S2P Require Import Prelude Locks LockSystem.

(** ** The system *)

(** Between calls; before the section of [lock]; with the mutex and the owner still to store; asleep with
    the entry queued; in [trylock] after the load; in [unlock] after the section; with a thread to wake. *)
Inductive rec_pc : Type :=
| RRun
| RTry (m : nat)
| RStore (m : nat)
| RSleep (m : nat)
| RTryOnce (m : nat)
| RClear (m : nat) (e : option nat)
| RWake (w : nat).

Record RecThread : Type := mkRecThread { rt_pc : rec_pc; rt_held : list nat }.

Record RecSys : Type := mkRecSys { rs_mutexes : list RecMutex; rs_sem : nat -> nat; rs_threads : list RecThread }.

Definition rec_set (t : nat) (p : rec_pc) (held : list nat) (s : RecSys) : RecSys :=
  mkRecSys (rs_mutexes s) (rs_sem s) (<[t := mkRecThread p held]> (rs_threads s)).
Definition rec_set_mutex (m : nat) (x : RecMutex) (s : RecSys) : RecSys :=
  mkRecSys (<[m := x]> (rs_mutexes s)) (rs_sem s) (rs_threads s).
Definition rec_set_sem (t n : nat) (s : RecSys) : RecSys :=
  mkRecSys (rs_mutexes s) (upd (rs_sem s) t n) (rs_threads s).

(** One call undone. *)
Fixpoint drop_one (m : nat) (held : list nat) : list nat :=
  match held with [] => [] | x :: l => if decide (x = m) then l else x :: drop_one m l end.

(** The exchange of [trylock], outside the spin lock. *)
Definition rec_exchange (m : RecMutex) : bool * RecMutex :=
  (negb (r_taken m), mkRec true (r_thread m) (r_waiters m)).

(** One step of thread [t]; [None] where it cannot take one. *)
Definition rec_step (t : nat) (a : action) (s : RecSys) : option RecSys :=
  if decide (t = O) then None else
  match rs_threads s !! t with
  | None => None
  | Some (mkRecThread p held) =>
      match p, a with
      | RRun, DoLock m =>
          x ← rs_mutexes s !! m;
          Some (if rec_owned t x then rec_set t RRun (m :: held) s else rec_set t (RTry m) held s)
      | RTry m, Continue =>
          x ← rs_mutexes s !! m;
          let '(ok, x') := rec_lock_section t x in
          Some (rec_set t (if ok : bool then RStore m else RSleep m) held (rec_set_mutex m x' s))
      | RStore m, Continue =>
          x ← rs_mutexes s !! m;
          Some (rec_set t RRun (m :: held) (rec_set_mutex m (rec_store_thread t x) s))
      | RSleep m, Continue =>
          match rs_sem s t with S n => Some (rec_set t (RTry m) held (rec_set_sem t n s)) | O => None end
      | RRun, DoTrylock m =>
          x ← rs_mutexes s !! m; Some (rec_set t (if rec_owned t x then RRun else RTryOnce m) held s)
      | RTryOnce m, Continue =>
          x ← rs_mutexes s !! m;
          let '(ok, x') := rec_exchange x in
          Some (rec_set t (if ok : bool then RStore m else RRun) held (rec_set_mutex m x' s))
      | RRun, DoUnlock m =>
          x ← rs_mutexes s !! m;
          if decide (m ∈ held) then
            let '(e, x') := rec_unlock_section x in
            Some (rec_set t (RClear m e) (drop_one m held) (rec_set_mutex m x' s))
          else None
      | RClear m e, Continue =>
          x ← rs_mutexes s !! m;
          Some (rec_set t (match e with Some w => RWake w | None => RRun end) held (rec_set_mutex m (rec_store_thread 0 x) s))
      | RWake w, Continue => Some (rec_set t RRun held (rec_set_sem w (S (rs_sem s w)) s))
      | _, _ => None
      end
  end.

(** The functions [__libcpp_recursive_mutex_] ending in these names: construction in place, the calls that forward, and a
    destructor that does nothing. *)
Inductive libcpp_recursive_call : Type := RecInit | RecLock | RecTrylock | RecUnlock | RecDestroy.

Definition libcpp_recursive (t m : nat) (f : libcpp_recursive_call) (s : RecSys) : option RecSys :=
  match f with
  | RecInit => Some (rec_set_mutex m rec_initial s)
  | RecLock => rec_step t (DoLock m) s
  | RecTrylock => rec_step t (DoTrylock m) s
  | RecUnlock => rec_step t (DoUnlock m) s
  | RecDestroy => Some s
  end.

Definition rec_sys_initial (nm nt : nat) : RecSys :=
  mkRecSys (replicate nm rec_initial) (fun _ => O) (replicate nt (mkRecThread RRun [])).

Fixpoint rec_run (sched : list (nat * action)) (s : RecSys) : option RecSys :=
  match sched with [] => Some s | (t, a) :: sched' => s' ← rec_step t a s; rec_run sched' s' end.

(** The thread does not ask for a mutex it has. *)
Definition flat (t : nat) (a : action) (s : RecSys) : bool :=
  match a, rs_threads s !! t with
  | (DoLock m | DoTrylock m), Some th => bool_decide (m ∉ rt_held th)
  | _, _ => true
  end.

Inductive rec_reachable (nm nt : nat) : RecSys -> Prop :=
| rec_reach_initial : rec_reachable nm nt (rec_sys_initial nm nt)
| rec_reach_step s t a s' :
    rec_reachable nm nt s -> flat t a s = true -> rec_step t a s = Some s' -> rec_reachable nm nt s'.

(** ** The plain mutex behind it *)

Definition plain_mutex (x : RecMutex) : Mutex := mkMutex (r_taken x) (r_waiters x).

(** A thread that has still to store the owner has the mutex; one that has still to clear it does not. *)
Definition plain_thread (th : RecThread) : Thread :=
  match rt_pc th with
  | RRun | RTryOnce _ => mkThread Running (rt_held th)
  | RTry m => mkThread (AtTry m) (rt_held th)
  | RStore m => mkThread Running (m :: rt_held th)
  | RSleep m => mkThread (AtSleep m) (rt_held th)
  | RClear _ e => mkThread (wake_pc (of_entry e)) (rt_held th)
  | RWake w => mkThread (AtWake [w]) (rt_held th)
  end.

Definition plain (s : RecSys) : Sys :=
  mkSys (plain_mutex <$> rs_mutexes s) [] (rs_sem s) (plain_thread <$> rs_threads s).

(** ** Invariant *)

(** The mutexes a thread has or asks for. The owner that is stored has the mutex or is about to clear it, and no
    mutex is held or asked for twice. *)
Definition claims (th : RecThread) : list nat :=
  match rt_pc th with RTry m | RStore m | RSleep m | RTryOnce m => m :: rt_held th | _ => rt_held th end.

Record rec_ok (s : RecSys) : Prop := {
  ro_owner : forall m x, rs_mutexes s !! m = Some x -> r_thread x <> O ->
    exists th, rs_threads s !! r_thread x = Some th /\ (m ∈ rt_held th \/ exists e, rt_pc th = RClear m e);
  ro_nodup : forall t th, rs_threads s !! t = Some th -> NoDup (claims th);
}.

Lemma drop_held_absent m held : m ∉ held -> drop_held m held = held.
Proof.
  unfold drop_held. induction held as [|x l IH]; intros Hm; [done|]. rewrite not_elem_of_cons in Hm. destruct Hm as [Hx Hl].
  rewrite filter_cons, decide_True by congruence. by rewrite IH.
Qed.

Lemma drop_one_held m held : NoDup held -> drop_one m held = drop_held m held.
Proof.
  induction held as [|x l IH]; intros Hnd; [done|]. apply NoDup_cons in Hnd as [Hx Hnd]. cbn [drop_one]. unfold drop_held.
  rewrite filter_cons. destruct (decide (x = m)) as [->|Hne]; [rewrite decide_False by tauto|by rewrite decide_True, IH].
  symmetry. by apply drop_held_absent.
Qed.

Lemma plain_set t p held ms sm l :
  plain (mkRecSys ms sm (<[t := mkRecThread p held]> l)) =
  mkSys (plain_mutex <$> ms) [] sm (<[t := plain_thread (mkRecThread p held)]> (plain_thread <$> l)).
Proof. unfold plain. cbn. by rewrite list_fmap_insert. Qed.

(** A step that nothing of the plain mutex shows. *)
Lemma plain_same t th th' ms ms' sm l :
  l !! t = Some th -> plain_thread th' = plain_thread th -> plain_mutex <$> ms' = plain_mutex <$> ms ->
  plain (mkRecSys ms' sm (<[t := th']> l)) = plain (mkRecSys ms sm l).
Proof.
  intros Ht He Hm. unfold plain. cbn. rewrite list_fmap_insert, He, Hm, list_insert_id; [done|]. by rewrite list_lookup_fmap, Ht.
Qed.

Lemma plain_store (m : nat) x u (ms : list RecMutex) : ms !! m = Some x -> plain_mutex <$> <[m := rec_store_thread u x]> ms = plain_mutex <$> ms.
Proof. intros Hm. rewrite list_fmap_insert. apply list_insert_id. by rewrite list_lookup_fmap, Hm. Qed.

Lemma rec_ok_update s t p held ms sm :
  rec_ok s -> NoDup (claims (mkRecThread p held)) -> is_Some (rs_threads s !! t) ->
  (forall m x, ms !! m = Some x -> r_thread x <> O ->
     (r_thread x = t /\ (m ∈ held \/ exists e, p = RClear m e)) \/
     (r_thread x <> t /\ exists y, rs_mutexes s !! m = Some y /\ r_thread y = r_thread x)) ->
  rec_ok (mkRecSys ms sm (<[t := mkRecThread p held]> (rs_threads s))).
Proof.
  intros [Ho Hn] Hnd [th0 Ht] Hm. split; cbn.
  - intros m x Hx Hx0. destruct (Hm m x Hx Hx0) as [[-> Hc]|(Hne & y & Hy & Hyx)].
    + exists (mkRecThread p held). split; [|done]. apply list_lookup_insert_eq. by eapply lookup_lt_Some.
    + rewrite list_lookup_insert_ne by done. rewrite <- Hyx. apply (Ho m y Hy). by rewrite Hyx.
  - intros u th. destruct (decide (u = t)) as [->|Hne].
    + rewrite list_lookup_insert_eq by (by eapply lookup_lt_Some). by intros [= <-].
    + rewrite list_lookup_insert_ne by done. apply Hn.
Qed.

(** The owner that is stored is either another thread, or [t] with the mutex. *)
Lemma owner_cases s t th m x :
  rec_ok s -> rs_threads s !! t = Some th -> (forall m' e, rt_pc th <> RClear m' e) -> rs_mutexes s !! m = Some x -> r_thread x <> O ->
  (r_thread x = t /\ m ∈ rt_held th) \/ (r_thread x <> t /\ exists y, rs_mutexes s !! m = Some y /\ r_thread y = r_thread x).
Proof.
  intros [Ho _] Ht Hp Hx Hx0. destruct (decide (r_thread x = t)) as [E|Hne]; [left|right; eauto]. split; [done|].
  destruct (Ho m x Hx Hx0) as (th' & Ht' & [Hin|[e He]]); rewrite E in Ht'; [congruence|].
  exfalso. apply (Hp m e). congruence.
Qed.

(** Which mutexes the step changes, and the owner each has afterwards. *)
Lemma insert_owner s t th m x x' (held : list nat) p :
  rec_ok s -> rs_threads s !! t = Some th -> rs_mutexes s !! m = Some x ->
  (r_thread x' = O \/ r_thread x' = t /\ m ∈ held \/ r_thread x' = r_thread x) ->
  (forall m' y, rs_mutexes s !! m' = Some y -> r_thread y = t -> t <> O -> (m' = m -> r_thread x' = t) ->
     m' ∈ held \/ exists e, p = RClear m' e) ->
  forall m' y, <[m := x']> (rs_mutexes s) !! m' = Some y -> r_thread y <> O ->
    (r_thread y = t /\ (m' ∈ held \/ exists e, p = RClear m' e)) \/
    (r_thread y <> t /\ exists z, rs_mutexes s !! m' = Some z /\ r_thread z = r_thread y).
Proof.
  intros Hok Ht Hx Hx' Hold m' y Hy Hy0. destruct (decide (m' = m)) as [->|Hne].
  - rewrite list_lookup_insert_eq in Hy by (by eapply lookup_lt_Some). injection Hy as <-.
    destruct (decide (r_thread x' = t)) as [E|Hne].
    + left. split; [done|]. destruct Hx' as [?|[[_ ?]|E']]; [done|by left|].
      apply (Hold m x Hx); [congruence|congruence|done].
    + right. split; [done|]. exists x. split; [done|]. destruct Hx' as [?|[[? _]|E']]; congruence.
  - rewrite list_lookup_insert_ne in Hy by done. destruct (decide (r_thread y = t)) as [E|]; [left|right; eauto].
    split; [done|]. apply (Hold m' y Hy E); [congruence|done].
Qed.

(** What a thread that clears nothing owns, it holds. *)
Lemma owned_held s t th m y :
  rec_ok s -> rs_threads s !! t = Some th -> (forall m' e, rt_pc th <> RClear m' e) -> rs_mutexes s !! m = Some y ->
  r_thread y = t -> t <> O -> m ∈ rt_held th.
Proof.
  intros Hok Ht Hp Hy E Ht0. destruct (owner_cases s t th m y Hok Ht Hp Hy ltac:(congruence)) as [[_ ?]|[? _]]; done.
Qed.

Lemma in_drop_one m m' (held : list nat) : m' ∈ held -> m' <> m -> m' ∈ drop_one m held.
Proof.
  induction held as [|x l IH]; intros Hin Hne; [done|]. cbn. apply elem_of_cons in Hin as [->|Hin].
  - rewrite decide_False by done. by left.
  - case_decide; [done|]. right. auto.
Qed.

Lemma drop_one_sublist m held : drop_one m held `sublist_of` held.
Proof.
  induction held as [|x l IH]; [constructor|]. cbn. case_decide; [by apply sublist_cons|by apply sublist_skip].
Qed.

Lemma not_owned s t th m x :
  rec_ok s -> rs_threads s !! t = Some th -> rt_pc th = RRun -> rs_mutexes s !! m = Some x -> t <> O ->
  m ∉ rt_held th -> rec_owned t x = false.
Proof.
  intros Hok Ht Hp Hx Ht0 Hm. apply Nat.eqb_neq. intros E. apply Hm.
  apply (owned_held s t th m x); try done. by rewrite Hp.
Qed.

Lemma rec_step_ok s t a s' : rec_ok s -> flat t a s = true -> rec_step t a s = Some s' -> rec_ok s'.
Proof.
  intros Hok Hf Hs. unfold rec_step in Hs. case_decide as Ht0; [done|].
  destruct (rs_threads s !! t) as [[p held]|] eqn:Ht; [|done]. pose proof (ro_nodup s Hok t _ Ht) as Hnd.
  unfold flat in Hf. rewrite Ht in Hf. cbn [rt_held] in Hf.
  assert (forall m' y, (forall m e, p <> RClear m e) -> rs_mutexes s !! m' = Some y -> r_thread y = t -> m' ∈ held) as Hown
    by (intros m' y Hp Hy E; by apply (owned_held s t _ m' y Hok Ht)).
  assert (forall m' y, (forall m e, p <> RClear m e) -> rs_mutexes s !! m' = Some y -> r_thread y <> O ->
     (r_thread y = t /\ m' ∈ held) \/ (r_thread y <> t /\ exists z, rs_mutexes s !! m' = Some z /\ r_thread z = r_thread y)) as Hcase
    by (intros m' y Hp Hy E; by apply (owner_cases s t _ m' y Hok Ht)).
  destruct p as [|m|m|m|m|m e|w], a as [m'|m'|m'|c m'|c|c|]; try done; cbn [claims rt_pc rt_held] in Hnd;
    try (destruct (rs_mutexes s !! _) as [x|] eqn:Hx; [|done]); cbn [mbind option_bind] in Hs.
  - apply bool_decide_eq_true in Hf. rewrite (not_owned s t _ m' x Hok Ht) in Hs by done. injection Hs as <-.
    apply (rec_ok_update s); [done|by apply NoDup_cons|by eexists|]. intros m2 y Hy Hy0. destruct (Hcase m2 y ltac:(done) Hy Hy0) as [[? ?]|?]; auto.
  - apply bool_decide_eq_true in Hf. rewrite (not_owned s t _ m' x Hok Ht) in Hs by done. injection Hs as <-.
    apply (rec_ok_update s); [done|by apply NoDup_cons|by eexists|]. intros m2 y Hy Hy0. destruct (Hcase m2 y ltac:(done) Hy Hy0) as [[? ?]|?]; auto.
  - case_decide; [|done]. destruct (rec_unlock_section x) as [e x'] eqn:Ex. injection Hs as <-.
    apply (rec_ok_update s); [done|exact (sublist_NoDup _ _ Hnd (drop_one_sublist m' held))|by eexists|].
    apply (insert_owner s t (mkRecThread RRun held) m' x x'); try done.
    + right. right. unfold rec_unlock_section in Ex. case_match; by injection Ex as <- <-.
    + intros m2 y Hy E _ _. destruct (decide (m2 = m')) as [->|Hne]; [right; by exists e|left].
      apply in_drop_one; [by apply (Hown m2 y)|done].
  - destruct (rec_lock_section t x) as [ok x'] eqn:Ex. injection Hs as <-.
    apply (rec_ok_update s); [done|by destruct ok|by eexists|].
    apply (insert_owner s t (mkRecThread (RTry m) held) m x x'); try done.
    + right. right. unfold rec_lock_section in Ex. case_match; by injection Ex as <- <-.
    + intros m2 y Hy E _ _. left. by apply (Hown m2 y).
  - injection Hs as <-. apply (rec_ok_update s); [done|done|by eexists|].
    apply (insert_owner s t (mkRecThread (RStore m) held) m x); try done; [right; left; split; [done|by left]|].
    intros m2 y Hy E _ _. left. right. by apply (Hown m2 y).
  - case_match; [done|]. injection Hs as <-. apply (rec_ok_update s); [done|done|by eexists|].
    intros m2 y Hy Hy0. destruct (Hcase m2 y ltac:(done) Hy Hy0) as [[? ?]|?]; auto.
  - injection Hs as <-. apply (rec_ok_update s); [done|by destruct (r_taken x); [apply NoDup_cons in Hnd as [_ ?]|]|by eexists|].
    apply (insert_owner s t (mkRecThread (RTryOnce m) held) m x); try done; [by right; right|].
    intros m2 y Hy E _ _. left. by apply (Hown m2 y).
  - injection Hs as <-. apply (rec_ok_update s); [done|by destruct e|by eexists|].
    apply (insert_owner s t (mkRecThread (RClear m e) held) m x); try done; [by left|].
    intros m2 y Hy E Hn Hm. destruct (ro_owner s Hok m2 y Hy ltac:(congruence)) as (th & Hth & [Hin|[e' He]]); rewrite E, Ht in Hth; injection Hth as <-.
    + by left.
    + cbn in He. injection He as -> ->. by specialize (Hm eq_refl).
  - injection Hs as <-. apply (rec_ok_update s); [done|done|by eexists|].
    intros m2 y Hy Hy0. destruct (Hcase m2 y ltac:(done) Hy Hy0) as [[? ?]|?]; auto.
Qed.

(** Each step of a thread that does not nest is one of the plain mutex, or nothing of it. *)
Lemma rec_step_plain s t a s' :
  rec_ok s -> flat t a s = true -> rec_step t a s = Some s' ->
  plain s' = plain s \/ exists a', step t a' (plain s) = Some (plain s').
Proof.
  intros Hok Hf Hs. unfold rec_step in Hs. case_decide as Ht0; [done|].
  destruct (rs_threads s !! t) as [[p held]|] eqn:Ht; [|done]. pose proof (ro_nodup s Hok t _ Ht) as Hnd.
  unfold flat in Hf. rewrite Ht in Hf. cbn [rt_held] in Hf.
  assert (threads (plain s) !! t = Some (plain_thread (mkRecThread p held))) as Hpt by (cbn; by rewrite list_lookup_fmap, Ht).
  assert (forall m x, rs_mutexes s !! m = Some x -> mutexes (plain s) !! m = Some (plain_mutex x)) as Hpm
    by (intros m x Hm; cbn; by rewrite list_lookup_fmap, Hm).
  destruct s as [ms sm ths]; cbn [rs_mutexes rs_sem rs_threads] in *.
  destruct p as [|m|m|m|m|m e|w], a as [m'|m'|m'|c m'|c|c|]; try done; cbn [claims rt_pc rt_held] in Hnd;
    try (destruct (ms !! _) as [x|] eqn:Hx; [|done]); cbn [mbind option_bind] in Hs;
    unfold rec_set, rec_set_mutex, rec_set_sem in Hs; cbn [rs_mutexes rs_sem rs_threads] in Hs.
  - apply bool_decide_eq_true in Hf. rewrite (not_owned _ t _ m' x Hok Ht) in Hs by done. injection Hs as <-. right.
    exists (DoLock m'). unfold step. rewrite Hpt. cbn [plain_thread rt_pc]. rewrite (Hpm _ _ Hx). by rewrite plain_set.
  - apply bool_decide_eq_true in Hf. rewrite (not_owned _ t _ m' x Hok Ht) in Hs by done. injection Hs as <-. left.
    by eapply plain_same.
  - case_decide as Hin; [|done]. destruct (rec_unlock_section x) as [e x'] eqn:Ex. injection Hs as <-. right.
    exists (DoUnlock m'). unfold step. rewrite Hpt. cbn [plain_thread rt_pc rt_held]. rewrite (Hpm _ _ Hx), decide_True by done.
    unfold rec_unlock_section in Ex. unfold unlock_section. cbn [waiters plain_mutex].
    destruct (r_waiters x) as [|w ws]; injection Ex as <- <-; rewrite plain_set, list_fmap_insert, drop_one_held by done; done.
  - right. exists Continue. unfold step. rewrite Hpt. cbn [plain_thread rt_pc rt_held]. rewrite (Hpm _ _ Hx).
    unfold rec_lock_section in Hs. unfold lock_section. cbn [taken waiters plain_mutex].
    destruct (r_taken x); cbn [negb] in *; injection Hs as <-; rewrite plain_set, list_fmap_insert; done.
  - injection Hs as <-. left. eapply plain_same; [done|done|]. by apply plain_store.
  - right. exists Continue. unfold step. rewrite Hpt. cbn [plain_thread rt_pc rt_held sem plain rs_sem].
    destruct (sm t) as [|n]; [done|]. injection Hs as <-. by rewrite plain_set.
  - right. exists (DoTrylock m). unfold step. rewrite Hpt. cbn [plain_thread rt_pc rt_held]. rewrite (Hpm _ _ Hx).
    unfold rec_exchange in Hs. unfold trylock. cbn [taken waiters plain_mutex].
    destruct (r_taken x) eqn:E; cbn [negb] in *; injection Hs as <-; rewrite plain_set, list_fmap_insert; done.
  - injection Hs as <-. left. eapply plain_same; [done| |by apply plain_store]. by destruct e.
  - right. exists Continue. unfold step. rewrite Hpt. cbn [plain_thread rt_pc rt_held]. injection Hs as <-. by rewrite plain_set.
Qed.

Lemma replicate_lookup_eq {A} n (x y : A) i : replicate n x !! i = Some y -> y = x.
Proof. intros H. by apply lookup_replicate in H as [-> _]. Qed.

(** C21: Threads that do not nest have a mutex. However threads lock, try and unlock recursive mutexes in any
    interleaving, where no thread asks for a mutex it has, every state is one that the same threads reach
    with the plain mutex, with the same waiting threads, the same wake-ups and the same holders: neither the owner that is stored after
    the lock is taken nor the one that is cleared after it has been released shows. *)
Theorem recursive_mutex_flat nm nt s :
  rec_reachable nm nt s -> reachable nm 0 nt (plain s) /\ rec_ok s.
Proof.
  induction 1 as [|s t a s' _ [IH Hok] Hf Hs].
  - split.
    + replace (plain (rec_sys_initial nm nt)) with (sys_initial nm 0 nt); [constructor|].
      unfold plain, sys_initial, rec_sys_initial. cbn. by rewrite !fmap_replicate.
    + split; cbn.
      * intros m x ->%replicate_lookup_eq. done.
      * intros t th ->%replicate_lookup_eq. constructor.
  - split; [|by eapply rec_step_ok]. destruct (rec_step_plain s t a s' Hok Hf Hs) as [->|[a' Ha]]; [done|].
    by eapply reach_step.
Qed.

(** Threads that nest have none. A thread that has locked twice and unlocked once still holds the mutex, and another
    thread gets it too. And a thread that has the mutex can fall asleep on it for good: the thread before it clears the owner after the
    mutex has changed hands, and the nested lock of the new holder waits for a wake-up that only its own unlock could send. *)
Theorem recursive_mutex_nested :
  (exists s, rec_run [(1, DoLock 0); (1, Continue); (1, Continue); (1, DoLock 0); (1, DoUnlock 0); (1, Continue);
      (2, DoLock 0); (2, Continue); (2, Continue)]%nat (rec_sys_initial 1 3) = Some s /\
    rs_threads s !! 1%nat = Some (mkRecThread RRun [O]) /\ rs_threads s !! 2%nat = Some (mkRecThread RRun [O])) /\
  exists s, rec_run [(1, DoLock 0); (1, Continue); (1, Continue); (1, DoUnlock 0); (2, DoLock 0); (2, Continue);
      (2, Continue); (1, Continue); (2, DoLock 0); (2, Continue)]%nat (rec_sys_initial 1 3) = Some s /\
    rs_threads s !! 1%nat = Some (mkRecThread RRun []) /\ rs_threads s !! 2%nat = Some (mkRecThread (RSleep O) [O]) /\
    rs_sem s 2%nat = O /\ rs_mutexes s = [mkRec true 0 [2%nat]].
Proof. split; eexists; (split; [reflexivity|]); vm_compute; auto. Qed.

(** A schedule without nesting. *)
Fixpoint flat_run (sched : list (nat * action)) (s : RecSys) : option RecSys :=
  match sched with
  | [] => Some s
  | (t, a) :: sched' => if flat t a s then s' ← rec_step t a s; flat_run sched' s' else None
  end.

Lemma flat_run_reachable nm nt sched : forall s s', rec_reachable nm nt s -> flat_run sched s = Some s' -> rec_reachable nm nt s'.
Proof.
  induction sched as [|[t a] sched IH]; intros s s' Hr Hs; cbn in Hs; [by injection Hs as <-|].
  destruct (flat t a s) eqn:Ef; [|done]. destruct (rec_step t a s) as [s1|] eqn:Es; [|done].
  apply (IH s1 s'); [by eapply rec_reach_step|done].
Qed.

(** Thread 1 has the mutex and thread 2 sleeps. *)
Lemma recursive_mutex_flat_witness :
  exists s, rec_reachable 1 3 s /\ reachable 1 0 3 (plain s) /\
    threads (plain s) !! 1%nat = Some (mkThread Running [O]) /\ threads (plain s) !! 2%nat = Some (mkThread (AtSleep O) []).
Proof.
  destruct (flat_run [(1, DoLock 0); (1, Continue); (1, Continue); (2, DoLock 0); (2, Continue)]%nat (rec_sys_initial 1 3))
    as [s|] eqn:E; [|vm_compute in E; discriminate E].
  assert (rec_reachable 1 3 s) as Hr by (eapply flat_run_reachable; [constructor|exact E]).
  exists s. split; [exact Hr|]. split; [exact (proj1 (recursive_mutex_flat 1 3 s Hr))|].
  vm_compute in E. injection E as <-. split; reflexivity.
Defined.
