(* ===== verification/Semaphore.v ===== *)
(** * Spinlock and single waiter semaphore

    [Spinlock] and [ScopedSpinlock] (include/public/spinlock.h, crt/thread.cc) and
    [SingleWaiterSemaphore] (include/public/semaphore.h, crt/thread.cc) with
    [ping_core_sync] (arch/x86_64/cores.cc) and the halting loop it relies on,
    [acquire_semaphore] and the interrupt handler (arch/x86_64/cores.asm,
    inc/macros.asm). Each atomic access, and each instruction of the halting loop, is
    one step of a machine; interrupts come between any two of them. The counter is a
    natural number: 2^64 releases without an acquire are not considered. *)

From S2P Require Import Prelude.
From Stdlib Require Import Arith.
Open Scope nat_scope.

(** ** The spinlock *)

(** A thread is outside, spinning in the constructor of [ScopedSpinlock], holding the
    lock, or past an explicit [release] with the object still alive. *)
Inductive scoped_pc : Type := SOut | SSpin | SHeld | SReleased.

Record Spin : Type := mkSpin { spin_lock : nat; spin_threads : list scoped_pc }.

Inductive spin_action : Type :=
| Construct (i : nat)   (** enter the constructor *)
| Exchange (i : nat)    (** one iteration of [Spinlock::acquire] *)
| Release (i : nat)     (** explicit [ScopedSpinlock::release] *)
| Destruct (i : nat).   (** [~ScopedSpinlock] *)

Definition spin_set (i : nat) (pc : scoped_pc) (lock : nat) (s : Spin) : Spin :=
  mkSpin lock (<[i := pc]> (spin_threads s)).

(** [None] where the program of the thread cannot take the action. *)
Definition spin_step (a : spin_action) (s : Spin) : option Spin :=
  match a with
  | Construct i =>
      match spin_threads s !! i with
      | Some SOut => Some (spin_set i SSpin (spin_lock s) s)
      | _ => None
      end
  | Exchange i =>
      match spin_threads s !! i with
      | Some SSpin =>
          if Nat.eqb (spin_lock s) 0 then Some (spin_set i SHeld 1 s)
          else Some (spin_set i SSpin 1 s)
      | _ => None
      end
  | Release i =>
      match spin_threads s !! i with
      | Some SHeld | Some SReleased => Some (spin_set i SReleased 0 s)
      | _ => None
      end
  | Destruct i =>
      match spin_threads s !! i with
      | Some SHeld => Some (spin_set i SOut 0 s)
      | Some SReleased => Some (spin_set i SOut (spin_lock s) s)
      | _ => None
      end
  end.

(** ** The semaphore *)

(** The core that waits: outside [acquire]; before the call of [acquire_semaphore];
    at the instructions of the loop; halted; at the [jmp] after [hlt]; at the
    compare-and-exchange with the value read; before [waiter.store(0)]. *)
Inductive wait_pc : Type :=
| WOut | WCall | WLoad | WTest (v : nat) | WJnz (v : nat) | WHlt | WHalted | WJmp | WCas (v : nat)
| WClear.

(** A releaser: outside; after the [fetch_add] with the old value; in
    [ping_core_sync] before the first load, before an interrupt and before the test,
    with the generation loaded. *)
Inductive release_pc : Type :=
| ROut | RLoad (last : nat) | RGen | RSend (g : nat) | RCheck (g : nat).

Record Sem : Type := mkSem {
  value : nat;
  waiter : bool;
  generation : nat;
  ipi_pending : bool;
  wpc : wait_pc;
  rpcs : list release_pc;
}.

(** Between [loop_suspend] and [loop_hlt] the handler sends the core back. *)
Definition reset_suspend_check (pc : wait_pc) : wait_pc :=
  match pc with
  | WLoad | WTest _ | WJnz _ | WHlt => WLoad
  | pc => pc
  end.

(** An interrupt wakes a halted core, which resumes behind the [hlt]. *)
Definition leave_halt (pc : wait_pc) : wait_pc :=
  match pc with WHalted => WJmp | pc => pc end.

Definition set_wpc (pc : wait_pc) (s : Sem) : Sem :=
  mkSem (value s) (waiter s) (generation s) (ipi_pending s) pc (rpcs s).
Definition set_rpc (i : nat) (pc : release_pc) (s : Sem) : Sem :=
  mkSem (value s) (waiter s) (generation s) (ipi_pending s) (wpc s) (<[i := pc]> (rpcs s)).
Definition set_value (v : nat) (s : Sem) : Sem :=
  mkSem v (waiter s) (generation s) (ipi_pending s) (wpc s) (rpcs s).
Definition set_waiter (w : bool) (s : Sem) : Sem :=
  mkSem (value s) w (generation s) (ipi_pending s) (wpc s) (rpcs s).
Definition set_pending (b : bool) (s : Sem) : Sem :=
  mkSem (value s) (waiter s) (generation s) b (wpc s) (rpcs s).

(** What the semaphore's users see of a step. *)
Inductive label : Type := LAcquired | LReleased | LTau.

(** The next access or instruction of the waiting core: [SingleWaiterSemaphore::acquire]
    around the loop of [acquire_semaphore]. A halted core takes no step. *)
Definition waiter_step (s : Sem) : option (label * Sem) :=
  match wpc s with
  | WOut => Some (LTau, set_wpc WCall (set_waiter true s))
  | WCall => Some (LTau, set_wpc WLoad s)
  | WLoad => Some (LTau, set_wpc (WTest (value s)) s)
  | WTest v => Some (LTau, set_wpc (WJnz v) s)
  | WJnz v => Some (LTau, set_wpc (if Nat.eqb v 0 then WHlt else WCas v) s)
  | WHlt => Some (LTau, set_wpc WHalted s)
  | WHalted => None
  | WJmp => Some (LTau, set_wpc WLoad s)
  | WCas v =>
      if Nat.eqb (value s) v then Some (LAcquired, set_wpc WClear (set_value (v - 1) s))
      else Some (LTau, set_wpc WLoad s)
  | WClear => Some (LTau, set_wpc WOut (set_waiter false s))
  end.

(** The next access of releaser [i], a core other than the waiting one. *)
Definition releaser_step (i : nat) (s : Sem) : option (label * Sem) :=
  match rpcs s !! i with
  | None => None
  | Some ROut => Some (LReleased, set_rpc i (RLoad (value s)) (set_value (S (value s)) s))
  | Some (RLoad last) =>
      Some (LTau, set_rpc i (if Nat.eqb last 0 && waiter s then RGen else ROut) s)
  | Some RGen => Some (LTau, set_rpc i (RSend (generation s)) s)
  | Some (RSend g) => Some (LTau, set_rpc i (RCheck g) (set_pending true s))
  | Some (RCheck g) => Some (LTau, set_rpc i (if Nat.eqb g (generation s) then RSend g else ROut) s)
  end.

(** [wakeup_handler] on the waiting core. *)
Definition deliver_ipi (s : Sem) : option (label * Sem) :=
  if ipi_pending s then
    Some (LTau, mkSem (value s) (waiter s) (S (generation s)) false
                  (reset_suspend_check (leave_halt (wpc s))) (rpcs s))
  else None.

Inductive sem_action : Type :=
| Waiter | Releaser (i : nat) | Deliver
| Interrupt. (** an interrupt that has nothing to do with the semaphore *)

Definition sem_step (a : sem_action) (s : Sem) : option (label * Sem) :=
  match a with
  | Waiter => waiter_step s
  | Releaser i => releaser_step i s
  | Deliver => deliver_ipi s
  | Interrupt => Some (LTau, set_wpc (leave_halt (wpc s)) s)
  end.

Definition sem_init (n : nat) : Sem := mkSem 0 false 0 false WOut (replicate n ROut).

(** Runs with the labels seen so far, last first. *)
Inductive sem_run (n : nat) : list label -> Sem -> Prop :=
| sem_start : sem_run n [] (sem_init n)
| sem_next ls s a l s' : sem_run n ls s -> sem_step a s = Some (l, s') -> sem_run n (l :: ls) s'.

(** *** The abstract semaphore *)

(** A counter: a release adds one, an acquisition takes one and needs it. *)
Definition counter_step (l : label) (c : nat) : option nat :=
  match l with
  | LReleased => Some (S c)
  | LAcquired => match c with O => None | S c' => Some c' end
  | LTau => Some c
  end.

Fixpoint counter_run (ls : list label) : option nat :=
  match ls with [] => Some 0 | l :: ls' => c ← counter_run ls'; counter_step l c end.

(** *** The invariant *)

(** The core has read 0 and is on its way to sleep, or asleep. *)
Definition dozing (pc : wait_pc) : bool :=
  match pc with WTest 0 | WJnz 0 | WHlt | WHalted => true | _ => false end.

(** The releaser is on its way to interrupt the core. *)
Definition committed (gen : nat) (pc : release_pc) : bool :=
  match pc with
  | RLoad 0 | RGen | RSend _ => true
  | RCheck g => Nat.eqb g gen
  | _ => false
  end.

Definition wake_coming (s : Sem) : Prop :=
  ipi_pending s = true \/ exists i pc, rpcs s !! i = Some pc /\ committed (generation s) pc = true.

Record sem_inv (s : Sem) : Prop := {
  si_waiter : waiter s = match wpc s with WOut => false | _ => true end;
  si_cas : match wpc s with WCas 0 => False | _ => True end;
  si_wake : dozing (wpc s) = true -> value s > 0 -> wake_coming s;
}.

Lemma wake_coming_set s s' i pc pc' :
  rpcs s !! i = Some pc -> rpcs s' = <[i := pc']> (rpcs s) -> generation s' = generation s ->
  (ipi_pending s = true -> ipi_pending s' = true) ->
  (committed (generation s) pc = true -> ipi_pending s' = true \/ committed (generation s) pc' = true) ->
  wake_coming s -> wake_coming s'.
Proof.
  intros Hi Hr Hg Hp Hc [Hw|(j & pcj & Hj & Hcj)]; [left; auto|].
  destruct (decide (i = j)) as [->|Hne].
  - rewrite Hi in Hj. injection Hj as ->. destruct (Hc Hcj) as [|Hc']; [by left|].
    right. exists j, pc'. rewrite Hr, Hg. split; [|done].
    apply list_lookup_insert_eq. by apply lookup_lt_is_Some_1; eexists.
  - right. exists j, pcj. rewrite Hr, Hg, list_lookup_insert_ne by done. done.
Qed.

Lemma sem_init_inv n : sem_inv (sem_init n).
Proof. by split. Qed.

Lemma waiter_step_inv s l s' : sem_inv s -> waiter_step s = Some (l, s') -> sem_inv s'.
Proof.
  intros [Hw Hc Hk]. unfold waiter_step. destruct (wpc s) eqn:Ep; intros H;
    try (injection H as <- <-); try done; try (split; cbn; done).
  - split; cbn; [done|done|]. by destruct (value s); [lia|].
  - destruct v as [|v]; by split.
  - destruct (Nat.eqb _ _); injection H as <- <-; by split.
Qed.

Lemma releaser_step_inv i s l s' : sem_inv s -> releaser_step i s = Some (l, s') -> sem_inv s'.
Proof.
  intros [Hw Hc Hk]. unfold releaser_step. destruct (rpcs s !! i) as [pc|] eqn:Ei; [|done].
  assert (i < length (rpcs s)) as Hlt by (apply lookup_lt_is_Some_1; by eexists).
  destruct pc as [|last| |g|g]; intros H; injection H as <- <-; (split; cbn; [done|done|]); intros Hd Hv.
  - destruct (value s) as [|v] eqn:Ev.
    + right. exists i, (RLoad 0). cbn. split; [by apply list_lookup_insert_eq|done].
    + eapply wake_coming_set; [exact Ei|done|done|done|done|]. apply Hk; [done|lia].
  - eapply wake_coming_set; [exact Ei|done|done|done| |by apply Hk].
    intros Hcm. right. destruct last; [|done]. rewrite Hw. by destruct (wpc s).
  - eapply wake_coming_set; [exact Ei|done|done|done| |by apply Hk]. by right.
  - left. done.
  - eapply wake_coming_set; [exact Ei|done|done|done| |by apply Hk].
    cbn. intros Hg. right. by rewrite Hg.
Qed.

Lemma sem_step_inv a s l s' : sem_inv s -> sem_step a s = Some (l, s') -> sem_inv s'.
Proof.
  intros Hi. destruct a as [|i| |]; cbn.
  - by apply waiter_step_inv.
  - by apply releaser_step_inv.
  - unfold deliver_ipi. destruct (ipi_pending s); [|done]. intros [= <- <-].
    destruct Hi as [Hw Hc _]. split; cbn; rewrite ?Hw; by destruct (wpc s).
  - intros [= <- <-]. destruct Hi as [Hw Hc Hk]. split; cbn; rewrite ?Hw; by destruct (wpc s).
Qed.

(** The counter is the value; labels are steps of the counter. *)
Lemma sem_step_counter a s l s' : sem_inv s -> sem_step a s = Some (l, s') ->
  counter_step l (value s) = Some (value s').
Proof.
  intros [_ Hc _]. destruct a as [|i| |]; cbn.
  - unfold waiter_step. destruct (wpc s) eqn:Ep; intros H; try (by injection H as <- <-).
    + done.
    + destruct (Nat.eqb_spec (value s) v) as [->|]; injection H as <- <-; [|done].
      destruct v; [done|]. cbn. f_equal. lia.
  - unfold releaser_step. by destruct (rpcs s !! i) as [[]|]; [intros [= <- <-]..|].
  - unfold deliver_ipi. destruct (ipi_pending s); [|done]. by intros [= <- <-].
  - by intros [= <- <-].
Qed.

Lemma sem_run_inv n ls s : sem_run n ls s -> sem_inv s.
Proof.
  induction 1 as [|ls s a l s' _ IH Hs]; [apply sem_init_inv|]. by eapply sem_step_inv.
Qed.

(** *** Waking up *)

(** A schedule: the labels in order and the state reached. *)
Fixpoint sem_exec (acts : list sem_action) (s : Sem) : option (list label * Sem) :=
  match acts with
  | [] => Some ([], s)
  | a :: acts' => st ← sem_step a s; r ← sem_exec acts' st.2; Some (st.1 :: r.1, r.2)
  end.

Lemma sem_exec_app acts1 acts2 s ls s1 ls2 s2 :
  sem_exec acts1 s = Some (ls, s1) -> sem_exec acts2 s1 = Some (ls2, s2) ->
  sem_exec (acts1 ++ acts2) s = Some (ls ++ ls2, s2).
Proof.
  revert s ls. induction acts1 as [|a acts1 IH]; intros s ls H1 H2; cbn in *.
  - by injection H1 as <- <-.
  - destruct (sem_step a s) as [[l st]|]; [|done]. cbn in *.
    destruct (sem_exec acts1 st) as [[ls' s']|] eqn:E; [|done]. injection H1 as <- ->.
    by rewrite (IH st ls' E H2).
Qed.

Lemma sem_exec_run n acts : forall ls s ls' s', sem_run n ls s -> sem_exec acts s = Some (ls', s') ->
  sem_run n (rev ls' ++ ls) s'.
Proof.
  induction acts as [|a acts IH]; intros ls s ls' s' Hr; cbn; [by intros [= <- <-]|].
  destruct (sem_step a s) as [[l s1]|] eqn:Es; [|done]. cbn.
  destruct (sem_exec acts s1) as [[ls2 s2]|] eqn:E; [|done]. intros [= <- <-]. cbn.
  rewrite <- app_assoc. apply (IH (l :: ls) s1); [|done]. by eapply sem_next.
Qed.

(** What the interrupted core can do by itself. *)
Definition waiter_ready (s : Sem) : Prop := value s > 0 /\ (wpc s = WLoad \/ wpc s = WJmp).

Lemma ready_acquires s : waiter_ready s ->
  exists k ls s', k <= 5 /\ sem_exec (replicate k Waiter) s = Some (ls ++ [LAcquired], s').
Proof.
  intros [Hv Hp]. destruct s as [v w g p pc rs]. cbn in *. destruct v as [|v]; [lia|].
  destruct Hp as [->| ->].
  - exists 4, [LTau; LTau; LTau]. eexists. split; [lia|]. cbn. by rewrite Nat.eqb_refl.
  - exists 5, [LTau; LTau; LTau; LTau]. eexists. split; [lia|]. cbn. by rewrite Nat.eqb_refl.
Qed.

(** A committed releaser has an interrupt pending after three steps at most. *)
Lemma committed_sends i pc s :
  rpcs s !! i = Some pc -> committed (generation s) pc = true -> waiter s = true ->
  exists k ls s', k <= 3 /\ sem_exec (replicate k (Releaser i)) s = Some (ls, s') /\
    ipi_pending s' = true /\ wpc s' = wpc s /\ value s' = value s.
Proof.
  intros Hi Hc Hw. assert (i < length (rpcs s)) as Hlt by (apply lookup_lt_is_Some_1; by eexists).
  assert (forall s1 g, rpcs s1 !! i = Some (RSend g) -> exists s2,
    sem_step (Releaser i) s1 = Some (LTau, s2) /\ ipi_pending s2 = true /\ wpc s2 = wpc s1 /\ value s2 = value s1)
    as Hsend.
  { intros s1 g H1. cbn. unfold releaser_step. rewrite H1. by eexists. }
  assert (forall s1, rpcs s1 !! i = Some RGen -> sem_step (Releaser i) s1 =
    Some (LTau, set_rpc i (RSend (generation s1)) s1)) as Hgen.
  { intros s1 H1. cbn. unfold releaser_step. by rewrite H1. }
  destruct pc as [|[]| |g|g]; try done.
  - destruct (Hsend (set_rpc i (RSend (generation s)) (set_rpc i RGen s)) (generation s)) as (s2 & H2 & Hr).
    { cbn. apply list_lookup_insert_eq. by rewrite length_insert. }
    exists 3. eexists _, s2. split; [lia|]. cbn [replicate sem_exec].
    assert (sem_step (Releaser i) s = Some (LTau, set_rpc i RGen s)) as ->.
    { cbn. unfold releaser_step. by rewrite Hi, Hw. }
    cbn [mbind option_bind snd]. rewrite Hgen by (cbn; by apply list_lookup_insert_eq).
    cbn [mbind option_bind snd]. cbn [generation set_rpc] in H2 |- *. rewrite H2. by split.
  - destruct (Hsend (set_rpc i (RSend (generation s)) s) (generation s)) as (s2 & H2 & Hr).
    { cbn. by apply list_lookup_insert_eq. }
    exists 2. eexists _, s2. split; [lia|]. cbn [replicate sem_exec]. rewrite (Hgen s Hi).
    cbn [mbind option_bind snd]. rewrite H2. by split.
  - destruct (Hsend s g Hi) as (s2 & H2 & Hr). exists 1. eexists _, s2. split; [lia|].
    cbn [replicate sem_exec]. rewrite H2. by split.
  - destruct (Hsend (set_rpc i (RSend g) s) g) as (s2 & H2 & Hr).
    { cbn. by apply list_lookup_insert_eq. }
    exists 2. eexists _, s2. split; [lia|]. cbn [replicate sem_exec].
    assert (sem_step (Releaser i) s = Some (LTau, set_rpc i (RSend g) s)) as ->.
    { cbn in Hc |- *. unfold releaser_step. rewrite Hi. by rewrite Hc. }
    cbn [mbind option_bind snd]. rewrite H2. by split.
Qed.

Lemma pending_acquires s : ipi_pending s = true -> dozing (wpc s) = true -> value s > 0 ->
  exists k ls s', k <= 5 /\ sem_exec (Deliver :: replicate k Waiter) s = Some (ls ++ [LAcquired], s').
Proof.
  intros Hp Hd Hv.
  destruct (ready_acquires (mkSem (value s) (waiter s) (S (generation s)) false
    (reset_suspend_check (leave_halt (wpc s))) (rpcs s))) as (k & ls & s' & Hk & He).
  { split; [done|]. cbn. by destruct (wpc s); auto. }
  exists k, (LTau :: ls), s'. split; [done|]. cbn [sem_exec sem_step]. unfold deliver_ipi. rewrite Hp.
  cbn [mbind option_bind snd fst]. by rewrite He.
Qed.

(** C16: the semaphore is a counter and loses no wake-up. In every run of the waiting
    core, any number of releasing cores and interrupts, instruction by instruction,
    the completed acquisitions and releases are those of a counter whose value is the
    semaphore's; and whenever the waiting core has read 0 and is going to sleep or
    asleep while the counter is positive, an interrupt is pending or a releaser is
    about to send one: some releaser's next three steps at most, the interrupt and
    five steps of the core complete the acquisition. *)
Theorem semaphore_refines_counter n ls s :
  sem_run n ls s ->
  counter_run ls = Some (value s) /\
  (dozing (wpc s) = true -> value s > 0 ->
   exists i j k labels s', j <= 3 /\ k <= 5 /\
     sem_exec (replicate j (Releaser i) ++ Deliver :: replicate k Waiter) s = Some (labels ++ [LAcquired], s')).
Proof.
  intros Hr. pose proof (sem_run_inv n ls s Hr) as Hi. split.
  - induction Hr as [|ls s a l s' Hr IH Hs]; [done|]. cbn.
    pose proof (sem_run_inv n ls s Hr) as Hi'. rewrite IH by done. cbn. by eapply sem_step_counter.
  - intros Hd Hv. destruct (si_wake s Hi Hd Hv) as [Hp|(i & pc & Hpc & Hc)].
    + destruct (pending_acquires s Hp Hd Hv) as (k & l & s' & Hk & He).
      exists 0, 0, k, l, s'. split; [lia|]. by split.
    + assert (waiter s = true) as Hw by (rewrite (si_waiter s Hi); by destruct (wpc s)).
      destruct (committed_sends i pc s Hpc Hc Hw) as (j & l1 & s1 & Hj & He1 & Hp & Hw1 & Hv1).
      destruct (pending_acquires s1 Hp) as (k & l2 & s' & Hk & He2); [by rewrite Hw1|by rewrite Hv1|].
      exists i, j, k, (l1 ++ l2), s'. split; [done|]. split; [done|].
      rewrite <- app_assoc. by eapply sem_exec_app.
Qed.

(** The waiting core tests, a releaser raises the counter in between, the core halts. *)
Definition race_schedule : list sem_action :=
  [Waiter; Waiter; Waiter; Waiter; Waiter; Releaser 1; Waiter].

Lemma semaphore_refines_counter_witness :
  exists ls s, sem_run 2 ls s /\ wpc s = WHalted /\ value s = 1 /\
  exists i j k labels s', j <= 3 /\ k <= 5 /\
    sem_exec (replicate j (Releaser i) ++ Deliver :: replicate k Waiter) s = Some (labels ++ [LAcquired], s').
Proof.
  destruct (sem_exec race_schedule (sem_init 2)) as [[ls s]|] eqn:E; [|discriminate E].
  pose proof (sem_exec_run 2 race_schedule [] (sem_init 2) ls s (sem_start 2) E) as Hr.
  vm_compute in E. injection E as <- <-. eexists _, _. split; [exact Hr|].
  split; [done|]. split; [done|]. by apply (semaphore_refines_counter 2 _ _ Hr); [|cbn; lia].
Defined.

(** ** The spinlock excludes *)

Definition holds (pc : scoped_pc) : nat := match pc with SHeld => 1 | _ => 0 end.
Fixpoint holders (l : list scoped_pc) : nat :=
  match l with [] => 0 | pc :: l' => holds pc + holders l' end.

Lemma holders_insert l : forall i pc pc', l !! i = Some pc ->
  holders (<[i := pc']> l) + holds pc = holders l + holds pc'.
Proof.
  induction l as [|x l IH]; intros i pc pc' Hi; [done|]. destruct i as [|i]; cbn in Hi.
  - injection Hi as ->. change (<[0:=pc']> (pc :: l)) with (pc' :: l). cbn [holders]. lia.
  - specialize (IH i pc pc' Hi). change (<[S i:=pc']> (x :: l)) with (x :: <[i:=pc']> l).
    cbn [holders]. lia.
Qed.

(** Explicit release at most once per object. *)
Definition proper (a : spin_action) (s : Spin) : Prop :=
  match a with Release i => spin_threads s !! i = Some SHeld | _ => True end.

Inductive spin_run (n : nat) : Spin -> Prop :=
| spin_start : spin_run n (mkSpin 0 (replicate n SOut))
| spin_next s a s' : spin_run n s -> proper a s -> spin_step a s = Some s' -> spin_run n s'.

Lemma holders_replicate n : holders (replicate n SOut) = 0.
Proof. induction n as [|n IH]; cbn; [done|]. exact IH. Qed.

Lemma spin_run_inv n s : spin_run n s -> holders (spin_threads s) = spin_lock s /\ spin_lock s <= 1.
Proof.
  induction 1 as [|s a s' _ [IH Hle] Hp Hs]; [cbn; rewrite holders_replicate; lia|].
  destruct a as [i|i|i|i]; cbn in Hp, Hs; destruct (spin_threads s !! i) as [[]|] eqn:Ei; try done;
    try (pose proof (fun pc' => holders_insert _ i _ pc' Ei) as Hh);
    repeat (match type of Hs with context [Nat.eqb ?a ?b] => destruct (Nat.eqb_spec a b) end);
    injection Hs as <-; cbn; match goal with |- context [<[_ := ?pc]> _] => specialize (Hh pc) end;
    cbn in Hh; lia.
Qed.

(** In every run of any number of threads that use [ScopedSpinlock] without
    releasing an object twice, at most one thread is inside, and the lock word is 1
    exactly then. An object released twice by hand lets a second thread in. *)
Theorem spinlock_exclusion n :
  (forall s, spin_run n s -> (spin_lock s = 0 \/ spin_lock s = 1) /\
     (spin_lock s = 1 <-> exists i, spin_threads s !! i = Some SHeld) /\
     (forall i j, spin_threads s !! i = Some SHeld -> spin_threads s !! j = Some SHeld -> i = j)) /\
  (exists s, foldl (fun o a => s ← o; spin_step a s) (Some (mkSpin 0 [SOut; SOut; SOut]))
     [Construct 0; Exchange 0; Release 0; Construct 1; Exchange 1; Release 0; Construct 2; Exchange 2]
     = Some s /\ spin_threads s !! 1 = Some SHeld /\ spin_threads s !! 2 = Some SHeld).
Proof.
  split; [|by eexists].
  assert (forall l i, l !! i = Some SHeld -> holders l >= 1) as H1.
  { intros l i Hi. pose proof (holders_insert l i SHeld SOut Hi) as H. cbn in H. lia. }
  intros s Hr. apply spin_run_inv in Hr as [He Hle]. split_and!; [lia| |].
  - split; [|intros (i & Hi); apply H1 in Hi; lia].
    intros Hl. rewrite Hl in He. clear - He. revert He. generalize (spin_threads s). clear s.
    intros l. induction l as [|x l IH]; [done|]. cbn. intros He.
    destruct x; cbn in He; try (destruct (IH He) as (i & Hi); by exists (S i)). by exists 0.
  - intros i j Hi Hj. destruct (decide (i = j)) as [|Hne]; [done|].
    pose proof (holders_insert _ i SHeld SOut Hi) as Hh. cbn in Hh.
    assert (<[i:=SOut]> (spin_threads s) !! j = Some SHeld) as Hj'
      by (by rewrite list_lookup_insert_ne).
    apply H1 in Hj'. lia.
Qed.
