(* ===== verification/Barrier.v ===== *)
(** * Notifications between cores (arch/x86_64/cores.cc, cores_generic.cc, cores_sev.cc, crt/thread.cc)

    [flush_process_write_buffers] interrupts every other core and returns once each has
    run the handler: a barrier that makes the writes of all other cores visible. Cores
    have store buffers here; a write reaches memory when its core drains it, and the
    locked increment of the interrupt handler drains all. The platform decides what
    [trigger_ipi] does: the generic one interrupts the core, the one for SEV counts the
    notification itself. Generations are natural numbers: 2^64 notifications of a core
    while another waits for one are not considered. *)

From S2P Require Import Prelude Semaphore.
From Stdlib Require Import Arith.
Open Scope nat_scope.

(** ** The machine *)

(** A write: address and value. *)
Definition wr : Type := Z * Z.

(** [ping_all_cores_sync]: at the head of the loop; in [ping_core_sync] before the load of
    the generation, before [trigger_ipi] and before the test. *)
Inductive flush_pc : Type :=
| FCore (c : nat) | FLoad (c : nat) | FSend (c g : nat) | FCheck (c g : nat) | FDone.

Record Bar : Type := mkBar {
  wlog : list (nat * wr);   (** the writes in memory with their cores, oldest first *)
  bufs : list (list wr);    (** the store buffers, oldest first *)
  gens : list nat;          (** [notification_generation] *)
  pend : list bool;         (** interrupts on their way *)
  fpc : flush_pc;
}.

Inductive platform : Type := Generic | SevPlatform.

Definition trigger_ipi (p : platform) (c : nat) (s : Bar) : Bar :=
  match p with
  | Generic => mkBar (wlog s) (bufs s) (gens s) (<[c := true]> (pend s)) (fpc s)
  | SevPlatform => mkBar (wlog s) (bufs s) (alter S c (gens s)) (pend s) (fpc s)
  end.

Definition set_fpc (pc : flush_pc) (s : Bar) : Bar := mkBar (wlog s) (bufs s) (gens s) (pend s) pc.

(** The call of [flush_process_write_buffers], that is of [ping_all_cores_sync]. *)
Definition flush_process_write_buffers (s : Bar) : Bar := set_fpc (FCore 0) s.

(** Its next step on core [me]. *)
Definition flush_step (p : platform) (me : nat) (s : Bar) : option Bar :=
  match fpc s with
  | FCore c =>
      Some (set_fpc (if Nat.ltb c (length (bufs s)) then if Nat.eqb c me then FCore (S c) else FLoad c
                     else FDone) s)
  | FLoad c => g ← gens s !! c; Some (set_fpc (FSend c g) s)
  | FSend c g => Some (set_fpc (FCheck c g) (trigger_ipi p c s))
  | FCheck c g => h ← gens s !! c; Some (set_fpc (if Nat.eqb g h then FSend c g else FCore (S c)) s)
  | FDone => None
  end.

(** [wakeup_handler] on core [c]. *)
Definition deliver_wakeup (c : nat) (s : Bar) : option Bar :=
  match pend s !! c, bufs s !! c with
  | Some true, Some b =>
      Some (mkBar (wlog s ++ map (pair c) b) (<[c := []]> (bufs s)) (alter S c (gens s)) (<[c := false]> (pend s))
              (fpc s))
  | _, _ => None
  end.

Inductive bar_action : Type :=
| Flush                   (** the core that flushes goes on *)
| Write (c : nat) (w : wr)
| Drain (c : nat)         (** the oldest write of a buffer reaches memory *)
| Wakeup (c : nat).

Definition bar_step (p : platform) (me : nat) (a : bar_action) (s : Bar) : option Bar :=
  match a with
  | Flush => flush_step p me s
  | Write c w =>
      match bufs s !! c with
      | Some b => Some (mkBar (wlog s) (<[c := b ++ [w]]> (bufs s)) (gens s) (pend s) (fpc s))
      | None => None
      end
  | Drain c =>
      match bufs s !! c with
      | Some (w :: b) => Some (mkBar (wlog s ++ [(c, w)]) (<[c := b]> (bufs s)) (gens s) (pend s) (fpc s))
      | _ => None
      end
  | Wakeup c => deliver_wakeup c s
  end.

Inductive bar_run (p : platform) (me : nat) (s0 : Bar) : Bar -> Prop :=
| bar_start : bar_run p me s0 s0
| bar_next a s s' : bar_run p me s0 s -> bar_step p me a s = Some s' -> bar_run p me s0 s'.

(** One generation and one interrupt line per core. *)
Definition bar_wf (s : Bar) : Prop := length (gens s) = length (bufs s) /\ length (pend s) = length (bufs s).

(** ** Writes *)

(** The writes of a core in memory, and all it has issued. *)
Definition own (c : nat) (l : list (nat * wr)) : list wr := omap (fun x => if Nat.eqb (fst x) c then Some (snd x) else None) l.

Definition issued (s : Bar) (c : nat) : list wr := own c (wlog s) ++ default [] (bufs s !! c).

Arguments own : simpl never.

Lemma own_app c l l' : own c (l ++ l') = own c l ++ own c l'.
Proof. apply omap_app. Qed.

Lemma own_map c d b : own c (map (pair d) b) = if Nat.eqb d c then b else [].
Proof.
  unfold own. induction b as [|w b IH]; cbn; [by destruct (Nat.eqb d c)|]. rewrite IH. by destruct (Nat.eqb d c).
Qed.

Lemma own_one c d w : own c [(d, w)] = if Nat.eqb d c then [w] else [].
Proof. apply (own_map c d [w]). Qed.

(** What a step does to the writes of one core: memory and what it has issued only grow,
    and a wake-up puts all of them into memory. *)
Record grows (c : nat) (s s' : Bar) : Prop := {
  gr_len : length (bufs s') = length (bufs s);
  gr_own : own c (wlog s) `prefix_of` own c (wlog s');
  gr_issued : issued s c `prefix_of` issued s' c;
}.

Lemma grows_flush p me s s' : flush_step p me s = Some s' -> wlog s' = wlog s /\ bufs s' = bufs s.
Proof.
  unfold flush_step. destruct (fpc s) as [d|d|d g|d g|]; intros Hs; simplify_option_eq; try done.
  by destruct p.
Qed.

Lemma lookup_insert_default (l : list (list wr)) i j x :
  i < length l -> default [] (<[i := x]> l !! j) = if Nat.eqb i j then x else default [] (l !! j).
Proof.
  intros Hi. destruct (Nat.eqb_spec i j) as [<-|Hne]; [by rewrite list_lookup_insert_eq|by rewrite list_lookup_insert_ne].
Qed.

Lemma step_grows p me a c s s' : bar_step p me a s = Some s' -> grows c s s'.
Proof.
  intros Hs. destruct a as [|d w|d|d]; cbn in Hs.
  - destruct (grows_flush _ _ _ _ Hs) as [E1 E2]. split; unfold issued; by rewrite ?E1, ?E2.
  - destruct (bufs s !! d) as [b|] eqn:Hb; [|done]. injection Hs as <-. pose proof (lookup_lt_Some _ _ _ Hb).
    split; cbn; [by rewrite length_insert|done|]. unfold issued. cbn. rewrite lookup_insert_default by done.
    destruct (Nat.eqb_spec d c) as [->|_]; [|done]. rewrite Hb. cbn. rewrite app_assoc. by apply prefix_app_r.
  - destruct (bufs s !! d) as [[|w b]|] eqn:Hb; [done| |done]. injection Hs as <-.
    pose proof (lookup_lt_Some _ _ _ Hb). split; cbn; [by rewrite length_insert|rewrite own_app; by apply prefix_app_r|].
    unfold issued. cbn. rewrite lookup_insert_default, own_app, own_one by done.
    destruct (Nat.eqb_spec d c) as [->|_]; [rewrite Hb; cbn; by rewrite <- app_assoc|by rewrite app_nil_r].
  - unfold deliver_wakeup in Hs. destruct (pend s !! d) as [[]|]; [|done..].
    destruct (bufs s !! d) as [b|] eqn:Hb; [|done]. injection Hs as <-. pose proof (lookup_lt_Some _ _ _ Hb).
    split; cbn; [by rewrite length_insert|rewrite own_app; by apply prefix_app_r|].
    unfold issued. cbn. rewrite lookup_insert_default, own_app, own_map by done.
    destruct (Nat.eqb_spec d c) as [->|_]; [rewrite Hb; cbn; by rewrite app_nil_r|by rewrite app_nil_r].
Qed.

(** Cores that are behind the flush in this state. *)
Definition flushed (s : Bar) (c : nat) : Prop :=
  match fpc s with FCore k | FLoad k | FSend k _ | FCheck k _ => c < k | FDone => True end.

(** The generation has moved on from [g] only after a wake-up, that is with [ws] in memory. *)
Definition seen (g c : nat) (ws : list wr) (s : Bar) : Prop :=
  exists h, gens s !! c = Some h /\ g <= h /\ (g < h -> ws `prefix_of` own c (wlog s)).

Record flush_inv (me c : nat) (ws : list wr) (s : Bar) : Prop := {
  fi_wf : bar_wf s;
  fi_core : c < length (bufs s);
  fi_issued : ws `prefix_of` issued s c;
  fi_flushed : flushed s c -> c <> me -> ws `prefix_of` own c (wlog s);
  fi_seen : match fpc s with FSend k g | FCheck k g => k = c -> seen g c ws s | _ => True end;
}.

Lemma step_wf p me a s s' : bar_step p me a s = Some s' -> bar_wf s -> bar_wf s'.
Proof.
  intros Hs [H1 H2]. pose proof (gr_len _ _ _ (step_grows p me a 0 s s' Hs)) as Hl. unfold bar_wf. rewrite Hl.
  destruct a as [|d w|d|d]; cbn in Hs.
  - unfold flush_step in Hs. destruct (fpc s); simplify_option_eq; try done. destruct p; cbn; by rewrite ?length_insert, ?length_alter.
  - by destruct (bufs s !! d); simplify_eq.
  - by destruct (bufs s !! d) as [[|??]|]; simplify_eq.
  - unfold deliver_wakeup in Hs. destruct (pend s !! d) as [[]|], (bufs s !! d); simplify_eq. cbn.
    by rewrite length_alter, length_insert.
Qed.

(** Generations change with wake-ups only, when the platform interrupts. *)
Lemma step_seen me a c g ws s s' :
  bar_step Generic me a s = Some s' -> ws `prefix_of` issued s c -> seen g c ws s -> seen g c ws s'.
Proof.
  intros Hs Hi (h & Hh & Hle & Hlt). pose proof (gr_own _ _ _ (step_grows _ _ _ c _ _ Hs)) as Hown.
  assert (g < h -> ws `prefix_of` own c (wlog s')) as Hlt' by (intros Hg; transitivity (own c (wlog s)); auto).
  destruct a as [|d w|d|d]; cbn in Hs.
  - exists h. unfold flush_step in Hs. destruct (fpc s); simplify_option_eq; done.
  - exists h. by destruct (bufs s !! d); simplify_eq.
  - exists h. by destruct (bufs s !! d) as [[|??]|]; simplify_eq.
  - unfold deliver_wakeup in Hs. destruct (pend s !! d) as [[]|]; [|done..].
    destruct (bufs s !! d) as [b|] eqn:Hb; [|done]. injection Hs as <-. unfold seen. cbn in *.
    destruct (decide (d = c)) as [->|Hne].
    + exists (S h). rewrite list_lookup_alter_eq, Hh. split_and!; [done|lia|]. intros _.
      rewrite own_app, own_map, Nat.eqb_refl. unfold issued in Hi. by rewrite Hb in Hi.
    + exists h. by rewrite list_lookup_alter_ne.
Qed.

Lemma step_fpc p me a s s' : bar_step p me a s = Some s' -> a = Flush \/ fpc s' = fpc s.
Proof.
  destruct a as [|d w|d|d]; cbn; [by left|right..].
  - by destruct (bufs s !! d); simplify_eq.
  - by destruct (bufs s !! d) as [[|??]|]; simplify_eq.
  - unfold deliver_wakeup in *. by destruct (pend s !! d) as [[]|], (bufs s !! d); simplify_eq.
Qed.

(** The steps of the flush itself. *)
Lemma flush_step_inv me c ws s s' :
  flush_step Generic me s = Some s' -> flush_inv me c ws s -> flush_inv me c ws s'.
Proof.
  intros Hs [Hwf Hc Hi Hf Hse]. destruct (grows_flush _ _ _ _ Hs) as [E1 E2].
  assert (bar_wf s') as Hwf' by (by apply (step_wf Generic me Flush s)).
  assert (forall g, seen g c ws s -> seen g c ws s') as Hse'
    by (intros g; by apply (step_seen me Flush)).
  unfold issued in *. unfold flush_step in Hs. destruct (fpc s) as [d|d|d g|d g|] eqn:Hpc.
  - assert (flushed s' c -> c <> me -> ws `prefix_of` own c (wlog s)) as Hf'.
    { unfold flushed in *. rewrite Hpc in Hf. injection Hs as <-. cbn -[Nat.ltb Nat.eqb].
      destruct (Nat.ltb_spec d (length (bufs s))); [|intros _ Hne; apply Hf; [lia|done]].
      destruct (Nat.eqb_spec d me) as [->|]; intros Hlt Hne; (apply Hf; [lia|done]). }
    split; unfold issued; rewrite ?E1, ?E2; try done. injection Hs as <-. cbn -[Nat.ltb Nat.eqb].
    by destruct (Nat.ltb d _), (Nat.eqb d me).
  - unfold flushed in *. rewrite Hpc in Hf. simplify_option_eq. split; try done. cbn. intros ->. eexists. split_and!; [done|lia|lia].
  - unfold flushed in *. rewrite Hpc in Hf. by simplify_option_eq; split.
  - destruct (gens s !! d) as [h|] eqn:Hh; [|done]. cbn -[Nat.eqb] in Hs. injection Hs as <-.
    unfold flushed in *. rewrite Hpc in Hf. split; try done; unfold flushed; cbn -[Nat.eqb];
      destruct (Nat.eqb_spec g h) as [->|Hne]; try done.
    intros Hlt Hme. destruct (decide (c = d)) as [->|Hd]; [|apply Hf; [lia|done]].
    destruct (Hse eq_refl) as (h' & Hh' & Hle & Hp). simplify_eq. apply Hp. lia.
  - done.
Qed.

Lemma step_flush_inv me a c ws s s' :
  bar_step Generic me a s = Some s' -> flush_inv me c ws s -> flush_inv me c ws s'.
Proof.
  intros Hs Hinv. destruct (step_fpc _ _ _ _ _ Hs) as [->|Hpc]; [by eapply flush_step_inv|].
  destruct Hinv as [Hwf Hc Hi Hf Hse]. pose proof (step_grows _ _ _ c _ _ Hs) as [Hl Ho His].
  split; [by eapply step_wf|lia|by etransitivity| |].
  - unfold flushed in *. rewrite Hpc. intros H1 H2. transitivity (own c (wlog s)); auto.
  - rewrite Hpc. destruct (fpc s); try done; intros ->; eapply step_seen; eauto.
Qed.

(** C25: [flush_process_write_buffers] is a barrier on the platforms whose [trigger_ipi]
    interrupts: when it returns, every write another core had issued when it was called is
    in memory, in the order it was issued, whatever the cores did in between. *)
Theorem flush_is_barrier me s0 s c :
  bar_wf s0 -> bar_run Generic me (flush_process_write_buffers s0) s -> fpc s = FDone -> c < length (bufs s0) -> c <> me ->
  issued s0 c `prefix_of` own c (wlog s).
Proof.
  intros Hwf Hrun Hd Hc Hme.
  assert (flush_inv me c (issued s0 c) s) as [_ _ _ Hf _].
  { clear Hd. induction Hrun as [|a s s' Hrun IH Hs]; [|by eapply step_flush_inv].
    split; try done. unfold flushed. cbn. lia. }
  apply Hf; [|done]. unfold flushed. by rewrite Hd.
Qed.

(** *** It comes to an end *)

Lemma bar_trans p me s0 s1 s2 : bar_run p me s0 s1 -> bar_run p me s1 s2 -> bar_run p me s0 s2.
Proof. intros H1 H2. induction H2 as [|a s s' _ IH Hs]; [done|]. by eapply bar_next. Qed.

Lemma bar_then p me a s0 s1 s2 : bar_step p me a s0 = Some s1 -> bar_run p me s1 s2 -> bar_run p me s0 s2.
Proof. intros Hs Hr. eapply bar_trans; [|done]. by eapply bar_next; [apply bar_start|]. Qed.

(** One round of [ping_core_sync], the core being free to take the interrupt. *)
Lemma ping_ends me c g s :
  bar_wf s -> c < length (bufs s) -> fpc s = FSend c g -> gens s !! c = Some g ->
  exists s', bar_run Generic me s s' /\ fpc s' = FCore (S c) /\ bar_wf s' /\ length (bufs s') = length (bufs s).
Proof.
  intros [W1 W2] Hc Hpc Hg. destruct (lookup_lt_is_Some_2 (bufs s) c Hc) as [b Hb].
  eexists. split_and!.
  - eapply (bar_then _ _ Flush); [cbn; unfold flush_step; by rewrite Hpc|].
    eapply (bar_then _ _ (Wakeup c)).
    { cbn. unfold deliver_wakeup. cbn. rewrite list_lookup_insert_eq by lia. by rewrite Hb. }
    eapply (bar_then _ _ Flush); [|apply bar_start]. cbn. unfold flush_step. cbn.
    rewrite list_lookup_alter_eq, Hg. cbn -[Nat.eqb]. destruct (Nat.eqb_spec g (S g)); [lia|]. reflexivity.
  - done.
  - split; cbn; by rewrite ?length_alter, ?length_insert.
  - cbn. by rewrite length_insert.
Qed.

Lemma load_ends me c s :
  bar_wf s -> c < length (bufs s) -> fpc s = FLoad c ->
  exists s', bar_run Generic me s s' /\ fpc s' = FCore (S c) /\ bar_wf s' /\ length (bufs s') = length (bufs s).
Proof.
  intros [W1 W2] Hc Hpc. destruct (lookup_lt_is_Some_2 (gens s) c ltac:(lia)) as [g Hg].
  destruct (ping_ends me c g (set_fpc (FSend c g) s)) as (s' & Hr & H1); [done|done|done|done|].
  exists s'. split; [|done]. eapply (bar_then _ _ Flush); [|exact Hr]. cbn. unfold flush_step. by rewrite Hpc, Hg.
Qed.

Lemma loop_ends me n : forall c s, bar_wf s -> fpc s = FCore c -> length (bufs s) - c < n ->
  exists s', bar_run Generic me s s' /\ fpc s' = FDone.
Proof.
  induction n as [|n IH]; intros c s Hwf Hpc Hn; [lia|].
  set (s1 := set_fpc (if Nat.ltb c (length (bufs s)) then if Nat.eqb c me then FCore (S c) else FLoad c else FDone) s).
  assert (bar_step Generic me Flush s = Some s1) as Hs by (cbn; unfold flush_step; by rewrite Hpc).
  unfold s1 in *. destruct (Nat.ltb_spec c (length (bufs s))) as [Hc|Hc].
  - destruct (Nat.eqb_spec c me) as [->|Hme].
    + destruct (IH (S me) (set_fpc (FCore (S me)) s)) as (s' & Hr & Hd); [done|done|cbn; lia|].
      exists s'. split; [|done]. by eapply bar_then.
    + destruct (load_ends me c (set_fpc (FLoad c) s)) as (s2 & Hr2 & Hp2 & Hw2 & Hl2); [done|done|done|].
      destruct (IH (S c) s2) as (s' & Hr & Hd); [done|done|rewrite Hl2; cbn; lia|].
      exists s'. split; [|done]. eapply bar_then; [exact Hs|]. by eapply bar_trans.
  - eexists. split; [by eapply bar_then; [exact Hs|apply bar_start]|done].
Qed.

Lemma core_ends me c s : bar_wf s -> fpc s = FCore c -> exists s', bar_run Generic me s s' /\ fpc s' = FDone.
Proof. intros Hwf Hpc. apply (loop_ends me (S (length (bufs s) - c)) c); [done|done|lia]. Qed.

Lemma send_ends me c g s : bar_wf s -> c < length (bufs s) -> fpc s = FSend c g ->
  exists s', bar_run Generic me s s' /\ fpc s' = FDone.
Proof.
  intros Hwf Hc Hpc. pose proof Hwf as [W1 W2]. destruct (lookup_lt_is_Some_2 (gens s) c ltac:(lia)) as [h Hh].
  destruct (decide (h = g)) as [->|Hne].
  - destruct (ping_ends me c g s) as (s2 & Hr2 & Hp2 & Hw2 & _); [done..|].
    destruct (core_ends me (S c) s2) as (s' & Hr & Hd); [done..|]. exists s'. split; [by eapply bar_trans|done].
  - set (s2 := set_fpc (FCore (S c)) (trigger_ipi Generic c s)).
    destruct (core_ends me (S c) s2) as (s' & Hr & Hd); [split; cbn; by rewrite ?length_insert|done|].
    exists s'. split; [|done]. eapply (bar_then _ _ Flush); [cbn; unfold flush_step; by rewrite Hpc|].
    eapply (bar_then _ _ Flush); [|exact Hr]. cbn. unfold flush_step. cbn. rewrite Hh. cbn -[Nat.eqb].
    destruct (Nat.eqb_spec g h); [congruence|done].
Qed.

(** The flush can always finish: from wherever it is, with the other cores taking their
    interrupts, it returns. *)
Theorem flush_can_finish me s :
  bar_wf s ->
  (forall c g, fpc s = FLoad c \/ fpc s = FSend c g \/ fpc s = FCheck c g -> c < length (bufs s)) ->
  exists s', bar_run Generic me s s' /\ fpc s' = FDone.
Proof.
  intros Hwf Hc. destruct (fpc s) as [c|c|c g|c g|] eqn:Hpc.
  - by eapply core_ends.
  - specialize (Hc c 0 ltac:(by left)). destruct (load_ends me c s) as (s2 & Hr2 & Hp2 & Hw2 & _); [done..|].
    destruct (core_ends me (S c) s2) as (s' & Hr & Hd); [done..|]. exists s'. split; [by eapply bar_trans|done].
  - eapply send_ends; [done| |done]. apply (Hc c g). tauto.
  - specialize (Hc c g ltac:(tauto)). pose proof Hwf as [W1 W2].
    destruct (lookup_lt_is_Some_2 (gens s) c ltac:(lia)) as [h Hh].
    assert (bar_step Generic me Flush s = Some (set_fpc (if Nat.eqb g h then FSend c g else FCore (S c)) s)) as Hs
      by (cbn; unfold flush_step; by rewrite Hpc, Hh).
    destruct (Nat.eqb g h).
    + destruct (send_ends me c g (set_fpc (FSend c g) s)) as (s' & Hr & Hd); [done..|].
      exists s'. split; [by eapply bar_then|done].
    + destruct (core_ends me (S c) (set_fpc (FCore (S c)) s)) as (s' & Hr & Hd); [done..|].
      exists s'. split; [by eapply bar_then|done].
  - exists s. split; [apply bar_start|done].
Qed.

(** ** SEV *)

Lemma sev_loop me n : forall c s, bar_wf s -> fpc s = FCore c -> length (bufs s) - c < n ->
  exists s', bar_run SevPlatform me s s' /\ fpc s' = FDone /\ wlog s' = wlog s /\ bufs s' = bufs s.
Proof.
  induction n as [|n IH]; intros c s [W1 W2] Hpc Hn; [lia|].
  set (s1 := set_fpc (if Nat.ltb c (length (bufs s)) then if Nat.eqb c me then FCore (S c) else FLoad c else FDone) s).
  assert (bar_step SevPlatform me Flush s = Some s1) as Hs by (cbn; unfold flush_step; by rewrite Hpc).
  unfold s1 in *. destruct (Nat.ltb_spec c (length (bufs s))) as [Hc|Hc].
  - destruct (Nat.eqb_spec c me) as [->|Hme].
    + destruct (IH (S me) (set_fpc (FCore (S me)) s)) as (s' & Hr & Hd); [done|done|cbn; lia|].
      exists s'. split; [|done]. by eapply bar_then.
    + destruct (lookup_lt_is_Some_2 (gens s) c ltac:(lia)) as [g Hg].
      destruct (IH (S c) (set_fpc (FCore (S c)) (trigger_ipi SevPlatform c s))) as (s' & Hr & Hd);
        [split; cbn; by rewrite ?length_alter|done|cbn; lia|].
      exists s'. split; [|done]. eapply bar_then; [exact Hs|].
      eapply (bar_then _ _ Flush); [cbn; unfold flush_step; cbn; by rewrite Hg|].
      eapply (bar_then _ _ Flush); [done|]. eapply (bar_then _ _ Flush); [|exact Hr].
      cbn. unfold flush_step. cbn. rewrite list_lookup_alter_eq, Hg. cbn -[Nat.eqb]. destruct (Nat.eqb_spec g (S g)); [lia|done].
  - eexists. split; [by eapply bar_then; [exact Hs|apply bar_start]|done].
Qed.

(** Under SEV [trigger_ipi] counts the notification on behalf of the other core, so the
    flush returns without any core having done anything, and the writes it should wait for
    are still in the store buffers. *)
Theorem flush_sev_no_barrier me s0 :
  bar_wf s0 ->
  exists s, bar_run SevPlatform me (flush_process_write_buffers s0) s /\ fpc s = FDone /\ wlog s = wlog s0 /\ bufs s = bufs s0.
Proof.
  intros Hwf. apply (sev_loop me (S (length (bufs s0))) 0 (flush_process_write_buffers s0)); [done|done|cbn; lia].
Qed.

(** ** The semaphore under SEV *)

(** [releaser_step] with the notification of SEV: no interrupt is sent. *)
Definition releaser_step_sev (i : nat) (s : Sem) : option (label * Sem) :=
  match rpcs s !! i with
  | Some (RSend g) =>
      Some (LTau, set_rpc i (RCheck g) (mkSem (value s) (waiter s) (S (generation s)) (ipi_pending s) (wpc s) (rpcs s)))
  | _ => releaser_step i s
  end.

Inductive sev_sem_run (s0 : Sem) : Sem -> Prop :=
| sev_sem_start : sev_sem_run s0 s0
| sev_sem_waiter s l s' : sev_sem_run s0 s -> waiter_step s = Some (l, s') -> sev_sem_run s0 s'
| sev_sem_releaser i s l s' : sev_sem_run s0 s -> releaser_step_sev i s = Some (l, s') -> sev_sem_run s0 s'
| sev_sem_deliver s l s' : sev_sem_run s0 s -> deliver_ipi s = Some (l, s') -> sev_sem_run s0 s'.

Lemma releaser_sev_sleeps i s l s' :
  releaser_step_sev i s = Some (l, s') -> wpc s' = wpc s /\ ipi_pending s' = ipi_pending s.
Proof.
  unfold releaser_step_sev, releaser_step. by destruct (rpcs s !! i) as [[| | | |]|]; intros [= <- <-].
Qed.

(** C26: Under SEV a core that sleeps in [SingleWaiterSemaphore::acquire] is never woken by a
    release: the releases come back, count up the semaphore and the generation, and the core
    stays in its halt until an interrupt comes from elsewhere. *)
Theorem sev_release_never_wakes s0 s :
  wpc s0 = WHalted -> ipi_pending s0 = false -> sev_sem_run s0 s ->
  wpc s = WHalted /\
  forall i, rpcs s !! i = Some ROut -> waiter s = true -> value s = 0 ->
    exists s', sev_sem_run s s' /\ rpcs s' !! i = Some ROut /\ value s' = 1 /\ wpc s' = WHalted.
Proof.
  intros Hw Hp Hrun.
  assert (wpc s = WHalted /\ ipi_pending s = false) as [Hw' Hp'].
  { induction Hrun as [|s l s' _ [IH1 IH2] Hs|i s l s' _ [IH1 IH2] Hs|s l s' _ [IH1 IH2] Hs]; [done| | |].
    - unfold waiter_step in Hs. by rewrite IH1 in Hs.
    - apply releaser_sev_sleeps in Hs as [E1 E2]. by rewrite E1, E2.
    - unfold deliver_ipi in Hs. by rewrite IH2 in Hs. }
  split; [done|]. intros i Hi Hwt Hv. pose proof (lookup_lt_Some _ _ _ Hi) as Hlt.
  set (g := generation s).
  set (s1 := set_rpc i (RLoad 0) (set_value 1 s)). set (s2 := set_rpc i RGen s1). set (s3 := set_rpc i (RSend g) s2).
  set (s4 := set_rpc i (RCheck g) (mkSem 1 true (S g) false WHalted (rpcs s3))). set (s5 := set_rpc i ROut s4).
  exists s5. split_and!; [|cbn; by rewrite list_lookup_insert_eq by (rewrite ?length_insert; lia)|done|done].
  assert (rpcs s1 !! i = Some (RLoad 0)) as R1 by (cbn; by apply list_lookup_insert_eq).
  assert (rpcs s2 !! i = Some RGen) as R2 by (cbn; apply list_lookup_insert_eq; by rewrite length_insert).
  assert (rpcs s3 !! i = Some (RSend g)) as R3 by (cbn; apply list_lookup_insert_eq; by rewrite !length_insert).
  assert (rpcs s4 !! i = Some (RCheck g)) as R4 by (cbn; apply list_lookup_insert_eq; by rewrite !length_insert).
  eapply (sev_sem_releaser _ i s4 LTau); [eapply (sev_sem_releaser _ i s3 LTau);
    [eapply (sev_sem_releaser _ i s2 LTau); [eapply (sev_sem_releaser _ i s1 LTau);
      [eapply (sev_sem_releaser _ i s LReleased); [apply sev_sem_start|]|]|]|]|];
    unfold releaser_step_sev, releaser_step.
  - by rewrite Hi, Hv.
  - rewrite R1. change (waiter s1) with (waiter s). by rewrite Hwt.
  - by rewrite R2.
  - rewrite R3. unfold s4. change (waiter s3) with (waiter s). change (ipi_pending s3) with (ipi_pending s).
    change (wpc s3) with (wpc s). by rewrite Hwt, Hp', Hw'.
  - rewrite R4. change (generation s4) with (S g). destruct (Nat.eqb_spec g (S g)); [lia|done].
Qed.

(** ** Witnesses *)

(** Three cores; core 1 has a write in its buffer. *)
Definition bar_ex : Bar := mkBar [] [[]; [(16%Z, 1%Z)]; []] [0; 0; 0] [false; false; false] (FCore 0).

Definition run_actions (p : platform) (me : nat) (l : list bar_action) (s : Bar) : option Bar :=
  fold_left (fun o a => s ← o; bar_step p me a s) l (Some s).

Lemma run_actions_run p me l : forall s s', run_actions p me l s = Some s' -> bar_run p me s s'.
Proof.
  unfold run_actions. induction l as [|a l IH] using rev_ind; intros s s'; [intros [= <-]; apply bar_start|].
  rewrite fold_left_app. cbn. destruct (fold_left _ l (Some s)) as [s1|] eqn:E; [|done]. cbn. intros Hs.
  eapply bar_next; [by apply IH|done].
Qed.

Definition ex_actions : list bar_action :=
  [Flush; Flush; Flush; Flush; Wakeup 1; Flush; Flush; Flush; Flush; Wakeup 2; Flush; Flush].

Lemma flush_is_barrier_witness :
  exists s, run_actions Generic 0 ex_actions bar_ex = Some s /\ [(16%Z, 1%Z)] `prefix_of` own 1 (wlog s).
Proof.
  destruct (run_actions Generic 0 ex_actions bar_ex) as [s|] eqn:E; [|vm_compute in E; discriminate].
  exists s. split; [done|]. apply (flush_is_barrier 0 bar_ex s 1); [done|by eapply run_actions_run| |cbn; lia|lia].
  vm_compute in E. by injection E as <-.
Defined.

Lemma flush_can_finish_witness : exists s', bar_run Generic 0 bar_ex s' /\ fpc s' = FDone.
Proof. apply (flush_can_finish 0 bar_ex); [done|]. intros c g [H|[H|H]]; discriminate H. Defined.

Lemma flush_sev_no_barrier_witness :
  exists s, bar_run SevPlatform 0 bar_ex s /\ fpc s = FDone /\ wlog s = [].
Proof.
  destruct (flush_sev_no_barrier 0 bar_ex) as (s & H1 & H2 & H3 & _); [done|]. by exists s.
Defined.

Definition asleep : Sem := mkSem 0 true 0 false WHalted [ROut].

Lemma sev_release_never_wakes_witness :
  exists s', sev_sem_run asleep s' /\ rpcs s' !! 0 = Some ROut /\ value s' = 1 /\ wpc s' = WHalted.
Proof. apply (sev_release_never_wakes asleep asleep); [done|done|apply sev_sem_start|done|done|done]. Defined.
