(* ===== verification/Acpi.v ===== *)
(** * Cores: the ACPI tables and the per-core data (arch/x86_64/cores_generic.cc, inc/per_core_data.h)

    The number of cores and their interrupt controllers come from the MADT, found
    through the RSDP and the RSDT or XSDT in firmware memory. *)

From S2P Require Import Prelude External Address Heap.

(** ** Per-core data *)

Definition MAX_CORE_COUNT : Z := 256.

Record PerCoreData : Type := mkCore { core_id : Z; notification_generation : Z; apic_id : Z }.

Record CoreState : Type := mkCores { per_core_data : list PerCoreData; local_apic_mapping : Z }.

Definition num_cores (st : CoreState) : Z := Z.of_nat (length (per_core_data st)).

Definition cores_initialize (core_count : Z) (st : CoreState) : outcome CoreState :=
  if (core_count =? 0) || (core_count >? MAX_CORE_COUNT) then Kabort
  else Done (mkCores (map (fun i => mkCore (Z.of_nat i) 0 0) (seq 0 (Z.to_nat core_count)))
                     (local_apic_mapping st)).

(** [PerCoreData::get(core_id)]. *)
Definition core_get (id : Z) (st : CoreState) : outcome PerCoreData :=
  if id <? num_cores st then
    match per_core_data st !! Z.to_nat id with Some c => Done c | None => Kabort end
  else Kabort.

Definition core_update (id : Z) (f : PerCoreData -> PerCoreData) (st : CoreState) : outcome CoreState :=
  let* c := core_get id st in
  Done (mkCores (<[Z.to_nat id := f c]> (per_core_data st)) (local_apic_mapping st)).

Definition to_platform (id : Z) (st : CoreState) : outcome Z :=
  if id <? num_cores st then Done (u32 id) else Kabort.

(** [setup_cores_sev]: the count comes from the loader. *)
Definition setup_cores_sev (vp_count : Z) (st : CoreState) : outcome CoreState := cores_initialize vp_count st.

(** ** Tables *)

Section Acpi.
Context (mem : Z -> Z).

Definition SIZEOF_RSDP : Z := 20.
Definition SIZEOF_RSDP20 : Z := 36.
Definition SIZEOF_SDT_HEADER : Z := 36.
Definition SIZEOF_MADT : Z := 44.
Definition SIZEOF_LOGICAL_PROCESSOR : Z := 8.

(** Signatures as the loads of [verify_signature] see them. *)
Definition RSDP_SIGNATURE : Z := 0x2052545020445352.  (** "RSD PTR " *)
Definition RSDT_SIGNATURE : Z := 0x54445352.          (** "RSDT" *)
Definition XSDT_SIGNATURE : Z := 0x54445358.          (** "XSDT" *)
Definition MADT_SIGNATURE : Z := 0x43495041.          (** "APIC" *)

Definition verify_signature (n : nat) (header signature : Z) : bool := read_le mem header n =? signature.

Definition verify_checksum (ptr : Z) (size : nat) : bool :=
  fold_left (fun checksum i => u8 (checksum + mem (ptr + Z.of_nat i))) (seq 0 size) 0 =? 0.

(** The traversal collects what the callback is applied to: the APIC ids of the
    logical processors. *)
Fixpoint traverse_logical_processors (fuel : nat) (base size offset : Z) : outcome (list Z) :=
  if offset <? size then
    match fuel with
    | O => Hang
    | S fuel' =>
        let entry := base + offset in
        let type := u8 (mem entry) in
        let length := u8 (mem (entry + 1)) in
        let* rest := traverse_logical_processors fuel' base size (u64 (offset + length)) in
        Done (if (type =? 0) && (length >=? SIZEOF_LOGICAL_PROCESSOR) then u8 (mem (entry + 3)) :: rest else rest)
    end
  else Done [].

Definition sdt_length (h : Z) : Z := read_le mem (h + 4) 4.

Definition set_apic_ids (ids : list Z) (st : CoreState) : outcome CoreState :=
  let* r := ofold (fun (r : Z * CoreState) id =>
      let '(core, st) := r in
      let* st' := core_update core (fun c => mkCore (core_id c) (notification_generation c) id) st in
      Done (core + 1, st')) ids (0, st) in
  Done (snd r).

Definition parse_madt (fuel : nat) (madt_base : Z) (st : CoreState) : outcome CoreState :=
  let len := sdt_length madt_base in
  if negb (verify_checksum madt_base (Z.to_nat len)) then Kabort
  else
    let st1 := mkCores (per_core_data st) (read_le mem (madt_base + 36) 4) in
    let size := u64 (len - SIZEOF_MADT) in
    let* ids := traverse_logical_processors fuel (madt_base + SIZEOF_MADT) size 0 in
    let* st2 := cores_initialize (Z.of_nat (length ids)) st1 in
    let* ids2 := traverse_logical_processors fuel (madt_base + SIZEOF_MADT) size 0 in
    set_apic_ids ids2 st2.

Definition parse_entry (fuel : nat) (entry_pointer : Z) (st : CoreState) : outcome CoreState :=
  if entry_pointer =? 0 then Done st
  else if verify_signature 4 entry_pointer MADT_SIGNATURE then parse_madt fuel entry_pointer st
  else Done st.

(** [parse_rsdt] and [parse_xsdt]; the pointers have [w] bytes. *)
Definition parse_sdt (w : nat) (signature : Z) (fuel : nat) (base : Z) (st : CoreState) : outcome CoreState :=
  if negb (verify_signature 4 base signature) then Kabort
  else if negb (verify_checksum base (Z.to_nat (sdt_length base))) then Kabort
  else
    let sdt_entries := u64 (sdt_length base - SIZEOF_SDT_HEADER) / Z.of_nat w in
    ofold (fun st i => parse_entry fuel (read_le mem (base + SIZEOF_SDT_HEADER + Z.of_nat w * Z.of_nat i) w) st)
      (seq 0 (Z.to_nat sdt_entries)) st.

Definition parse_rsdt : nat -> Z -> CoreState -> outcome CoreState := parse_sdt 4 RSDT_SIGNATURE.
Definition parse_xsdt : nat -> Z -> CoreState -> outcome CoreState := parse_sdt 8 XSDT_SIGNATURE.

(** The candidates of [parse_acpi], and the loop over them with its [break] and
    [continue]. [found] is not used afterwards. *)
Definition rsdp_candidates : list Z := stride 0xE0000 16 (Z.to_nat 8191).

Fixpoint rsdp_search (fuel : nat) (candidates : list Z) (st : CoreState) : outcome CoreState :=
  match candidates with
  | [] => Done st
  | rsdp_base :: l =>
      if verify_signature 8 rsdp_base RSDP_SIGNATURE then
        if u8 (mem (rsdp_base + 15)) =? 0 then
          if negb (verify_checksum rsdp_base (Z.to_nat SIZEOF_RSDP)) then rsdp_search fuel l st
          else parse_rsdt fuel (read_le mem (rsdp_base + 16) 4) st
        else
          if negb (verify_checksum rsdp_base (Z.to_nat SIZEOF_RSDP20)) then rsdp_search fuel l st
          else parse_xsdt fuel (read_le mem (rsdp_base + 24) 8) st
      else rsdp_search fuel l st
  end.

Definition parse_acpi (fuel : nat) (st : CoreState) : outcome CoreState := rsdp_search fuel rsdp_candidates st.

End Acpi.

(** ** Specification of the MADT *)

(** The bytes [l] lie at [a]. *)
Definition bytes_at (mem : Z -> Z) (a : Z) (l : list Z) : Prop :=
  forall i b, l !! i = Some b -> u8 (mem (a + Z.of_nat i)) = b.

(** An entry: type, its own length, and the rest. *)
Definition entry_ok (e : list Z) : Prop :=
  exists ty rest, e = ty :: Z.of_nat (length e) :: rest /\ Z.of_nat (length e) < 256.

(** The APIC id of a logical processor entry. *)
Definition processor_of (e : list Z) : option Z :=
  match e with
  | ty :: _ :: _ :: id :: _ =>
      if (ty =? 0) && (Z.of_nat (length e) >=? SIZEOF_LOGICAL_PROCESSOR) then Some id else None
  | _ => None
  end.

Definition processors (es : list (list Z)) : list Z := omap processor_of es.

Lemma bytes_at_app mem a l1 l2 :
  bytes_at mem a (l1 ++ l2) -> bytes_at mem a l1 /\ bytes_at mem (a + Z.of_nat (length l1)) l2.
Proof.
  intros Hb. split.
  - intros i b Hi. apply Hb. by apply lookup_app_l_Some.
  - intros i b Hi. rewrite <- Z.add_assoc, <- Nat2Z.inj_add. apply Hb.
    rewrite lookup_app_r by lia. by replace (length l1 + i - length l1)%nat with i by lia.
Qed.

Section Facts.
Context (mem : Z -> Z).

(** One entry at the current offset. *)
Lemma traverse_step fuel base size offset e :
  entry_ok e -> bytes_at mem (base + offset) e -> offset < size ->
  traverse_logical_processors mem (S fuel) base size offset =
    (let* rest := traverse_logical_processors mem fuel base size (u64 (offset + Z.of_nat (length e))) in
     Done (match processor_of e with Some id => id :: rest | None => rest end)).
Proof.
  intros (ty & rest & He & Hlt) Hb Ho. cbn [traverse_logical_processors]. rewrite (proj2 (Z.ltb_lt _ _) Ho).
  assert (u8 (mem (base + offset)) = ty) as ->.
  { rewrite <- (Z.add_0_r (base + offset)). apply (Hb 0%nat). by rewrite He. }
  assert (u8 (mem (base + offset + 1)) = Z.of_nat (length e)) as ->.
  { apply (Hb 1%nat). by rewrite He at 1. }
  destruct (traverse_logical_processors mem fuel base size (u64 (offset + Z.of_nat (length e)))) as [r| |]; cbn; try done.
  f_equal. unfold processor_of.
  destruct ((ty =? 0) && (Z.of_nat (length e) >=? SIZEOF_LOGICAL_PROCESSOR)) eqn:E.
  - bool_to_prop. unfold SIZEOF_LOGICAL_PROCESSOR in *.
    destruct rest as [|b [|id rest]]; try (rewrite He in *; cbn [length] in *; lia).
    assert (u8 (mem (base + offset + 3)) = id) as ->; [|].
    { apply (Hb 3%nat). by rewrite He. }
    rewrite He at 1. subst ty. cbn [Z.eqb andb]. rewrite (proj2 (Z.geb_le _ _)) by lia. done.
  - rewrite He at 1. destruct rest as [|b [|id rest]]; try done. by rewrite E.
Qed.

(** The whole table. *)
Lemma traverse_entries es : forall fuel base size offset,
  Forall entry_ok es -> bytes_at mem (base + offset) (concat es) ->
  0 <= offset -> offset + Z.of_nat (length (concat es)) = size -> size < 2 ^ 64 -> (length es <= fuel)%nat ->
  traverse_logical_processors mem fuel base size offset = Done (processors es).
Proof.
  induction es as [|e es IH]; intros fuel base size offset Hok Hb H0 Hs Hlt Hf.
  - cbn in Hs. assert ((offset <? size) = false) as Hc by (apply Z.ltb_ge; lia).
    destruct fuel; cbn; by rewrite Hc.
  - inversion Hok as [|? ? He Hes]; subst. destruct fuel as [|fuel]; [cbn in Hf; lia|].
    cbn [concat] in *. apply bytes_at_app in Hb as [Hb1 Hb2]. rewrite length_app in *.
    assert (2 <= length e)%nat by (destruct He as (ty & rest & He & _); rewrite He; cbn; lia).
    rewrite (traverse_step _ _ _ _ e) by (done || lia). rewrite u64_small by (unfold is_u64; lia).
    rewrite IH; [cbn|done| |lia|lia|lia|cbn in Hf; lia].
    + by destruct (processor_of e).
    + by rewrite Z.add_assoc.
Qed.

Lemma core_update_eq id f st c :
  0 <= id -> per_core_data st !! Z.to_nat id = Some c ->
  core_update id f st = Done (mkCores (<[Z.to_nat id := f c]> (per_core_data st)) (local_apic_mapping st)).
Proof.
  intros H0 Hl. unfold core_update, core_get, num_cores. pose proof (lookup_lt_Some _ _ _ Hl).
  rewrite (proj2 (Z.ltb_lt _ _)) by lia. by rewrite Hl.
Qed.

(** The ids are stored in order, starting at core [length done]. *)
Lemma set_apic_ids_from ids : forall done_ apic,
  ofold (fun (r : Z * CoreState) id => let '(core, st) := r in
      let* st' := core_update core (fun c => mkCore (core_id c) (notification_generation c) id) st in
      Done (core + 1, st')) ids
    (Z.of_nat (length done_), mkCores (done_ ++ map (fun i => mkCore (Z.of_nat i) 0 0) (seq (length done_) (length ids))) apic)
  = Done (Z.of_nat (length done_ + length ids),
      mkCores (done_ ++ imap (fun i id => mkCore (Z.of_nat (length done_ + i)) 0 id) ids) apic).
Proof.
  induction ids as [|id ids IH]; intros d apic; cbn [ofold length seq map imap].
  - by rewrite Nat.add_0_r.
  - rewrite (core_update_eq _ _ _ (mkCore (Z.of_nat (length d)) 0 0)); [|lia|].
    + cbn [obind per_core_data local_apic_mapping core_id notification_generation]. rewrite Nat2Z.id.
      rewrite insert_app_r_alt, Nat.sub_diag by lia. cbn [insert list_insert].
      specialize (IH (d ++ [mkCore (Z.of_nat (length d)) 0 id]) apic).
      rewrite length_app, Nat.add_1_r in IH. cbn [length] in IH.
      rewrite <- !app_assoc in IH. cbn [app] in IH.
      replace (Z.of_nat (length d) + 1) with (Z.of_nat (S (length d))) by lia.
      rewrite Nat.add_0_r. etransitivity; [exact IH|]. f_equal. f_equal; [lia|]. f_equal. f_equal. f_equal.
      apply imap_ext. intros i x _. cbn. do 2 f_equal. lia.
    + cbn. rewrite Nat2Z.id. by apply list_lookup_middle.
Qed.

(** For a MADT with a correct checksum and entries that carry their own
    lengths, [parse_madt] comes back with one core for each logical processor
    entry, numbered in table order and with that entry's APIC id, and with the
    address of the local APIC; it stops the machine when there are none or more
    than 256. *)
Theorem parse_madt_cores fuel madt es st :
  let len := sdt_length mem madt in
  let ids := processors es in
  verify_checksum mem madt (Z.to_nat len) = true ->
  len = SIZEOF_MADT + Z.of_nat (length (concat es)) -> len < 2 ^ 32 ->
  Forall entry_ok es -> bytes_at mem (madt + SIZEOF_MADT) (concat es) -> (length es <= fuel)%nat ->
  parse_madt mem fuel madt st =
    if (Z.of_nat (length ids) =? 0) || (Z.of_nat (length ids) >? MAX_CORE_COUNT) then Kabort
    else Done (mkCores (imap (fun i id => mkCore (Z.of_nat i) 0 id) ids) (read_le mem (madt + 36) 4)).
Proof.
  intros len ids Hck Hlen Hlt Hok Hb Hf. unfold parse_madt. fold len. rewrite Hck. cbn [negb].
  rewrite u64_small by (unfold is_u64, SIZEOF_MADT in *; lia).
  rewrite (traverse_entries es); try done; [|by rewrite Z.add_0_r|lia|unfold SIZEOF_MADT in *; lia].
  cbn [obind]. fold ids. unfold cores_initialize.
  destruct ((Z.of_nat (length ids) =? 0) || (Z.of_nat (length ids) >? MAX_CORE_COUNT)); [done|].
  cbn [obind]. unfold set_apic_ids. cbn [local_apic_mapping]. rewrite Nat2Z.id.
  pose proof (set_apic_ids_from ids [] (read_le mem (madt + 36) 4)) as Hs. cbn [length app Nat.add] in Hs.
  change (Z.of_nat 0) with 0 in Hs. by rewrite Hs.
Qed.

(** An entry whose length byte is 0 is never passed: the traversal of the MADT
    does not come back, however long it runs. *)
Theorem madt_zero_length_hangs fuel base size offset :
  is_u64 offset -> offset < size -> mem (base + offset + 1) = 0 ->
  traverse_logical_processors mem fuel base size offset = Hang.
Proof.
  intros Ho Hlt Hz. induction fuel as [|fuel IH]; cbn [traverse_logical_processors];
    rewrite (proj2 (Z.ltb_lt _ _) Hlt); [done|].
  rewrite Hz. change (u8 0) with 0. rewrite Z.add_0_r, u64_small by done. by rewrite IH.
Qed.

End Facts.

(** A MADT with two processors at address 0x1000. *)
Definition example_entries : list (list Z) := [[0; 8; 0; 5; 1; 0; 0; 0]; [0; 8; 1; 7; 1; 0; 0; 0]].
Definition example_madt : list Z :=
  [0x41; 0x50; 0x49; 0x43; 60; 0; 0; 0; 1; 169] ++ replicate 26 0 ++ [0; 0; 0xe0; 0xfe; 0; 0; 0; 0] ++
  concat example_entries.
Definition example_acpi (a : Z) : Z := nth (Z.to_nat (a - 0x1000)) example_madt 0.

Lemma example_entries_ok : Forall entry_ok example_entries.
Proof. repeat constructor; do 2 eexists; split; reflexivity. Qed.

Lemma parse_madt_cores_witness :
  parse_madt example_acpi 2 0x1000 (mkCores [] 0) = Done (mkCores [mkCore 0 0 5; mkCore 1 0 7] 0xfee00000).
Proof.
  rewrite (parse_madt_cores example_acpi 2 0x1000 example_entries (mkCores [] 0)).
  - vm_compute. reflexivity.
  - vm_compute. reflexivity.
  - vm_compute. reflexivity.
  - vm_compute. reflexivity.
  - exact example_entries_ok.
  - intros i b Hi. do 16 (destruct i as [|i]; [injection Hi as <-; vm_compute; reflexivity|]). discriminate Hi.
  - cbn. lia.
Defined.

Lemma madt_zero_length_hangs_witness :
  traverse_logical_processors (fun _ => 0) 1000 0x102c 0x10 0 = Hang.
Proof.
  apply (madt_zero_length_hangs (fun _ => 0) 1000 0x102c 0x10 0); [unfold is_u64; lia|lia|reflexivity].
Defined.
