(* ===== verification/Cpu.v ===== *)
(** * Descriptors, hypercalls and the start of cores (arch/x86_64/inc/gdt.h, inc/hv.h, hv.cc, cores_sev.cc)

    The descriptor table with its task segments, the hidden segment state that is
    handed to the hypervisor for a new core, and the start of a core under SEV. *)

From S2P Require Import Prelude External Sev Ghcb Acpi.

(** ** Segment descriptors (gdt.h) *)

(** The 32-bit [int] a bit-field of fewer bits is promoted to. *)
Definition i32 (z : Z) : Z := let r := z mod 2 ^ 32 in if r <? 2 ^ 31 then r else r - 2 ^ 32.

(** [SegmentAttributes]. *)
Record SegmentAttributes : Type := mkAttr {
  segment_type : Z;
  user_segment : Z;
  descriptor_privilege_level : Z;
  present : Z;
  limit_high : Z;
  available : Z;
  long_mode : Z;
  protected_mode : Z;
  granularity : Z;
}.

Record UserGDTEntry : Type := mkUser {
  limit_low : Z;
  base_low : Z;
  attributes : SegmentAttributes;
  base_high : Z;
}.

Record SystemGDTEntry : Type := mkSystem { common : UserGDTEntry; sys_base_high : Z }.

Definition SEG_CODE : Z := 0xb.
Definition SEG_DATA : Z := 3.
Definition SEG_TSS : Z := 9.

Definition NullSegment : UserGDTEntry := mkUser 0 0 (mkAttr 0 0 0 0 0 0 0 0 0) 0.
Definition CodeSegment64 (ring : Z) : UserGDTEntry := mkUser 0xFFFF 0 (mkAttr SEG_CODE 1 ring 1 0xF 0 1 0 1) 0.
Definition CodeSegment32 (ring : Z) : UserGDTEntry := mkUser 0xFFFF 0 (mkAttr SEG_CODE 1 ring 1 0xF 0 0 1 1) 0.
Definition DataSegment64 (ring : Z) : UserGDTEntry := mkUser 0xFFFF 0 (mkAttr SEG_DATA 1 ring 1 0xF 0 1 0 1) 0.

Definition SIZEOF_TSS : Z := 104.
Definition TssSegment64Initial : SystemGDTEntry :=
  mkSystem (mkUser (SIZEOF_TSS - 1) 0 (mkAttr SEG_TSS 0 3 1 0 0 1 0 0) 0) 0.

(** [GDT]: the six code and data segments, then one task segment per core. *)
Record GDT : Type := mkGDT { segments : list UserGDTEntry; tss : list SystemGDTEntry }.

Definition gdt_initial : GDT :=
  mkGDT [NullSegment; CodeSegment64 0; DataSegment64 0; CodeSegment32 3; DataSegment64 3; CodeSegment64 3]
        (replicate (Z.to_nat MAX_CORE_COUNT) TssSegment64Initial).

Definition KERNEL_CS : Z := 8.
Definition KERNEL_DS : Z := 16.
Definition COMPARTMENT_CS32 : Z := Z.lor 24 3.
Definition COMPARTMENT_CS : Z := Z.lor 40 3.
Definition GDT_TSS_OFFSET : Z := 48.
Definition TSS_SEG (core : Z) : Z := GDT_TSS_OFFSET + 16 * core + 3.

(** The body of [fill_tss] for one entry. *)
Definition fill_entry (tss_ptr : Z) (e : SystemGDTEntry) : SystemGDTEntry :=
  mkSystem (mkUser (limit_low (common e)) (Z.land tss_ptr 0xFFFFFF) (attributes (common e))
                   (Z.land (Z.shiftr tss_ptr 24) 0xFF))
           (Z.shiftr tss_ptr 32).

Definition fill_tss (per_core_tss : Z) (g : GDT) : GDT :=
  mkGDT (segments g)
    (imap (fun i e => fill_entry (per_core_tss + SIZEOF_TSS * Z.of_nat i) e) (tss g)).

(** ** Hidden segment state (hv.h, sev.h) *)

(** [SegmentRegister] and [SevVmcbSelector] hold the same values. *)
Record SegmentRegister : Type := mkSeg {
  seg_base : Z;
  seg_limit : Z;
  seg_selector : Z;
  seg_attributes : SegmentAttributes;
}.

(** The constructors from a task segment descriptor at [offset] in the table: the
    fields of at most 24 bits are promoted to [int] before they are shifted. *)
Definition SegmentRegister_of (offset : Z) (e : SystemGDTEntry) : SegmentRegister :=
  mkSeg
    (Z.lor (u64 (i32 (Z.lor (base_low (common e)) (Z.shiftl (base_high (common e)) 24))))
           (u64 (Z.shiftl (sys_base_high e) 32)))
    (Z.lor (limit_low (common e)) (Z.shiftl (limit_high (attributes (common e))) 16))
    (u16 (Z.lor offset (descriptor_privilege_level (attributes (common e)))))
    (attributes (common e)).

(** [gdt.tss[core]] converted. *)
Definition tss_register (core : Z) (g : GDT) : option SegmentRegister :=
  match tss g !! Z.to_nat core with
  | Some e => Some (SegmentRegister_of (GDT_TSS_OFFSET + 16 * core) e)
  | None => None
  end.

(** ** Hypercalls without SEV (hv.cc) *)

Section Hypercalls.
(** The hypercall page: input word, input and output pointers to output word. *)
Context (hypercall : Z -> Z -> Z -> Z).

Definition call_hyperv (code input_params output_params : Z) : Z :=
  hco_status (hypercall (hci_raw (mkHCI code 0 0 0 0)) input_params output_params).

Definition call_hyperv_rep_one (code input_params output_params : Z) : Z :=
  hco_status (hypercall (hci_raw (mkHCI code 0 0 1 0)) input_params output_params).

Definition call_hyperv_rep (code rep_count input_params output_params : Z) : Z :=
  hco_status (hypercall (hci_raw (mkHCI code 0 0 rep_count 0)) input_params output_params).

Definition call_hyperv_fast (code input_params output_params : Z) : Z :=
  hco_status (hypercall (hci_raw (mkHCI code 1 0 0 0)) input_params output_params).

End Hypercalls.

Definition HV_X64_MSR_HYPERCALL_ENABLED_FLAG : Z := 1.

(** The part of [init_hyperv] that finds the hypercall page: the call target and
    the value written to the MSR, if any. *)
Definition init_hypercall_page (codepage hypercall_config : Z) : Z * option Z :=
  if Z.land hypercall_config HV_X64_MSR_HYPERCALL_ENABLED_FLAG =? 0 then
    let config := Z.lor hypercall_config (u64 (Z.shiftl (codepage / HV_PAGE_SIZE) 12)) in
    (codepage, Some (Z.lor config HV_X64_MSR_HYPERCALL_ENABLED_FLAG))
  else (u64 (Z.shiftr hypercall_config 12 * HV_PAGE_SIZE), None).

(** ** Starting a core under SEV (cores_sev.cc) *)

(** The state of the running core that is cloned, and the settings of the image. *)
Record CpuState : Type := mkCpu {
  cpu_xcr0 : Z; cpu_gdtr : Z * Z; cpu_idtr : Z * Z; cpu_efer : Z;
  cpu_cr4 : Z; cpu_cr3 : Z; cpu_cr0 : Z; cpu_rflags : Z;
}.

Record SevVmsaSettings : Type := mkVmsaSettings {
  vs_sev_features : Z; vs_virtual_top_of_memory : Z; vs_gpat : Z;
  vs_es : SegmentRegister; vs_cs : SegmentRegister; vs_ss : SegmentRegister;
  vs_ds : SegmentRegister; vs_fs : SegmentRegister; vs_gs : SegmentRegister;
}.

(** [SevVmsa]: the fields that are written. *)
Record SevVmsa : Type := mkVmsa {
  v_es : SegmentRegister; v_cs : SegmentRegister; v_ss : SegmentRegister; v_ds : SegmentRegister;
  v_fs : SegmentRegister; v_gs : SegmentRegister; v_gdtr : Z * Z; v_idtr : Z * Z; v_tr : SegmentRegister;
  v_efer : Z; v_cr4 : Z; v_cr3 : Z; v_cr0 : Z; v_rflags : Z; v_rip : Z; v_rsp : Z; v_gpat : Z;
  v_tsc_scale : Z; v_tsc_offset : Z; v_sev_features : Z; v_virtual_top_of_memory : Z; v_xcr0 : Z;
  v_mxcsr : Z; v_fp_control : Z;
}.

Definition with_base (base : Z) (s : SegmentRegister) : SegmentRegister :=
  mkSeg base (seg_limit s) (seg_selector s) (seg_attributes s).

Definition fill_vmsa (settings : SevVmsaSettings) (cpu : CpuState) (tsc : Z * Z * Z)
  (mxcsr fp_control ap_reset sp tls per_core : Z) (tr : SegmentRegister) : SevVmsa :=
  {| v_es := vs_es settings; v_cs := vs_cs settings; v_ss := vs_ss settings; v_ds := vs_ds settings;
     v_fs := with_base tls (vs_fs settings); v_gs := with_base per_core (vs_gs settings);
     v_gdtr := cpu_gdtr cpu; v_idtr := cpu_idtr cpu; v_tr := tr;
     v_efer := cpu_efer cpu; v_cr4 := cpu_cr4 cpu; v_cr3 := cpu_cr3 cpu; v_cr0 := cpu_cr0 cpu;
     v_rflags := cpu_rflags cpu; v_rip := ap_reset; v_rsp := sp; v_gpat := vs_gpat settings;
     v_tsc_scale := fst (fst tsc); v_tsc_offset := snd (fst tsc);
     v_sev_features := vs_sev_features settings;
     v_virtual_top_of_memory := vs_virtual_top_of_memory settings; v_xcr0 := cpu_xcr0 cpu;
     v_mxcsr := mxcsr; v_fp_control := fp_control |}.

(** [fill_start_vp_input]: the core, its VTL and the marked instruction pointer. *)
Record StartVP : Type := mkStartVP { vp_index : Z; target_vtl : Z; start_rip : Z }.

Definition fill_start_vp_input (core vtl vmsa : Z) : StartVP := mkStartVP core vtl (Z.lor vmsa 1).

(** The permissions word of [rmpadjust]. *)
Definition rmpadjust_permissions (vmpl permission_mask : Z) (vmsa : bool) : Z :=
  let permissions := Z.lor (Z.shiftl permission_mask 8) vmpl in
  if vmsa then Z.lor permissions (Z.shiftl 1 16) else permissions.

Definition HvCallEnableVpVtl : Z := 0x0f.
Definition HvCallStartVirtualProcessor : Z := 0x99.

(** The end of [init_cpu_sev]: the page is made a VMSA, then the hypervisor is
    asked to start the core; [call_hv] is the hypercall and its status. The calls
    made are returned. *)
Definition start_vmsa (rmpadjust : Z -> Z -> bool) (call_hv : Z -> StartVP -> Z) (core vtl new_vmsa : Z)
  : outcome (list (Z * StartVP)) :=
  if negb (rmpadjust new_vmsa (rmpadjust_permissions 1 0 true)) then Kabort
  else
    let params := fill_start_vp_input core vtl new_vmsa in
    let start done_ :=
      if negb (call_hv HvCallStartVirtualProcessor params =? HV_STATUS_SUCCESS) then Kabort
      else Done (done_ ++ [(HvCallStartVirtualProcessor, params)]) in
    if negb (vtl =? 0) then
      if negb (call_hv HvCallEnableVpVtl params =? HV_STATUS_SUCCESS) then Kabort
      else start [(HvCallEnableVpVtl, params)]
    else start [].

(** ** Properties *)

Lemma split_base t : is_u64 t ->
  t = t mod 2 ^ 24 + (t / 2 ^ 24) mod 2 ^ 8 * 2 ^ 24 + t / 2 ^ 32 * 2 ^ 32.
Proof.
  intros Ht. unfold is_u64 in Ht. replace (2 ^ 32) with (2 ^ 24 * 2 ^ 8) by done. rewrite <- Z.div_div by lia. zlia.
Qed.

Lemma low_base t : is_u64 t ->
  Z.lor (Z.land t 0xFFFFFF) (Z.shiftl (Z.land (Z.shiftr t 24) 0xFF) 24) = t mod 2 ^ 32.
Proof.
  intros Ht. change 0xFFFFFF with (2 ^ 24 - 1). change 0xFF with (2 ^ 8 - 1).
  rewrite (land_ones_mod t 24), (land_ones_mod _ 8), Z.shiftr_div_pow2 by lia.
  rewrite lor_shiftl_add by (lia || apply Z.mod_pos_bound; lia).
  pose proof (split_base t Ht). pose proof (Z.div_mod t (2 ^ 32) ltac:(lia)). lia.
Qed.

Lemma tss_entry core per_core_tss g :
  0 <= core < Z.of_nat (length (tss g)) ->
  exists e, tss g !! Z.to_nat core = Some e /\
    tss_register core (fill_tss per_core_tss g) =
      Some (SegmentRegister_of (GDT_TSS_OFFSET + 16 * core) (fill_entry (per_core_tss + SIZEOF_TSS * core) e)).
Proof.
  intros Hc. destruct (lookup_lt_is_Some_2 (tss g) (Z.to_nat core)) as [e He]; [lia|].
  exists e. split; [done|]. unfold tss_register, fill_tss. cbn [tss]. rewrite list_lookup_imap, He. cbn.
  by rewrite Z2Nat.id by lia.
Qed.

(** The base that comes out of the three fields of a filled descriptor. *)
Lemma filled_base t e offset : is_u64 t ->
  seg_base (SegmentRegister_of offset (fill_entry t e)) =
    if Z.testbit t 31 then Z.lor t 0xFFFFFFFF00000000 else t.
Proof.
  intros Ht. cbn [seg_base SegmentRegister_of fill_entry common base_low base_high sys_base_high].
  rewrite low_base by done. pose proof (Z.mod_pos_bound t (2 ^ 32) ltac:(lia)) as Hm.
  pose proof (Z.div_mod t (2 ^ 32) ltac:(lia)) as Hd. set (low := t mod 2 ^ 32) in *.
  rewrite Z.shiftr_div_pow2 by lia. set (hi := t / 2 ^ 32) in *.
  assert (0 <= hi < 2 ^ 32) as Hh by (unfold is_u64 in Ht; lia).
  rewrite (u64_small (Z.shiftl hi 32)) by (rewrite Z.shiftl_mul_pow2 by lia; unfold is_u64; lia).
  assert (Z.lor low (Z.shiftl hi 32) = t) as Hlor by (rewrite lor_shiftl_add by lia; lia).
  assert (Z.testbit t 31 = negb (low <? 2 ^ 31)) as ->.
  { apply eq_true_iff_eq. rewrite Z.testbit_true, negb_true_iff, Z.ltb_ge by lia.
    assert (t / 2 ^ 31 = hi * 2 + low / 2 ^ 31) as -> by (rewrite Hd; Z.div_mod_to_equations; lia).
    rewrite Z.add_comm, Z.mod_add by lia. split; intros; Z.div_mod_to_equations; lia. }
  unfold i32. rewrite (Z.mod_small low) by lia. case_if_prop; cbn [negb].
  - rewrite u64_small by (unfold is_u64; lia). done.
  - assert (u64 (low - 2 ^ 32) = Z.lor low (Z.shiftl (2 ^ 32 - 1) 32)) as ->.
    { rewrite lor_shiftl_add by lia. unfold u64. symmetry. apply Z.mod_unique_pos with (-1); lia. }
    rewrite <- Z.lor_assoc, (Z.lor_comm (Z.shiftl (2 ^ 32 - 1) 32)), Z.lor_assoc, Hlor. done.
Qed.

(** The segment state built from a filled task segment descriptor has the
    selector of the core and the limit of the task segment, and its base is the
    address of the core's task segment, unless bit 31 of that address is set: then
    the promotion to a signed [int] sets all 32 upper bits of the base. *)
Theorem tss_register_state per_core_tss core :
  0 <= core < MAX_CORE_COUNT -> is_u64 per_core_tss -> is_u64 (per_core_tss + SIZEOF_TSS * core) ->
  exists r, tss_register core (fill_tss per_core_tss gdt_initial) = Some r /\
    seg_selector r = TSS_SEG core /\ seg_limit r = SIZEOF_TSS - 1 /\
    (let t := per_core_tss + SIZEOF_TSS * core in
     seg_base r = if Z.testbit t 31 then Z.lor t 0xFFFFFFFF00000000 else t).
Proof.
  intros Hc Hp Ht. unfold MAX_CORE_COUNT in Hc.
  destruct (tss_entry core per_core_tss gdt_initial) as (e & He & Hr); [unfold gdt_initial; cbn [tss]; rewrite length_replicate; unfold MAX_CORE_COUNT; lia|].
  apply lookup_replicate in He as [-> _]. eexists. split; [exact Hr|]. split_and!; [|done|by apply filled_base].
  cbn [seg_selector SegmentRegister_of fill_entry common attributes TssSegment64Initial descriptor_privilege_level].
  unfold GDT_TSS_OFFSET, TSS_SEG, u16. replace (48 + 16 * core) with (Z.shiftl (3 + core) 4) by (rewrite Z.shiftl_mul_pow2; lia).
  rewrite Z.lor_comm, lor_shiftl_add by lia. unfold GDT_TSS_OFFSET. rewrite Z.mod_small; lia.
Qed.

Lemma tss_register_state_witness :
  exists r, tss_register 3 (fill_tss 0x400000 gdt_initial) = Some r /\ seg_base r = 0x400000 + SIZEOF_TSS * 3.
Proof.
  destruct (tss_register_state 0x400000 3) as (r & Hr & _ & _ & Hb);
    [unfold MAX_CORE_COUNT; lia|unfold is_u64; lia|unfold is_u64, SIZEOF_TSS; lia|].
  exists r. split; [exact Hr|exact Hb].
Defined.

(** The call target and the page number in the MSR agree. *)
Lemma hypercall_page_agrees codepage config :
  is_u64 codepage -> (HV_PAGE_SIZE | codepage) -> 0 <= config < 2 ^ 12 -> Z.land config 1 = 0 ->
  exists written, init_hypercall_page codepage config = (codepage, Some written) /\
    init_hypercall_page 0 written = (codepage, None).
Proof.
  intros Hc [q ->] Hg Hz. unfold init_hypercall_page, HV_X64_MSR_HYPERCALL_ENABLED_FLAG, HV_PAGE_SIZE, is_u64 in *.
  rewrite Hz, Z.eqb_refl, Z.div_mul by lia. eexists. split; [reflexivity|].
  rewrite (u64_small (Z.shiftl q 12)) by (rewrite Z.shiftl_mul_pow2 by lia; unfold is_u64; lia).
  assert (Z.lor (Z.lor config (Z.shiftl q 12)) 1 = Z.lor (Z.lor config 1) (Z.shiftl q 12)) as ->
    by (rewrite <- Z.lor_assoc, (Z.lor_comm _ 1), Z.lor_assoc; done).
  assert (0 <= Z.lor config 1 < 2 ^ 12) as Hl.
  { split; [apply Z.lor_nonneg; lia|]. apply (Z.bounded_iff_bits_nonneg 12); [lia|apply Z.lor_nonneg; lia|].
    intros i Hi. rewrite Z.lor_spec. rewrite (proj1 (Z.bounded_iff_bits_nonneg 12 config ltac:(lia) ltac:(lia)) ltac:(lia) i Hi).
    apply (proj1 (Z.bounded_iff_bits_nonneg 12 1 ltac:(lia) ltac:(lia)) ltac:(lia) i Hi). }
  assert (Z.land (Z.lor (Z.lor config 1) (Z.shiftl q 12)) 1 = 1) as ->.
  { rewrite !Z.land_lor_distr_l, Hz, Z.lor_0_l. apply Z.bits_inj'. intros i Hi. rewrite Z.lor_spec, !Z.land_spec.
    destruct (Z.testbit 1 i) eqn:E1; [|by rewrite !andb_false_r].
    destruct (Z.eq_dec i 0) as [->|]; [done|]. exfalso. revert E1. rewrite (proj1 (Z.bounded_iff_bits_nonneg 1 1 ltac:(lia) ltac:(lia)) ltac:(lia) i ltac:(lia)). done. }
  cbn [Z.eqb]. rewrite lor_shiftl_add by lia. rewrite Z.shiftr_div_pow2, Z.div_add, (Z.div_small _ (2 ^ 12)) by lia.
  rewrite Z.add_0_l, u64_small by (unfold is_u64; lia). done.
Qed.

(** A core that is reported started was announced to the hypervisor by its number
    and its VMSA page, after the page was made a VMSA. *)
Lemma start_vmsa_calls rmpadjust call_hv core vtl vmsa calls :
  start_vmsa rmpadjust call_hv core vtl vmsa = Done calls ->
  rmpadjust vmsa (2 ^ 16 + 1) = true /\
  map fst calls = (if vtl =? 0 then [] else [HvCallEnableVpVtl]) ++ [HvCallStartVirtualProcessor] /\
  Forall (fun c => snd c = mkStartVP core vtl (Z.lor vmsa 1) /\ call_hv (fst c) (snd c) = 0) calls.
Proof.
  unfold start_vmsa. change (rmpadjust_permissions 1 0 true) with (2 ^ 16 + 1). intros Hs.
  repeat case_if_prop; try done; injection Hs as <-; (split; [done|]); (split; [done|]); by repeat constructor.
Qed.
