(* ===== verification/HvCore.v ===== *)
(** * Starting a core under Hyper-V (arch/x86_64/inc/hv.h, hv.cc)

    The registers of the running core are read with one hypercall, copied into the
    initial context of the new core and changed where the cores must differ; the
    context is a packed structure that the hypervisor reads as bytes. The hypervisor is
    a parameter: its answer to the request for registers, and the status of the start. *)

From S2P Require Import Prelude External Sev Ghcb Acpi Cpu.
From stdpp Require Import strings.
Open Scope Z_scope.

(** ** Registers *)

Inductive RegisterName : Type :=
| HvX64RegisterRsp | HvX64RegisterRip | HvX64RegisterRflags
| HvX64RegisterCr0 | HvX64RegisterCr2 | HvX64RegisterCr3 | HvX64RegisterCr4 | HvX64RegisterCr5
| HvX64RegisterEs | HvX64RegisterCs | HvX64RegisterSs | HvX64RegisterDs | HvX64RegisterFs
| HvX64RegisterGs | HvX64RegisterLdtr | HvX64RegisterTr | HvX64RegisterIdtr | HvX64RegisterGdtr
| HvX64RegisterEfer | HvX64RegisterPat.

Definition register_code (r : RegisterName) : Z :=
  match r with
  | HvX64RegisterRsp => 0x00020004 | HvX64RegisterRip => 0x00020010
  | HvX64RegisterRflags => 0x00020011 | HvX64RegisterCr0 => 0x00040000
  | HvX64RegisterCr2 => 0x00040001 | HvX64RegisterCr3 => 0x00040002
  | HvX64RegisterCr4 => 0x00040003 | HvX64RegisterCr5 => 0x00040004
  | HvX64RegisterEs => 0x00060000 | HvX64RegisterCs => 0x00060001
  | HvX64RegisterSs => 0x00060002 | HvX64RegisterDs => 0x00060003
  | HvX64RegisterFs => 0x00060004 | HvX64RegisterGs => 0x00060005
  | HvX64RegisterLdtr => 0x00060006 | HvX64RegisterTr => 0x00060007
  | HvX64RegisterIdtr => 0x00070000 | HvX64RegisterGdtr => 0x00070001
  | HvX64RegisterEfer => 0x00080001 | HvX64RegisterPat => 0x00080004
  end.

(** [RegisterValue]: 128 bits, and the views of the union. *)
Definition reg64 (v : Z) : Z := bitfield 0 64 v.

(** [SegmentAttributes] as 16 bits. *)
Definition attributes_of (w : Z) : SegmentAttributes :=
  mkAttr (bitfield 0 4 w) (bitfield 4 1 w) (bitfield 5 2 w) (bitfield 7 1 w) (bitfield 8 4 w)
    (bitfield 12 1 w) (bitfield 13 1 w) (bitfield 14 1 w) (bitfield 15 1 w).

Definition attributes_raw (a : SegmentAttributes) : Z :=
  segment_type a + 2 ^ 4 * user_segment a + 2 ^ 5 * descriptor_privilege_level a + 2 ^ 7 * present a +
  2 ^ 8 * limit_high a + 2 ^ 12 * available a + 2 ^ 13 * long_mode a + 2 ^ 14 * protected_mode a +
  2 ^ 15 * granularity a.

Definition segment_of (v : Z) : SegmentRegister :=
  mkSeg (bitfield 0 64 v) (bitfield 64 32 v) (bitfield 96 16 v) (attributes_of (bitfield 112 16 v)).

(** [TableRegister]: after 48 bits of padding the limit and the base. *)
Record TableRegister : Type := mkTable { table_limit : Z; table_base : Z }.

Definition table_of (v : Z) : TableRegister := mkTable (bitfield 48 16 v) (bitfield 64 64 v).

(** [InitialVPContext]; the flags are kept as their 64 bits. *)
Record InitialVPContext : Type := mkContext {
  rip : Z; rsp : Z; rflags : Z;
  cs : SegmentRegister; ds : SegmentRegister; es : SegmentRegister; fs : SegmentRegister;
  gs : SegmentRegister; ss : SegmentRegister; tr : SegmentRegister; ldtr : SegmentRegister;
  idtr : TableRegister; gdtr : TableRegister;
  efer : Z; cr0 : Z; cr3 : Z; cr4 : Z; msr_cr_pat : Z;
}.

(** [StartVPInputParams] with its default members. *)
Record StartVPInputParams : Type := mkStart {
  partition_id : Z; start_vp_index : Z; start_target_vtl : Z; context : InitialVPContext;
}.

Definition HV_PARTITION_ID_SELF : Z := 2 ^ 64 - 1.
Definition HV_VP_ID_SELF : Z := 2 ^ 32 - 2.

(** *** As bytes *)

Definition segment_bytes (s : SegmentRegister) : list Z :=
  le_bytes 8 (seg_base s) ++ le_bytes 4 (seg_limit s) ++ le_bytes 2 (seg_selector s) ++
  le_bytes 2 (attributes_raw (seg_attributes s)).

Definition table_bytes (t : TableRegister) : list Z :=
  replicate 6 0 ++ le_bytes 2 (table_limit t) ++ le_bytes 8 (table_base t).

Definition context_bytes (c : InitialVPContext) : list Z :=
  le_bytes 8 (rip c) ++ le_bytes 8 (rsp c) ++ le_bytes 8 (rflags c) ++
  segment_bytes (cs c) ++ segment_bytes (ds c) ++ segment_bytes (es c) ++ segment_bytes (fs c) ++
  segment_bytes (gs c) ++ segment_bytes (ss c) ++ segment_bytes (tr c) ++ segment_bytes (ldtr c) ++
  table_bytes (idtr c) ++ table_bytes (gdtr c) ++
  le_bytes 8 (efer c) ++ le_bytes 8 (cr0 c) ++ le_bytes 8 (cr3 c) ++ le_bytes 8 (cr4 c) ++
  le_bytes 8 (msr_cr_pat c).

Definition start_bytes (p : StartVPInputParams) : list Z :=
  le_bytes 8 (partition_id p) ++ le_bytes 4 (start_vp_index p) ++ le_bytes 1 (start_target_vtl p) ++
  replicate 3 0 ++ context_bytes (context p).

(** ** The calls *)

Definition hv_status_message (status : Z) : string :=
  if status =? 0 then "Success."
  else if status =? 0x2 then "Invalid hypercall code."
  else if status =? 0x4 then "A parameter has an invalid alignment."
  else if status =? 0x5 then "An invalid parameter was specified."
  else if status =? 0x6 then "Access denied."
  else if status =? 0x7 then "The specified partition is not in the “active” state."
  else if status =? 0xd then "The specified partition ID is invalid."
  else if status =? 0xe then "The virtual processor specified by HV_VP_INDEX is invalid."
  else if status =? 0x11 then "The port associated with the specified connection has been deleted."
  else if status =? 0x12 then "The specified connection identifier is invalid."
  else if status =? 0x13 then "Not enough message buffers supplied to send a message."
  else if status =? 0x15 then
    "A virtual processor is not in the correct state for the performance of the indicated operation."
  else if status =? 0x50 then "The supplied register value is invalid."
  else if status =? 0x51 then "The VTL state conflicts with the requested operation."
  else "Unknown error".

(** The input block of [HvCallGetVpRegisters]: header and names. *)
Record GetRegisterParams : Type := mkGetParams {
  get_partition_id : Z; get_vp_index : Z; get_target_vtl : Z; input_elements : list Z;
}.

Section Hyperv.
(** Answers of the hypervisor: status and values for a list of registers; status for
    the start of a processor. *)
Context (hv_get_registers : GetRegisterParams -> Z * list Z).
Context (hv_start : StartVPInputParams -> Z).

(** A failure is logged only; the values are whatever is in the output, at first 0. *)
Definition get_local_registers (names : list RegisterName) : list Z * option string :=
  let '(status, output_elements) :=
    hv_get_registers (mkGetParams HV_PARTITION_ID_SELF HV_VP_ID_SELF 0 (map register_code names)) in
  (imap (fun i _ => nth i output_elements 0) names,
   if status =? HV_STATUS_SUCCESS then None else Some (hv_status_message status)).

Definition registers_cloned : list RegisterName :=
  [HvX64RegisterRip; HvX64RegisterRsp; HvX64RegisterRflags; HvX64RegisterCs; HvX64RegisterDs;
   HvX64RegisterEs; HvX64RegisterFs; HvX64RegisterGs; HvX64RegisterSs; HvX64RegisterTr;
   HvX64RegisterLdtr; HvX64RegisterIdtr; HvX64RegisterGdtr; HvX64RegisterEfer; HvX64RegisterCr0;
   HvX64RegisterCr3; HvX64RegisterCr4; HvX64RegisterPat].

Definition clone_initial_context : InitialVPContext * option string :=
  let '(values, log) := get_local_registers registers_cloned in
  let v i := nth i values 0 in
  (mkContext (reg64 (v 0%nat)) (reg64 (v 1%nat)) (reg64 (v 2%nat))
     (segment_of (v 3%nat)) (segment_of (v 4%nat)) (segment_of (v 5%nat)) (segment_of (v 6%nat))
     (segment_of (v 7%nat)) (segment_of (v 8%nat)) (segment_of (v 9%nat)) (segment_of (v 10%nat))
     (table_of (v 11%nat)) (table_of (v 12%nat))
     (reg64 (v 13%nat)) (reg64 (v 14%nat)) (reg64 (v 15%nat)) (reg64 (v 16%nat)) (reg64 (v 17%nat)),
   log).

Definition with_type_bit (s : SegmentRegister) : SegmentRegister :=
  let a := seg_attributes s in
  mkSeg (seg_base s) (seg_limit s) (seg_selector s)
    (mkAttr (Z.lor (segment_type a) (Z.shiftl 1 1)) (user_segment a) (descriptor_privilege_level a)
       (present a) (limit_high a) (available a) (long_mode a) (protected_mode a) (granularity a)).

(** [init_cpu_hyperv]: the parameters that are passed and what is logged. [None] where
    [gdt.tss] has no entry for the core. *)
Definition init_cpu_hyperv (ap_reset per_core : Z) (g : GDT) (core sp tls : Z)
  : option (StartVPInputParams * list string) :=
  let '(c, log) := clone_initial_context in
  seg ← tss_register core g;
  let c' := mkContext ap_reset sp (rflags c) (cs c) (ds c) (es c) (with_base tls (fs c))
              (with_base per_core (gs c)) (ss c) (with_type_bit seg) (ldtr c) (idtr c) (gdtr c)
              (efer c) (cr0 c) (cr3 c) (cr4 c) (msr_cr_pat c) in
  let params := mkStart HV_PARTITION_ID_SELF core 0 c' in
  let status := hv_start params in
  Some (params, option_list log ++ (if status =? HV_STATUS_SUCCESS then [] else [hv_status_message status])).

End Hyperv.

(** ** What the hypervisor reads *)

(** [n] bytes from the front, as a value. *)
Definition take_le (n : nat) (l : list Z) : Z * list Z := (le_value (take n l), drop n l).

Lemma take_le_bytes n v l : 0 <= v < 2 ^ (8 * Z.of_nat n) -> take_le n (le_bytes n v ++ l) = (v, l).
Proof.
  intros Hv. unfold take_le. rewrite take_app_length', drop_app_length' by (by rewrite le_bytes_length).
  by rewrite le_value_bytes.
Qed.

Definition parse_segment (l : list Z) : SegmentRegister * list Z :=
  let '(b, l) := take_le 8 l in let '(lim, l) := take_le 4 l in
  let '(sel, l) := take_le 2 l in let '(a, l) := take_le 2 l in
  (mkSeg b lim sel (attributes_of a), l).

Definition parse_table (l : list Z) : TableRegister * list Z :=
  let l := drop 6 l in
  let '(lim, l) := take_le 2 l in let '(b, l) := take_le 8 l in (mkTable lim b, l).

Definition parse_context (l : list Z) : InitialVPContext * list Z :=
  let '(ip, l) := take_le 8 l in let '(sp, l) := take_le 8 l in let '(fl, l) := take_le 8 l in
  let '(c, l) := parse_segment l in let '(d, l) := parse_segment l in let '(e, l) := parse_segment l in
  let '(f, l) := parse_segment l in let '(g, l) := parse_segment l in let '(s, l) := parse_segment l in
  let '(t, l) := parse_segment l in let '(ld, l) := parse_segment l in
  let '(it, l) := parse_table l in let '(gt, l) := parse_table l in
  let '(ef, l) := take_le 8 l in let '(c0, l) := take_le 8 l in let '(c3, l) := take_le 8 l in
  let '(c4, l) := take_le 8 l in let '(pat, l) := take_le 8 l in
  (mkContext ip sp fl c d e f g s t ld it gt ef c0 c3 c4 pat, l).

(** The block as the interface documents it: identifier, index, level, padding, context. *)
Definition parse_start (l : list Z) : StartVPInputParams * list Z :=
  let '(p, l) := take_le 8 l in let '(vp, l) := take_le 4 l in let '(v, l) := take_le 1 l in
  let '(c, l) := parse_context (drop 3 l) in (mkStart p vp v c, l).

Definition attributes_ok (a : SegmentAttributes) : Prop :=
  0 <= segment_type a < 16 /\ 0 <= user_segment a < 2 /\ 0 <= descriptor_privilege_level a < 4 /\
  0 <= present a < 2 /\ 0 <= limit_high a < 16 /\ 0 <= available a < 2 /\ 0 <= long_mode a < 2 /\
  0 <= protected_mode a < 2 /\ 0 <= granularity a < 2.

Definition segment_ok (s : SegmentRegister) : Prop :=
  is_u64 (seg_base s) /\ 0 <= seg_limit s < 2 ^ 32 /\ 0 <= seg_selector s < 2 ^ 16 /\
  attributes_ok (seg_attributes s).

Definition table_ok (t : TableRegister) : Prop := 0 <= table_limit t < 2 ^ 16 /\ is_u64 (table_base t).

Definition context_ok (c : InitialVPContext) : Prop :=
  Forall is_u64 [rip c; rsp c; rflags c; efer c; cr0 c; cr3 c; cr4 c; msr_cr_pat c] /\
  Forall segment_ok [cs c; ds c; es c; fs c; gs c; ss c; tr c; ldtr c] /\
  Forall table_ok [idtr c; gdtr c].

Lemma attributes_roundtrip a : attributes_ok a -> attributes_of (attributes_raw a) = a.
Proof.
  destruct a as [t u d p l av lm pm g]. unfold attributes_ok, attributes_of, attributes_raw. cbn -[Z.mul Z.add Z.pow].
  intros. rewrite !bitfield_eq by lia. f_equal; zlia.
Qed.

Lemma attributes_raw_bound a : attributes_ok a -> 0 <= attributes_raw a < 2 ^ 16.
Proof. unfold attributes_ok, attributes_raw. lia. Qed.

Lemma bitfield_bound n w v : 0 <= n -> 0 <= w -> 0 <= bitfield n w v < 2 ^ w.
Proof. intros. rewrite bitfield_eq by done. apply Z.mod_pos_bound. lia. Qed.

Lemma segment_of_ok v : segment_ok (segment_of v).
Proof.
  unfold segment_ok, segment_of, attributes_ok, attributes_of, is_u64. cbn.
  split_and!; apply bitfield_bound; lia.
Qed.

Lemma table_of_ok v : table_ok (table_of v).
Proof. unfold table_ok, table_of, is_u64. cbn. split; apply bitfield_bound; lia. Qed.

Lemma parse_segment_bytes s l : segment_ok s -> parse_segment (segment_bytes s ++ l) = (s, l).
Proof.
  intros (Hb & Hl & Hs & Ha). unfold parse_segment, segment_bytes. rewrite <- !app_assoc.
  rewrite take_le_bytes by exact Hb. rewrite take_le_bytes by exact Hl.
  rewrite take_le_bytes by exact Hs. rewrite take_le_bytes by (apply attributes_raw_bound; done).
  rewrite attributes_roundtrip by done. by destruct s.
Qed.

Lemma parse_table_bytes t l : table_ok t -> parse_table (table_bytes t ++ l) = (t, l).
Proof.
  intros (Hl & Hb). unfold parse_table, table_bytes. rewrite <- !app_assoc.
  rewrite drop_app_length' by done. rewrite take_le_bytes by exact Hl.
  rewrite take_le_bytes by exact Hb. by destruct t.
Qed.

Lemma parse_context_bytes c l : context_ok c -> parse_context (context_bytes c ++ l) = (c, l).
Proof.
  intros (Hw & Hs & Ht). rewrite !Forall_cons in Hw. rewrite !Forall_cons in Hs. rewrite !Forall_cons in Ht.
  destruct Hw as (? & ? & ? & ? & ? & ? & ? & ? & _), Hs as (? & ? & ? & ? & ? & ? & ? & ? & _), Ht as (? & ? & _).
  unfold parse_context, context_bytes. rewrite <- !app_assoc.
  do 3 (rewrite take_le_bytes by done). do 8 (rewrite parse_segment_bytes by done).
  do 2 (rewrite parse_table_bytes by done). do 5 (rewrite take_le_bytes by done). by destruct c.
Qed.

Definition start_ok (p : StartVPInputParams) : Prop :=
  is_u64 (partition_id p) /\ 0 <= start_vp_index p < 2 ^ 32 /\ 0 <= start_target_vtl p < 2 ^ 8 /\
  context_ok (context p).

Lemma parse_start_bytes p l : start_ok p -> parse_start (start_bytes p ++ l) = (p, l).
Proof.
  intros (Hp & Hi & Hv & Hc). unfold parse_start, start_bytes. rewrite <- !app_assoc.
  rewrite take_le_bytes by exact Hp. rewrite take_le_bytes by exact Hi. rewrite take_le_bytes by exact Hv.
  rewrite drop_app_length' by done. rewrite parse_context_bytes by done. by destruct p.
Qed.

(** ** The new core *)

(** A hypervisor that follows the interface: asked for registers of the calling
    processor it succeeds and returns their values in order; [regs] is its state. *)
Definition answers_registers (regs : Z -> Z) (get : GetRegisterParams -> Z * list Z) : Prop :=
  forall p, get_partition_id p = HV_PARTITION_ID_SELF -> get_vp_index p = HV_VP_ID_SELF ->
    get p = (HV_STATUS_SUCCESS, map regs (input_elements p)).

(** The context of the running core. *)
Definition running_context (regs : Z -> Z) : InitialVPContext :=
  let r n := regs (register_code n) in
  mkContext (reg64 (r HvX64RegisterRip)) (reg64 (r HvX64RegisterRsp)) (reg64 (r HvX64RegisterRflags))
    (segment_of (r HvX64RegisterCs)) (segment_of (r HvX64RegisterDs)) (segment_of (r HvX64RegisterEs))
    (segment_of (r HvX64RegisterFs)) (segment_of (r HvX64RegisterGs)) (segment_of (r HvX64RegisterSs))
    (segment_of (r HvX64RegisterTr)) (segment_of (r HvX64RegisterLdtr))
    (table_of (r HvX64RegisterIdtr)) (table_of (r HvX64RegisterGdtr))
    (reg64 (r HvX64RegisterEfer)) (reg64 (r HvX64RegisterCr0)) (reg64 (r HvX64RegisterCr3))
    (reg64 (r HvX64RegisterCr4)) (reg64 (r HvX64RegisterPat)).

Lemma clone_running regs get : answers_registers regs get ->
  clone_initial_context get = (running_context regs, None).
Proof. intros Hg. unfold clone_initial_context, get_local_registers. by rewrite Hg. Qed.

Lemma running_context_ok regs : context_ok (running_context regs).
Proof.
  assert (forall v, is_u64 (reg64 v)) as Hr by (intros; apply bitfield_bound; lia).
  unfold context_ok, running_context. cbn. split_and!.
  - repeat (constructor; [apply Hr|]). constructor.
  - repeat (constructor; [apply segment_of_ok|]). constructor.
  - repeat (constructor; [apply table_of_ok|]). constructor.
Qed.

(** The task segment of a core, marked busy. *)
Lemma tss_type_bit per_core_tss core seg :
  0 <= core < MAX_CORE_COUNT -> is_u64 (per_core_tss + SIZEOF_TSS * core) ->
  tss_register core (fill_tss per_core_tss gdt_initial) = Some seg ->
  segment_ok (with_type_bit seg) /\ segment_type (seg_attributes (with_type_bit seg)) = 0xb /\
  seg_selector seg = TSS_SEG core.
Proof.
  intros Hc Ht Hs. unfold MAX_CORE_COUNT in Hc.
  destruct (tss_entry core per_core_tss gdt_initial) as (e & He & Hr).
  { unfold gdt_initial; cbn [tss]. rewrite length_replicate. unfold MAX_CORE_COUNT. lia. }
  rewrite Hr in Hs. injection Hs as <-. apply lookup_replicate in He as [-> _].
  assert (u16 (Z.lor (GDT_TSS_OFFSET + 16 * core) 3) = TSS_SEG core) as Hsel.
  { unfold GDT_TSS_OFFSET, TSS_SEG, u16. replace (48 + 16 * core) with (Z.shiftl (3 + core) 4) by (rewrite Z.shiftl_mul_pow2; lia).
    rewrite Z.lor_comm, lor_shiftl_add by lia. unfold GDT_TSS_OFFSET. rewrite Z.mod_small; lia. }
  split_and!; [|done|exact Hsel]. unfold segment_ok.
  split; [|split; [|split]].
  - change (is_u64 (seg_base (SegmentRegister_of (GDT_TSS_OFFSET + 16 * core)
      (fill_entry (per_core_tss + SIZEOF_TSS * core) TssSegment64Initial)))).
    rewrite filled_base by done. unfold is_u64 in *.
    case_if_prop; [|done]. split; [apply Z.lor_nonneg; lia|].
    apply (Z.bounded_iff_bits_nonneg 64); [lia|apply Z.lor_nonneg; lia|]. intros i Hi.
    rewrite Z.lor_spec, (proj1 (Z.bounded_iff_bits_nonneg 64 (per_core_tss + SIZEOF_TSS * core) ltac:(lia) ltac:(lia)) ltac:(lia) i Hi).
    apply (proj1 (Z.bounded_iff_bits_nonneg 64 0xFFFFFFFF00000000 ltac:(lia) ltac:(lia)) ltac:(lia) i Hi).
  - done.
  - change (0 <= u16 (Z.lor (GDT_TSS_OFFSET + 16 * core) 3) < 2 ^ 16).
    rewrite Hsel. unfold TSS_SEG, GDT_TSS_OFFSET. lia.
  - unfold attributes_ok. split_and!; vm_compute; done.
Qed.

(** A core started under Hyper-V. With a hypervisor that answers the request for
    registers, the block handed over is 240 bytes long, a multiple of 8, and reads back
    as: this partition, the core's index, the entry point of the cores, its stack,
    its thread-local block as FS base, its per-core data as GS base, its own task
    segment, marked busy, and every other register as it is on the running core.
    Nothing is logged exactly when the hypervisor accepts the start. *)
Theorem init_cpu_hyperv_context regs get start ap_reset per_core per_core_tss core sp tls :
  answers_registers regs get -> 0 <= core < MAX_CORE_COUNT ->
  is_u64 ap_reset -> is_u64 sp -> is_u64 tls -> is_u64 per_core ->
  is_u64 (per_core_tss + SIZEOF_TSS * core) ->
  let r := running_context regs in
  exists p log c, init_cpu_hyperv get start ap_reset per_core (fill_tss per_core_tss gdt_initial) core sp tls = Some (p, log) /\
    length (start_bytes p) = 240%nat /\ (log = [] <-> start p = HV_STATUS_SUCCESS) /\
    parse_start (start_bytes p) = (mkStart HV_PARTITION_ID_SELF core 0 c, []) /\
    rip c = ap_reset /\ rsp c = sp /\ fs c = with_base tls (fs r) /\ gs c = with_base per_core (gs r) /\
    seg_selector (tr c) = TSS_SEG core /\ segment_type (seg_attributes (tr c)) = 0xb /\
    (rflags c, cs c, ds c, es c, ss c, ldtr c, idtr c, gdtr c) =
      (rflags r, cs r, ds r, es r, ss r, ldtr r, idtr r, gdtr r) /\
    (efer c, cr0 c, cr3 c, cr4 c, msr_cr_pat c) = (efer r, cr0 r, cr3 r, cr4 r, msr_cr_pat r).
Proof.
  intros Hg Hc Hap Hsp Htl Hpc Htss r. unfold init_cpu_hyperv. rewrite (clone_running regs get Hg).
  destruct (tss_entry core per_core_tss gdt_initial) as (e & He & Hr).
  { unfold gdt_initial; cbn [tss]. rewrite length_replicate. unfold MAX_CORE_COUNT in *. lia. }
  destruct (tss_type_bit per_core_tss core _ Hc Htss Hr) as (Hseg & Hty & Hsel).
  rewrite Hr. cbn [mbind option_bind option_list app]. eexists _, _, _. split; [reflexivity|].
  pose proof (running_context_ok regs) as (Hw & Hs & Ht). fold r in Hw, Hs, Ht |- *.
  rewrite !Forall_cons in Hw. rewrite !Forall_cons in Hs. rewrite !Forall_cons in Ht.
  assert (forall b s, is_u64 b -> segment_ok s -> segment_ok (with_base b s)) as Hwb
    by (intros b s Hb (_ & ? & ? & ?); by split).
  split; [done|]. split; [case_if_prop; split; intros; done || lia|].
  split; [rewrite <- (app_nil_r (start_bytes _)); apply parse_start_bytes|done].
  unfold start_ok, context_ok. cbn [partition_id start_vp_index start_target_vtl context].
  unfold MAX_CORE_COUNT, HV_PARTITION_ID_SELF in *.
  split_and!; try (unfold is_u64; lia); cbn; rewrite !Forall_cons; split_and!; try tauto; auto;
    (apply Hwb; tauto) || constructor.
Qed.

(** A hypervisor whose every register holds its own code. *)
Definition echo_hypervisor (p : GetRegisterParams) : Z * list Z := (0, input_elements p).

Lemma init_cpu_hyperv_context_witness :
  exists p log, init_cpu_hyperv echo_hypervisor (fun _ => 0) 0x1000 0x8000 (fill_tss 0x400000 gdt_initial) 3 0x9000 0xA000
    = Some (p, log) /\ fst (parse_start (start_bytes p)) = p /\ log = [].
Proof.
  destruct (init_cpu_hyperv_context (fun z => z) echo_hypervisor (fun _ => 0) 0x1000 0x8000 0x400000 3 0x9000 0xA000)
    as (p & log & c & Hp & _ & Hl & Hparse & _).
  - intros q _ _. unfold echo_hypervisor. by rewrite map_id.
  - unfold MAX_CORE_COUNT. lia.
  - unfold is_u64. lia.
  - unfold is_u64. lia.
  - unfold is_u64. lia.
  - unfold is_u64. lia.
  - unfold is_u64, SIZEOF_TSS. lia.
  - exists p, log. split; [exact Hp|]. split; [|by apply Hl].
    vm_compute in Hp. injection Hp as <- _. vm_compute. reflexivity.
Defined.
