(* ===== verification/SevCore.v ===== *)
(** * The start of a core under SEV (arch/x86_64/cores_sev.cc)

    The state of the new core is a page in memory, which the processor reads. [Cpu] fills the
    fields of the save area; here they become the bytes of the packed structure, and the
    processor's view of the page is given by the offsets of its manual. *)

From S2P Require Import Prelude External Sev Ghcb Acpi Cpu HvCore.

(** ** Packed structures *)

(** The fields of a packed structure: number of bytes and value. *)
Abbreviation fields := (list (nat * Z)).

Definition field_bytes (fs : fields) : list Z := concat (map (fun f => le_bytes (fst f) (snd f)) fs).

Definition offset_of (fs : fields) (i : nat) : nat := list_sum (map fst (take i fs)).

(** The word of [n] bytes at an offset. *)
Definition word_at (l : list Z) (off n : nat) : Z := le_value (take n (drop off l)).

Lemma field_bytes_length fs : length (field_bytes fs) = list_sum (map fst fs).
Proof.
  unfold field_bytes. induction fs as [|[n v] fs IH]; [done|]. cbn [map concat fst snd list_sum foldr].
  rewrite length_app, le_bytes_length. unfold list_sum in *. by rewrite IH.
Qed.

Lemma field_at fs rest i n v : fs !! i = Some (n, v) -> 0 <= v < 2 ^ (8 * Z.of_nat n) ->
  word_at (field_bytes fs ++ rest) (offset_of fs i) n = v.
Proof.
  intros Hi Hv. apply list_elem_of_split_length in Hi as (l1 & l2 & -> & ->). unfold word_at, offset_of.
  rewrite take_app_length. unfold field_bytes at 1. rewrite map_app, concat_app. cbn [map concat fst snd].
  change (concat (map (fun f => le_bytes (fst f) (snd f)) l1)) with (field_bytes l1).
  rewrite <- !app_assoc, <- field_bytes_length, drop_app_length, take_app_le by (by rewrite le_bytes_length).
  rewrite <- (le_bytes_length n v) at 1. rewrite firstn_all. by apply le_value_bytes.
Qed.

(** ** The secret page *)

(** [SevSecretPage]: the sizes of its members, the four keys one by one. *)
Definition secret_page_sizes : list nat :=
  [4; 4; 4; 4; 0x10; 0x20; 0x20; 0x20; 0x20; 0x60; 0x40; 0x20; 4]%nat.

(** [vmpck[k]]. *)
Definition vmpck (page : list Z) (k : nat) : list Z := take 0x20 (drop (list_sum (take (5 + k) secret_page_sizes)) page).

(** The keys are 32 bytes each, in a row from 0x20 on, inside the 0x164 bytes of the page; no two overlap. *)
Lemma vmpck_place page k : (k < 4)%nat -> list_sum secret_page_sizes = 0x164%nat /\
  vmpck page k = take 0x20 (drop (0x20 + 0x20 * k) page) /\
  ((0x164 <= length page)%nat -> length (vmpck page k) = 0x20%nat).
Proof.
  intros Hk. assert (list_sum (take (5 + k) secret_page_sizes) = (0x20 + 0x20 * k)%nat) as Hs.
  { do 4 (destruct k as [|k]; [reflexivity|]). lia. }
  split; [done|]. unfold vmpck. rewrite Hs. split; [done|]. intros Hl. rewrite length_take, length_drop. lia.
Qed.

(** ** The save area *)

(** [SystemDescriptorTable]'s conversion: limit and base, the rest 0. *)
Definition table_selector (t : Z * Z) : SegmentRegister :=
  mkSeg (snd t) (fst t) 0 (mkAttr 0 0 0 0 0 0 0 0 0).

(** [SevVmcbSelector] in memory. *)
Definition selector_fields (s : SegmentRegister) : fields :=
  [(2%nat, seg_selector s); (2%nat, attributes_raw (seg_attributes s)); (4%nat, seg_limit s); (8%nat, seg_base s)].

Definition null_selector : SegmentRegister := table_selector (0, 0).

(** [SevVmsa] in memory, what is not written being 0. *)
Definition vmsa_fields (v : SevVmsa) : fields :=
  selector_fields (v_es v) ++ selector_fields (v_cs v) ++ selector_fields (v_ss v) ++ selector_fields (v_ds v) ++
  selector_fields (v_fs v) ++ selector_fields (v_gs v) ++ selector_fields (table_selector (v_gdtr v)) ++
  selector_fields null_selector ++ selector_fields (table_selector (v_idtr v)) ++ selector_fields (v_tr v) ++
  [((0xd0 - 0x90 - 16)%nat, 0); (8%nat, v_efer v);
   ((0x148 - 0xd0 - 8)%nat, 0); (8%nat, v_cr4 v); (8%nat, v_cr3 v); (8%nat, v_cr0 v);
   ((0x170 - 0x158 - 8)%nat, 0); (8%nat, v_rflags v); (8%nat, v_rip v);
   ((0x1d8 - 0x178 - 8)%nat, 0); (8%nat, v_rsp v);
   ((0x268 - 0x1d8 - 8)%nat, 0); (8%nat, v_gpat v);
   ((0x2f0 - 0x268 - 8)%nat, 0); (8%nat, v_tsc_scale v); (8%nat, v_tsc_offset v);
   ((0x3b0 - 0x2f8 - 8)%nat, 0); (8%nat, v_sev_features v);
   ((0x3c8 - 0x3b0 - 8)%nat, 0); (8%nat, v_virtual_top_of_memory v);
   ((0x3e8 - 0x3c8 - 8)%nat, 0); (8%nat, v_xcr0 v);
   ((0x408 - 0x3e8 - 8)%nat, 0); (4%nat, v_mxcsr v); (2%nat, 0); (2%nat, 0); (2%nat, v_fp_control v); (2%nat, 0)].

(** The page from [early_alloc_zero] with the structure in it. *)
Definition vmsa_page (v : SevVmsa) : list Z :=
  field_bytes (vmsa_fields v) ++ replicate (0x1000 - 0x414)%nat 0.

(** [init_cpu_sev] from the firmware's clock state on; [None] where the core has no task
    segment. The page and the calls made. *)
Definition init_cpu_sev (settings : SevVmsaSettings) (cpu : CpuState) (tsc : Z * Z * Z)
  (mxcsr fp_control ap_reset per_core : Z) (g : GDT) (rmpadjust : Z -> Z -> bool) (call_hv : Z -> StartVP -> Z)
  (vtl new_vmsa core sp tls : Z) : option (outcome (list Z * list (Z * StartVP))) :=
  tr ← tss_register core g;
  let v := fill_vmsa settings cpu tsc mxcsr fp_control ap_reset sp tls per_core tr in
  Some (let* calls := start_vmsa rmpadjust call_hv core vtl new_vmsa in Done (vmsa_page v, calls)).

(** ** What the processor reads *)

(** A segment register at an offset of the page. *)
Definition selector_at (l : list Z) (off : nat) : SegmentRegister :=
  mkSeg (word_at l (off + 8) 8) (word_at l (off + 4) 4) (word_at l off 2) (attributes_of (word_at l (off + 2) 2)).

Lemma offset_of_add fs k j : offset_of fs (k + j) = (offset_of fs k + list_sum (map fst (take j (drop k fs))))%nat.
Proof.
  unfold offset_of. rewrite <- list_sum_app, <- map_app. do 2 f_equal.
  rewrite <- (take_drop k fs) at 1. destruct (decide (k <= length fs)%nat).
  - rewrite <- (length_take_le fs k) at 1 by done. by rewrite take_app_add.
  - rewrite drop_ge, app_nil_r, !take_ge by (rewrite ?length_take; cbn; lia). by rewrite ?app_nil_r.
Qed.

Lemma selector_read fs rest k s off :
  take 4 (drop k fs) = selector_fields s -> offset_of fs k = off -> segment_ok s ->
  selector_at (field_bytes fs ++ rest) off = s.
Proof.
  intros Hk <- (Hb & Hl & Hs & Ha). unfold selector_at.
  assert (forall j n v, (j < 4)%nat -> selector_fields s !! j = Some (n, v) -> 0 <= v < 2 ^ (8 * Z.of_nat n) ->
    word_at (field_bytes fs ++ rest) (offset_of fs k + list_sum (map fst (take j (selector_fields s)))) n = v) as Hw.
  { intros j n v Hj Hf Hv. rewrite <- Hk, take_take, Nat.min_l, <- offset_of_add by lia.
    apply (field_at fs rest (k + j)); [|done]. rewrite <- lookup_drop, <- (lookup_take_lt _ 4 j) by done. by rewrite Hk. }
  pose proof (Hw 0%nat 2%nat _ ltac:(lia) eq_refl Hs) as H0.
  pose proof (Hw 1%nat 2%nat _ ltac:(lia) eq_refl (attributes_raw_bound _ Ha)) as H1.
  pose proof (Hw 2%nat 4%nat _ ltac:(lia) eq_refl Hl) as H2. pose proof (Hw 3%nat 8%nat _ ltac:(lia) eq_refl Hb) as H3.
  cbn [take map fst list_sum foldr selector_fields Nat.add] in H0, H1, H2, H3. rewrite Nat.add_0_r in H0.
  rewrite H0, H1, H2, H3, attributes_roundtrip by done. by destruct s.
Qed.

Definition table_range (t : Z * Z) : Prop := 0 <= fst t < 2 ^ 16 /\ is_u64 (snd t).

Lemma table_selector_ok t : table_range t -> segment_ok (table_selector t).
Proof. intros [Hl Hb]. unfold segment_ok, attributes_ok. cbn. split_and!; try done; lia. Qed.

Record vmsa_ok (v : SevVmsa) : Prop := {
  vo_segments : Forall segment_ok [v_es v; v_cs v; v_ss v; v_ds v; v_fs v; v_gs v; v_tr v];
  vo_tables : table_range (v_gdtr v) /\ table_range (v_idtr v);
  vo_words : Forall is_u64 [v_efer v; v_cr4 v; v_cr3 v; v_cr0 v; v_rflags v; v_rip v; v_rsp v; v_gpat v;
    v_tsc_scale v; v_tsc_offset v; v_sev_features v; v_virtual_top_of_memory v; v_xcr0 v];
  vo_fp : 0 <= v_mxcsr v < 2 ^ 32 /\ 0 <= v_fp_control v < 2 ^ 16;
}.

(** The offsets of the processor's manual: segments and tables, 64-bit words. *)
Definition VMSA_SEGMENTS : list nat := [0x0; 0x10; 0x20; 0x30; 0x40; 0x50; 0x60; 0x70; 0x80; 0x90]%nat.
Definition VMSA_WORDS : list nat :=
  [0xd0; 0x148; 0x150; 0x158; 0x170; 0x178; 0x1d8; 0x268; 0x2f0; 0x2f8; 0x3b0; 0x3c8; 0x3e8]%nat.

Lemma vmsa_page_length v : length (vmsa_page v) = 0x1000%nat.
Proof. unfold vmsa_page. rewrite length_app, field_bytes_length, length_replicate. reflexivity. Qed.

Lemma vmsa_segments v : vmsa_ok v ->
  map (selector_at (vmsa_page v)) VMSA_SEGMENTS =
    [v_es v; v_cs v; v_ss v; v_ds v; v_fs v; v_gs v; table_selector (v_gdtr v); null_selector;
     table_selector (v_idtr v); v_tr v].
Proof.
  intros [Hs [Hg Hi] _ _]. rewrite !Forall_cons in Hs. destruct Hs as (? & ? & ? & ? & ? & ? & ? & _).
  pose proof (table_selector_ok _ Hg). pose proof (table_selector_ok _ Hi).
  assert (segment_ok null_selector) by (apply table_selector_ok; split; cbn; unfold is_u64; lia).
  assert (forall k s off, take 4 (drop k (vmsa_fields v)) = selector_fields s -> offset_of (vmsa_fields v) k = off ->
    segment_ok s -> selector_at (vmsa_page v) off = s) as Hr by (intros *; apply selector_read).
  cbn [map VMSA_SEGMENTS].
  rewrite (Hr 0%nat (v_es v)), (Hr 4%nat (v_cs v)), (Hr 8%nat (v_ss v)), (Hr 12%nat (v_ds v)), (Hr 16%nat (v_fs v)),
    (Hr 20%nat (v_gs v)), (Hr 24%nat (table_selector (v_gdtr v))), (Hr 28%nat null_selector),
    (Hr 32%nat (table_selector (v_idtr v))), (Hr 36%nat (v_tr v)) by (reflexivity || done). reflexivity.
Qed.

Lemma vmsa_words v : vmsa_ok v ->
  map (fun off => word_at (vmsa_page v) off 8) VMSA_WORDS =
    [v_efer v; v_cr4 v; v_cr3 v; v_cr0 v; v_rflags v; v_rip v; v_rsp v; v_gpat v; v_tsc_scale v; v_tsc_offset v;
     v_sev_features v; v_virtual_top_of_memory v; v_xcr0 v] /\
  word_at (vmsa_page v) 0x408 4 = v_mxcsr v /\ word_at (vmsa_page v) 0x410 2 = v_fp_control v.
Proof.
  intros [_ _ Hw [Hm Hf]]. rewrite !Forall_cons in Hw. destruct Hw as (? & ? & ? & ? & ? & ? & ? & ? & ? & ? & ? & ? & ? & _).
  assert (forall i n x off, vmsa_fields v !! i = Some (n, x) -> offset_of (vmsa_fields v) i = off ->
    0 <= x < 2 ^ (8 * Z.of_nat n) -> word_at (vmsa_page v) off n = x) as Hr.
  { intros i n x off Hi <- Hx. by apply field_at. }
  cbn [map VMSA_WORDS]. split; [|split; [by apply (Hr 63%nat)|by apply (Hr 66%nat)]].
  rewrite (Hr 41%nat 8%nat (v_efer v)), (Hr 43%nat 8%nat (v_cr4 v)), (Hr 44%nat 8%nat (v_cr3 v)), (Hr 45%nat 8%nat (v_cr0 v)),
    (Hr 47%nat 8%nat (v_rflags v)), (Hr 48%nat 8%nat (v_rip v)), (Hr 50%nat 8%nat (v_rsp v)), (Hr 52%nat 8%nat (v_gpat v)),
    (Hr 54%nat 8%nat (v_tsc_scale v)), (Hr 55%nat 8%nat (v_tsc_offset v)), (Hr 57%nat 8%nat (v_sev_features v)),
    (Hr 59%nat 8%nat (v_virtual_top_of_memory v)), (Hr 61%nat 8%nat (v_xcr0 v)) by (reflexivity || done). reflexivity.
Qed.

(** ** The new core *)

Record settings_ok (s : SevVmsaSettings) : Prop := {
  so_words : Forall is_u64 [vs_sev_features s; vs_virtual_top_of_memory s; vs_gpat s];
  so_segments : Forall segment_ok [vs_es s; vs_cs s; vs_ss s; vs_ds s; vs_fs s; vs_gs s];
}.

Record cpu_ok (c : CpuState) : Prop := {
  cpo_words : Forall is_u64 [cpu_xcr0 c; cpu_efer c; cpu_cr4 c; cpu_cr3 c; cpu_cr0 c; cpu_rflags c];
  cpo_tables : table_range (cpu_gdtr c) /\ table_range (cpu_idtr c);
}.

Lemma with_base_ok b s : is_u64 b -> segment_ok s -> segment_ok (with_base b s).
Proof. intros Hb (_ & ? & ? & ?). by split. Qed.

(** The task segment of a core as it is handed over here, not marked busy. *)
Lemma tss_register_ok per_core_tss core :
  0 <= core < MAX_CORE_COUNT -> is_u64 (per_core_tss + SIZEOF_TSS * core) ->
  exists seg, tss_register core (fill_tss per_core_tss gdt_initial) = Some seg /\ segment_ok seg /\
    seg_selector seg = TSS_SEG core /\ segment_type (seg_attributes seg) = SEG_TSS.
Proof.
  intros Hc Ht. destruct (tss_entry core per_core_tss gdt_initial) as (e & He & Hr).
  { unfold gdt_initial; cbn [tss]. rewrite length_replicate. unfold MAX_CORE_COUNT in *. lia. }
  destruct (tss_type_bit per_core_tss core _ Hc Ht Hr) as ((Hb & Hl & Hs & _) & _ & Hsel).
  apply lookup_replicate in He as [-> _]. eexists. split; [exact Hr|]. split; [|done].
  split; [exact Hb|]. split; [exact Hl|]. split; [exact Hs|]. unfold attributes_ok. split_and!; vm_compute; done.
Qed.

Lemma start_vmsa_refused rmpadjust call_hv core vtl vmsa :
  start_vmsa rmpadjust call_hv core vtl vmsa = Kabort ->
  rmpadjust vmsa (2 ^ 16 + 1) = false \/
  exists code, code ∈ [HvCallEnableVpVtl; HvCallStartVirtualProcessor] /\
    call_hv code (mkStartVP core vtl (Z.lor vmsa 1)) <> 0.
Proof.
  unfold start_vmsa, fill_start_vp_input. change (rmpadjust_permissions 1 0 true) with (2 ^ 16 + 1).
  destruct (rmpadjust vmsa (2 ^ 16 + 1)); cbn [negb]; [intros Hs; right|by left]. unfold HV_STATUS_SUCCESS in Hs.
  set (p := mkStartVP core vtl (Z.lor vmsa 1)) in *.
  destruct (Z.eqb_spec (call_hv HvCallStartVirtualProcessor p) 0) as [H0|H0];
    [|by exists HvCallStartVirtualProcessor; split; [right; left|]].
  destruct (Z.eqb_spec (call_hv HvCallEnableVpVtl p) 0) as [H1|H1]; [|by exists HvCallEnableVpVtl; split; [left|]].
  by destruct (vtl =? 0).
Qed.

(** A core started under SEV. The page handed to the processor reads back, at the
    offsets of its manual, as: the entry point of the cores, its stack, its thread-local block as
    FS base, its per-core data as GS base and its own task segment; the segments and features of the
    image; control registers, tables and flags of the running core; the clock of the
    firmware. The core is announced under its number and with that page, after the page was made
    a save area; when the processor or the hypervisor refuses, the machine stops. *)
Theorem init_cpu_sev_context settings cpu tsc mxcsr fp_control ap_reset per_core per_core_tss rmpadjust call_hv vtl new_vmsa core sp tls :
  settings_ok settings -> cpu_ok cpu -> is_u64 (fst (fst tsc)) -> is_u64 (snd (fst tsc)) ->
  0 <= mxcsr < 2 ^ 32 -> 0 <= fp_control < 2 ^ 16 -> Forall is_u64 [ap_reset; per_core; sp; tls] ->
  0 <= core < MAX_CORE_COUNT -> is_u64 (per_core_tss + SIZEOF_TSS * core) ->
  exists r tr, init_cpu_sev settings cpu tsc mxcsr fp_control ap_reset per_core (fill_tss per_core_tss gdt_initial)
    rmpadjust call_hv vtl new_vmsa core sp tls = Some r /\
  match r with
  | Done (page, calls) =>
      length page = 0x1000%nat /\
      map (selector_at page) VMSA_SEGMENTS =
        [vs_es settings; vs_cs settings; vs_ss settings; vs_ds settings; with_base tls (vs_fs settings);
         with_base per_core (vs_gs settings); table_selector (cpu_gdtr cpu); null_selector;
         table_selector (cpu_idtr cpu); tr] /\
      map (fun off => word_at page off 8) VMSA_WORDS =
        [cpu_efer cpu; cpu_cr4 cpu; cpu_cr3 cpu; cpu_cr0 cpu; cpu_rflags cpu; ap_reset; sp; vs_gpat settings;
         fst (fst tsc); snd (fst tsc); vs_sev_features settings; vs_virtual_top_of_memory settings; cpu_xcr0 cpu] /\
      seg_selector tr = TSS_SEG core /\
      rmpadjust new_vmsa (2 ^ 16 + 1) = true /\
      map fst calls = (if vtl =? 0 then [] else [HvCallEnableVpVtl]) ++ [HvCallStartVirtualProcessor] /\
      Forall (fun c => snd c = mkStartVP core vtl (Z.lor new_vmsa 1) /\ call_hv (fst c) (snd c) = 0) calls
  | Kabort => rmpadjust new_vmsa (2 ^ 16 + 1) = false \/
      exists code, code ∈ [HvCallEnableVpVtl; HvCallStartVirtualProcessor] /\
        call_hv code (mkStartVP core vtl (Z.lor new_vmsa 1)) <> 0
  | Hang => False
  end.
Proof.
  intros [Hsw Hss] [Hcw Hct] Hts Hto Hmx Hfp Hw Hc Htss.
  destruct (tss_register_ok per_core_tss core Hc Htss) as (tr & Htr & Hok & Hsel & _).
  unfold init_cpu_sev. rewrite Htr. cbn [mbind option_bind].
  set (v := fill_vmsa _ _ _ _ _ _ _ _ _ _). eexists _, tr. split; [done|].
  rewrite !Forall_cons in Hsw. rewrite !Forall_cons in Hss. rewrite !Forall_cons in Hcw. rewrite !Forall_cons in Hw.
  assert (vmsa_ok v) as Hv.
  { split; cbn [v fill_vmsa v_es v_cs v_ss v_ds v_fs v_gs v_tr v_gdtr v_idtr v_efer v_cr4 v_cr3 v_cr0 v_rflags v_rip
      v_rsp v_gpat v_tsc_scale v_tsc_offset v_sev_features v_virtual_top_of_memory v_xcr0 v_mxcsr v_fp_control];
      rewrite ?Forall_cons; split_and!; try tauto; try (apply with_base_ok; tauto); by apply Forall_nil. }
  destruct (start_vmsa rmpadjust call_hv core vtl new_vmsa) as [calls| |] eqn:Es; cbn [obind].
  - destruct (start_vmsa_calls _ _ _ _ _ _ Es) as (Hr & Hm & Ha). split; [apply vmsa_page_length|].
    split; [exact (vmsa_segments v Hv)|]. split; [exact (proj1 (vmsa_words v Hv))|]. done.
  - by apply start_vmsa_refused.
  - unfold start_vmsa in Es. by repeat case_if_prop.
Qed.

Definition example_settings : SevVmsaSettings :=
  let s := mkSeg 0 0xffffffff 8 (mkAttr 0xb 1 0 1 0xf 0 1 0 1) in mkVmsaSettings 1 0 0 s s s s s s.
Definition example_cpu : CpuState := mkCpu 7 (0x7f, 0x1000) (0xfff, 0x2000) 0xd01 0x20 0x3000 0x80010033 2.

(** Core 3, with a host that agrees: entry point and stack as read by the processor. *)
Lemma init_cpu_sev_context_witness :
  exists page calls, init_cpu_sev example_settings example_cpu (0, 0, 0) 0x1f80 0x37f 0x601000 0x5000
    (fill_tss 0x6000 gdt_initial) (fun _ _ => true) (fun _ _ => 0) 0 0x9000 3 0x8000 0x7000 = Some (Done (page, calls)) /\
  word_at page 0x178 8 = 0x601000 /\ word_at page 0x1d8 8 = 0x8000.
Proof.
  assert (segment_ok (mkSeg 0 0xffffffff 8 (mkAttr 0xb 1 0 1 0xf 0 1 0 1))) as Hs by (unfold segment_ok, attributes_ok, is_u64; cbn; lia).
  destruct (init_cpu_sev_context example_settings example_cpu (0, 0, 0) 0x1f80 0x37f 0x601000 0x5000 0x6000
    (fun _ _ => true) (fun _ _ => 0) 0 0x9000 3 0x8000 0x7000) as (r & tr & Hr & Hc).
  - split; rewrite !Forall_cons; cbn; split_and!; try (exact Hs); try (unfold is_u64; lia); apply Forall_nil; done.
  - split; [rewrite !Forall_cons; cbn; split_and!; try (unfold is_u64; lia); apply Forall_nil; done|].
    unfold table_range, is_u64; cbn; lia.
  - unfold is_u64; cbn; lia.
  - unfold is_u64; cbn; lia.
  - lia.
  - lia.
  - rewrite !Forall_cons. split_and!; try (unfold is_u64; lia). apply Forall_nil. done.
  - unfold MAX_CORE_COUNT; lia.
  - unfold is_u64, SIZEOF_TSS; lia.
  - destruct r as [[page calls]| |].
    + exists page, calls. split; [exact Hr|]. destruct Hc as (_ & _ & Hw & _). cbn [map VMSA_WORDS] in Hw. injection Hw as _ _ _ _ _ H5 H6 _.
      split; [exact H5|exact H6].
    + destruct Hc as [Hx|(c & _ & Hx)]; [discriminate Hx|destruct Hx; reflexivity].
    + destruct Hc.
Defined.
