(* ===== verification/Threads.v ===== *)
(** * Thread-local storage and time (crt/thread.cc, crt/tls.cc, crt/time.cc)

    The dynamic slots of a thread, the layout of its thread-local block and the
    clock derived from the time stamp counter. *)

From S2P Require Import Prelude External.

(** ** Thread identifiers *)

Definition core_to_thread (core_id : Z) : Z := u32 (core_id + 1).
Definition thread_to_core (thread : Z) : Z := u32 (thread - 1).

(** ** Dynamic slots *)

Definition GLOBAL_DYNAMIC_TLS_SIZE : Z := 256.
Definition COMPARTMENT_DYNAMIC_TLS_SIZE : Z := 256.
Definition DYNAMIC_TLS_SIZE : Z := GLOBAL_DYNAMIC_TLS_SIZE + COMPARTMENT_DYNAMIC_TLS_SIZE.

(** The array of a thread, the next global slot and the next slot of the
    compartment the thread is in. *)
Record TlsSlots : Type := mkSlots {
  dynamic_tls : list Z;
  current_dynamic_tls_slot : Z;
  compartment_dynamic_tls_slot : Z;
}.

Definition slots_initial : TlsSlots :=
  mkSlots (replicate (Z.to_nat DYNAMIC_TLS_SIZE) 0) 0 GLOBAL_DYNAMIC_TLS_SIZE.

(** [is_comp] is [monza::is_compartment()]. *)
Definition allocate_tls_slot (is_comp : bool) (s : TlsSlots) : option Z * TlsSlots :=
  if is_comp then
    if compartment_dynamic_tls_slot s =? DYNAMIC_TLS_SIZE - 1 then (None, s)
    else (Some (compartment_dynamic_tls_slot s),
          mkSlots (dynamic_tls s) (current_dynamic_tls_slot s) (u16 (compartment_dynamic_tls_slot s + 1)))
  else
    if current_dynamic_tls_slot s =? GLOBAL_DYNAMIC_TLS_SIZE - 1 then (None, s)
    else (Some (current_dynamic_tls_slot s),
          mkSlots (dynamic_tls s) (u16 (current_dynamic_tls_slot s + 1)) (compartment_dynamic_tls_slot s)).

Definition is_slot_valid (is_comp : bool) (s : TlsSlots) (key : Z) : bool :=
  if is_comp then
    if key >=? compartment_dynamic_tls_slot s then false
    else if (key >=? current_dynamic_tls_slot s) && (key <? GLOBAL_DYNAMIC_TLS_SIZE) then false
    else true
  else
    if key >=? current_dynamic_tls_slot s then false else true.

Definition get_tls_slot (is_comp : bool) (key : Z) (s : TlsSlots) : Z :=
  if is_slot_valid is_comp s key then nth (Z.to_nat key) (dynamic_tls s) 0 else 0.

Definition set_tls_slot (is_comp : bool) (key data : Z) (s : TlsSlots) : bool * TlsSlots :=
  if is_slot_valid is_comp s key
  then (true, mkSlots (<[Z.to_nat key := data]> (dynamic_tls s)) (current_dynamic_tls_slot s)
                (compartment_dynamic_tls_slot s))
  else (false, s).

(** ** The thread-local block *)

Section TlsBlock.
Context `{SnmallocBits} (tdata_start tdata_end tbss_size : Z).

Definition TBSS_ALIGNMENT : Z := 4096.
Definition SIZEOF_TCB : Z := 32.

Definition get_initialized_tls_size : Z := u64 (tdata_end - tdata_start).
Definition get_uninitialized_tls_offset : Z := u64 (align_up tdata_end TBSS_ALIGNMENT - tdata_start).

(** [snmalloc::aligned_size] rounds up to the alignment. *)
Definition get_tls_size : Z := u64 (align_up tbss_size TBSS_ALIGNMENT + get_uninitialized_tls_offset).
Definition get_tls_alloc_size : Z := u64 (get_tls_size + SIZEOF_TCB).

(** [TCB]. *)
Record TCB : Type := mkTCB {
  self_ptr : Z;
  tcb_stack_low : Z;
  tcb_stack_high : Z;
  tcb_compartment : Z;
}.

(** The writes of [initialize_tls]: the copy of the image, the cleared part, and
    the control block at the address that is returned. *)
Record TlsInit : Type := mkTlsInit {
  copied : Z * Z;
  cleared : Z * Z;
  tls_base : Z;
  tcb : TCB;
}.

Definition initialize_tls (compartment tls_alloc_base stack_limit_low stack_limit_high : Z) : TlsInit :=
  let base := u64 (tls_alloc_base + get_tls_size) in
  mkTlsInit (tls_alloc_base, get_initialized_tls_size)
    (u64 (tls_alloc_base + get_uninitialized_tls_offset), tbss_size)
    base (mkTCB base stack_limit_low stack_limit_high compartment).

(** [alloc] is the early or the ordinary allocator. *)
Definition create_tls (alloc : Z -> Z) (stack_limit_low stack_limit_high : Z) : outcome TlsInit :=
  let tls_alloc_base := alloc get_tls_alloc_size in
  if tls_alloc_base =? 0 then Kabort
  else Done (initialize_tls 0 tls_alloc_base stack_limit_low stack_limit_high).

(** What [free_tls] frees. *)
Definition free_tls (tls : Z) : Z := u64 (tls - get_tls_size).

End TlsBlock.

(** ** Time *)

Definition NS_IN_S : Z := 1000000000.

Record PreciseTimespec : Type := mkPrecise { tv_sec : Z; tv_tick : Z }.
Record timespec : Type := mkTimespec { ts_sec : Z; ts_nsec : Z }.

Section Time.
Context (tsc_freq : Z).

Definition tick_to_ns (tick : Z) : Z := u64 (tick * NS_IN_S) / tsc_freq.
Definition ns_to_tick (ns : Z) : Z := u64 (ns * tsc_freq) / NS_IN_S.

Record TimeState : Type := mkTime { time_at_boot : PreciseTimespec; ticks_at_boot : Z }.

(** [now] is the value of the counter. *)
Definition get_elapsed_ticks (now : Z) (s : TimeState) : Z := u64 (now - ticks_at_boot s).

Definition init_timing (measured : timespec) (now : Z) : TimeState :=
  mkTime (mkPrecise (ts_sec measured) (ns_to_tick (ts_nsec measured))) now.

Definition get_timespec (since_boot : bool) (now : Z) (s : TimeState) : timespec :=
  let elapsed_ticks := get_elapsed_ticks now s in
  let c := mkPrecise (elapsed_ticks / tsc_freq) (elapsed_ticks mod tsc_freq) in
  let c := if negb since_boot then
             let sec := tv_sec c + tv_sec (time_at_boot s) in
             let tick := u64 (tv_tick c + tv_tick (time_at_boot s)) in
             mkPrecise (sec + tick / tsc_freq) (tick mod tsc_freq)
           else c in
  mkTimespec (tv_sec c) (tick_to_ns (tv_tick c)).

End Time.

(** ** Facts *)

Record slots_ok (s : TlsSlots) : Prop := {
  so_length : length (dynamic_tls s) = 512%nat;
  so_current : 0 <= current_dynamic_tls_slot s <= 255;
  so_compartment : 256 <= compartment_dynamic_tls_slot s <= 511;
}.

Lemma slot_valid_spec s is_comp key :
  slots_ok s -> 0 <= key ->
  is_slot_valid is_comp s key = true <->
  key < current_dynamic_tls_slot s \/ (is_comp = true /\ 256 <= key < compartment_dynamic_tls_slot s).
Proof.
  intros [Hl Hc Hk] H0. unfold is_slot_valid, GLOBAL_DYNAMIC_TLS_SIZE.
  destruct is_comp; repeat case_if_prop; split; try done; try lia.
Qed.

Lemma slot_valid_lt s is_comp key :
  slots_ok s -> 0 <= key -> is_slot_valid is_comp s key = true -> key < 512.
Proof. intros Hok H0 Hv%slot_valid_spec; [|done..]. destruct Hok as [_ ? ?]. lia. Qed.

(** A successful allocation. *)
Lemma allocate_spec s is_comp k s' :
  slots_ok s -> allocate_tls_slot is_comp s = (Some k, s') ->
  slots_ok s' /\ dynamic_tls s' = dynamic_tls s /\ (if is_comp then 256 <= k < 511 else 0 <= k < 255) /\
  (forall key, 0 <= key -> is_slot_valid is_comp s' key = true <-> is_slot_valid is_comp s key = true \/ key = k).
Proof.
  intros Hok Ha. pose proof Hok as [Hl Hc Hk].
  assert (forall z, 0 <= z <= 511 -> u16 z = z) as Hu by (intros; unfold u16; apply Z.mod_small; lia).
  unfold allocate_tls_slot, DYNAMIC_TLS_SIZE, GLOBAL_DYNAMIC_TLS_SIZE, COMPARTMENT_DYNAMIC_TLS_SIZE in Ha.
  destruct is_comp; case_if_prop; try done; injection Ha as <- <-; rewrite Hu by lia;
    (split; [split; cbn; lia|split; [done|split; [lia|]]]); intros key H0;
    (rewrite !slot_valid_spec by (done || split; cbn; lia)); cbn; intuition (try discriminate; lia).
Qed.

Lemma valid_unchanged s s' is_comp k key :
  (forall key, 0 <= key -> is_slot_valid is_comp s' key = true <-> is_slot_valid is_comp s key = true \/ key = k) ->
  0 <= key -> key <> k -> is_slot_valid is_comp s' key = is_slot_valid is_comp s key.
Proof. intros Hv H0 Hne. apply eq_true_iff_eq. rewrite Hv by done. tauto. Qed.

Lemma tls_slots_allocated s is_comp key : slots_ok s ->
  match allocate_tls_slot is_comp s with
  | (Some k, s') => is_slot_valid is_comp s k = false /\
      (key <> k -> 0 <= key -> get_tls_slot is_comp key s' = get_tls_slot is_comp key s)
  | (None, s') => s' = s /\
      (if is_comp then compartment_dynamic_tls_slot s = 511 else current_dynamic_tls_slot s = 255)
  end.
Proof.
  intros Hok. destruct (allocate_tls_slot is_comp s) as [[k|] s'] eqn:Ha.
  - destruct (allocate_spec s is_comp k s' Hok Ha) as (Hok' & Hd & Hk & Hv).
    assert (0 <= k) by (destruct is_comp; lia). split.
    + unfold allocate_tls_slot in Ha. apply not_true_iff_false. rewrite slot_valid_spec by done.
      destruct Hok. destruct is_comp; case_if_prop; try done; injection Ha as <- <-; intuition (discriminate || lia).
    + intros Hne H0. unfold get_tls_slot. by rewrite Hd, (valid_unchanged s s' is_comp k key).
  - unfold allocate_tls_slot in Ha. destruct is_comp; case_if_prop; try done; injection Ha as <-; done.
Qed.

Lemma tls_slots_stored s is_comp key key' data : slots_ok s -> 0 <= key -> 0 <= key' ->
  let '(ok, s') := set_tls_slot is_comp key data s in
  slots_ok s' /\ ok = is_slot_valid is_comp s key /\
  get_tls_slot is_comp key' s' = if ok && (key' =? key) then data else get_tls_slot is_comp key' s.
Proof.
  intros Hok H0 H0'. unfold set_tls_slot. destruct (is_slot_valid is_comp s key) eqn:Hv; [|by split_and!].
  pose proof (slot_valid_lt s is_comp key Hok H0 Hv) as Hlt. pose proof Hok as [Hl Hc Hk].
  split_and!; [split; cbn; by rewrite ?length_insert|done|].
  unfold get_tls_slot. change (is_slot_valid is_comp (mkSlots _ _ _) key') with (is_slot_valid is_comp s key').
  cbn [dynamic_tls andb]. rewrite !nth_lookup. destruct (Z.eqb_spec key' key) as [->|Hne].
  - rewrite Hv, list_lookup_insert_eq by lia. done.
  - rewrite list_lookup_insert_ne by lia. done.
Qed.

(** The dynamic slots. An allocation hands out a key that was not valid before
    and is from then on, global keys below 256 and compartment keys from 256, and
    fails only when the range is used up but for its last slot; a value stored under
    a valid key is read back, no other key's value changes, and a key that is not
    valid reads as null and cannot be stored to. *)
Theorem tls_slots_spec s is_comp key key' data :
  slots_ok s -> 0 <= key -> 0 <= key' ->
  (let '(r, s') := allocate_tls_slot is_comp s in
   slots_ok s' /\
   match r with
   | Some k => is_slot_valid is_comp s k = false /\ is_slot_valid is_comp s' k = true /\
               (if is_comp then 256 <= k < 511 else 0 <= k < 255) /\
               (key <> k -> get_tls_slot is_comp key s' = get_tls_slot is_comp key s)
   | None => s' = s /\ (if is_comp then compartment_dynamic_tls_slot s = 511 else current_dynamic_tls_slot s = 255)
   end) /\
  (let '(ok, s') := set_tls_slot is_comp key data s in
   slots_ok s' /\ ok = is_slot_valid is_comp s key /\
   get_tls_slot is_comp key' s' = if ok && (key' =? key) then data else get_tls_slot is_comp key' s).
Proof.
  intros Hok H0 H0'. split; [|by apply tls_slots_stored].
  pose proof (tls_slots_allocated s is_comp key Hok) as Ha.
  destruct (allocate_tls_slot is_comp s) as [[k|] s'] eqn:E; [|by destruct Ha as [-> Ha]].
  destruct (allocate_spec s is_comp k s' Hok E) as (Hok' & Hd & Hk & Hv), Ha as [Hn Hg].
  split; [done|]. split_and!; [done| |done|by auto]. apply Hv; [destruct is_comp; lia|by right].
Qed.

Lemma tls_slots_spec_witness :
  get_tls_slot false 0 (snd (set_tls_slot false 0 77 (snd (allocate_tls_slot false slots_initial)))) = 77.
Proof.
  destruct (tls_slots_spec (snd (allocate_tls_slot false slots_initial)) false 0 0 77) as [_ H].
  - split; vm_compute; try reflexivity; split; discriminate.
  - lia.
  - lia.
  - exact (proj2 (proj2 H)).
Defined.

(** ** The clock *)

Section Clock.
Context (tsc_freq : Z) (Hpos : 0 < tsc_freq) (Hfreq : tsc_freq * NS_IN_S < 2 ^ 64).

Notation "'NS'" := NS_IN_S.

Lemma boot_tick_bounds ns :
  0 <= ns < NS -> 0 <= ns_to_tick tsc_freq ns < tsc_freq /\
  ns * tsc_freq - NS < ns_to_tick tsc_freq ns * NS <= ns * tsc_freq.
Proof.
  intros Hn. unfold ns_to_tick, NS_IN_S in *. rewrite u64_small by (unfold is_u64; nia).
  assert (0 <= ns * tsc_freq) by nia.
  split; [split; [apply Z.div_pos; lia|apply Z.div_lt_upper_bound; nia]|].
  pose proof (Z.div_mod (ns * tsc_freq) 1000000000 ltac:(lia)).
  pose proof (Z.mod_pos_bound (ns * tsc_freq) 1000000000 ltac:(lia)). lia.
Qed.

Lemma tick_bounds tick :
  0 <= tick < tsc_freq -> 0 <= tick_to_ns tsc_freq tick < NS /\
  tick * NS - tsc_freq < tick_to_ns tsc_freq tick * tsc_freq <= tick * NS.
Proof.
  intros Ht. unfold tick_to_ns, NS_IN_S in *. rewrite u64_small by (unfold is_u64; nia).
  split; [split; [apply Z.div_pos; lia|apply Z.div_lt_upper_bound; nia]|].
  pose proof (Z.div_mod (tick * 1000000000) tsc_freq ltac:(lia)).
  pose proof (Z.mod_pos_bound (tick * 1000000000) tsc_freq ltac:(lia)). lia.
Qed.

(** Seconds and ticks of the reading: exact in ticks. *)
Lemma timespec_ticks measured t0 e :
  0 <= ts_nsec measured < NS -> is_u64 t0 -> is_u64 e ->
  exists tick, 0 <= tick < tsc_freq /\
    ts_nsec (get_timespec tsc_freq false (u64 (t0 + e)) (init_timing tsc_freq measured t0)) = tick_to_ns tsc_freq tick /\
    ts_sec (get_timespec tsc_freq false (u64 (t0 + e)) (init_timing tsc_freq measured t0)) * tsc_freq + tick =
      ts_sec measured * tsc_freq + ns_to_tick tsc_freq (ts_nsec measured) + e.
Proof.
  intros Hn Ht0 He. destruct (boot_tick_bounds _ Hn) as [Hb _].
  assert (get_elapsed_ticks (u64 (t0 + e)) (init_timing tsc_freq measured t0) = e) as Hel.
  { unfold get_elapsed_ticks, init_timing. cbn [ticks_at_boot]. unfold u64 at 1 2. rewrite Zminus_mod_idemp_l.
    replace (t0 + e - t0) with e by lia. by apply Z.mod_small. }
  unfold get_timespec. rewrite Hel. cbn [negb tv_sec tv_tick time_at_boot init_timing ts_sec ts_nsec].
  set (bt := ns_to_tick tsc_freq (ts_nsec measured)) in *.
  pose proof (Z.div_mod e tsc_freq ltac:(lia)). pose proof (Z.mod_pos_bound e tsc_freq ltac:(lia)).
  rewrite u64_small by (unfold is_u64, NS_IN_S in *; lia).
  set (t := e mod tsc_freq + bt). exists (t mod tsc_freq).
  pose proof (Z.div_mod t tsc_freq ltac:(lia)). pose proof (Z.mod_pos_bound t tsc_freq ltac:(lia)).
  split_and!; [lia|lia|done|]. unfold t in *. nia.
Qed.

(** [get_timespec] after [init_timing]: the nanoseconds are below one second,
    the reading never runs ahead of the boot time plus the elapsed ticks and lags it
    by less than one nanosecond and one tick, and it never goes back as the counter
    advances, also across a wrap of the 64-bit counter. *)
Theorem get_timespec_accurate measured t0 e e' :
  0 <= ts_nsec measured < NS -> is_u64 t0 -> is_u64 e -> is_u64 e' -> e <= e' ->
  let total r := ts_sec r * NS + ts_nsec r in
  let s := init_timing tsc_freq measured t0 in
  let r := get_timespec tsc_freq false (u64 (t0 + e)) s in
  let r' := get_timespec tsc_freq false (u64 (t0 + e')) s in
  let exact_ := total measured * tsc_freq + e * NS in
  0 <= ts_nsec r < NS /\ exact_ - tsc_freq - NS < total r * tsc_freq <= exact_ /\ total r <= total r'.
Proof.
  intros Hn Ht0 He He' Hle total s r r' exact_.
  destruct (timespec_ticks measured t0 e Hn Ht0 He) as (k & Hk & Hns & Hs).
  destruct (timespec_ticks measured t0 e' Hn Ht0 He') as (k' & Hk' & Hns' & Hs').
  destruct (tick_bounds k Hk) as [Hr1 Hr2]. destruct (boot_tick_bounds _ Hn) as [_ Hb2].
  fold s in Hns, Hns', Hs, Hs'. fold r in Hns, Hs. fold r' in Hns', Hs'. unfold total, exact_.
  rewrite Hns. unfold total. split_and!; [lia|lia|nia|nia|].
  rewrite Hns'. destruct (tick_bounds k' Hk') as [Hr1' _].
  assert (ts_sec r < ts_sec r' \/ (ts_sec r = ts_sec r' /\ k <= k')) as [Hlt|[Heq Hkk]] by nia; [nia|].
  assert (tick_to_ns tsc_freq k <= tick_to_ns tsc_freq k'); [|nia].
  unfold tick_to_ns, NS_IN_S in *. rewrite !u64_small by (unfold is_u64; nia). apply Z.div_le_mono; nia.
Qed.

End Clock.

Lemma get_timespec_accurate_witness :
  let s := init_timing 2500000000 (mkTimespec 1700000000 123456789) (2 ^ 64 - 5) in
  0 <= ts_nsec (get_timespec 2500000000 false (u64 (2 ^ 64 - 5 + 4000000000)) s) < NS_IN_S.
Proof.
  intros s.
  refine (proj1 (get_timespec_accurate 2500000000 _ _ (mkTimespec 1700000000 123456789) (2 ^ 64 - 5)
    4000000000 4000000000 _ _ _ _ _)); unfold is_u64, NS_IN_S; cbn [ts_nsec]; lia.
Defined.
