(* ===== verification/ThreadPool.v ===== *)
(** * Threads on application processors

    [initialize_threads], [add_thread], [is_thread_done] and [join_thread] of
    crt/thread.cc, the loop of the other cores ([ap_reset] in arch/x86_64/cores.asm) and
    the end of [monza_main] (crt/monza_main.cc), which shuts down when no core
    executes. Every access to the shared execution context of a core is a step. Cores
    are numbered from 0 here, entry [i] of the list is core [i + 1] of the program.
    Functions and arguments are numbers; interrupts do not change the contexts and
    are left out. Any number of threads may add threads; thread 0 is the main one. *)

From S2P Require Import Prelude.
From Stdlib Require Import Arith.
Open Scope nat_scope.

(** The instructions of [ap_reset] after the load that found a function. *)
Inductive ap_pc : Type :=
| ALoop | AExec (f : nat) | AInc (f a : nat) | AClearDone (f a : nat) | AClearCode (f a : nat)
| ACall (f a : nat) | ASetDone | ADec.

(** [ThreadExecutionContext] and where its core is. *)
Record Core : Type := mkCore { code_ptr : option nat; arg : nat; done : bool; apc : ap_pc }.

(** Where a thread is that manages others: in [initialize_threads] waiting for a core;
    elsewhere; in [add_thread] looking at a core, storing the argument, storing the
    code pointer, waiting for it to be cleared; in [join_thread]; at the end of
    [monza_main], waiting and off. *)
Inductive adder_pc : Type :=
| MInit (i : nat) | MIdle | MScan (i f a : nat) | MArg (i f a : nat) | MCode (i f a : nat)
| MWait (i f a : nat) | MJoin (i : nat) | MEnd | MWaitAll | MOff.

(** What happens, with the core it happens on. *)
Inductive pevent : Type :=
| Posted (i f a : nat) | Started (i f a : nat) | Ended (i : nat)
| Returned (i f a : nat) | NoCore | Joined (i : nat) | Shutdown.

Record Pool : Type := mkPool {
  cores : list Core;
  executing_cores : nat;
  adders : list adder_pc;
  events : list pevent; (** last first *)
}.

Definition set_core (i : nat) (c : Core) (s : Pool) : Pool :=
  mkPool (<[i := c]> (cores s)) (executing_cores s) (adders s) (events s).
Definition set_adder (j : nat) (m : adder_pc) (s : Pool) : Pool :=
  mkPool (cores s) (executing_cores s) (<[j := m]> (adders s)) (events s).
Definition set_executing (n : nat) (s : Pool) : Pool :=
  mkPool (cores s) n (adders s) (events s).
Definition emit (e : pevent) (s : Pool) : Pool :=
  mkPool (cores s) (executing_cores s) (adders s) (e :: events s).

(** The next instruction of core [i]; in [ACall] the function returns. *)
Definition core_step (i : nat) (s : Pool) : option Pool :=
  match cores s !! i with
  | None => None
  | Some (mkCore code a d pc) =>
      match pc with
      | ALoop => match code with
                 | Some f => Some (set_core i (mkCore code a d (AExec f)) s)
                 | None => Some s
                 end
      | AExec f => Some (set_core i (mkCore code a d (AInc f a)) s)
      | AInc f x => Some (set_core i (mkCore code a d (AClearDone f x)) (set_executing (S (executing_cores s)) s))
      | AClearDone f x => Some (set_core i (mkCore code a false (AClearCode f x)) s)
      | AClearCode f x => Some (emit (Started i f x) (set_core i (mkCore None a d (ACall f x)) s))
      | ACall f x => Some (emit (Ended i) (set_core i (mkCore code a d ASetDone) s))
      | ASetDone => Some (set_core i (mkCore code a true ADec) s)
      | ADec => Some (set_core i (mkCore code a d ALoop) (set_executing (pred (executing_cores s)) s))
      end
  end.

(** The next access of adder [j]. *)
Definition adder_step (j : nat) (s : Pool) : option Pool :=
  match adders s !! j with
  | Some (MInit i) =>
      match cores s !! i with
      | Some c => Some (if done c then set_adder j (MInit (S i)) s else s)
      | None => Some (set_adder j MIdle s)
      end
  | Some (MScan i f a) =>
      match cores s !! i with
      | Some c => Some (set_adder j (if done c then MArg i f a else MScan (S i) f a) s)
      | None => Some (emit NoCore (set_adder j MIdle s))
      end
  | Some (MArg i f a) =>
      c ← cores s !! i;
      Some (set_adder j (MCode i f a) (set_core i (mkCore (code_ptr c) a (done c) (apc c)) s))
  | Some (MCode i f a) =>
      c ← cores s !! i;
      Some (emit (Posted i f a)
        (set_adder j (MWait i f a) (set_core i (mkCore (Some f) (arg c) (done c) (apc c)) s)))
  | Some (MWait i f a) =>
      c ← cores s !! i;
      match code_ptr c with
      | Some _ => Some s
      | None => Some (emit (Returned i f a) (set_adder j MIdle s))
      end
  | Some (MJoin i) =>
      c ← cores s !! i;
      Some (if done c then emit (Joined i) (set_adder j MIdle s) else s)
  | Some MEnd => Some (set_adder j MWaitAll (set_executing (pred (executing_cores s)) s))
  | Some MWaitAll =>
      Some (if Nat.eqb (executing_cores s) 0 then emit Shutdown (set_adder j MOff s) else s)
  | _ => None
  end.

Inductive pool_action : Type :=
| CoreStep (i : nat) | AdderStep (j : nat)
| CallAdd (j f a : nat) | CallJoin (j i : nat)
| MainReturns. (** [main] of thread 0 returns *)

Definition pool_step (act : pool_action) (s : Pool) : option Pool :=
  match act with
  | CoreStep i => core_step i s
  | AdderStep j => adder_step j s
  | CallAdd j f a =>
      match adders s !! j with Some MIdle => Some (set_adder j (MScan 0 f a) s) | _ => None end
  | CallJoin j i =>
      match adders s !! j, cores s !! i with
      | Some MIdle, Some _ => Some (set_adder j (MJoin i) s)
      | _, _ => None
      end
  | MainReturns =>
      match adders s !! 0 with Some MIdle => Some (set_adder 0 MEnd s) | _ => None end
  end.

(** After the loop that starts the cores: each has [core_initializer] (function 0)
    posted with its number and has not run anything. *)
Definition boot_core (i : nat) : Core := mkCore (Some 0) (S i) false ALoop.

Definition pool_init (n adders : nat) : Pool :=
  mkPool (map boot_core (seq 0 n)) 1 (MInit 0 :: replicate (pred adders) MIdle)
    (rev (map (fun i => Posted i 0 (S i)) (seq 0 n))).

Fixpoint pool_exec (acts : list pool_action) (s : Pool) : option Pool :=
  match acts with [] => Some s | a :: acts' => s' ← pool_step a s; pool_exec acts' s' end.

Inductive pool_run (n adders : nat) : Pool -> Prop :=
| pool_start : pool_run n adders (pool_init n adders)
| pool_next s a s' : pool_run n adders s -> pool_step a s = Some s' -> pool_run n adders s'.

(** ** What a core's events should be *)

(** Between threads, a thread posted and not begun, a thread running. *)
Inductive phase : Type := PIdle | PPosted (f a : nat) | PRunning (f a : nat).

#[export] Instance phase_eq_dec : EqDecision phase.
Proof. solve_decision. Defined.

(** Every thread posted to core [i] begins once, with its function and argument, before
    the next is posted; [add_thread] returns after it began; [join_thread] returns
    when none is posted or running; the machine shuts down when no core has work. *)
Definition phase_step (i : nat) (e : pevent) (p : phase) : option phase :=
  match e, p with
  | Posted i' f a, p => if Nat.eqb i' i then match p with PIdle => Some (PPosted f a) | _ => None end else Some p
  | Started i' f a, p =>
      if Nat.eqb i' i then if decide (p = PPosted f a) then Some (PRunning f a) else None else Some p
  | Ended i', p => if Nat.eqb i' i then match p with PRunning _ _ => Some PIdle | _ => None end else Some p
  | Returned i' _ _, p | Joined i', p =>
      if Nat.eqb i' i then
        match e, p with
        | _, PPosted _ _ => None
        | Joined _, PRunning _ _ => None
        | _, p => Some p
        end
      else Some p
  | NoCore, p => Some p
  | Shutdown, p => match p with PIdle => Some PIdle | _ => None end
  end.

Fixpoint phase_of (i : nat) (es : list pevent) : option phase :=
  match es with [] => Some PIdle | e :: es' => p ← phase_of i es'; phase_step i e p end.

(** ** The invariant with one adder *)

(** The context of a core, where it is and its phase agree. *)
Definition core_ok (c : Core) (p : phase) : Prop :=
  match apc c with
  | ALoop => match code_ptr c with Some f => p = PPosted f (arg c) | None => p = PIdle /\ done c = true end
  | ADec => done c = true /\
            match code_ptr c with Some f => p = PPosted f (arg c) | None => p = PIdle end
  | AExec f => code_ptr c = Some f /\ p = PPosted f (arg c)
  | AInc f x | AClearDone f x => code_ptr c = Some f /\ x = arg c /\ p = PPosted f x
  | AClearCode f x => code_ptr c = Some f /\ x = arg c /\ done c = false /\ p = PPosted f x
  | ACall f x => code_ptr c = None /\ done c = false /\ p = PRunning f x
  | ASetDone => code_ptr c = None /\ done c = false /\ p = PIdle
  end.

(** A posted function is the one the adder waits for, or the first one. *)
Definition link (m : adder_pc) (i : nat) (c : Core) : Prop :=
  forall f, code_ptr c = Some f ->
    m = MWait i f (arg c) \/ exists k, m = MInit k /\ k <= i /\ done c = false.

(** A core that the adder has chosen is free. *)
Definition adder_ok (m : adder_pc) (cs : list Core) : Prop :=
  match m with
  | MArg i f a => exists c, cs !! i = Some c /\ code_ptr c = None /\ done c = true
  | MCode i f a => exists c, cs !! i = Some c /\ code_ptr c = None /\ done c = true /\ arg c = a
  | MWait i f a => exists c, cs !! i = Some c
  | MJoin i => exists c, cs !! i = Some c
  | _ => True
  end.

Definition busy (pc : ap_pc) : nat :=
  match pc with AClearDone _ _ | AClearCode _ _ | ACall _ _ | ASetDone | ADec => 1 | _ => 0 end.

Fixpoint busy_cores (cs : list Core) : nat :=
  match cs with [] => 0 | c :: cs' => busy (apc c) + busy_cores cs' end.

Definition main_counts (m : adder_pc) : nat := match m with MWaitAll | MOff => 0 | _ => 1 end.

Record pool_inv (n : nat) (m : adder_pc) (s : Pool) : Prop := {
  pi_adders : adders s = [m];
  pi_length : length (cores s) = n;
  pi_core : forall i c, cores s !! i = Some c ->
    exists p, phase_of i (events s) = Some p /\ core_ok c p /\ link m i c;
  pi_adder : adder_ok m (cores s);
  pi_executing : executing_cores s = main_counts m + busy_cores (cores s);
}.

Lemma busy_cores_insert cs : forall i c c', cs !! i = Some c ->
  busy_cores (<[i := c']> cs) + busy (apc c) = busy_cores cs + busy (apc c').
Proof.
  induction cs as [|x cs IH]; intros i c c' Hi; [done|]. destruct i as [|i]; cbn in Hi.
  - injection Hi as ->. change (<[0:=c']> (c :: cs)) with (c' :: cs). cbn [busy_cores]. lia.
  - specialize (IH i c c' Hi). change (<[S i:=c']> (x :: cs)) with (x :: <[i:=c']> cs).
    cbn [busy_cores]. lia.
Qed.

Lemma busy_cores_member cs : forall i c, cs !! i = Some c -> busy (apc c) <= busy_cores cs.
Proof.
  induction cs as [|x cs IH]; intros [|i] c Hi; cbn in *; try done.
  - injection Hi as ->. lia.
  - specialize (IH i c Hi). lia.
Qed.

(** A free core: what [done] says when nothing is posted. *)
Lemma core_free c p : core_ok c p -> code_ptr c = None -> done c = true ->
  p = PIdle /\ (apc c = ALoop \/ apc c = ADec).
Proof.
  unfold core_ok. intros Hok Hc Hd. rewrite Hc, Hd in Hok.
  destruct (apc c); intuition congruence.
Qed.

(** An event that names another core, or none, leaves the phase alone. *)
Lemma phase_other i es e p : phase_of i es = Some p ->
  match e with
  | Posted i' _ _ | Started i' _ _ | Ended i' | Returned i' _ _ | Joined i' => i' <> i
  | NoCore => True
  | Shutdown => p = PIdle
  end -> phase_of i (e :: es) = Some p.
Proof.
  intros H He. cbn. rewrite H. cbn. destruct e; cbn; try (by apply Nat.eqb_neq in He; rewrite He).
  - done.
  - by subst.
Qed.

(** Replacing core [i] alone. *)
Lemma pool_inv_set_core n m s i c c' es ex :
  pool_inv n m s -> cores s !! i = Some c ->
  ex + busy (apc c) = executing_cores s + busy (apc c') ->
  (exists p, phase_of i es = Some p /\ core_ok c' p /\ link m i c') ->
  (forall j p, j <> i -> phase_of j (events s) = Some p -> phase_of j es = Some p) ->
  adder_ok m (<[i := c']> (cores s)) ->
  pool_inv n m (mkPool (<[i := c']> (cores s)) ex (adders s) es).
Proof.
  intros [Ha Hl Hc Hm He] Hi Hex Hp Hj Hm'. split; cbn; [done|by rewrite length_insert| |done|].
  - intros j cj Hcj. destruct (decide (j = i)) as [->|Hne].
    + rewrite list_lookup_insert_eq in Hcj by (by apply lookup_lt_is_Some_1; eexists).
      injection Hcj as <-. done.
    + rewrite list_lookup_insert_ne in Hcj by done. destruct (Hc j cj Hcj) as (p & Hpj & Hrest).
      exists p. split; [by apply Hj|done].
  - pose proof (busy_cores_insert _ i c c' Hi). lia.
Qed.

Lemma adder_ok_insert m cs i c c' :
  cs !! i = Some c -> adder_ok m cs ->
  (code_ptr c = None -> done c = true -> code_ptr c' = None /\ done c' = true /\ arg c' = arg c) ->
  adder_ok m (<[i := c']> cs).
Proof.
  intros Hi Hm Hk. assert (i < length cs) as Hlt by (apply lookup_lt_is_Some_1; by eexists).
  assert (forall j cj, cs !! j = Some cj -> exists c2, <[i := c']> cs !! j = Some c2 /\
    (code_ptr cj = None -> done cj = true -> code_ptr c2 = None /\ done c2 = true /\ arg c2 = arg cj)) as Hj.
  { intros j cj Hcj. destruct (decide (j = i)) as [->|Hne].
    - rewrite Hi in Hcj. injection Hcj as <-. exists c'. split; [by apply list_lookup_insert_eq|done].
    - exists cj. by rewrite list_lookup_insert_ne. }
  destruct m as [k| |j f a|j f a|j f a|j f a|j| | |]; cbn in *; try done.
  - destruct Hm as (cj & H1 & H2 & H3). destruct (Hj j cj H1) as (c2 & H4 & H5).
    exists c2. destruct (H5 H2 H3) as (? & ? & ?). done.
  - destruct Hm as (cj & H1 & H2 & H3 & H4). destruct (Hj j cj H1) as (c2 & H5 & H6).
    exists c2. destruct (H6 H2 H3) as (? & ? & ?). split_and!; congruence.
  - destruct Hm as (cj & H1). destruct (Hj j cj H1) as (c2 & H4 & _). by exists c2.
  - destruct Hm as (cj & H1). destruct (Hj j cj H1) as (c2 & H4 & _). by exists c2.
Qed.

(** The link does not care where the core is, and is gone once the code is cleared. *)
Lemma link_step m i c c' : link m i c -> (code_ptr c' = None \/
  code_ptr c' = code_ptr c /\ arg c' = arg c /\ (done c = false -> done c' = false)) -> link m i c'.
Proof.
  unfold link. intros Hk [Hn|(Hc & Ha & Hd)] f Hf; [congruence|]. rewrite Hc in Hf. rewrite Ha.
  destruct (Hk f Hf) as [|(k & ? & ? & ?)]; eauto 10.
Qed.

Lemma core_step_inv n m s i s' : pool_inv n m s -> core_step i s = Some s' -> pool_inv n m s'.
Proof.
  intros Hi. unfold core_step. destruct (cores s !! i) as [[code a d pc]|] eqn:Ei; [|done].
  destruct (pi_core n m s Hi i _ Ei) as (p & Hp & Hok & Hk). unfold core_ok in Hok; cbn in Hok.
  assert (forall c', (forall p', p' = p -> core_ok c' p') -> link m i c' ->
    (code = None -> d = true -> code_ptr c' = None /\ done c' = true /\ arg c' = a) ->
    forall ex, ex + busy pc = executing_cores s + busy (apc c') ->
    pool_inv n m (mkPool (<[i := c']> (cores s)) ex (adders s) (events s))) as Hquiet.
  { intros c' Hc Hl Hf ex Hex. eapply pool_inv_set_core; try done; [by eauto|].
    eapply adder_ok_insert; [exact Ei|by destruct Hi|done]. }
  pose proof (busy_cores_member _ _ _ Ei) as Hb. pose proof (pi_executing n m s Hi) as He. cbn in Hb.
  destruct pc as [|f|f x|f x|f x|f x| |].
  - destruct code as [f|]; intros [= <-]; [|done].
    apply Hquiet; [by intros p' ->|by eapply link_step; [exact Hk|right]|done|done].
  - intros [= <-]. destruct Hok as [-> ->].
    apply Hquiet; [by intros p' ->|by eapply link_step; [exact Hk|right]|done|done].
  - intros [= <-]. destruct Hok as (-> & -> & ->).
    apply Hquiet; [by intros p' ->|by eapply link_step; [exact Hk|right]|done|cbn; lia].
  - intros [= <-]. destruct Hok as (-> & -> & ->).
    apply Hquiet; [by intros p' ->|by eapply link_step; [exact Hk|right]|done|done].
  - intros [= <-]. destruct Hok as (-> & -> & -> & ->).
    unfold emit, set_core; cbn [cores executing_cores adders events].
    eapply pool_inv_set_core; [done|exact Ei|done| | |].
    + exists (PRunning f a). cbn. rewrite Hp. cbn. rewrite Nat.eqb_refl, decide_True by done.
      split; [done|]. split; [done|]. eapply link_step; [exact Hk|by left].
    + intros j pj Hj Hpj. apply phase_other; [done|by auto].
    + eapply adder_ok_insert; [exact Ei|by destruct Hi|done].
  - intros [= <-]. destruct Hok as (-> & -> & ->).
    unfold emit, set_core; cbn [cores executing_cores adders events].
    eapply pool_inv_set_core; [done|exact Ei|done| | |].
    + exists PIdle. cbn. rewrite Hp. cbn. rewrite Nat.eqb_refl.
      split; [done|]. split; [done|]. eapply link_step; [exact Hk|by left].
    + intros j pj Hj Hpj. apply phase_other; [done|by auto].
    + eapply adder_ok_insert; [exact Ei|by destruct Hi|done].
  - intros [= <-]. destruct Hok as (-> & -> & ->).
    apply Hquiet; [by intros p' ->|by eapply link_step; [exact Hk|left]|done|done].
  - intros [= <-]. destruct Hok as (-> & Hok). apply Hquiet.
    + intros p' ->. unfold core_ok. cbn. by destruct code.
    + by eapply link_step; [exact Hk|right].
    + done.
    + cbn in Hb |- *. lia.
Qed.

(** Moving the adder alone: cores with something posted must still be linked. *)
Lemma pool_inv_set_adder n m m' s es ex :
  pool_inv n m s -> main_counts m' + executing_cores s = main_counts m + ex ->
  (forall i c, cores s !! i = Some c -> code_ptr c <> None -> link m i c -> link m' i c) ->
  (forall i c p, cores s !! i = Some c -> core_ok c p -> link m i c ->
     phase_of i (events s) = Some p -> phase_of i es = Some p) ->
  adder_ok m' (cores s) ->
  pool_inv n m' (mkPool (cores s) ex [m'] es).
Proof.
  intros [Ha Hl Hc Hm He] Hex Hlk Hph Hm'. split; cbn; [done|done| |done|lia].
  intros i c Hi. destruct (Hc i c Hi) as (p & Hp & Hok & Hk). exists p.
  split; [by eapply Hph|]. split; [done|].
  destruct (code_ptr c) as [f|] eqn:Ef; [apply (Hlk i c Hi); [by rewrite Ef|done]|].
  intros f Hf. congruence.
Qed.

(** Where nothing can be posted, any link will do. *)
Lemma link_absurd m m' i c :
  (forall f, m <> MWait i f (arg c)) -> (forall k, m <> MInit k) ->
  code_ptr c <> None -> link m i c -> link m' i c.
Proof.
  intros Hw Hn Hc Hk. destruct (code_ptr c) as [f|] eqn:Ef; [|done].
  destruct (Hk f Ef) as [?|(k & ? & _)]; [by destruct (Hw f)|by destruct (Hn k)].
Qed.

(** The phases of a pool in which nothing is posted and no core is busy. *)
Lemma all_idle n m s i c p :
  pool_inv n m s -> busy_cores (cores s) = 0 -> (forall i f a, m <> MWait i f a) -> (forall k, m <> MInit k) ->
  cores s !! i = Some c -> core_ok c p -> link m i c -> p = PIdle.
Proof.
  intros Hi Hb Hw Hn Hc Hok Hk. pose proof (busy_cores_member _ _ _ Hc).
  assert (code_ptr c = None) as Hcode.
  { destruct (code_ptr c) as [f|] eqn:Ef; [|done].
    destruct (Hk f Ef) as [?|(k & ? & _)]; [by edestruct Hw|by edestruct Hn]. }
  unfold core_ok in Hok. rewrite Hcode in Hok. destruct (apc c); cbn in *; intuition (congruence || lia).
Qed.

Lemma set_adder_main n m m' s : pool_inv n m s ->
  set_adder 0 m' s = mkPool (cores s) (executing_cores s) [m'] (events s).
Proof. intros Hi. unfold set_adder. by rewrite (pi_adders n m s Hi). Qed.

(** An adder that is neither waiting nor initialising sees a free core as free. *)
Lemma free_of_done n m s i c : pool_inv n m s -> cores s !! i = Some c -> done c = true ->
  (forall f, m <> MWait i f (arg c)) -> code_ptr c = None /\ phase_of i (events s) = Some PIdle.
Proof.
  intros Hi Hc Hd Hw. destruct (pi_core n m s Hi i c Hc) as (p & Hp & Hok & Hk).
  assert (code_ptr c = None) as Hcode.
  { destruct (code_ptr c) as [f|] eqn:Ef; [|done].
    destruct (Hk f Ef) as [?|(k & _ & _ & ?)]; [by edestruct Hw|congruence]. }
  split; [done|]. destruct (core_free c p Hok Hcode Hd) as [-> _]. done.
Qed.

Lemma adder_arg_inv n i f a s s' : pool_inv n (MArg i f a) s ->
  adder_step 0 s = Some s' -> exists m', pool_inv n m' s'.
Proof.
  intros Hi. unfold adder_step. rewrite (pi_adders n _ s Hi). cbn [lookup list_lookup].
  pose proof (pi_adder n _ s Hi) as Hm. cbn in Hm.
  destruct Hm as (c & Hc & Hcode & Hd). rewrite Hc. cbn. intros [= <-].
  destruct (pi_core _ _ _ Hi i c Hc) as (p & Hp & Hok & Hk).
  destruct (core_free c p Hok Hcode Hd) as [-> Hpc].
  assert (pool_inv n (MArg i f a) (set_core i (mkCore (code_ptr c) a (done c) (apc c)) s)) as Hi'.
  { apply (pool_inv_set_core n _ s i c); try done.
    - exists PIdle. split; [done|]. split.
      + unfold core_ok. cbn. rewrite Hcode, Hd. by destruct Hpc as [->| ->].
      + intros g Hg. cbn in Hg. congruence.
    - cbn. eexists. split; [apply list_lookup_insert_eq; by apply lookup_lt_is_Some_1; eexists|done]. }
  exists (MCode i f a). erewrite (set_adder_main n) by exact Hi'.
  apply (pool_inv_set_adder n (MArg i f a) _ _ _ _ Hi'); try done.
  + intros j cj _. by apply link_absurd.
  + eexists. split; [apply list_lookup_insert_eq; by apply lookup_lt_is_Some_1; eexists|done].
Qed.

Lemma adder_code_inv n i f a s s' : pool_inv n (MCode i f a) s ->
  adder_step 0 s = Some s' -> exists m', pool_inv n m' s'.
Proof.
  intros Hi. unfold adder_step. rewrite (pi_adders n _ s Hi). cbn [lookup list_lookup].
  pose proof (pi_adder n _ s Hi) as Hm. cbn in Hm.
  destruct Hm as (c & Hc & Hcode & Hd & Ha). rewrite Hc. cbn. intros [= <-].
  exists (MWait i f a). destruct (pi_core _ _ _ Hi i c Hc) as (p & Hp & Hok & Hk).
  destruct (core_free c p Hok Hcode Hd) as [-> Hpc].
  destruct Hi as [Hadd Hlen Hcs Had Hex]. unfold emit, set_adder, set_core. cbn. rewrite Hadd.
  split; cbn; [done|by rewrite length_insert| | |].
  + intros j cj Hcj. destruct (decide (j = i)) as [->|Hne].
    * rewrite list_lookup_insert_eq in Hcj by (by apply lookup_lt_is_Some_1; eexists).
      injection Hcj as <-. exists (PPosted f a). rewrite Hp. cbn. rewrite Nat.eqb_refl.
      split; [done|]. split; [|intros g [= <-]; left; cbn; by rewrite Ha].
      unfold core_ok. cbn. rewrite Ha, Hd. by destruct Hpc as [->| ->].
    * rewrite list_lookup_insert_ne in Hcj by done.
      destruct (Hcs j cj Hcj) as (p & Hpj & Hokj & Hkj). exists p.
      split; [by apply (phase_other j _ (Posted i f a))|]. split; [done|].
      destruct (code_ptr cj) as [g|] eqn:Eg; [|intros g Hg; congruence].
      apply (link_absurd (MCode i f a)); [done|done|by rewrite Eg|done].
  + eexists. apply list_lookup_insert_eq. by apply lookup_lt_is_Some_1; eexists.
  + pose proof (busy_cores_insert _ i c (mkCore (Some f) (arg c) (done c) (apc c)) Hc). cbn in *. lia.
Qed.

Lemma adder_wait_inv n i f a s s' : pool_inv n (MWait i f a) s ->
  adder_step 0 s = Some s' -> exists m', pool_inv n m' s'.
Proof.
  intros Hi. unfold adder_step. rewrite (pi_adders n _ s Hi). cbn [lookup list_lookup].
  pose proof (pi_adder n _ s Hi) as Hm. cbn in Hm.
  destruct Hm as (c & Hc). rewrite Hc. cbn. destruct (code_ptr c) eqn:Ecode; intros [= <-]; [by exists (MWait i f a)|].
  exists MIdle. unfold emit. erewrite set_adder_main by done. cbn.
  apply (pool_inv_set_adder n (MWait i f a)); try done.
  + intros j cj Hj Hcj Hk g Hg. destruct (Hk g Hg) as [[= <- _ _]|(k & [=] & _)]. congruence.
  + intros j cj p Hj Hok Hk Hp. destruct (decide (j = i)) as [->|Hne]; [|by apply phase_other].
    rewrite Hc in Hj. injection Hj as <-. cbn. rewrite Hp. cbn. rewrite Nat.eqb_refl.
    unfold core_ok in Hok. rewrite Ecode in Hok. destruct (apc c); intuition (congruence || (by subst)).
Qed.

Lemma adder_join_inv n i s s' : pool_inv n (MJoin i) s ->
  adder_step 0 s = Some s' -> exists m', pool_inv n m' s'.
Proof.
  intros Hi. unfold adder_step. rewrite (pi_adders n _ s Hi). cbn [lookup list_lookup].
  pose proof (pi_adder n _ s Hi) as Hm. cbn in Hm.
  destruct Hm as (c & Hc). rewrite Hc. cbn. destruct (done c) eqn:Ed; intros [= <-]; [|by exists (MJoin i)].
  exists MIdle. unfold emit. erewrite set_adder_main by done. cbn.
  destruct (free_of_done n (MJoin i) s i c Hi Hc Ed) as [Hcode Hidle]; [done|].
  apply (pool_inv_set_adder n (MJoin i)); try done.
  + intros j cj _. by apply link_absurd.
  + intros j cj p Hj Hok Hk Hp. destruct (decide (j = i)) as [->|Hne]; [|by apply phase_other].
    rewrite Hidle in Hp. injection Hp as <-. cbn. rewrite Hidle. cbn. by rewrite Nat.eqb_refl.
Qed.

Lemma adder_step_inv n m s s' : pool_inv n m s -> adder_step 0 s = Some s' -> exists m', pool_inv n m' s'.
Proof.
  intros Hi. destruct m as [i| |i f a|i f a|i f a|i f a|i| | |];
    [|by unfold adder_step; rewrite (pi_adders n _ s Hi)| |by apply (adder_arg_inv n i f a)|by apply (adder_code_inv n i f a)|by apply (adder_wait_inv n i f a)
     |by apply (adder_join_inv n i)| | |]; unfold adder_step; rewrite (pi_adders n _ s Hi);
    cbn [lookup list_lookup]; try done.
  - destruct (cores s !! i) as [c|] eqn:Ec.
    + intros [= <-]. destruct (done c) eqn:Ed; [|by exists (MInit i)].
      exists (MInit (S i)). erewrite set_adder_main by done.
      apply (pool_inv_set_adder n (MInit i)); try done. intros j cj Hj Hcj Hk f Hf.
      destruct (Hk f Hf) as [|(k & Hkk & Hle & Hd)]; [done|]. right. exists (S i). split; [done|].
      injection Hkk as <-. destruct (decide (i = j)) as [->|]; [congruence|]. split; [lia|done].
    + intros [= <-]. exists MIdle. erewrite set_adder_main by done.
      apply (pool_inv_set_adder n (MInit i)); try done. intros j cj Hj Hcj Hk f Hf.
      destruct (Hk f Hf) as [|(k & Hkk & Hle & Hd)]; [done|]. injection Hkk as <-.
      apply lookup_lt_Some in Hj. apply lookup_ge_None in Ec. lia.
  - destruct (cores s !! i) as [c|] eqn:Ec.
    + intros [= <-]. eexists. erewrite set_adder_main by done.
      apply (pool_inv_set_adder n (MScan i f a)); try done.
      * by destruct (done c).
      * intros j cj _. by apply link_absurd.
      * destruct (done c) eqn:Ed; [|done]. exists c.
        by destruct (free_of_done n (MScan i f a) s i c Hi Ec Ed).
    + intros [= <-]. exists MIdle. unfold emit. erewrite set_adder_main by done. cbn.
      apply (pool_inv_set_adder n (MScan i f a)); try done.
      * intros j cj _. by apply link_absurd.
      * intros j cj p _ _ _ Hp. by apply phase_other.
  - intros [= <-]. exists MWaitAll. pose proof (pi_executing n MEnd s Hi) as He. cbn in He.
    unfold set_adder, set_executing. cbn. rewrite (pi_adders n MEnd s Hi). cbn.
    apply (pool_inv_set_adder n MEnd); try done; [cbn; lia|]. intros j cj _. by apply link_absurd.
  - destruct (Nat.eqb_spec (executing_cores s) 0) as [E0|]; intros [= <-]; [|by exists MWaitAll].
    exists MOff. unfold emit. erewrite set_adder_main by done. cbn.
    pose proof (pi_executing n MWaitAll s Hi) as He. cbn in He.
    apply (pool_inv_set_adder n MWaitAll); try done.
    + intros j cj _. by apply link_absurd.
    + intros j cj p Hj Hok Hk Hp. apply phase_other; [done|].
      eapply (all_idle n MWaitAll s j cj); try done. lia.
Qed.

Lemma phase_of_boot n : forall i,
  phase_of i (rev (map (fun i => Posted i 0 (S i)) (seq 0 n))) =
  Some (if Nat.ltb i n then PPosted 0 (S i) else PIdle).
Proof.
  induction n as [|n IH]; intros i; [done|].
  rewrite seq_S, map_app, rev_app_distr. cbn [map rev app phase_of]. rewrite IH.
  cbn [mbind option_bind phase_step]. rewrite Nat.add_0_l.
  destruct (Nat.eqb_spec n i) as [->|Hne].
  - rewrite (proj2 (Nat.ltb_ge i i)), (proj2 (Nat.ltb_lt i (S i))) by lia. done.
  - destruct (Nat.ltb_spec i n), (Nat.ltb_spec i (S n)); try done; lia.
Qed.

Lemma pool_init_inv n : pool_inv n (MInit 0) (pool_init n 1).
Proof.
  assert (forall i c, map boot_core (seq 0 n) !! i = Some c -> c = boot_core i /\ i < n) as Hb.
  { intros i c Hi. rewrite list_lookup_fmap in Hi.
    destruct (seq 0 n !! i) as [k|] eqn:Ek; [|done]. apply lookup_seq in Ek as [-> ?].
    by injection Hi as <-. }
  split; cbn; [done|by rewrite length_map, length_seq| |done|].
  - intros i c Hi. destruct (Hb i c Hi) as [-> Hlt]. exists (PPosted 0 (S i)).
    rewrite phase_of_boot, (proj2 (Nat.ltb_lt i n)) by done.
    split; [done|]. split; [done|]. intros f _. right. exists 0. split; [done|]. split; [lia|done].
  - f_equal. generalize (seq 0 n). intros l. by induction l.
Qed.

(** The calls a thread makes between others. *)
Lemma pool_step_idle n m s a s' :
  pool_inv n m s -> pool_step a s = Some s' ->
  match a with CallAdd _ _ _ | CallJoin _ _ | MainReturns => True | _ => False end ->
  m = MIdle /\ events s' = events s /\ exists m', pool_inv n m' s' /\
    match a with CallAdd _ f x => m' = MScan 0 f x | CallJoin _ i => m' = MJoin i | _ => m' = MEnd end.
Proof.
  intros Hi Hs Ha. pose proof (pi_adders n m s Hi) as Hm.
  assert (forall m1, m = MIdle -> adder_ok m1 (cores s) -> main_counts m1 = 1 ->
    s' = set_adder 0 m1 s -> events s' = events s /\ pool_inv n m1 s') as Hset.
  { intros m1 -> Hok Hmc ->. split; [done|]. erewrite set_adder_main by done.
    apply (pool_inv_set_adder n MIdle); try done; [cbn [main_counts]; lia|]. intros j cj _. by apply link_absurd. }
  destruct a as [i|j|j f x|j i|]; try done; cbn in Hs; rewrite Hm in Hs; try (destruct j as [|j]; [|by destruct j]);
    cbn in Hs; destruct m; try done; try destruct (cores s !! i) as [c|] eqn:Ec; try done; injection Hs as <-;
    (edestruct Hset as [He Hi']; [done| | |done|split; [done|]; split; [done|]; eexists; split; [exact Hi'|done]]); try done; by exists c.
Qed.

Lemma pool_run_inv n s : pool_run n 1 s -> exists m, pool_inv n m s.
Proof.
  induction 1 as [|s a s' _ [m Hi] Hs]; [by eexists; apply pool_init_inv|].
  destruct a as [i|j|j f a|j i|].
  - exists m. by eapply core_step_inv.
  - destruct j as [|j]; [by eapply adder_step_inv|].
    cbn in Hs. unfold adder_step in Hs. by rewrite (pi_adders n m s Hi) in Hs.
  - destruct (pool_step_idle n m _ _ _ Hi Hs I) as (_ & _ & m' & Hi' & _). by exists m'.
  - destruct (pool_step_idle n m _ _ _ Hi Hs I) as (_ & _ & m' & Hi' & _). by exists m'.
  - destruct (pool_step_idle n m _ _ _ Hi Hs I) as (_ & _ & m' & Hi' & _). by exists m'.
Qed.

(** Instructions of the core until it calls the function. *)
Definition until_call (pc : ap_pc) : nat :=
  match pc with
  | ADec => 6 | ALoop => 5 | AExec _ => 4 | AInc _ _ => 3 | AClearDone _ _ => 2 | AClearCode _ _ => 1
  | _ => 0
  end.

Lemma posted_starts n m s : forall k i c f, pool_inv n m s -> cores s !! i = Some c ->
  code_ptr c = Some f -> until_call (apc c) = k ->
  exists s', pool_exec (replicate k (CoreStep i)) s = Some s' /\ Started i f (arg c) ∈ events s'.
Proof.
  intros k. revert s. induction k as [|k IH]; intros s i c f Hi Hc Hf Hk;
    destruct (pi_core n m s Hi i c Hc) as (p & Hp & Hok & _); unfold core_ok in Hok; rewrite Hf in Hok.
  { destruct (apc c); cbn in Hk; try lia; intuition congruence. }
  cbn [replicate pool_exec pool_step]. destruct (core_step i s) as [s1|] eqn:Es.
  2:{ unfold core_step in Es. rewrite Hc in Es. destruct c as [code ? ? []]; cbn in *; try done.
      by rewrite Hf in Es. }
  cbn. pose proof (core_step_inv n m s i s1 Hi Es) as Hi1.
  unfold core_step in Es. rewrite Hc in Es. destruct c as [code x d pc]. cbn in Hf, Hok, Hk |- *. subst code.
  assert (i < length (cores s)) as Hlt by (apply lookup_lt_is_Some_1; by eexists).
  assert (forall c', cores s1 = <[i := c']> (cores s) -> code_ptr c' = Some f -> arg c' = x ->
    until_call (apc c') = k ->
    exists s', pool_exec (replicate k (CoreStep i)) s1 = Some s' /\ Started i f x ∈ events s') as Hgo.
  { intros c' Hs1 Hf' Ha' Hk'. rewrite <- Ha'. apply (IH s1 i c' f Hi1); try done.
    rewrite Hs1. by apply list_lookup_insert_eq. }
  destruct pc; cbn in Hk; try lia; try (injection Es as <-; by eapply Hgo; [reflexivity|done|done|cbn; lia]).
  destruct Hok as ([= ->] & -> & _ & _). injection Es as <-. injection Hk as <-. cbn.
  eexists. split; [done|]. left.
Qed.

(** C22: one thread that adds threads. In every interleaving of its calls with any
    number of cores: every function posted to a core, first the initialiser, begins
    exactly once, with its own argument, before anything else is posted there;
    [add_thread] returns after that; [join_thread] returns only when the core's
    function has ended; and the machine shuts down only when no core has a function
    posted or running. While [add_thread] waits, six instructions of the core at most
    start the function. *)
Theorem threads_run_once n s :
  pool_run n 1 s ->
  (forall i, i < n -> exists p, phase_of i (events s) = Some p) /\
  (forall i f a, adders s !! 0 = Some (MWait i f a) -> exists c, cores s !! i = Some c /\
     (code_ptr c = None \/ exists k s', k <= 6 /\
        pool_exec (replicate k (CoreStep i)) s = Some s' /\ Started i f a ∈ events s')).
Proof.
  intros Hr. destruct (pool_run_inv n s Hr) as [m Hi]. split.
  - intros i Hlt. rewrite <- (pi_length n m s Hi) in Hlt.
    destruct (lookup_lt_is_Some_2 (cores s) i Hlt) as [c Hc].
    destruct (pi_core n m s Hi i c Hc) as (p & Hp & _). by exists p.
  - intros i f a Ha. rewrite (pi_adders n m s Hi) in Ha. injection Ha as ->.
    destruct (pi_adder n _ s Hi) as (c & Hc). exists c. split; [done|].
    destruct (code_ptr c) as [g|] eqn:Eg; [right|by left].
    destruct (pi_core n _ s Hi i c Hc) as (p & _ & _ & Hk).
    destruct (Hk g Eg) as [[= <- Hac]|(k & [=] & _)].
    destruct (posted_starts n _ s _ i c f Hi Hc Eg eq_refl) as (s' & He & Hs).
    exists (until_call (apc c)), s'. rewrite Hac. split; [by destruct (apc c); cbn; lia|done].
Qed.

Lemma pool_exec_run n adders acts : forall s s', pool_run n adders s -> pool_exec acts s = Some s' ->
  pool_run n adders s'.
Proof.
  induction acts as [|a acts IH]; intros s s' Hr; cbn; [by intros [= <-]|].
  destruct (pool_step a s) as [s1|] eqn:E; [|done]. cbn. apply IH. by eapply pool_next.
Qed.

(** Core 0 runs its initialiser to the end, the main thread is past the start. *)
Definition boot_schedule : list pool_action := replicate 8 (CoreStep 0) ++ [AdderStep 0; AdderStep 0].

Lemma threads_run_once_witness :
  exists s, pool_run 1 1 s /\ adders s !! 0 = Some (MWait 0 5 50) /\
  (exists p, phase_of 0 (events s) = Some p) /\
  exists c, cores s !! 0 = Some c /\
     (code_ptr c = None \/ exists k s', k <= 6 /\
        pool_exec (replicate k (CoreStep 0)) s = Some s' /\ Started 0 5 50 ∈ events s').
Proof.
  destruct (pool_exec (boot_schedule ++ CallAdd 0 5 50 :: replicate 3 (AdderStep 0)) (pool_init 1 1))
    as [s|] eqn:E; [|discriminate E].
  pose proof (pool_exec_run 1 1 _ _ s (pool_start 1 1) E) as Hr. vm_compute in E. injection E as <-.
  eexists. split; [exact Hr|]. split; [done|].
  destruct (threads_run_once 1 _ Hr) as [H1 H2]. split; [apply H1; lia|]. by apply H2.
Defined.

(** Two threads that add threads at the same time can lose one: both find the same
    core free, and the core runs only the function posted last, although both calls
    return its thread identifier; or it runs the function of one with the argument of
    the other. *)
Theorem add_thread_race :
  (exists s, pool_run 1 2 s /\ Returned 0 5 50 ∈ events s /\ Returned 0 6 60 ∈ events s /\
     Started 0 6 60 ∈ events s /\ Forall (fun e => forall a, e <> Started 0 5 a) (events s) /\
     Forall (fun c => apc c = ALoop /\ code_ptr c = None) (cores s)) /\
  (exists s, pool_run 1 2 s /\ Started 0 5 60 ∈ events s).
Proof.
  assert (forall acts s, pool_exec acts (pool_init 1 2) = Some s -> pool_run 1 2 s) as Hrun.
  { intros acts s. apply pool_exec_run, pool_start. }
  split.
  - eexists. split; [apply (Hrun (boot_schedule ++ [CallAdd 0 5 50; CallAdd 1 6 60; AdderStep 0; AdderStep 1;
      AdderStep 0; AdderStep 0; AdderStep 1; AdderStep 1] ++ replicate 8 (CoreStep 0) ++
      [AdderStep 0; AdderStep 1])); vm_compute; reflexivity|].
    cbn. split_and!; try (rewrite !elem_of_cons; tauto); repeat constructor; done.
  - eexists. split; [apply (Hrun (boot_schedule ++ [CallAdd 0 5 50; CallAdd 1 6 60; AdderStep 0; AdderStep 1;
      AdderStep 0; AdderStep 0; AdderStep 1] ++ replicate 5 (CoreStep 0))); vm_compute; reflexivity|].
    cbn. rewrite !elem_of_cons. tauto.
Qed.
