(* ===== verification/Verona.v ===== *)
(** * Threads of the Verona runtime (include/public/verona_external_threading.h)

    [PlatformThread] hands its function and arguments to [add_thread] in a block on the heap. The
    constructor owns the block until [add_thread] has returned; [thread_proxy], on the other core,
    takes it over at its start and frees it at its end. Both may happen in either order. The
    pool of cores is that of [ThreadPool]; blocks are numbered in the order of their
    allocation. *)

From S2P Require Import Prelude ThreadPool.
From Stdlib Require Import Arith.
Open Scope nat_scope.

(** [core_initializer] is function 0. *)
Definition thread_proxy : nat := 1.

(** [blocks] are allocated and not freed. *)
Record Verona : Type := mkVerona { pool : Pool; blocks : list nat; next_block : nat; aborted : bool }.

Inductive verona_action : Type :=
| NewThread                  (** the constructor up to the call of [add_thread] *)
| Pool_ (a : pool_action).   (** a step of the pool, or a call of [join] *)

Inductive verona_result : Type := VOk (v : Verona) | BadFree.

(** The end of [thread_proxy]: [thread_args_ptr] is destroyed. *)
Definition proxy_end (f a : nat) (s : Pool) (v : Verona) : verona_result :=
  if f =? thread_proxy then
    if decide (a ∈ blocks v) then VOk (mkVerona s (filter (fun b => b <> a) (blocks v)) (next_block v) (aborted v))
    else BadFree
  else VOk (mkVerona s (blocks v) (next_block v) (aborted v)).

Definition is_abort (j : nat) (s : Pool) : bool :=
  match adders s !! j with Some (MScan i _ _) => match cores s !! i with None => true | _ => false end | _ => false end.

(** One step; [None] where there is none. When [add_thread] finds no core the constructor calls
    [abort]; otherwise it releases its pointer, which leaves the block to the new thread. *)
Definition verona_step (act : verona_action) (v : Verona) : option verona_result :=
  if aborted v then None else
  match act with
  | NewThread =>
      s ← pool_step (CallAdd 0 thread_proxy (next_block v)) (pool v);
      Some (VOk (mkVerona s (next_block v :: blocks v) (S (next_block v)) false))
  | Pool_ (CallAdd _ _ _) => None
  | Pool_ (CoreStep i) =>
      s ← core_step i (pool v);
      match cores (pool v) !! i with
      | Some (mkCore _ _ _ (ACall f a)) => Some (proxy_end f a s v)
      | _ => Some (VOk (mkVerona s (blocks v) (next_block v) false))
      end
  | Pool_ (AdderStep j) =>
      s ← adder_step j (pool v);
      Some (VOk (mkVerona s (blocks v) (next_block v) (is_abort j (pool v))))
  | Pool_ act' => s ← pool_step act' (pool v); Some (VOk (mkVerona s (blocks v) (next_block v) false))
  end.

Inductive verona_run (n : nat) : verona_result -> Prop :=
| verona_start : verona_run n (VOk (mkVerona (pool_init n 1) [] 0 false))
| verona_next v act r : verona_run n (VOk v) -> verona_step act v = Some r -> verona_run n r.

(** ** Who holds a block *)

Inductive holder : Type := ByConstructor | ByCore (i : nat).

Definition phase_holds (p : phase) (a : nat) : Prop :=
  match p with PPosted f x | PRunning f x => f = thread_proxy /\ x = a | PIdle => False end.

Definition adder_holds (m : adder_pc) (a : nat) : Prop :=
  match m with MScan _ f x | MArg _ f x | MCode _ f x => f = thread_proxy /\ x = a | _ => False end.

Definition holds (n : nat) (m : adder_pc) (es : list pevent) (h : holder) (a : nat) : Prop :=
  match h with
  | ByConstructor => adder_holds m a
  | ByCore i => i < n /\ exists p, phase_of i es = Some p /\ phase_holds p a
  end.

(** Each block has one holder, and nothing else is held. *)
Definition held_once (H : holder -> nat -> Prop) (bs : list nat) : Prop :=
  forall a, (a ∈ bs <-> exists h, H h a) /\ forall h h', H h a -> H h' a -> h = h'.

Record verona_inv (n : nat) (m : adder_pc) (v : Verona) : Prop := {
  vi_pool : pool_inv n m (pool v);
  vi_held : held_once (holds n m (events (pool v))) (blocks v);
  vi_next : forall b, b ∈ blocks v -> b < next_block v;
}.

Lemma held_once_iff (H H' : holder -> nat -> Prop) bs :
  (forall h a, H h a <-> H' h a) -> held_once H bs -> held_once H' bs.
Proof.
  intros He Hh a. destruct (Hh a) as [Hi Hu]. split.
  - rewrite Hi. by split; intros [h Hx]; exists h; apply He.
  - intros h h' Hx Hy. apply Hu; by apply He.
Qed.

(** What an event does to the phase of core [i]. *)
Lemma phase_step_cases i e p p' : phase_step i e p = Some p' ->
  match e with
  | Posted i' f a => if i' =? i then p = PIdle /\ p' = PPosted f a else p' = p
  | Started i' f a => if i' =? i then p = PPosted f a /\ p' = PRunning f a else p' = p
  | Ended i' => if i' =? i then (exists f a, p = PRunning f a) /\ p' = PIdle else p' = p
  | _ => p' = p
  end.
Proof.
  destruct e as [i' f a|i' f a|i'|i' f a| |i'| ]; cbn; try (destruct (i' =? i)); destruct p; cbn; intros Hp;
    try case_decide; simplify_eq; eauto 6.
Qed.

Lemma phase_of_cons i e es p' : phase_of i (e :: es) = Some p' ->
  exists p, phase_of i es = Some p /\ phase_step i e p = Some p'.
Proof. cbn [phase_of]. by destruct (phase_of i es) as [p|]; [exists p|]. Qed.

(** Events but for a post and an end leave the holders alone. *)
Lemma holds_event n m e es :
  (forall i, i < n -> is_Some (phase_of i (e :: es))) ->
  match e with Posted _ _ _ | Ended _ => False | _ => True end ->
  forall h a, holds n m es h a <-> holds n m (e :: es) h a.
Proof.
  intros Hsome He [|i] a; cbn [holds]; [done|]. split; intros [Hi (p & Hp & Hh)]; (split; [done|]).
  - destruct (Hsome i Hi) as [p' Hp']. exists p'. split; [done|]. cbn in Hp'. rewrite Hp in Hp'. cbn in Hp'.
    apply phase_step_cases in Hp'. destruct e; try done; subst; try done. destruct (_ =? _); [|by subst].
    destruct Hp' as [-> ->]. exact Hh.
  - cbn in Hp. destruct (phase_of i es) as [q|]; [|done]. cbn in Hp. exists q. split; [done|].
    apply phase_step_cases in Hp. destruct e; try done; subst; try done. destruct (_ =? _); [|by subst].
    destruct Hp as [-> ->]. exact Hh.
Qed.

Lemma pool_inv_phases n m s : pool_inv n m s -> forall i, i < n -> is_Some (phase_of i (events s)).
Proof.
  intros Hi i Hlt. rewrite <- (pi_length n m s Hi) in Hlt. apply lookup_lt_is_Some_2 in Hlt as [c Hc].
  destruct (pi_core n m s Hi i c Hc) as (p & Hp & _). by exists p.
Qed.

(** ** Steps *)

(** The end of a thread frees its block: the core gives it up, and nobody else held it. *)
Lemma held_end n m es i f a bs :
  i < n -> phase_of i es = Some (PRunning f a) -> held_once (holds n m es) bs ->
  held_once (holds n m (Ended i :: es)) (if f =? thread_proxy then filter (fun b => b <> a) bs else bs) /\
  (f = thread_proxy -> a ∈ bs).
Proof.
  intros Hi Hp Hh.
  assert (forall h b, holds n m (Ended i :: es) h b <-> holds n m es h b /\ h <> ByCore i) as Hold.
  { intros [|j] b; cbn [holds]; [by split; [intros; split|intros []]|]. destruct (decide (j = i)) as [->|Hne].
    - split; [|by intros [_ []]]. intros [_ (p & Hq & Hb)]. cbn in Hq. rewrite Hp in Hq. cbn in Hq.
      rewrite Nat.eqb_refl in Hq. by injection Hq as <-.
    - assert (phase_of j (Ended i :: es) = phase_of j es) as ->.
      { cbn. destruct (phase_of j es); [|done]. cbn. by rewrite (proj2 (Nat.eqb_neq i j)). }
      split; [intros Hx; split; [done|congruence]|by intros []]. }
  assert (forall b, holds n m es (ByCore i) b <-> f = thread_proxy /\ b = a) as Hcore.
  { intros b. cbn [holds]. rewrite Hp. split; [intros [_ (p & [= <-] & Hb)]; cbn in Hb; intuition congruence|].
    intros [-> ->]. split; [done|]. by eexists. }
  split; [|intros Hf; apply (Hh a); exists (ByCore i); by apply Hcore].
  intros b. destruct (Hh b) as [Hin Hu]. split.
  - transitivity (b ∈ bs /\ ~ (f = thread_proxy /\ b = a)).
    { destruct (Nat.eqb_spec f thread_proxy); [rewrite list_elem_of_filter|]; intuition congruence. }
    rewrite Hin. split.
    + intros [[h Hx] Hn]. exists h. apply Hold. split; [done|]. intros ->. by apply Hn, Hcore.
    + intros [h Hx]. apply Hold in Hx as [Hx Hne]. split; [by exists h|]. intros Hb.
      apply Hne. apply Hu; [done|]. by apply Hcore.
  - intros h h' Hx Hy. apply Hold in Hx as [Hx _], Hy as [Hy _]. by apply Hu.
Qed.

(** A core step that is not an end changes no phase, or begins a thread. *)
Lemma core_step_events i s s' : core_step i s = Some s' -> adders s' = adders s /\
  match cores s !! i with
  | Some (mkCore _ _ _ (ACall f a)) => events s' = Ended i :: events s
  | Some (mkCore _ _ _ (AClearCode f a)) => events s' = Started i f a :: events s
  | _ => events s' = events s
  end.
Proof.
  unfold core_step. destruct (cores s !! i) as [[code a d []]|]; try destruct code; intros [= <-]; done.
Qed.

Lemma verona_core_step n m v i r :
  verona_inv n m v -> aborted v = false -> verona_step (Pool_ (CoreStep i)) v = Some r ->
  exists v', r = VOk v' /\ verona_inv n m v'.
Proof.
  intros [Hp Hh Hn] Ha. unfold verona_step. rewrite Ha. destruct (core_step i (pool v)) as [s|] eqn:Es; [|done]. cbn.
  pose proof (core_step_inv n m (pool v) i s Hp Es) as Hp'. destruct (core_step_events i (pool v) s Es) as [_ He].
  destruct (cores (pool v) !! i) as [c|] eqn:Ec.
  2: { unfold core_step in Es. by rewrite Ec in Es. }
  destruct (pi_core n m (pool v) Hp i c Ec) as (p & Hph & Hok & _).
  assert (i < n) as Hi by (rewrite <- (pi_length n m _ Hp); apply lookup_lt_is_Some_1; by eexists).
  assert (forall e, match e with Posted _ _ _ | Ended _ => False | _ => True end ->
    events s = events (pool v) \/ events s = e :: events (pool v) ->
    held_once (holds n m (events s)) (blocks v)) as Hkeep.
  { intros e Hne [->|E]; [done|]. eapply held_once_iff, Hh. rewrite E. apply holds_event; [|done].
    rewrite <- E. by apply (pool_inv_phases n m s). }
  destruct c as [code x d pc]. destruct pc; intros [= <-];
    try (eexists; split; [done|]; split; [done|by eapply (Hkeep NoCore); [done|left]|done]).
  - eexists. split; [done|]. split; [done| |done]. eapply (Hkeep (Started i f a)); [done|by right].
  - cbn in Hok. destruct Hok as (_ & _ & ->).
    destruct (held_end n m _ i f a (blocks v) Hi Hph Hh) as [Hh' Hin]. rewrite <- He in Hh'. unfold proxy_end.
    destruct (Nat.eqb_spec f thread_proxy) as [->|Hf].
    + rewrite decide_True by (by apply Hin). eexists. split; [done|]. split; [done|done|].
      intros b [_ Hb]%list_elem_of_filter. by apply Hn.
    + eexists. split; [done|]. by split.
Qed.

(** Posting a thread hands its block from the constructor to the core. *)
Lemma held_post n es i f a bs :
  i < n -> (forall j, j < n -> is_Some (phase_of j (Posted i f a :: es))) ->
  held_once (holds n (MCode i f a) es) bs -> held_once (holds n (MWait i f a) (Posted i f a :: es)) bs.
Proof.
  intros Hi Hsome Hh.
  set (back := fun h => match h with ByConstructor => None
    | ByCore j => Some (if j =? i then ByConstructor else ByCore j) end).
  assert (forall h b, holds n (MWait i f a) (Posted i f a :: es) h b <->
    exists h0, back h = Some h0 /\ holds n (MCode i f a) es h0 b) as Hmap.
  { intros [|j] b; cbn [holds back]; [split; [done|by intros (? & [=] & _)]|].
    destruct (decide (j = i)) as [->|Hne].
    - destruct (Hsome i Hi) as [p' Hp']. destruct (phase_of_cons _ _ _ _ Hp') as (q & Eq & Hq).
      apply phase_step_cases in Hq. rewrite Nat.eqb_refl in Hq |- *. destruct Hq as [-> ->]. split.
      + intros [_ (p & Hp & Hb)]. rewrite Hp' in Hp. injection Hp as <-. by exists ByConstructor.
      + intros (h0 & [= <-] & Hb). split; [done|]. by exists (PPosted f a).
    - rewrite (proj2 (Nat.eqb_neq j i)) by done.
      assert (phase_of j (Posted i f a :: es) = phase_of j es) as ->.
      { cbn. destruct (phase_of j es); [|done]. cbn. rewrite (proj2 (Nat.eqb_neq i j)) by congruence. done. }
      split; [intros Hx; by exists (ByCore j)|by intros (h0 & [= <-] & Hx)]. }
  assert (forall h, holds n (MCode i f a) es (ByCore i) h -> False) as Hidle.
  { intros b [_ (p & Hp & Hb)]. destruct (Hsome i Hi) as [p' Hp']. apply phase_of_cons in Hp' as (q & Hq & Hs).
    apply phase_step_cases in Hs. rewrite Nat.eqb_refl in Hs. destruct Hs as [-> _]. by simplify_eq. }
  intros b. destruct (Hh b) as [Hin Hu]. split.
  - rewrite Hin. split.
    + intros [[|j] Hx].
      * exists (ByCore i). apply Hmap. exists ByConstructor. cbn. by rewrite Nat.eqb_refl.
      * exists (ByCore j). apply Hmap. exists (ByCore j). split; [|done]. cbn. destruct (Nat.eqb_spec j i); [|done].
        subst. by destruct (Hidle b).
    + intros [h (h0 & _ & Hx)%Hmap]. by exists h0.
  - intros h h' (h0 & E & Hx)%Hmap (h1 & E' & Hy)%Hmap. pose proof (Hu _ _ Hx Hy) as <-.
    destruct h as [|j], h' as [|j']; try done; cbn in E, E'.
    destruct (Nat.eqb_spec j i), (Nat.eqb_spec j' i); congruence.
Qed.

(** A step of the adder posts what it holds, or finds no core, or leaves everything as it was. *)
Lemma adder_step_cases m s s' : adders s = [m] -> adder_step 0 s = Some s' ->
  is_abort 0 s = true \/
  (exists i f a, m = MCode i f a /\ is_Some (cores s !! i) /\ adders s' = [MWait i f a] /\
     events s' = Posted i f a :: events s) \/
  (exists m', adders s' = [m'] /\ (forall a, adder_holds m a <-> adder_holds m' a) /\
     (events s' = events s \/ exists e, events s' = e :: events s /\ match e with Posted _ _ _ | Ended _ => False | _ => True end)).
Proof.
  intros Hm. unfold adder_step, is_abort. rewrite Hm. cbn [lookup list_lookup].
  destruct m as [i| |i f a|i f a|i f a|i f a|i| | |]; cbn; try done.
  all: try (destruct (cores s !! i) as [c|] eqn:Ec; cbn; try done).
  all: try (destruct (done c)); try (destruct (code_ptr c)); try (destruct (executing_cores s =? 0)); intros [= <-]; cbn; rewrite ?Hm; cbn.
  all: try (by left).
  all: try (right; left; by eexists _, _, _).
  all: right; right; eexists; (split; [done|]; split; [done|]); first [by left|right; eexists; by split].
Qed.

Lemma holds_adder n m m' es : (forall a, adder_holds m a <-> adder_holds m' a) ->
  forall h a, holds n m es h a <-> holds n m' es h a.
Proof. intros He [|i] a; [apply He|done]. Qed.

Lemma verona_adder_step n m v j r :
  verona_inv n m v -> aborted v = false -> verona_step (Pool_ (AdderStep j)) v = Some r ->
  exists v', r = VOk v' /\ (aborted v' = true \/ exists m', verona_inv n m' v').
Proof.
  intros [Hp Hh Hn] Ha. unfold verona_step. rewrite Ha. destruct (adder_step j (pool v)) as [s|] eqn:Es; [|done]. cbn.
  intros [= <-]. eexists. split; [done|]. cbn [aborted]. pose proof (pi_adders n m _ Hp) as Hm.
  destruct j as [|j]; [|unfold adder_step in Es; by rewrite Hm in Es].
  destruct (adder_step_inv n m (pool v) s Hp Es) as [m' Hp'].
  destruct (adder_step_cases m (pool v) s Hm Es) as [Hab|[(i & f & a & -> & Hc & Hm' & He)|(m1 & Hm' & Hk & He)]]; [by left| |];
    right; exists m'; (split; [done| |done]); rewrite (pi_adders n m' s Hp') in Hm'; injection Hm' as ->.
  - cbn [pool events blocks]. rewrite He. apply held_post; [| |done].
    + rewrite <- (pi_length n (MCode i f a) _ Hp). by apply lookup_lt_is_Some_1.
    + rewrite <- He. by apply (pool_inv_phases n (MWait i f a) s).
  - cbn [pool events blocks]. eapply held_once_iff; [by apply holds_adder|]. destruct He as [->|(e & He & Hne)]; [done|].
    eapply held_once_iff, Hh. rewrite He. apply holds_event; [|done]. rewrite <- He. by apply (pool_inv_phases n m1 s).
Qed.

(** A new block is held by the constructor. *)
Lemma held_new n es bs a :
  (forall b, b ∈ bs -> b < a) -> held_once (holds n MIdle es) bs ->
  held_once (holds n (MScan 0 thread_proxy a) es) (a :: bs).
Proof.
  intros Hlt Hh b. destruct (Hh b) as [Hin Hu].
  assert (forall h, holds n (MScan 0 thread_proxy a) es h b <-> h = ByConstructor /\ b = a \/ holds n MIdle es h b) as Hs.
  { intros [|i]; cbn; intuition congruence. }
  split.
  - rewrite elem_of_cons, Hin. split.
    + intros [->|[h Hx]]; [exists ByConstructor|exists h]; apply Hs; [by left|by right].
    + intros [h [[_ ->]|Hx]%Hs]; [by left|right; by exists h].
  - intros h h' Hx Hy. apply Hs in Hx as [[-> ->]|Hx], Hy as [[-> Hb]|Hy]; try done; [| |by apply Hu].
    + assert (a < a); [|lia]. apply Hlt, Hin. by exists h'.
    + subst b. assert (a < a); [|lia]. apply Hlt, Hin. by exists h.
Qed.

Lemma verona_call n m v a r :
  verona_inv n m v -> aborted v = false -> match a with CallJoin _ _ | MainReturns => True | _ => False end ->
  verona_step (Pool_ a) v = Some r -> exists v', r = VOk v' /\ (aborted v' = true \/ exists m', verona_inv n m' v').
Proof.
  intros [Hp Hh Hn] Ha Hc. unfold verona_step. rewrite Ha. intros Hs.
  assert (exists s, pool_step a (pool v) = Some s /\ r = VOk (mkVerona s (blocks v) (next_block v) false)) as (s & Es & ->).
  { destruct a; try done; destruct (pool_step _ _) as [s|]; try done; injection Hs as <-; by exists s. }
  destruct (pool_step_idle n m _ _ _ Hp Es) as (-> & He & m' & Hp' & Hm'); [by destruct a|].
  eexists. split; [done|]. right. exists m'. split; cbn [pool blocks next_block]; [done| |done].
  rewrite He. eapply held_once_iff, Hh. apply holds_adder. intros x. by destruct a; subst m'.
Qed.

(** ** Every state of a run *)

Lemma verona_init n : verona_inv n (MInit 0) (mkVerona (pool_init n 1) [] 0 false).
Proof.
  split; cbn [pool blocks next_block]; [apply pool_init_inv| |by intros b ?%elem_of_nil].
  assert (forall h a, ~ holds n (MInit 0) (events (pool_init n 1)) h a) as Hn.
  { intros [|i] a; [by intros []|]. intros [Hi (p & Hp & Hh)]. cbn [events pool_init] in Hp.
    rewrite phase_of_boot, (proj2 (Nat.ltb_lt i n)) in Hp by done. injection Hp as <-. by destruct Hh. }
  intros a. split; [split; [by intros ?%elem_of_nil|by intros [h ?%Hn]]|by intros h h' ?%Hn].
Qed.

Lemma verona_run_inv n r : verona_run n r ->
  exists v, r = VOk v /\ (aborted v = true \/ exists m, verona_inv n m v).
Proof.
  induction 1 as [|v act r _ (v0 & [= <-] & Hi) Hs].
  { eexists. split; [done|]. right. exists (MInit 0). apply verona_init. }
  destruct Hi as [Ha|[m Hi]]; [unfold verona_step in Hs; by rewrite Ha in Hs|].
  destruct (aborted v) eqn:Ha; [unfold verona_step in Hs; by rewrite Ha in Hs|].
  destruct act as [|[i|j|j f a|j i|]].
  - unfold verona_step in Hs. rewrite Ha in Hs. destruct (pool_step _ _) as [s|] eqn:Es; [|done]. injection Hs as <-.
    destruct Hi as [Hp Hh Hn]. destruct (pool_step_idle n m _ _ _ Hp Es) as (-> & He & m' & Hp' & ->); [done|].
    eexists. split; [done|]. right. eexists. split; [done| |]; cbn [pool events blocks next_block].
    + rewrite He. by apply held_new.
    + intros b [->|Hb]%elem_of_cons; [lia|]. specialize (Hn b Hb). lia.
  - destruct (verona_core_step n m v i r Hi Ha Hs) as (v' & -> & Hi'). exists v'. split; [done|]. right. by exists m.
  - by apply (verona_adder_step n m v j r Hi Ha Hs).
  - unfold verona_step in Hs. by rewrite Ha in Hs.
  - apply (verona_call n m v (CallJoin j i) r); done.
  - apply (verona_call n m v MainReturns r); done.
Qed.

(** C23: The arguments of a thread live as long as they are needed. In every interleaving of one
    thread that constructs and joins others with any number of cores, no block of arguments is freed
    twice; while [thread_proxy] runs on a core its block is allocated, and no other core runs on
    the same one; and when no constructor is active and every core is idle no block is
    left, so that each was freed exactly once. This does not depend on whether the thread ends before
    or after its constructor has given the block up. Only [abort] keeps a block. *)
Theorem thread_args_freed_once n r :
  verona_run n r ->
  exists v, r = VOk v /\ (aborted v = false ->
    (forall i c a, cores (pool v) !! i = Some c -> apc c = ACall thread_proxy a ->
       a ∈ blocks v /\
       forall j c', cores (pool v) !! j = Some c' -> apc c' = ACall thread_proxy a -> j = i) /\
    (adders (pool v) = [MIdle] -> Forall (fun c => apc c = ALoop /\ code_ptr c = None) (cores (pool v)) ->
       blocks v = [])).
Proof.
  intros Hr. destruct (verona_run_inv n r Hr) as (v & -> & Hi). exists v. split; [done|]. intros Ha.
  destruct Hi as [Ha'|[m [Hp Hh _]]]; [congruence|].
  assert (forall i c a, cores (pool v) !! i = Some c -> apc c = ACall thread_proxy a ->
    holds n m (events (pool v)) (ByCore i) a) as Hc.
  { intros i c a Hci Hpc. destruct (pi_core n m _ Hp i c Hci) as (p & Hph & Hok & _). unfold core_ok in Hok.
    rewrite Hpc in Hok. destruct Hok as (_ & _ & ->). split; [|by exists (PRunning thread_proxy a)].
    rewrite <- (pi_length n m _ Hp). apply lookup_lt_is_Some_1. by exists c. }
  split.
  - intros i c a Hci Hpc. destruct (Hh a) as [Hin Hu]. split; [apply Hin; exists (ByCore i); by apply (Hc i c)|].
    intros j c' Hcj Hpc'. by injection (Hu _ _ (Hc j c' a Hcj Hpc') (Hc i c a Hci Hpc)).
  - intros Hm Hall. rewrite (pi_adders n m _ Hp) in Hm. injection Hm as ->.
    destruct (blocks v) as [|a bs] eqn:Eb; [done|]. exfalso.
    destruct (proj1 (proj1 (Hh a))) as [[|i] Hx]; [left|done|]. destruct Hx as [Hi (p & Hph & Hx)].
    rewrite <- (pi_length n _ _ Hp) in Hi. apply lookup_lt_is_Some_2 in Hi as [c Hci].
    destruct (pi_core n _ _ Hp i c Hci) as (q & Hq & Hok & _). rewrite Hph in Hq. injection Hq as <-.
    rewrite Forall_lookup in Hall. destruct (Hall i c Hci) as [Epc Ecode]. unfold core_ok in Hok.
    rewrite Epc, Ecode in Hok. by destruct Hok as [-> _].
Qed.

Fixpoint verona_exec (acts : list verona_action) (v : Verona) : option Verona :=
  match acts with
  | [] => Some v
  | a :: acts' => match verona_step a v with Some (VOk v') => verona_exec acts' v' | _ => None end
  end.

Lemma verona_exec_run n acts : forall v v',
  verona_run n (VOk v) -> verona_exec acts v = Some v' -> verona_run n (VOk v').
Proof.
  induction acts as [|a acts IH]; intros v v' Hr; cbn; [by intros [= <-]|].
  destruct (verona_step a v) as [[v1|]|] eqn:E; try done. apply IH. by eapply verona_next.
Qed.

(** A thread that ends before its constructor goes on. *)
Lemma thread_args_freed_once_witness :
  exists v, verona_exec (map Pool_ boot_schedule ++ NewThread :: replicate 3 (Pool_ (AdderStep 0)) ++
    replicate 8 (Pool_ (CoreStep 0)) ++ [Pool_ (AdderStep 0)]) (mkVerona (pool_init 1 1) [] 0 false) = Some v /\
  Returned 0 thread_proxy 0 ∈ events (pool v) /\ blocks v = [].
Proof.
  destruct (verona_exec (map Pool_ boot_schedule ++ NewThread :: replicate 3 (Pool_ (AdderStep 0)) ++
    replicate 8 (Pool_ (CoreStep 0)) ++ [Pool_ (AdderStep 0)]) (mkVerona (pool_init 1 1) [] 0 false))
    as [v|] eqn:E; [|vm_compute in E; discriminate E].
  pose proof (verona_exec_run 1 _ _ v (verona_start 1) E) as Hr. vm_compute in E. injection E as <-.
  destruct (thread_args_freed_once 1 _ Hr) as (v' & [= <-] & H). destruct (H eq_refl) as [_ Hb].
  eexists. split; [reflexivity|]. split; [left|]. apply Hb; [reflexivity|]. repeat constructor.
Defined.
