(* ===== verification/Logging.v ===== *)
(** * The log stream (include/public/logging.h)

    [LoggerStream] formats a log entry into a buffer of fixed size and hands it to
    [output_log_entry] at the end of the entry. Characters are bytes. *)

From S2P Require Import Prelude.

(** ** The buffer *)

Record LoggingBuffer : Type := mkLog { buffer : list Z; position : Z }.

Section Logging.
Context (CURRENT_LOG_BUFFER_SIZE : Z).

Definition logging_buffer_initial : LoggingBuffer :=
  mkLog (replicate (Z.to_nat CURRENT_LOG_BUFFER_SIZE) 0) 0.

Definition remaining_space (b : LoggingBuffer) : Z := u64 (CURRENT_LOG_BUFFER_SIZE - position b).

(** [memcpy] into the buffer at [at_]. *)
Definition copy_in (at_ : Z) (input l : list Z) : list Z :=
  take (Z.to_nat at_) l ++ input ++ drop (Z.to_nat at_ + length input) l.

Definition append (input : list Z) (b : LoggingBuffer) : bool * LoggingBuffer :=
  if remaining_space b <? Z.of_nat (length input) then (false, b)
  else (true, mkLog (copy_in (position b) input (buffer b)) (u64 (position b + Z.of_nat (length input)))).

(** The offset of the reserved bytes in the buffer, and their number. *)
Definition reserve (size : Z) (b : LoggingBuffer) : (Z * Z) * LoggingBuffer :=
  if remaining_space b <? size then ((0, 0), b)
  else ((position b, size), mkLog (buffer b) (u64 (position b + size))).

Definition reset (b : LoggingBuffer) : LoggingBuffer := mkLog (buffer b) 0.

Definition get_data (b : LoggingBuffer) : list Z := take (Z.to_nat (position b)) (buffer b).

(** ** Integers *)

Inductive IntegerBase : Type := Decimal | Hex.
Definition base_value (f : IntegerBase) : Z := match f with Decimal => 10 | Hex => 16 end.

(** The character of a digit. *)
Definition digit_char (digit : Z) : Z := if digit <? 10 then 48 + digit else 97 + digit - 10.

(** The loop that counts the digits. *)
Definition count_digits (base value : Z) : outcome (Z * Z) :=
  while_loop 64 (fun s => negb (snd s =? 0)) (fun s => Done (u64 (fst s + 1), snd s / base)) (0, value).

(** The loop that writes the digits into [output_range], the [size] bytes at
    [offset]; a write outside it would be undefined and stops the machine here. *)
Definition fill_step (base offset size : Z) (s : Z * Z * list Z) : outcome (Z * Z * list Z) :=
  let '(current_digit, value, bytes) := s in
  let digit := u8 (value mod base) in
  if current_digit <? size then
    Done (u64 (current_digit - 1), value / base,
          <[Z.to_nat (offset + current_digit) := digit_char digit]> bytes)
  else Kabort.

Definition fill_digits (base offset size : Z) (s : Z * Z * list Z) : outcome (Z * Z * list Z) :=
  while_loop 64 (fun s => negb (snd (fst s) =? 0)) (fill_step base offset size) s.

Definition log_u64 (value : Z) (format : IntegerBase) (b : LoggingBuffer) : outcome LoggingBuffer :=
  let base := base_value format in
  if value =? 0 then Done (snd (append [48] b))
  else
    let* counted := count_digits base value in
    let num_digits := fst counted in
    let '((offset, size), b1) := reserve num_digits b in
    if size =? 0 then Done b1
    else
      let* filled := fill_digits base offset size (u64 (num_digits - 1), value, buffer b1) in
      Done (mkLog (snd filled) (position b1)).

(** ** The stream *)

(** The operands of [<<]: a C string, a pointer, a signed and an unsigned integer
    of up to 64 bits, and [LOG_ENDL]. An enumeration is its underlying integer. *)
Inductive log_item : Type :=
| LogStr (value : list Z)
| LogPtr (value : Z)
| LogSigned (value : Z)
| LogUnsigned (value : Z)
| LogEndl.

#[export] Instance log_item_eq_dec : EqDecision log_item.
Proof. solve_decision. Defined.

(** The stream with the entries that were output. *)
Record LoggerStream : Type := mkStream { stream_buffer : LoggingBuffer; entries : list (list Z) }.

Definition log_str (value : list Z) (b : LoggingBuffer) : LoggingBuffer :=
  let length_ := Z.of_nat (length value) in
  let length' := if length_ >? remaining_space b then remaining_space b else length_ in
  snd (append (take (Z.to_nat length') value) b).

Definition log_ptr (value : Z) (b : LoggingBuffer) : outcome LoggingBuffer :=
  if remaining_space b <? 2 + 8 * 2 then Done b
  else log_u64 value Hex (snd (append [48; 120] b)).

Definition log_signed (value : Z) (b : LoggingBuffer) : outcome LoggingBuffer :=
  if remaining_space b <? 1 + 19 then Done b
  else if value >=? 0 then log_u64 (u64 value) Decimal b
  else log_u64 (u64 (- value)) Decimal (snd (append [45] b)).

Definition log_unsigned (value : Z) (b : LoggingBuffer) : outcome LoggingBuffer :=
  if remaining_space b <? 20 then Done b else log_u64 value Decimal b.

Definition flush (s : LoggerStream) : LoggerStream :=
  mkStream (reset (stream_buffer s)) (entries s ++ [get_data (stream_buffer s)]).

Definition stream_log (it : log_item) (s : LoggerStream) : outcome LoggerStream :=
  match it with
  | LogStr value => Done (mkStream (log_str value (stream_buffer s)) (entries s))
  | LogPtr value => let* b := log_ptr value (stream_buffer s) in Done (mkStream b (entries s))
  | LogSigned value => let* b := log_signed value (stream_buffer s) in Done (mkStream b (entries s))
  | LogUnsigned value => let* b := log_unsigned value (stream_buffer s) in Done (mkStream b (entries s))
  | LogEndl => Done (flush s)
  end.

End Logging.

(** ** Reference: the digits of a number *)

(** Least significant first. *)
Fixpoint rev_digits (fuel : nat) (base v : Z) : list Z :=
  match fuel with
  | O => []
  | S fuel' => if v =? 0 then [] else v mod base :: rev_digits fuel' base (v / base)
  end.

Definition numeral (base v : Z) : list Z :=
  if v =? 0 then [48] else map digit_char (rev (rev_digits 64 base v)).

(** Reading a numeral back. *)
Definition char_digit (c : Z) : Z := if c <? 58 then c - 48 else c - 97 + 10.
Definition parse_numeral (base : Z) (t : list Z) : Z :=
  fold_left (fun acc c => acc * base + char_digit c) t 0.

Lemma digit_char_inv d : 0 <= d < 16 -> char_digit (digit_char d) = d.
Proof. intros. unfold char_digit, digit_char. destruct (Z.ltb_spec d 10); case_if_prop; lia. Qed.

Section Digits.
Context (base : Z) (Hbase : 2 <= base <= 16).

Lemma half_bound fuel v : 0 <= v < 2 ^ Z.of_nat (S fuel) -> 0 <= v / base < 2 ^ Z.of_nat fuel.
Proof.
  intros Hv. replace (Z.of_nat (S fuel)) with (1 + Z.of_nat fuel) in Hv by lia.
  rewrite Z.pow_add_r in Hv by lia. split; [apply Z.div_pos; lia|].
  apply Z.div_lt_upper_bound; [lia|]. change (2 ^ 1) with 2 in Hv. nia.
Qed.

Lemma parse_rev_digits fuel v :
  0 <= v < 2 ^ Z.of_nat fuel -> parse_numeral base (map digit_char (rev (rev_digits fuel base v))) = v.
Proof.
  revert v; induction fuel as [|fuel IH]; intros v Hv; cbn [rev_digits]; [cbn in Hv; cbn; lia|].
  destruct (Z.eqb_spec v 0) as [->|Hn]; [done|]. cbn [rev]. rewrite map_app. unfold parse_numeral.
  rewrite fold_left_app. fold (parse_numeral base (map digit_char (rev (rev_digits fuel base (v / base))))).
  rewrite IH by by apply half_bound. cbn [map fold_left].
  pose proof (Z.mod_pos_bound v base ltac:(lia)). rewrite digit_char_inv by lia.
  pose proof (Z.div_mod v base ltac:(lia)). lia.
Qed.

Lemma rev_digits_length fuel k v : 0 <= v < base ^ Z.of_nat k -> (length (rev_digits fuel base v) <= k)%nat.
Proof.
  revert k v; induction fuel as [|fuel IH]; intros k v Hv; cbn [rev_digits]; [cbn; lia|].
  destruct (Z.eqb_spec v 0) as [->|Hn]; [cbn; lia|]. cbn [length].
  destruct k as [|k]; [cbn in Hv; lia|]. apply le_n_S, IH.
  replace (Z.of_nat (S k)) with (1 + Z.of_nat k) in Hv by lia. rewrite Z.pow_add_r, Z.pow_1_r in Hv by lia.
  split; [apply Z.div_pos; lia|]. apply Z.div_lt_upper_bound; lia.
Qed.

Lemma rev_digits_pos fuel v : 0 < v < 2 ^ Z.of_nat fuel -> (0 < length (rev_digits fuel base v))%nat.
Proof.
  destruct fuel as [|fuel]; cbn [rev_digits]; intros Hv; [cbn in Hv; lia|].
  destruct (Z.eqb_spec v 0); [lia|]. cbn. lia.
Qed.

Lemma count_loop fuel : forall n v,
  0 <= v < 2 ^ Z.of_nat fuel -> 0 <= n -> n + Z.of_nat fuel < 2 ^ 64 ->
  while_loop fuel (fun s => negb (snd s =? 0)) (fun s => Done (u64 (fst s + 1), snd s / base)) (n, v) =
  Done (n + Z.of_nat (length (rev_digits fuel base v)), 0).
Proof.
  induction fuel as [|fuel IH]; intros n v Hv Hn Hf; cbn [while_loop rev_digits fst snd].
  - assert (v = 0) as -> by (cbn in Hv; lia). cbn. f_equal. f_equal. lia.
  - destruct (Z.eqb_spec v 0) as [->|Hnz]; cbn [negb length obind]; [f_equal; f_equal; lia|].
    rewrite u64_small by (unfold is_u64; lia). rewrite IH by (try apply half_bound; lia). f_equal. f_equal. lia.
Qed.

(** Filling backwards the bytes [old] between [pre] and [suf]. *)
Lemma fill_loop (pre : list Z) size fuel : forall v old suf,
  0 <= v < 2 ^ Z.of_nat fuel -> length old = length (rev_digits fuel base v) ->
  Z.of_nat (length old) <= size < 2 ^ 64 ->
  while_loop fuel (fun s => negb (snd (fst s) =? 0)) (fill_step base (Z.of_nat (length pre)) size)
    (u64 (Z.of_nat (length old) - 1), v, pre ++ old ++ suf) =
  Done (u64 (-1), 0, pre ++ map digit_char (rev (rev_digits fuel base v)) ++ suf).
Proof.
  induction fuel as [|fuel IH]; intros v old suf Hv Hl Hs; cbn [while_loop rev_digits fst snd] in *.
  - assert (v = 0) as -> by (cbn in Hv; lia). destruct old; [done|cbn in Hl; lia].
  - destruct (Z.eqb_spec v 0) as [->|Hnz]; cbn [negb].
    { destruct old; [done|cbn in Hl; lia]. }
    cbn [length] in Hl. destruct (exists_last (l := old)) as (old' & x & ->); [intros ->; cbn in Hl; lia|].
    rewrite length_app in Hl, Hs |- *. cbn [length] in Hl, Hs |- *.
    rewrite (u64_small (_ - 1)) by (unfold is_u64; lia). unfold fill_step at 1.
    replace (Z.of_nat (length old' + 1) - 1) with (Z.of_nat (length old')) by lia.
    destruct (Z.ltb_spec (Z.of_nat (length old')) size); [|lia]. cbn [obind].
    pose proof (Z.mod_pos_bound v base ltac:(lia)) as Hmod.
    assert (u8 (v mod base) = v mod base) as -> by (unfold u8; apply Z.mod_small; lia).
    replace (Z.to_nat (Z.of_nat (length pre) + Z.of_nat (length old'))) with (length (pre ++ old') + 0)%nat
      by (rewrite length_app; lia).
    rewrite <- (app_assoc old'), (app_assoc pre old'), insert_app_r.
    change (<[0%nat := ?y]> ([x] ++ suf)) with (y :: suf). rewrite <- app_assoc.
    rewrite (IH (v / base) old' (digit_char (v mod base) :: suf)) by (try apply half_bound; lia).
    cbn [rev]. rewrite map_app, <- !app_assoc. done.
Qed.

End Digits.

(** ** The buffer as text *)

Section LogFacts.
Context (N : Z) (HN : 0 <= N < 2 ^ 64).

Definition buffer_wf (b : LoggingBuffer) : Prop :=
  Z.of_nat (length (buffer b)) = N /\ 0 <= position b <= N.

Lemma remaining_eq b : buffer_wf b -> remaining_space N b = N - position b.
Proof. intros [_ Hp]. unfold remaining_space. apply u64_small. unfold is_u64. lia. Qed.

Lemma data_length b : buffer_wf b -> Z.of_nat (length (get_data b)) = position b.
Proof. intros [Hl Hp]. unfold get_data. rewrite length_take. lia. Qed.

(** A buffer is its text and the bytes after it. *)
Lemma buffer_split b : buffer_wf b -> buffer b = get_data b ++ drop (Z.to_nat (position b)) (buffer b).
Proof. intros _. unfold get_data. by rewrite take_drop. Qed.

Lemma append_spec b input :
  buffer_wf b -> Z.of_nat (length input) <= N - position b ->
  exists b', append N input b = (true, b') /\ buffer_wf b' /\ get_data b' = get_data b ++ input.
Proof.
  intros Hb Hi. pose proof Hb as [Hl Hp]. unfold append. rewrite remaining_eq by done.
  destruct (Z.ltb_spec (N - position b) (Z.of_nat (length input))); [lia|]. eexists. split; [reflexivity|].
  rewrite u64_small by (unfold is_u64; lia). unfold copy_in. split.
  - split; cbn; [rewrite !length_app, length_take, length_drop; lia|lia].
  - unfold get_data; cbn. rewrite app_assoc, take_app_length'; [done|]. rewrite length_app, length_take. lia.
Qed.

(** [log_u64] appends the numeral of the value. *)
Lemma log_u64_spec b v f :
  buffer_wf b -> is_u64 v -> Z.of_nat (length (numeral (base_value f) v)) <= N - position b ->
  exists b', log_u64 N v f b = Done b' /\ buffer_wf b' /\ get_data b' = get_data b ++ numeral (base_value f) v.
Proof.
  intros Hb Hv Hlen. pose proof Hb as [Hl Hp]. unfold log_u64. unfold numeral in *.
  assert (2 <= base_value f <= 16) as Hf by (destruct f; cbn; lia).
  destruct (Z.eqb_spec v 0) as [->|Hnz].
  { destruct (append_spec b [48] Hb Hlen) as (b' & -> & ? & ?). by exists b'. }
  set (ds := rev_digits 64 (base_value f) v) in *. rewrite length_map, length_rev in Hlen.
  assert (0 < v < 2 ^ Z.of_nat 64) as Hv' by (unfold is_u64 in Hv; cbn; lia).
  pose proof (rev_digits_pos (base_value f) 64 v Hv') as Hpos. fold ds in Hpos.
  unfold count_digits. rewrite count_loop by (try done; lia). fold ds. cbn [obind fst].
  unfold reserve. rewrite remaining_eq, Z.add_0_l by done.
  destruct (Z.ltb_spec (N - position b) (Z.of_nat (length ds))); [lia|].
  destruct (Z.eqb_spec (Z.of_nat (length ds)) 0); [lia|]. cbn [buffer position].
  pose proof (buffer_split b Hb) as Hsplit. pose proof (data_length b Hb) as Hdl.
  set (rest := drop (Z.to_nat (position b)) (buffer b)) in *.
  assert (length rest = Z.to_nat (N - position b)) as Hrest by (unfold rest; rewrite length_drop; lia).
  rewrite Hsplit, <- (take_drop (length ds) rest).
  assert (length (take (length ds) rest) = length ds) as Htl by (rewrite length_take; lia).
  pose proof (fill_loop (base_value f) Hf (get_data b) (Z.of_nat (length ds)) 64 v _
    (drop (length ds) rest) ltac:(lia) Htl ltac:(lia)) as E. fold ds in E. rewrite Htl in E.
  unfold fill_digits. rewrite <- Hdl, E. cbn [obind snd]. eexists. split; [reflexivity|].
  rewrite u64_small by (unfold is_u64; lia). split.
  - split; cbn [buffer position]; [|lia]. rewrite !length_app, length_map, length_rev, length_drop. lia.
  - unfold get_data at 1. cbn [buffer position]. rewrite app_assoc, take_app_length'; [done|].
    rewrite length_app, length_map, length_rev. lia.
Qed.

Lemma numeral_length f k v :
  0 <= v < base_value f ^ Z.of_nat (S k) -> (length (numeral (base_value f) v) <= S k)%nat.
Proof.
  intros Hv. unfold numeral. destruct (Z.eqb_spec v 0); [cbn; lia|]. rewrite length_map, length_rev.
  apply rev_digits_length; [destruct f; cbn; lia|done].
Qed.

Definition stream_wf (s : LoggerStream) : Prop := buffer_wf (stream_buffer s).

Definition item_wf (it : log_item) : Prop :=
  match it with
  | LogPtr v | LogUnsigned v => is_u64 v
  | LogSigned v => - 2 ^ 63 <= v < 2 ^ 63
  | LogStr _ | LogEndl => True
  end.

(** The text of an operand where [room] bytes are left. *)
Definition rendered (room : Z) (it : log_item) : list Z :=
  match it with
  | LogStr s => take (Z.to_nat room) s
  | LogPtr v => if room <? 18 then [] else [48; 120] ++ numeral 16 v
  | LogSigned v => if room <? 20 then [] else if v <? 0 then 45 :: numeral 10 (- v) else numeral 10 v
  | LogUnsigned v => if room <? 20 then [] else numeral 10 v
  | LogEndl => []
  end.

Lemma log_str_spec b s :
  buffer_wf b -> buffer_wf (log_str N s b) /\
  get_data (log_str N s b) = get_data b ++ take (Z.to_nat (N - position b)) s.
Proof.
  intros Hb. pose proof Hb as [Hl Hp]. unfold log_str. rewrite remaining_eq by done.
  assert (take (Z.to_nat (if Z.of_nat (length s) >? N - position b then N - position b else Z.of_nat (length s))) s
    = take (Z.to_nat (N - position b)) s) as ->.
  { rewrite Z.gtb_ltb. destruct (Z.ltb_spec (N - position b) (Z.of_nat (length s))); [done|].
    rewrite !take_ge by lia. done. }
  destruct (append_spec b (take (Z.to_nat (N - position b)) s) Hb) as (b' & -> & ? & ?); [|done].
  rewrite length_take. lia.
Qed.

(** A prefix followed by a numeral. *)
Lemma prefix_numeral b pre f v :
  buffer_wf b -> is_u64 v ->
  Z.of_nat (length pre) + Z.of_nat (length (numeral (base_value f) v)) <= N - position b ->
  exists b', log_u64 N v f (snd (append N pre b)) = Done b' /\ buffer_wf b' /\
    get_data b' = get_data b ++ pre ++ numeral (base_value f) v.
Proof.
  intros Hb Hv Hlen. destruct (append_spec b pre Hb ltac:(lia)) as (b1 & E1 & Hb1 & Hd1). rewrite E1. cbn [snd].
  pose proof (data_length b Hb) as L0. pose proof (data_length b1 Hb1) as L1.
  rewrite Hd1, length_app in L1.
  destruct (log_u64_spec b1 v f Hb1 Hv ltac:(lia)) as (b2 & E2 & Hb2 & Hd2).
  exists b2. rewrite Hd2, Hd1, <- app_assoc. done.
Qed.

(** Formatting never writes outside the buffer, never stops the machine, and
    appends exactly the text of the operand to the entry: the part of a string that
    fits, and for an integer or a pointer its numeral if there is room for the
    longest one and nothing otherwise. [LOG_ENDL] outputs the entry and starts a new
    one. The numerals read back as the value. *)
Theorem stream_log_spec s it :
  stream_wf s -> item_wf it ->
  (exists s', stream_log N it s = Done s' /\ stream_wf s' /\
    match it with
    | LogEndl => entries s' = entries s ++ [get_data (stream_buffer s)] /\ get_data (stream_buffer s') = []
    | _ => entries s' = entries s /\
        get_data (stream_buffer s') =
          get_data (stream_buffer s) ++ rendered (remaining_space N (stream_buffer s)) it
    end) /\
  forall f v, is_u64 v -> parse_numeral (base_value f) (numeral (base_value f) v) = v.
Proof.
  intros Hs Hit. unfold stream_wf in Hs. split.
  2:{ intros f v Hv. unfold numeral. destruct (Z.eqb_spec v 0) as [->|]; [by destruct f|].
      apply parse_rev_digits; [destruct f; cbn; lia|exact Hv]. }
  destruct s as [b es]. cbn [stream_buffer entries] in *. pose proof Hs as [_ Hp]. rewrite remaining_eq by done.
  destruct it as [str|v|v|v|]; cbn [stream_log rendered item_wf stream_buffer entries] in *.
  - destruct (log_str_spec b str Hs). eexists. split; [reflexivity|]. done.
  - unfold log_ptr. rewrite remaining_eq by done. change (2 + 8 * 2) with 18.
    destruct (Z.ltb_spec (N - position b) 18); cbn [obind].
    { eexists. split; [reflexivity|]. cbn. by rewrite app_nil_r. }
    pose proof (numeral_length Hex 15 v Hit) as Hn. cbn [base_value] in Hn.
    destruct (prefix_numeral b [48; 120] Hex v Hs Hit) as (b' & -> & ? & ?); [cbn [base_value length]; lia|].
    by eexists.
  - unfold log_signed. rewrite remaining_eq by done. change (1 + 19) with 20.
    destruct (Z.ltb_spec (N - position b) 20); cbn [obind].
    { eexists. split; [reflexivity|]. cbn. by rewrite app_nil_r. }
    destruct (Z.geb_spec v 0), (Z.ltb_spec v 0); try lia.
    + rewrite u64_small by (unfold is_u64; lia). pose proof (numeral_length Decimal 18 v ltac:(cbn; lia)) as Hn.
      cbn [base_value] in Hn. destruct (log_u64_spec b v Decimal Hs) as (b' & -> & ? & ?);
        [unfold is_u64; lia|cbn [base_value]; lia|]. by eexists.
    + rewrite u64_small by (unfold is_u64; lia). pose proof (numeral_length Decimal 18 (- v) ltac:(cbn; lia)) as Hn.
      cbn [base_value] in Hn. destruct (prefix_numeral b [45] Decimal (- v) Hs) as (b' & -> & ? & ?);
        [unfold is_u64; lia|cbn [base_value length]; lia|]. by eexists.
  - unfold log_unsigned. rewrite remaining_eq by done. destruct (Z.ltb_spec (N - position b) 20); cbn [obind].
    { eexists. split; [reflexivity|]. cbn. by rewrite app_nil_r. }
    pose proof (numeral_length Decimal 19 v ltac:(unfold is_u64 in Hit; cbn; lia)) as Hn. cbn [base_value] in Hn.
    destruct (log_u64_spec b v Decimal Hs Hit) as (b' & -> & ? & ?); [cbn [base_value]; lia|]. by eexists.
  - eexists. split; [reflexivity|]. split; [|done]. destruct Hs. split; cbn; [done|lia].
Qed.

End LogFacts.

Lemma logging_buffer_initial_wf N : 0 <= N -> buffer_wf N (logging_buffer_initial N).
Proof. intros. split; cbn; [rewrite length_replicate|]; lia. Qed.

(** The smallest 64-bit integer fits the 20 characters that are checked for. *)
Lemma stream_log_spec_witness :
  exists s', stream_log 1024 (LogSigned (- 2 ^ 63)) (mkStream (logging_buffer_initial 1024) []) = Done s' /\
    get_data (stream_buffer s') =
      [45; 57; 50; 50; 51; 51; 55; 50; 48; 51; 54; 56; 53; 52; 55; 55; 53; 56; 48; 56].
Proof.
  destruct (stream_log_spec 1024 ltac:(lia) (mkStream (logging_buffer_initial 1024) []) (LogSigned (- 2 ^ 63))
    (logging_buffer_initial_wf 1024 ltac:(lia)) ltac:(cbn; lia)) as [(s' & E & _ & _ & Hd) _].
  exists s'. split; [exact E|]. rewrite Hd. vm_compute. reflexivity.
Defined.
