(* ===== verification/Console.v ===== *)
(** * Log statements and the console (include/public/logging.h, crt/output.cc, hv_sev.cc)

    Which stream a log statement uses, what the streams print when threads interleave, and
    the way of an entry to the serial port: the lock of the output and, under SEV, the host
    that takes each character. *)

From S2P Require Import Prelude Logging.

(** ** Levels and statements *)

Inductive LogLevel : Type := DEBUG | INFO | WARNING | CRITICAL | ERROR | NONE.

Definition level_index (l : LogLevel) : Z :=
  match l with DEBUG => 0 | INFO => 1 | WARNING => 2 | CRITICAL => 3 | ERROR => 4 | NONE => 5 end.

(** [#level ": "]. *)
Definition level_text (l : LogLevel) : list Z :=
  match l with
  | DEBUG => [68; 69; 66; 85; 71] | INFO => [73; 78; 70; 79] | WARNING => [87; 65; 82; 78; 73; 78; 71]
  | CRITICAL => [67; 82; 73; 84; 73; 67; 65; 76] | ERROR => [69; 82; 82; 79; 82] | NONE => [78; 79; 78; 69]
  end ++ [58; 32].

(** [LOG(level) << items << LOG_ENDL] and [LOG_MOD]; [current] is [CURRENT_LOG_LEVEL]. *)
Definition LOG (current level : LogLevel) (items : list log_item) : list log_item :=
  if level_index current <=? level_index level then LogStr (level_text level) :: items ++ [LogEndl] else [].

Definition LOG_MOD (current level : LogLevel) (module : list Z) (items : list log_item) : list log_item :=
  LOG current level (LogStr (module ++ [58; 32]) :: items).

(** [Logger::stream()]: the global stream before the thread has a control block, then
    the one in its thread-local memory. [CompartmentLogger] always takes the latter. *)
Inductive stream_id : Type := GlobalStream | ThreadStream (tcb : Z).

#[export] Instance stream_id_eq_dec : EqDecision stream_id.
Proof. solve_decision. Defined.

Definition Logger_stream (tcb : Z) : stream_id := if tcb =? 0 then GlobalStream else ThreadStream tcb.
Definition CompartmentLogger_stream (tcb : Z) : stream_id := ThreadStream tcb.

(** ** Interleaved statements *)

Section Streams.
Context (N : Z) (HN : 0 <= N < 2 ^ 64).

(** One [<<] by the thread with this control block. *)
Definition log_step (ss : stream_id -> LoggerStream) (op : Z * log_item) : outcome (stream_id -> LoggerStream) :=
  let id := Logger_stream (fst op) in
  let* s := stream_log N (snd op) (ss id) in
  Done (fun id' => if decide (id' = id) then s else ss id').

(** Reference: the entries of a sequence of operands, the text so far being [cur]. *)
Fixpoint lines_of (cur : list Z) (items : list log_item) : list (list Z) :=
  match items with
  | [] => []
  | LogEndl :: items' => cur :: lines_of [] items'
  | it :: items' => lines_of (cur ++ rendered (N - Z.of_nat (length cur)) it) items'
  end.

(** The operands that go to a stream. *)
Definition own (id : stream_id) (sched : list (Z * log_item)) : list log_item :=
  map snd (filter (fun op => Logger_stream (fst op) = id) sched).

Lemma lines_kept sched : forall ss,
  (forall id, stream_wf N (ss id)) -> Forall (fun op => item_wf (snd op)) sched ->
  exists ss', ofold log_step sched ss = Done ss' /\ (forall id, stream_wf N (ss' id)) /\
    forall id, entries (ss' id) = entries (ss id) ++ lines_of (get_data (stream_buffer (ss id))) (own id sched).
Proof.
  induction sched as [|[tcb it] sched IH]; intros ss Hw Hi.
  { exists ss. split; [done|]. split; [done|]. intros id. cbn. by rewrite app_nil_r. }
  apply Forall_cons in Hi as [Hit Hi]. cbn [ofold]. unfold log_step at 1. cbn [fst snd] in *.
  set (id0 := Logger_stream tcb).
  destruct (stream_log_spec N HN (ss id0) it (Hw id0) Hit) as [(s' & Hs & Hw' & Hd) _]. rewrite Hs. cbn [obind].
  destruct (IH (fun id' => if decide (id' = id0) then s' else ss id')) as (ss' & Hr & Hws & He).
  { intros id. by case_decide. }
  { done. }
  exists ss'. split; [done|]. split; [done|]. intros id. rewrite He. unfold own. rewrite filter_cons. cbn [fst].
  fold id0. destruct (decide (id = id0)) as [->|Hne].
  - rewrite (decide_True (P := id0 = id0)) by done. cbn [map snd].
    assert (remaining_space N (stream_buffer (ss id0)) = N - Z.of_nat (length (get_data (stream_buffer (ss id0))))) as Hrem.
    { rewrite (remaining_eq N HN), (data_length N) by (done || apply Hw). done. }
    destruct it; cbn [lines_of]; destruct Hd as [-> ->]; rewrite ?Hrem; try done. by rewrite <- app_assoc.
  - by rewrite decide_False by (intros E; by apply Hne).
Qed.

(** C28: Log entries of threads do not mix. In any interleaving of the single [<<] operations of
    any number of threads nothing fails, and each stream puts out exactly the entries that
    the operations directed to it spell when they are executed alone: those of a
    thread with a control block its own, while all threads that have none yet share one stream, so
    that their entries can mix. *)
Theorem log_streams_independent sched ss :
  (forall id, stream_wf N (ss id) /\ get_data (stream_buffer (ss id)) = []) ->
  Forall (fun op => item_wf (snd op)) sched ->
  exists ss', ofold log_step sched ss = Done ss' /\
    (forall tcb, tcb <> 0 -> entries (ss' (ThreadStream tcb)) = entries (ss (ThreadStream tcb)) ++
       lines_of [] (map snd (filter (fun op => fst op = tcb) sched))) /\
    entries (ss' GlobalStream) = entries (ss GlobalStream) ++ lines_of [] (map snd (filter (fun op => fst op = 0) sched)).
Proof.
  intros Hs Hi. destruct (lines_kept sched ss (fun id => proj1 (Hs id)) Hi) as (ss' & Hr & _ & He).
  exists ss'. split; [done|]. split; [intros tcb Ht|]; rewrite He, (proj2 (Hs _)); do 2 f_equal;
    unfold own; f_equal; apply list_filter_iff; intros [t it]; cbn; unfold Logger_stream;
    destruct (Z.eqb_spec t 0); split; intros E; subst; congruence.
Qed.

(** A statement below the level that was compiled in prints nothing, any other one entry. *)
Lemma LOG_lines current level items :
  Forall (fun it => it <> LogEndl) items ->
  length (lines_of [] (LOG current level items)) =
    if level_index current <=? level_index level then 1%nat else 0%nat.
Proof.
  intros Hi. unfold LOG. destruct (_ <=? _); [|done]. cbn [lines_of].
  generalize ([] ++ rendered (N - Z.of_nat (length (@nil Z))) (LogStr (level_text level))). intros cur.
  revert cur. induction Hi as [|it items Hit _ IH]; intros cur; [done|]. destruct it; cbn [app lines_of]; done || apply IH.
Qed.

End Streams.

(** ** The way of an entry to the serial port *)

(** The lock, the stream in use, and the characters the host has taken. *)
Record ConsoleState : Type := mkConsole { io_lock : bool; con_buffer : LoggingBuffer; sent : list Z }.

Section Console.
(** The size of buffers, the level compiled in, and the status with which the host
    answers the request for the n-th character (0 is success). *)
Context (N : Z) (current : LogLevel) (status : nat -> Z).

Definition set_lock (b : bool) (s : ConsoleState) : ConsoleState := mkConsole b (con_buffer s) (sent s).

Section Putc.
Context (putc : Z -> ConsoleState -> outcome ConsoleState).

(** [kwritev_stdout]. A spin lock held by the core itself is never released: the loop of
    [acquire] does not end. *)
Definition console_kwritev (data : list (list Z)) (s : ConsoleState) : outcome ConsoleState :=
  if io_lock s then Hang
  else
    let* s1 := ofold (fun s c => putc c s) (concat data) (set_lock true s) in
    Done (set_lock false s1).

(** [output_log_entry] in the kernel. *)
Definition output_log_entry (str : list Z) (s : ConsoleState) : outcome ConsoleState :=
  console_kwritev [str; [10]] s.

(** [LoggerStream::operator<<] with [flush]. *)
Definition console_log (s : ConsoleState) (it : log_item) : outcome ConsoleState :=
  match it with
  | LogEndl =>
      let* s1 := output_log_entry (get_data (con_buffer s)) s in
      Done (mkConsole (io_lock s1) (reset (con_buffer s1)) (sent s1))
  | _ =>
      let* st := stream_log N it (mkStream (con_buffer s) []) in
      Done (mkConsole (io_lock s) (stream_buffer st) (sent s))
  end.

End Putc.

(** What [uartputc_sev] reports when the host refuses: "Failed SEV OUT with exit code ". *)
Definition refusal (code : Z) : list log_item :=
  LOG_MOD current ERROR [83; 78; 80]
    [LogStr [70; 97; 105; 108; 101; 100; 32; 83; 69; 86; 32; 79; 85; 84; 32; 119; 105; 116; 104; 32; 101; 120; 105;
       116; 32; 99; 111; 100; 101; 32]; LogUnsigned code; LogStr [46]].

(** [uartputc_sev] from the answer of the host on ([Ghcb.uartputc_sev] is the request). The
    report goes through the same function again: fuel bounds that nesting. *)
Fixpoint console_uartputc (fuel : nat) (c : Z) (s : ConsoleState) : outcome ConsoleState :=
  let code := status (length (sent s)) in
  if code =? 0 then Done (mkConsole (io_lock s) (con_buffer s) (sent s ++ [c]))
  else
    match fuel with
    | O => Hang
    | S fuel' => let* _ := ofold (console_log (console_uartputc fuel')) (refusal code) s in Kabort
    end.

(** ** What becomes of an entry *)

Context (HN : 0 <= N < 2 ^ 64) (Hstatus : forall n, is_u64 (status n)).

Lemma putc_accepted fuel cs : forall s,
  (forall i, (i < length cs)%nat -> status (length (sent s) + i) = 0) ->
  ofold (fun s c => console_uartputc fuel c s) cs s = Done (mkConsole (io_lock s) (con_buffer s) (sent s ++ cs)).
Proof.
  induction cs as [|c cs IH]; intros s Hs; cbn [ofold]; [by destruct s; cbn; rewrite app_nil_r|].
  pose proof (Hs 0%nat ltac:(cbn; lia)) as H0. rewrite Nat.add_0_r in H0.
  destruct fuel; cbn [console_uartputc]; rewrite H0; cbn [Z.eqb obind]; (rewrite IH; [cbn; by rewrite <- app_assoc|]);
    intros i Hi; cbn [sent]; rewrite length_app; cbn [length];
    replace (length (sent s) + 1 + i)%nat with (length (sent s) + S i)%nat by lia; apply Hs; cbn; lia.
Qed.

(** Formatting does not touch the lock, and keeps the buffer in order. *)
Lemma console_log_text putc it s :
  buffer_wf N (con_buffer s) -> item_wf it -> it <> LogEndl ->
  exists b, console_log putc s it = Done (mkConsole (io_lock s) b (sent s)) /\ buffer_wf N b.
Proof.
  intros Hb Hi Hne. destruct (stream_log_spec N HN (mkStream (con_buffer s) []) it Hb Hi) as [(s' & Hs & Hw & _) _].
  exists (stream_buffer s'). split; [|done]. unfold console_log. destruct it; try done; by rewrite Hs.
Qed.

(** While the lock is held, any report ends in the lock. *)
Lemma report_hangs putc items : forall s,
  io_lock s = true -> buffer_wf N (con_buffer s) -> Forall (fun it => item_wf it) items -> LogEndl ∈ items ->
  ofold (console_log putc) items s = Hang.
Proof.
  induction items as [|it items IH]; intros s Hl Hb Hi Hin; [by apply elem_of_nil in Hin|].
  apply Forall_cons in Hi as [Hit Hi]. cbn [ofold]. destruct (decide (it = LogEndl)) as [->|Hne].
  { cbn. unfold output_log_entry, console_kwritev. by rewrite Hl. }
  destruct (console_log_text putc it s Hb Hit Hne) as (b & -> & Hb'). cbn [obind].
  apply IH; try done. apply elem_of_cons in Hin as [Heq|]; [by destruct Hne|done].
Qed.

Lemma refusal_report code : is_u64 code -> current <> NONE ->
  Forall (fun it => item_wf it) (refusal code) /\ LogEndl ∈ refusal code.
Proof.
  intros Hc Hn. unfold refusal, LOG_MOD, LOG. destruct (Z.leb_spec (level_index current) (level_index ERROR));
    [|by destruct current]. split.
  - cbn [app]. repeat (apply Forall_cons; split; [done|]). apply Forall_nil. done.
  - cbn [app]. do 5 (apply elem_of_cons; right). by apply elem_of_cons; left.
Qed.

Lemma putc_refused fuel c s :
  io_lock s = true -> buffer_wf N (con_buffer s) -> current <> NONE -> status (length (sent s)) <> 0 ->
  console_uartputc fuel c s = Hang.
Proof.
  intros Hl Hb Hn Hs. destruct fuel; cbn [console_uartputc]; destruct (Z.eqb_spec (status (length (sent s))) 0); try done.
  destruct (refusal_report (status (length (sent s))) (Hstatus _) Hn) as [Hi Hin]. by rewrite report_hangs.
Qed.

End Console.

(** An entry is printed whole, or the machine hangs. As long as the host takes the
    characters, an entry appears with a new line behind it, in one piece, and the lock is free
    again. If the host refuses a character, the machine is meant to report that and stop;
    but the report needs the lock that the core holds itself, so that it spins there forever, unless
    error messages are compiled out. *)
Theorem entry_printed_or_hangs N current status fuel str s :
  0 <= N < 2 ^ 64 -> (forall n, is_u64 (status n)) -> current <> NONE ->
  io_lock s = false -> buffer_wf N (con_buffer s) ->
  let print := output_log_entry (console_uartputc N current status fuel) str s in
  ((forall i, (i <= length str)%nat -> status (length (sent s) + i)%nat = 0) ->
   print = Done (mkConsole false (con_buffer s) (sent s ++ str ++ [10]))) /\
  (forall k, (k <= length str)%nat -> (forall i, (i < k)%nat -> status (length (sent s) + i)%nat = 0) ->
   status (length (sent s) + k)%nat <> 0 -> print = Hang).
Proof.
  intros HN Hst Hn Hl Hb print. unfold print, output_log_entry, console_kwritev. rewrite Hl. cbn [concat]. rewrite app_nil_r.
  split.
  - intros Ha. rewrite putc_accepted; [done|]. intros i Hi. apply Ha. rewrite length_app in Hi. cbn in Hi. lia.
  - intros k Hk Ha Hr. rewrite <- (take_drop k (str ++ [10])).
    destruct (drop k (str ++ [10])) as [|c rest] eqn:E.
    { apply (f_equal length) in E. rewrite length_drop, length_app in E. cbn in E. lia. }
    assert (length (take k (str ++ [10])) = k) as Hlen by (rewrite length_take, length_app; cbn; lia).
    rewrite ofold_app, putc_accepted by (intros i Hi; apply Ha; cbn [set_lock sent]; lia). cbn [obind ofold].
    rewrite putc_refused; try done. cbn [sent set_lock]. by rewrite length_app, Hlen.
Qed.

(** Threads 1 and 2 log "a" and "b", one operand each in turn. *)
Lemma log_streams_independent_witness :
  let sched := [(1, LogStr [97]); (2, LogStr [98]); (1, LogEndl); (2, LogUnsigned 7); (2, LogEndl)] in
  exists ss', ofold (log_step 64) sched (fun _ => mkStream (logging_buffer_initial 64) []) = Done ss' /\
    entries (ss' (ThreadStream 1)) = [[97]] /\ entries (ss' (ThreadStream 2)) = [[98; 55]].
Proof.
  intros sched.
  destruct (log_streams_independent 64 ltac:(lia) sched (fun _ => mkStream (logging_buffer_initial 64) [])) as (ss' & Hr & Ht & _).
  - intros id. split; [by apply logging_buffer_initial_wf|reflexivity].
  - repeat (apply Forall_cons; split; [vm_compute; intuition congruence|]). apply Forall_nil. done.
  - exists ss'. split; [exact Hr|]. split; rewrite Ht by lia; vm_compute; reflexivity.
Defined.

(** "ok" with a willing host, and with one that refuses the new line. *)
Lemma entry_printed_or_hangs_witness :
  let s := mkConsole false (logging_buffer_initial 64) [] in
  output_log_entry (console_uartputc 64 DEBUG (fun _ => 0) 1) [111; 107] s =
    Done (mkConsole false (logging_buffer_initial 64) [111; 107; 10]) /\
  output_log_entry (console_uartputc 64 DEBUG (fun n => if Nat.eqb n 2 then 5 else 0) 1) [111; 107] s = Hang.
Proof.
  intros s. split.
  - apply (entry_printed_or_hangs 64 DEBUG (fun _ => 0) 1 [111; 107] s); done || lia.
  - apply (entry_printed_or_hangs 64 DEBUG (fun n => if Nat.eqb n 2 then 5 else 0) 1 [111; 107] s) with (k := 2%nat); try done; try lia.
    + intros n. destruct (Nat.eqb n 2); done.
    + intros i Hi. cbn [sent s length Nat.add]. destruct (Nat.eqb_spec i 2); [lia|done].
Defined.
