(* ===== verification/Random.v ===== *)
(** * Hardware random bytes (arch/x86_64/random.cc, crt/random.cc)

    [rdseed] is the instruction: [rdseed i] is the value of its [i]-th execution, or
    nothing when it fails. A write to the buffer is an offset from its start and the
    bytes written there, so that writes outside the buffer are visible. *)

From S2P Require Import Prelude.

Definition write : Type := Z * list Z.

(** The bytes of a 64-bit value in memory order. *)
Fixpoint bytes_le (n : nat) (v : Z) : list Z :=
  match n with O => [] | S n' => u8 v :: bytes_le n' (v / 256) end.

Section Random.
Context (rdseed : nat -> option Z).

(** The loop: the index, the executions of [rdseed], the writes, and whether the
    function has returned from it. *)
Record FillState : Type := mkFill {
  buffer_index : Z;
  seeds_taken : nat;
  writes : list write;
  returned : bool;
}.

Definition fill_body (s : FillState) : outcome FillState :=
  match rdseed (seeds_taken s) with
  | None => Done (mkFill (buffer_index s) (S (seeds_taken s)) (writes s) true)
  | Some random_value =>
      Done (mkFill (u64 (buffer_index s + 8)) (S (seeds_taken s))
              (writes s ++ [(buffer_index s, bytes_le 8 random_value)]) false)
  end.

(** [fuel] bounds the iterations of the loop. *)
Definition get_hardware_random_bytes (fuel : nat) (size : Z) : outcome (Z * list write) :=
  let* s := while_loop fuel (fun s => negb (returned s) && (buffer_index s <? u64 (size - 8)))
    fill_body (mkFill 0 0 [] false) in
  if returned s then Done (buffer_index s, writes s)
  else match rdseed (seeds_taken s) with
  | None => Done (buffer_index s, writes s)
  | Some random_value =>
      Done (size, writes s ++ [(buffer_index s,
        take (Z.to_nat (u64 (size - buffer_index s))) (bytes_le 8 random_value))])
  end.

Definition getentropy (fuel : nat) (length : Z) : outcome (Z * list write) :=
  let* r := get_hardware_random_bytes fuel length in
  Done (if fst r =? length then 0 else -1, snd r).

(** ** What is written *)

(** The [n] values from the [k]-th on, eight bytes each. *)
Definition seed_writes (k n : nat) : list write :=
  map (fun i => (8 * Z.of_nat i, bytes_le 8 (default 0 (rdseed i)))) (seq k n).

(** The executions of [rdseed] before the [n]-th succeed. *)
Definition succeeds (n : nat) : Prop := forall i, (i < n)%nat -> exists v, rdseed i = Some v.

(** A write lies inside a buffer of [size] bytes. *)
Definition inside (size : Z) (w : write) : Prop := 0 <= fst w /\ fst w + Z.of_nat (length (snd w)) <= size.

Lemma bytes_le_length n v : length (bytes_le n v) = n.
Proof. revert v; induction n as [|n IH]; intros v; cbn; [done|]. by rewrite IH. Qed.

Lemma loop_run limit n : forall fuel k ws,
  succeeds (k + n) -> (forall i, (k <= i < k + n)%nat -> 8 * Z.of_nat i < limit) -> (n <= fuel)%nat ->
  8 * Z.of_nat (k + n) < 2 ^ 64 ->
  while_loop fuel (fun s => negb (returned s) && (buffer_index s <? limit)) fill_body
    (mkFill (8 * Z.of_nat k) k ws false) =
  while_loop (fuel - n) (fun s => negb (returned s) && (buffer_index s <? limit)) fill_body
    (mkFill (8 * Z.of_nat (k + n)) (k + n) (ws ++ seed_writes k n) false).
Proof.
  induction n as [|n IH]; intros fuel k ws Hs Hl Hf Hb.
  { rewrite Nat.sub_0_r, Nat.add_0_r. cbn [seed_writes map seq]. by rewrite app_nil_r. }
  destruct fuel as [|fuel]; [lia|]. cbn [while_loop buffer_index returned negb andb].
  destruct (Z.ltb_spec (8 * Z.of_nat k) limit); [|specialize (Hl k); lia].
  destruct (Hs k ltac:(lia)) as [v Hv]. unfold fill_body at 1. cbn [seeds_taken buffer_index writes].
  rewrite Hv. cbn [obind]. rewrite u64_small by (unfold is_u64; lia).
  replace (8 * Z.of_nat k + 8) with (8 * Z.of_nat (S k)) by lia.
  rewrite (IH fuel (S k)); [|replace (S k + n)%nat with (k + S n)%nat by lia; done|intros i Hi; apply Hl; lia|lia|lia].
  rewrite <- app_assoc, Nat.sub_succ, Nat.add_succ_comm. do 2 f_equal. unfold seed_writes at 2. cbn [seq map].
  by rewrite Hv.
Qed.

(** The loop that stops because [rdseed] fails for the first time. *)
Lemma loop_fails limit n fuel :
  succeeds n -> rdseed n = None -> 8 * Z.of_nat n < limit < 2 ^ 64 -> (n < fuel)%nat ->
  while_loop fuel (fun s => negb (returned s) && (buffer_index s <? limit)) fill_body (mkFill 0 0 [] false) =
  Done (mkFill (8 * Z.of_nat n) (S n) (seed_writes 0 n) true).
Proof.
  intros Hs Hn Hl Hf. pose proof (loop_run limit n fuel 0 [] Hs ltac:(intros; lia) ltac:(lia) ltac:(lia)) as E.
  change (8 * Z.of_nat 0) with 0 in E. cbn [Nat.add app] in E. rewrite E. destruct (fuel - n)%nat as [|fuel'] eqn:Ef; [lia|].
  cbn [while_loop buffer_index returned negb andb]. destruct (Z.ltb_spec (8 * Z.of_nat n) limit); [|lia].
  unfold fill_body at 1. cbn [seeds_taken buffer_index writes]. rewrite Hn. cbn [obind]. by destruct fuel'.
Qed.

(** The loop that runs to its limit. *)
Lemma loop_done limit n fuel :
  succeeds n -> (forall i, (i < n)%nat -> 8 * Z.of_nat i < limit) -> limit <= 8 * Z.of_nat n < 2 ^ 64 ->
  (n <= fuel)%nat ->
  while_loop fuel (fun s => negb (returned s) && (buffer_index s <? limit)) fill_body (mkFill 0 0 [] false) =
  Done (mkFill (8 * Z.of_nat n) n (seed_writes 0 n) false).
Proof.
  intros Hs Hi Hl Hf.
  pose proof (loop_run limit n fuel 0 [] Hs ltac:(intros; apply Hi; lia) ltac:(lia) ltac:(lia)) as E.
  change (8 * Z.of_nat 0) with 0 in E. cbn [Nat.add app] in E. rewrite E. destruct (fuel - n)%nat; cbn [while_loop buffer_index returned negb andb];
    (destruct (Z.ltb_spec (8 * Z.of_nat n) limit); [lia|done]).
Qed.

Lemma seed_writes_inside n size : 8 * Z.of_nat n <= size -> Forall (inside size) (seed_writes 0 n).
Proof.
  intros Hn. apply Forall_forall. intros w Hw. unfold seed_writes in Hw. rewrite list_elem_of_In, in_map_iff in Hw.
  destruct Hw as (i & <- & Hi%in_seq). unfold inside. cbn [fst snd]. rewrite bytes_le_length. lia.
Qed.

Lemma seed_writes_length k n : length (concat (map snd (seed_writes k n))) = (8 * n)%nat.
Proof.
  unfold seed_writes. revert k; induction n as [|n IH]; intros k; [done|]. cbn [seq map concat snd].
  rewrite length_app, IH, bytes_le_length. lia.
Qed.

(** The iterations of the loop for a buffer of at least eight bytes. *)
Definition loop_count (size : Z) : nat := Z.to_nat ((size - 1) / 8).

Lemma loop_count_spec size :
  8 <= size -> 8 * Z.of_nat (loop_count size) < size <= 8 * Z.of_nat (loop_count size) + 8.
Proof. intros. unfold loop_count. zlia. Qed.

Definition consecutive (ws : list write) : Prop :=
  map fst ws = map (fun i => 8 * Z.of_nat i) (seq 0 (length ws)).

Lemma seed_writes_consecutive n : consecutive (seed_writes 0 n).
Proof. unfold consecutive, seed_writes. rewrite length_map, length_seq, map_map. done. Qed.

Lemma consecutive_snoc n bs : consecutive (seed_writes 0 n ++ [(8 * Z.of_nat n, bs)]).
Proof.
  unfold consecutive. rewrite length_app, map_app. cbn [length]. rewrite seq_app, map_app, seed_writes_consecutive.
  unfold seed_writes at 3. rewrite length_map, length_seq. done.
Qed.

(** The part after the loop when every value was there. *)
Lemma random_complete size fuel :
  8 <= size < 2 ^ 63 -> succeeds (S (loop_count size)) -> (loop_count size <= fuel)%nat ->
  exists ws, get_hardware_random_bytes fuel size = Done (size, ws) /\ Forall (inside size) ws /\
    consecutive ws /\ Z.of_nat (length (concat (map snd ws))) = size.
Proof.
  intros Hsz Hs Hf. pose proof (loop_count_spec size ltac:(lia)) as Hc. set (k := loop_count size) in *.
  unfold get_hardware_random_bytes. rewrite (u64_small (size - 8)) by (unfold is_u64; lia).
  rewrite (loop_done (size - 8) k) by
    (try (intros i Hi; apply Hs || idtac; lia); lia).
  cbn [obind returned seeds_taken buffer_index writes]. destruct (Hs k ltac:(lia)) as [v Hv]. rewrite Hv.
  rewrite u64_small by (unfold is_u64; lia). eexists. split; [reflexivity|].
  assert (length (take (Z.to_nat (size - 8 * Z.of_nat k)) (bytes_le 8 v)) = Z.to_nat (size - 8 * Z.of_nat k)) as Hl
    by (rewrite length_take, bytes_le_length; lia).
  split_and!.
  - apply Forall_app. split; [apply seed_writes_inside; lia|]. constructor; [|constructor]. unfold inside. cbn [fst snd].
    rewrite Hl. lia.
  - apply consecutive_snoc.
  - rewrite map_app, concat_app, length_app, seed_writes_length. cbn [map concat snd]. rewrite app_nil_r, Hl. lia.
Qed.

(** For a buffer of at least eight bytes [get_hardware_random_bytes] ends, writes
    only inside the buffer, in order and without a gap, and returns the number of
    bytes it wrote, which is the size unless [rdseed] failed. For a smaller buffer
    [size - 8] wraps around: the loop only ends when [rdseed] fails, and by then it
    has written eight bytes per value from the start of the buffer on, outside it. *)
Theorem hardware_random_bytes_bounds size n :
  0 <= size < 2 ^ 63 -> 8 * Z.of_nat n < 2 ^ 63 -> succeeds n ->
  (8 <= size -> size <= 8 * Z.of_nat n \/ rdseed n = None ->
   forall fuel, size / 8 < Z.of_nat fuel ->
     exists r ws, get_hardware_random_bytes fuel size = Done (r, ws) /\
       r = Z.min size (8 * Z.of_nat n) /\ Forall (inside size) ws /\ consecutive ws /\
       Z.of_nat (length (concat (map snd ws))) = r) /\
  (size < 8 -> rdseed n = None -> forall fuel, (n < fuel)%nat ->
     get_hardware_random_bytes fuel size = Done (8 * Z.of_nat n, seed_writes 0 n) /\
     ((0 < n)%nat -> ~ Forall (inside size) (seed_writes 0 n))).
Proof.
  intros Hsz Hn Hs. split.
  - intros Hbig Hend fuel Hf. pose proof (loop_count_spec size Hbig) as Hc.
    destruct (decide (size <= 8 * Z.of_nat n)) as [Hle|Hgt].
    + destruct (random_complete size fuel) as (ws & E & ? & ? & ?);
        [lia|intros i Hi; apply Hs; lia|unfold loop_count; zlia|].
      exists size, ws. split_and!; try done. lia.
    + destruct Hend as [|Hnone]; [lia|].
      assert (n <= loop_count size)%nat as Hnc by lia.
      exists (8 * Z.of_nat n), (seed_writes 0 n). split_and!.
      * unfold get_hardware_random_bytes. rewrite (u64_small (size - 8)) by (unfold is_u64; lia).
        destruct (decide (8 * Z.of_nat n < size - 8)).
        -- rewrite (loop_fails (size - 8) n) by (try done; zlia). done.
        -- rewrite (loop_done (size - 8) n) by (try done; try (intros; lia); zlia).
           cbn [obind returned seeds_taken]. by rewrite Hnone.
      * lia.
      * apply seed_writes_inside. lia.
      * apply seed_writes_consecutive.
      * rewrite seed_writes_length. lia.
  - intros Hsmall Hnone fuel Hf. assert (u64 (size - 8) = 2 ^ 64 + size - 8) as Hw by (unfold u64; zlia).
    split.
    + unfold get_hardware_random_bytes. rewrite Hw, (loop_fails _ n) by (try done; lia). done.
    + intros Hpos Hall. destruct n as [|n]; [lia|]. unfold seed_writes in Hall. cbn [seq map] in Hall.
      apply Forall_cons in Hall as [[_ Hi] _]. cbn [fst snd] in Hi. rewrite bytes_le_length in Hi. lia.
Qed.

End Random.

(** Four bytes are asked for; the first value is there, the second is not. *)
Lemma hardware_random_bytes_bounds_witness :
  let rdseed := fun i => match i with O => Some 0x0807060504030201 | _ => None end in
  getentropy rdseed 10 4 = Done (-1, [(0, [1; 2; 3; 4; 5; 6; 7; 8])]).
Proof.
  cbv zeta.
  destruct (hardware_random_bytes_bounds
    (fun i => match i with O => Some 0x0807060504030201 | _ => None end) 4 1) as [_ Hsmall];
    [lia|lia|intros [|i] Hi; [by eexists|lia]|].
  destruct (Hsmall ltac:(lia) eq_refl 10%nat ltac:(lia)) as [E _].
  unfold getentropy. rewrite E. vm_compute. reflexivity.
Defined.
