(* ===== verification/Arrays.v ===== *)
(** * Owning arrays and spans (include/public/arrays.h)

    [SmartArray] over [std::unique_ptr] or [std::shared_ptr]. The state is the heap of
    array blocks and the array objects of the program; a block lives as long as some
    object points to it, which is what both smart pointers guarantee. Elements are
    values of one type; storage from [aligned_alloc] is assumed to be granted. *)

From S2P Require Import Prelude.

(** [length] and [impl]. *)
Record SmartArray : Type := mkArr { arr_length : nat; impl : option nat }.

(** Whether the pointer can be copied ([SharedArray]) or not ([UniqueArray]). *)
Inductive pointer_kind : Type := Unique | Shared.

Record ArrState : Type := mkArrState {
  blocks : gmap nat (list Z);
  objects : gmap nat SmartArray;
  next_block : nat;
}.

Definition arr_initial : ArrState := mkArrState ∅ ∅ 0.

Definition points_to (p : nat) (a : SmartArray) : bool := bool_decide (impl a = Some p).

(** Whether an object owns the block. *)
Definition owned (p : nat) (os : gmap nat SmartArray) : bool :=
  bool_decide (map_Exists (fun _ a => points_to p a = true) os).

(** The old value of a pointer goes away: its block dies with the last owner. *)
Definition drop_block (old : option nat) (st : ArrState) : ArrState :=
  match old with
  | Some p => if owned p (objects st) then st
              else mkArrState (delete p (blocks st)) (objects st) (next_block st)
  | None => st
  end.

Definition put (v : nat) (a : SmartArray) (st : ArrState) : ArrState :=
  mkArrState (blocks st) (<[v := a]> (objects st)) (next_block st).

(** [new] storage with the given elements. *)
Definition allocate (data : list Z) (st : ArrState) : nat * ArrState :=
  (next_block st, mkArrState (<[next_block st := data]> (blocks st)) (objects st) (S (next_block st))).

(** *** Constructors; [v] is a name that is not in use *)

Definition construct_empty (v : nat) (st : ArrState) : option ArrState :=
  if decide (objects st !! v = None) then Some (put v (mkArr 0 None) st) else None.

(** The size constructor leaves the elements as they are, [junk]. *)
Definition construct_size (v : nat) (size : nat) (junk : nat -> Z) (st : ArrState) : option ArrState :=
  if decide (objects st !! v = None) then
    let '(p, st1) := allocate (map junk (seq 0 size)) st in Some (put v (mkArr size (Some p)) st1)
  else None.

(** From a span or an initializer list: the elements are copied one by one. *)
Definition copy_elements (view : list Z) (size : nat) (junk : nat -> Z) : list Z :=
  snd (foldl (fun (r : nat * list Z) (entry : Z) => (S (fst r), <[fst r := entry]> (snd r))) (0%nat, map junk (seq 0 size)) view).

Definition construct_span (v : nat) (view : list Z) (junk : nat -> Z) (st : ArrState) : option ArrState :=
  if decide (objects st !! v = None) then
    let '(p, st1) := allocate (copy_elements view (length view) junk) st in
    Some (put v (mkArr (length view) (Some p)) st1)
  else None.

Definition construct_copy (k : pointer_kind) (v w : nat) (st : ArrState) : option ArrState :=
  match k with
  | Unique => None
  | Shared => if decide (objects st !! v = None) then b ← objects st !! w; Some (put v b st) else None
  end.

Definition construct_move (v w : nat) (st : ArrState) : option ArrState :=
  if decide (objects st !! v = None) then
    b ← objects st !! w; Some (put w (mkArr 0 None) (put v b st))
  else None.

(** *** Assignments; [v] and [w] may be the same object *)

Definition assign_copy (k : pointer_kind) (v w : nat) (st : ArrState) : option ArrState :=
  match k with
  | Unique => None
  | Shared => a ← objects st !! v; b ← objects st !! w; Some (drop_block (impl a) (put v b st))
  end.

(** [impl = std::move(other.impl)] leaves a pointer moved to itself as it is; then the
    lengths are exchanged in the order of the source. *)
Definition assign_move (v w : nat) (st : ArrState) : option ArrState :=
  a ← objects st !! v; b ← objects st !! w;
  let st1 := if decide (v = w) then st
             else put v (mkArr (arr_length a) (impl b)) (put w (mkArr (arr_length b) None) st) in
  let st1 := drop_block (if decide (v = w) then None else impl a) st1 in
  let temp_length := from_option arr_length 0%nat (objects st1 !! w) in
  let clear o := mkArr 0 (impl o) in
  let st2 := mkArrState (blocks st1) (alter clear w (objects st1)) (next_block st1) in
  let setlen o := mkArr temp_length (impl o) in
  Some (mkArrState (blocks st2) (alter setlen v (objects st2)) (next_block st2)).

Definition destroy (v : nat) (st : ArrState) : option ArrState :=
  a ← objects st !! v;
  Some (drop_block (impl a) (mkArrState (blocks st) (delete v (objects st)) (next_block st))).

(** *** Access *)

Definition size_of (v : nat) (st : ArrState) : option nat := a ← objects st !! v; Some (arr_length a).

(** [operator[]]; [None] where the access leaves the block. *)
Definition get_at (v i : nat) (st : ArrState) : option Z :=
  a ← objects st !! v; p ← impl a; data ← blocks st !! p; data !! i.

Definition set_at (v i : nat) (x : Z) (st : ArrState) : option ArrState :=
  a ← objects st !! v; p ← impl a; data ← blocks st !! p;
  if decide (i < length data)%nat
  then Some (mkArrState (<[p := <[i := x]> data]> (blocks st)) (objects st) (next_block st)) else None.

(** The conversion to a span: the block and the number of elements. *)
Definition as_span (v : nat) (st : ArrState) : option (option nat * nat) :=
  a ← objects st !! v; Some (impl a, arr_length a).

(** *** Programs *)

Inductive arr_op : Type :=
| NewEmpty (v : nat) | NewSize (v size : nat) (junk : nat -> Z) | NewSpan (v : nat) (view : list Z) (junk : nat -> Z)
| NewCopy (v w : nat) | NewMove (v w : nat) | AssignCopy (v w : nat) | AssignMove (v w : nat)
| SetAt (v i : nat) (x : Z) | Destroy (v : nat).

Definition arr_step (k : pointer_kind) (op : arr_op) (st : ArrState) : option ArrState :=
  match op with
  | NewEmpty v => construct_empty v st
  | NewSize v n junk => construct_size v n junk st
  | NewSpan v view junk => construct_span v view junk st
  | NewCopy v w => construct_copy k v w st
  | NewMove v w => construct_move v w st
  | AssignCopy v w => assign_copy k v w st
  | AssignMove v w => assign_move v w st
  | SetAt v i x => set_at v i x st
  | Destroy v => destroy v st
  end.

Inductive arr_run (k : pointer_kind) : ArrState -> Prop :=
| arr_start : arr_run k arr_initial
| arr_next st op st' : arr_run k st -> arr_step k op st = Some st' -> arr_run k st'.

(** A whole program. *)
Fixpoint arr_exec (k : pointer_kind) (ops : list arr_op) (st : ArrState) : option ArrState :=
  match ops with
  | [] => Some st
  | op :: ops' => st' ← arr_step k op st; arr_exec k ops' st'
  end.

Lemma arr_exec_run k ops : forall st st', arr_run k st -> arr_exec k ops st = Some st' -> arr_run k st'.
Proof.
  induction ops as [|op ops IH]; cbn; intros st st' Hr He; [congruence|].
  destruct (arr_step k op st) as [st1|] eqn:E; [|done]. cbn in He. eapply IH; [|done]. by eapply arr_next.
Qed.

(** ** Spans of anything (the [to_span] helpers) *)

(** An object that converts to a span of [count] elements of [elt] bytes at [data], or
    a smart pointer to such an object; [chars] says that it converts to a span of
    characters directly, [to_const] that the pointer is one to a constant. *)
Inductive spannable : Type :=
| Container (data elt count : Z) (chars : bool)
| SmartPtr (to_const : bool) (target : spannable).

(** Address, element size and number of elements. *)
Record tspan : Type := mkSpan { ts_data : Z; ts_elt : Z; ts_count : Z }.

Fixpoint to_span (object : spannable) : tspan :=
  match object with
  | SmartPtr _ target => to_span target
  | Container data elt count _ => mkSpan data elt count
  end.

(** The last two branches, which both overloads of [to_byte_span] have. *)
Definition container_bytes (data elt count : Z) (chars : bool) : tspan :=
  if chars then mkSpan data 1 count else mkSpan data 1 (u64 (count * elt)).

(** [to_byte_span(T&)]: through a smart pointer it is [to_span]. *)
Definition to_byte_span (object : spannable) : tspan :=
  match object with
  | SmartPtr _ target => to_span target
  | Container data elt count chars => container_bytes data elt count chars
  end.

(** [to_byte_span(const T&)]: a constant smart pointer still gives its target as the
    pointer's element type has it, and that selects the overload. *)
Fixpoint to_byte_span_const (object : spannable) : tspan :=
  match object with
  | SmartPtr true target => to_byte_span_const target
  | SmartPtr false target => to_byte_span target
  | Container data elt count chars => container_bytes data elt count chars
  end.

(** ** The invariant *)

(** An object's length is the number of elements of its block, or 0 without one. *)
Definition object_ok (bs : gmap nat (list Z)) (a : SmartArray) : Prop :=
  match impl a with
  | None => arr_length a = 0%nat
  | Some p => exists data, bs !! p = Some data /\ length data = arr_length a
  end.

(** [old] is a block that may have lost its last owner. *)
Record arr_inv_but (k : pointer_kind) (old : option nat) (st : ArrState) : Prop := {
  ai_obj : forall v a, objects st !! v = Some a -> object_ok (blocks st) a;
  ai_owned : forall p data, blocks st !! p = Some data ->
    old = Some p \/ exists v a, objects st !! v = Some a /\ impl a = Some p;
  ai_fresh : forall p data, blocks st !! p = Some data -> (p < next_block st)%nat;
  ai_unique : k = Unique -> forall v w a b p, objects st !! v = Some a -> objects st !! w = Some b ->
    impl a = Some p -> impl b = Some p -> v = w;
}.

Definition arr_inv (k : pointer_kind) (st : ArrState) : Prop := arr_inv_but k None st.

Lemma owned_spec p os : owned p os = true <-> exists v a, os !! v = Some a /\ impl a = Some p.
Proof.
  unfold owned, points_to. rewrite bool_decide_eq_true. unfold map_Exists. split.
  - intros (v & a & Hv & Hp). exists v, a. by rewrite bool_decide_eq_true in Hp.
  - intros (v & a & Hv & Hp). exists v, a. by rewrite bool_decide_eq_true.
Qed.

Lemma drop_block_inv k old st : arr_inv_but k old st -> arr_inv k (drop_block old st).
Proof.
  intros [Ho Hw Hf Hu]. unfold drop_block. destruct old as [p|]; [|by split].
  destruct (owned p (objects st)) eqn:E.
  - split; [done| |done|done]. intros q data Hq. right. destruct (Hw q data Hq) as [[= ->]|Hq']; [|done].
    by apply owned_spec.
  - assert (forall v a, objects st !! v = Some a -> impl a <> Some p) as Hn.
    { intros v a Hv Hp. assert (owned p (objects st) = true) by (apply owned_spec; eauto). congruence. }
    split; cbn; [| | |done].
    + intros v a Hv. specialize (Ho v a Hv). unfold object_ok in *. destruct (impl a) as [q|] eqn:Eq; [|done].
      destruct Ho as (data & Hd & Hl). exists data. rewrite lookup_delete_ne; [done|].
      intros ->. by apply (Hn v a Hv).
    + intros q data Hq. apply lookup_delete_Some in Hq as [Hne Hq]. destruct (Hw q data Hq) as [[= ->]|?]; [done|by right].
    + intros q data Hq. apply lookup_delete_Some in Hq as [_ Hq]. eauto.
Qed.

(** A new object that owns nothing, or a block nobody owns yet. *)
Lemma put_new_inv k st v a :
  arr_inv k st -> objects st !! v = None ->
  (impl a = None /\ arr_length a = 0%nat) -> arr_inv k (put v a st).
Proof.
  intros [Ho Hw Hf Hu] Hv [Hn Hl]. split; cbn; [| |done|].
  - intros w b. rewrite lookup_insert_Some. intros [[<- <-]|[_ Hb]]; [|by eapply Ho].
    unfold object_ok. by rewrite Hn.
  - intros p data Hp. right. destruct (Hw p data Hp) as [[=]|(w & b & Hb & Hbp)].
    exists w, b. rewrite lookup_insert_ne by congruence. done.
  - intros Hk w1 w2 a1 a2 p. rewrite !lookup_insert_Some.
    intros [[<- <-]|[? H1]] [[<- <-]|[? H2]] Hp1 Hp2; try congruence. by eapply Hu.
Qed.

Lemma put_allocated_inv k st v data :
  arr_inv k st -> objects st !! v = None ->
  arr_inv k (put v (mkArr (length data) (Some (fst (allocate data st)))) (snd (allocate data st))).
Proof.
  intros [Ho Hw Hf Hu] Hv.
  assert (blocks st !! next_block st = None) as Hfresh.
  { destruct (blocks st !! next_block st) as [d|] eqn:E; [|done]. apply Hf in E. lia. }
  split; cbn.
  - intros w b. rewrite lookup_insert_Some. intros [[<- <-]|[_ Hb]]; unfold object_ok; cbn.
    + exists data. by rewrite lookup_insert_eq.
    + specialize (Ho w b Hb). unfold object_ok in Ho. destruct (impl b) as [q|]; [|done].
      destruct Ho as (d & Hd & Hl). exists d. rewrite lookup_insert_ne by congruence. done.
  - intros p d. rewrite lookup_insert_Some. intros [[<- <-]|[_ Hp]]; right.
    + eexists v, _. by rewrite lookup_insert_eq.
    + destruct (Hw p d Hp) as [[=]|(w & b & Hb & Hbp)]. exists w, b. rewrite lookup_insert_ne by congruence. done.
  - intros p d. rewrite lookup_insert_Some. intros [[<- <-]|[_ Hp]]; [lia|]. apply Hf in Hp. lia.
  - assert (forall w b, objects st !! w = Some b -> impl b <> Some (next_block st)) as Hnone.
    { intros w b Hb Hbp. specialize (Ho w b Hb). unfold object_ok in Ho. rewrite Hbp in Ho.
      destruct Ho as (d & Hd & _). congruence. }
    intros Hk w1 w2 a1 a2 p. rewrite !lookup_insert_Some.
    intros [[<- <-]|[? H1]] [[<- <-]|[? H2]] Hp1 Hp2; cbn in *; try done.
    + injection Hp1 as <-. by destruct (Hnone _ _ H2).
    + injection Hp2 as <-. by destruct (Hnone _ _ H1).
    + by eapply Hu.
Qed.

(** Copying: the same block gets another owner, the old one loses one. *)
Lemma put_copy_inv st v w b old :
  arr_inv Shared st -> objects st !! w = Some b ->
  (objects st !! v = None /\ old = None \/ exists a, objects st !! v = Some a /\ old = impl a) ->
  arr_inv_but Shared old (put v b st).
Proof.
  intros [Ho Hw Hf Hu] Hb Hv. split; cbn; [| |done|done].
  - intros u c. rewrite lookup_insert_Some. intros [[<- <-]|[_ Hc]]; by eapply Ho.
  - intros p data Hp. destruct (Hw p data Hp) as [[=]|(u & c & Hc & Hcp)].
    destruct (decide (u = v)) as [->|Hne].
    + left. destruct Hv as [[Hn _]|(a & Ha & ->)]; congruence.
    + right. exists u, c. by rewrite lookup_insert_ne.
Qed.

(** Moving to another object: the source lets go of the block. *)
Lemma move_inv k st v w b old :
  arr_inv k st -> objects st !! w = Some b -> v <> w ->
  (objects st !! v = None /\ old = None \/ exists a, objects st !! v = Some a /\ old = impl a) ->
  arr_inv_but k old (put w (mkArr 0 None) (put v b st)).
Proof.
  intros [Ho Hw Hf Hu] Hb Hne Hv. split; cbn; [| |done|].
  - intros u c. rewrite !lookup_insert_Some. intros [[<- <-]|[_ [[<- <-]|[_ Hc]]]]; [done| |]; by eapply Ho.
  - intros p data Hp. destruct (Hw p data Hp) as [[=]|(u & c & Hc & Hcp)].
    destruct (decide (u = v)) as [->|Hnv].
    + left. destruct Hv as [[Hn _]|(a & Ha & ->)]; congruence.
    + right. destruct (decide (u = w)) as [->|Hnw].
      * exists v, b. rewrite lookup_insert_ne, lookup_insert_eq by done. split; [done|congruence].
      * exists u, c. rewrite !lookup_insert_ne by done. done.
  - intros Hk u1 u2 a1 a2 p. rewrite !lookup_insert_Some.
    intros [[<- <-]|[Hn1 H1]] [[<- <-]|[Hn2 H2]] Hp1 Hp2; try done.
    destruct H1 as [[<- <-]|[Hv1 H1]], H2 as [[<- <-]|[Hv2 H2]]; try done.
    + destruct Hn2. by eapply Hu.
    + destruct Hn1. by eapply (Hu Hk w u1).
    + by eapply Hu.
Qed.

(** *** What the operations compute *)

Lemma copy_elements_from view : forall pre rest, (length rest = length view)%nat ->
  snd (foldl (fun (r : nat * list Z) (entry : Z) => (S (fst r), <[fst r := entry]> (snd r))) (length pre, pre ++ rest) view) =
  pre ++ view.
Proof.
  induction view as [|x view IH]; intros pre rest Hl; destruct rest as [|y rest]; cbn in *; try lia.
  - done.
  - rewrite insert_app_r_alt, Nat.sub_diag by lia. cbn.
    replace (pre ++ x :: rest) with ((pre ++ [x]) ++ rest) by by rewrite <- app_assoc.
    replace (S (length pre)) with (length (pre ++ [x])) by (rewrite length_app; cbn; lia).
    rewrite IH by lia. by rewrite <- app_assoc.
Qed.

Lemma copy_elements_eq view junk : copy_elements view (length view) junk = view.
Proof.
  unfold copy_elements. apply (copy_elements_from view [] (map junk (seq 0 (length view)))).
  by rewrite length_map, length_seq.
Qed.

Lemma owned_ext p os1 os2 : (forall v, impl <$> os1 !! v = impl <$> os2 !! v) -> owned p os1 = owned p os2.
Proof.
  intros H. apply eq_true_iff_eq. rewrite !owned_spec.
  split; intros (v & a & Hv & Hp); specialize (H v); rewrite Hv in H; cbn in H.
  - destruct (os2 !! v) as [b|] eqn:E; [|done]. injection H as H. exists v, b. split; [done|congruence].
  - destruct (os1 !! v) as [b|] eqn:E; [|done]. injection H as H. exists v, b. split; [done|congruence].
Qed.

Lemma assign_move_self v st a : objects st !! v = Some a -> assign_move v v st = Some st.
Proof.
  intros Ha. unfold assign_move. rewrite Ha. cbn. rewrite !decide_True by done. cbn. rewrite Ha. cbn.
  f_equal. destruct st as [bs os n]. cbn in *. f_equal. apply map_eq. intros u.
  destruct (decide (u = v)) as [->|Hne].
  - rewrite !lookup_alter_eq, Ha. cbn. by destruct a.
  - by rewrite !lookup_alter_ne.
Qed.

Lemma assign_move_other v w st a b : v <> w -> objects st !! v = Some a -> objects st !! w = Some b ->
  assign_move v w st = Some (drop_block (impl a) (put w (mkArr 0 None) (put v b st))).
Proof.
  intros Hne Ha Hb. unfold assign_move. rewrite Ha, Hb. cbn. rewrite !decide_False by done.
  set (st1 := put v (mkArr (arr_length a) (impl b)) (put w (mkArr (arr_length b) None) st)).
  assert (objects (drop_block (impl a) st1) = objects st1) as Hobj.
  { unfold drop_block. destruct (impl a); [|done]. by destruct (owned n (objects st1)). }
  rewrite Hobj.
  assert (objects st1 !! w = Some (mkArr (arr_length b) None)) as Hw1.
  { cbn. by rewrite lookup_insert_ne, lookup_insert_eq. }
  rewrite Hw1. cbn [from_option arr_length].
  assert (alter (fun o => mkArr (arr_length b) (impl o)) v (alter (fun o => mkArr 0 (impl o)) w (objects st1)) =
    <[w := mkArr 0 None]> (<[v := b]> (objects st))) as Hfin.
  { apply map_eq. intros u. destruct (decide (u = w)) as [->|Hnw].
    - rewrite lookup_alter_ne, lookup_alter_eq, Hw1, lookup_insert_eq by done. done.
    - rewrite (lookup_insert_ne _ w u) by done. destruct (decide (u = v)) as [->|Hnv].
      + rewrite lookup_alter_eq, lookup_alter_ne by done. cbn. rewrite !lookup_insert_eq. cbn. by destruct b.
      + rewrite !lookup_alter_ne by done. cbn. rewrite !lookup_insert_ne by done. done. }
  cbn [blocks objects next_block]. f_equal. rewrite Hfin. unfold drop_block.
  destruct (impl a) as [p|]; [|done].
  assert (owned p (objects st1) = owned p (objects (put w (mkArr 0 None) (put v b st)))) as ->.
  { apply owned_ext. intros u. cbn. destruct (decide (u = w)) as [->|Hnw].
    - by rewrite lookup_insert_ne, !lookup_insert_eq.
    - destruct (decide (u = v)) as [->|Hnv]; [by rewrite lookup_insert_eq, lookup_insert_ne, lookup_insert_eq|].
      by rewrite !lookup_insert_ne. }
  by destruct (owned p _).
Qed.

Lemma set_at_inv k v i x st st' : arr_inv k st -> set_at v i x st = Some st' -> arr_inv k st'.
Proof.
  intros [Ho Hw Hf Hu]. unfold set_at. destruct (objects st !! v) as [a|]; [|done]. cbn.
  destruct (impl a) as [p|]; [|done]. cbn. destruct (blocks st !! p) as [data|] eqn:Ep; [|done]. cbn.
  case_decide; [|done]. intros [= <-]. split; cbn; [| | |done].
  - intros w b Hb. specialize (Ho w b Hb). unfold object_ok in *. destruct (impl b) as [q|]; [|done].
    destruct Ho as (d & Hd & Hl). destruct (decide (q = p)) as [->|Hne].
    + rewrite lookup_insert_eq. eexists. split; [done|]. rewrite length_insert. congruence.
    + exists d. by rewrite lookup_insert_ne.
  - intros q d Hq. right. destruct (decide (q = p)) as [->|Hne].
    + by destruct (Hw p data Ep) as [[=]|?].
    + rewrite lookup_insert_ne in Hq by done. by destruct (Hw q d Hq) as [[=]|?].
  - intros q d Hq. destruct (decide (q = p)) as [->|Hne]; [by eapply Hf|].
    rewrite lookup_insert_ne in Hq by done. by eapply Hf.
Qed.

Lemma destroy_inv k v st st' : arr_inv k st -> destroy v st = Some st' -> arr_inv k st'.
Proof.
  intros [Ho Hw Hf Hu]. unfold destroy. destruct (objects st !! v) as [a|] eqn:Ea; [|done]. cbn.
  intros [= <-]. apply drop_block_inv. split; cbn; [| |done|].
  - intros w b Hb. apply lookup_delete_Some in Hb as [_ Hb]. by eapply Ho.
  - intros p data Hp. destruct (Hw p data Hp) as [[=]|(w & b & Hb & Hbp)].
    destruct (decide (w = v)) as [->|Hne]; [left; congruence|]. right. exists w, b. by rewrite lookup_delete_ne.
  - intros Hk w1 w2 a1 a2 p H1 H2. apply lookup_delete_Some in H1 as [_ H1], H2 as [_ H2]. by eapply Hu.
Qed.

Lemma arr_step_inv k op st st' : arr_inv k st -> arr_step k op st = Some st' -> arr_inv k st'.
Proof.
  intros Hi. destruct op as [v|v n junk|v view junk|v w|v w|v w|v w|v i x|v]; cbn.
  - unfold construct_empty. case_decide; [|done]. intros [= <-]. by apply put_new_inv.
  - unfold construct_size. case_decide; [|done]. intros [= <-].
    pose proof (put_allocated_inv k st v (map junk (seq 0 n)) Hi H) as Hp.
    by rewrite length_map, length_seq in Hp.
  - unfold construct_span. case_decide; [|done]. rewrite copy_elements_eq. intros [= <-].
    exact (put_allocated_inv k st v view Hi H).
  - destruct k; [done|]. cbn. case_decide; [|done]. destruct (objects st !! w) as [b|] eqn:Eb; [|done].
    intros [= <-]. apply (put_copy_inv st v w b None); auto.
  - unfold construct_move. case_decide; [|done]. destruct (objects st !! w) as [b|] eqn:Eb; [|done].
    intros [= <-]. apply (move_inv k st v w b None); auto. congruence.
  - destruct k; [done|]. cbn. destruct (objects st !! v) as [a|] eqn:Ea; [|done].
    destruct (objects st !! w) as [b|] eqn:Eb; [|done]. intros [= <-].
    apply drop_block_inv, (put_copy_inv st v w b); [done|done|]. right. by exists a.
  - intros Hs. destruct (objects st !! v) as [a|] eqn:Ea; [|by unfold assign_move in Hs; rewrite Ea in Hs].
    destruct (decide (v = w)) as [<-|Hne]; [by rewrite (assign_move_self v st a Ea) in Hs; injection Hs as <-|].
    destruct (objects st !! w) as [b|] eqn:Eb; [|by unfold assign_move in Hs; rewrite Ea, Eb in Hs].
    rewrite (assign_move_other v w st a b Hne Ea Eb) in Hs. injection Hs as <-.
    apply drop_block_inv, (move_inv k st v w b); [done|done|done|]. right. by exists a.
  - by apply set_at_inv.
  - by apply destroy_inv.
Qed.

Lemma arr_run_inv k st : arr_run k st -> arr_inv k st.
Proof.
  induction 1 as [|st op st' _ IH Hs]; [|by eapply arr_step_inv].
  split; cbn; try (intros *; rewrite lookup_empty; done). intros _ v w a b p H. by rewrite lookup_empty in H.
Qed.

(** *** What the holder of an array can rely on *)

Lemma drop_block_objects old st : objects (drop_block old st) = objects st.
Proof. unfold drop_block. destruct old as [p|]; [|done]. by destruct (owned p (objects st)). Qed.

Lemma drop_block_keeps old st v a p :
  objects st !! v = Some a -> impl a = Some p -> blocks (drop_block old st) !! p = blocks st !! p.
Proof.
  intros Hv Hp. unfold drop_block. destruct old as [q|]; [|done]. destruct (owned q (objects st)) eqn:E; [done|].
  cbn. apply lookup_delete_ne. intros <-. assert (owned q (objects st) = true) by (apply owned_spec; eauto). congruence.
Qed.

Lemma get_at_in_range k st v a i :
  arr_inv k st -> objects st !! v = Some a -> is_Some (get_at v i st) <-> (i < arr_length a)%nat.
Proof.
  intros Hi Hv. pose proof (ai_obj k None st Hi v a Hv) as Ho. unfold object_ok in Ho.
  unfold get_at. rewrite Hv. cbn. destruct (impl a) as [p|]; cbn.
  - destruct Ho as (data & Hd & Hl). rewrite Hd. cbn. rewrite lookup_lt_is_Some. lia.
  - rewrite Ho. split; [by intros [? [=]]|lia].
Qed.

Lemma moved_contents old st v w b i : v <> w -> objects st !! w = Some b ->
  get_at v i (drop_block old (put w (mkArr 0 None) (put v b st))) = get_at w i st.
Proof.
  intros Hne Hb. unfold get_at. rewrite drop_block_objects, Hb.
  assert (objects (put w (mkArr 0 None) (put v b st)) !! v = Some b) as Hv.
  { cbn. by rewrite lookup_insert_ne, lookup_insert_eq. }
  rewrite Hv. cbn -[drop_block]. destruct (impl b) as [p|] eqn:Ep; [|done]. cbn -[drop_block].
  by rewrite (drop_block_keeps old _ v b p Hv Ep).
Qed.

(** C38: In every program over owning arrays, each object holds either no storage and
    length 0, or storage of exactly its length; an access succeeds exactly below
    [size()]; storage without an owner has been released and, with [unique_ptr], no two
    objects own the same storage. Assigning from another object by move hands over its
    elements and leaves it empty, and a move to itself changes nothing. *)
Theorem smart_array_invariant k st : arr_run k st ->
  (forall v, match as_span v st with
             | None => objects st !! v = None
             | Some (None, n) => n = 0%nat
             | Some (Some p, n) => exists data, blocks st !! p = Some data /\ length data = n
             end) /\
  (forall v i n, size_of v st = Some n -> is_Some (get_at v i st) <-> (i < n)%nat) /\
  (forall p data, blocks st !! p = Some data -> exists v, as_span v st = Some (Some p, length data)) /\
  (k = Unique -> forall v w p n m,
    as_span v st = Some (Some p, n) -> as_span w st = Some (Some p, m) -> v = w) /\
  (forall v w st', v <> w -> assign_move v w st = Some st' ->
    as_span w st' = Some (None, 0%nat) /\ as_span v st' = as_span w st /\
    forall i, get_at v i st' = get_at w i st) /\
  (forall v st', assign_move v v st = Some st' -> st' = st).
Proof.
  intros Hrun. pose proof (arr_run_inv k st Hrun) as Hi. pose proof Hi as [Ho Hw Hf Hu]. split_and!.
  - intros v. unfold as_span. destruct (objects st !! v) as [a|] eqn:Ea; [|done]. cbn.
    specialize (Ho v a Ea). unfold object_ok in Ho. by destruct (impl a).
  - intros v i n. unfold size_of. destruct (objects st !! v) as [a|] eqn:Ea; [|done]. intros [= <-].
    by eapply get_at_in_range.
  - intros p data Hp. destruct (Hw p data Hp) as [[=]|(v & a & Ha & Hap)]. exists v. unfold as_span. rewrite Ha. cbn.
    specialize (Ho v a Ha). unfold object_ok in Ho. rewrite Hap in Ho |- *. destruct Ho as (d & Hd & Hl). congruence.
  - intros Hk v w p n m. unfold as_span. destruct (objects st !! v) as [a|] eqn:Ea; [|done].
    destruct (objects st !! w) as [b|] eqn:Eb; [|done]. intros [= Hpa _] [= Hpb _]. by eapply Hu.
  - intros v w st' Hne Hm. pose proof Hm as Hm'. unfold assign_move in Hm'.
    destruct (objects st !! v) as [a|] eqn:Ea; [|done]. destruct (objects st !! w) as [b|] eqn:Eb; [|done].
    rewrite (assign_move_other v w st a b Hne Ea Eb) in Hm. injection Hm as <-. split_and!.
    + unfold as_span. rewrite drop_block_objects. cbn. by rewrite lookup_insert_eq.
    + unfold as_span. rewrite drop_block_objects, Eb. cbn. by rewrite lookup_insert_ne, lookup_insert_eq.
    + intros i. by apply moved_contents.
  - intros v st' Hm. pose proof Hm as Hm'. unfold assign_move in Hm'.
    destruct (objects st !! v) as [a|] eqn:Ea; [|done]. rewrite (assign_move_self v st a Ea) in Hm. congruence.
Qed.

(** Two arrays, one made from a list of three elements and moved into the other. *)
Definition arr_example : list arr_op :=
  [NewSpan 1 [5; 6; 7] (fun _ => 0); NewSize 2 4 (fun _ => 9); AssignMove 2 1].

Definition arr_final : ArrState := from_option id arr_initial (arr_exec Unique arr_example arr_initial).

Lemma smart_array_invariant_witness :
  (forall p data, blocks arr_final !! p = Some data -> exists v, as_span v arr_final = Some (Some p, length data)) /\
  get_at 2 2 arr_final = Some 7 /\ get_at 2 3 arr_final = None /\ as_span 1 arr_final = Some (None, 0%nat).
Proof.
  split; [|split_and!; vm_compute; reflexivity].
  apply (smart_array_invariant Unique arr_final).
  apply (arr_exec_run Unique arr_example arr_initial); [apply arr_start|vm_compute; reflexivity].
Defined.

(** Copying from a span gives its elements. *)
Lemma construct_span_contents k v view junk st st' : arr_inv k st -> construct_span v view junk st = Some st' ->
  size_of v st' = Some (length view) /\ forall i, get_at v i st' = view !! i.
Proof.
  intros Hi. unfold construct_span. case_decide; [|done]. rewrite copy_elements_eq. intros [= <-].
  unfold size_of, get_at. cbn. rewrite !lookup_insert_eq. split; [done|]. intros i. cbn. by rewrite lookup_insert_eq.
Qed.

Definition total_bytes (s : tspan) : Z := ts_elt s * ts_count s.

(** Through a constant reference and for plain containers the bytes are those of the
    elements; a smart pointer to non-constant elements gives the elements themselves, as
    many bytes in other units. *)
Lemma to_byte_span_covers data elt count chars ptr : 0 <= count * elt < 2 ^ 64 ->
  (chars = true -> elt = 1) ->
  let target := Container data elt count chars in
  ts_elt (to_byte_span target) = 1 /\ total_bytes (to_byte_span target) = elt * count /\
  to_byte_span_const (SmartPtr ptr target) = to_byte_span target /\
  to_byte_span (SmartPtr ptr target) = mkSpan data elt count.
Proof.
  intros Hb Hc target. unfold target, total_bytes. cbn. unfold container_bytes.
  split_and!; [by destruct chars| |by destruct ptr|done].
  destruct chars; cbn; [rewrite Hc by done; lia|]. unfold u64. rewrite Z.mod_small by exact Hb. lia.
Qed.
