(* ===== verification/SharedMemory.v ===== *)
(** * Shared memory between host and guest

    The host side of the application framework hands out blocks of one region of
    memory it shares with the guest (app-framework/include/host/enclave_platform.h)
    and tells the guest about two ring buffers in it (host/ringbuffer_guest.h); the
    guest reads that description, which it must not trust, and validates it
    (guest/ringbuffer_guest.h). The region is a function from offsets to bytes that
    both sides see; a host pointer into it is its offset, a guest pointer is an
    address. The ring buffer itself is CCF's, a submodule: the size, alignment and
    initial bytes of its [Offsets] are parameters. *)

From S2P Require Import Prelude External Address Heap.
From stdpp Require Import strings.
Open Scope Z_scope.

(** Result of host code: a value or a [std::runtime_error]. *)
Inductive hres (A : Type) : Type :=
| HOk (a : A)
| HThrow (what : string).
Arguments HOk {A} a.
Arguments HThrow {A} what.

Definition hbind {A B} (m : hres A) (k : A -> hres B) : hres B :=
  match m with HOk a => k a | HThrow w => HThrow w end.

Notation "'try*' x ':=' m 'in' k" := (hbind m (fun x => k))
  (at level 10, x pattern, m at level 100, k at level 200) : monza_scope.

(** Result of guest code that validates its input: a value or [exit(code)]. *)
Inductive gres (A : Type) : Type :=
| GOk (a : A)
| GExit (code : Z).
Arguments GOk {A} a.
Arguments GExit {A} code.

Definition gbind {A B} (m : gres A) (k : A -> gres B) : gres B :=
  match m with GOk a => k a | GExit c => GExit c end.

Notation "'check*' x ':=' m 'in' k" := (gbind m (fun x => k))
  (at level 10, x pattern, m at level 100, k at level 200) : monza_scope.

(** ** The host's allocator *)

Definition SHMEM_SIZE : Z := 64 * 1024 * 1024.
Definition SHMEM_START : Z := 2 ^ 40 - SHMEM_SIZE.

(** The members of [QemuEnclavePlatform] and [HcsEnclavePlatform] the allocator
    uses; QEMU's guest base is the constant [SHMEM_START]. *)
Record Shmem : Type := mkShmem {
  shmem_guest_base : Z;
  shmem_offset : Z;
  shmem_bytes : Z -> Z;
}.

Definition memset (m : Z -> Z) (o v n : Z) : Z -> Z :=
  fun a => if (o <=? a) && (a <? o + n) then v else m a.

Definition store_bytes (m : Z -> Z) (o : Z) (bs : list Z) : Z -> Z :=
  fun a => if (o <=? a) && (a <? o + Z.of_nat (length bs))
           then nth (Z.to_nat (a - o)) bs 0 else m a.

(** The end of both constructors: room for the initializer of [init_size] bytes. The
    text of the exception differs between the two. *)
Definition reserve_initializer (what : string) (base init_size : Z) (m : Z -> Z) : hres Shmem :=
  if SHMEM_SIZE >? init_size then HOk (mkShmem base (u64 (0 + init_size)) m)
  else HThrow what.

(** Returns the host pointer, the enclave address and the new state. *)
Definition allocate_shared_inner (size alignment : Z) (s : Shmem) : hres (Z * Z * Shmem) :=
  let aligned_shmem_offset := u64 (u64 (shmem_offset s + alignment - 1) / alignment * alignment) in
  if (aligned_shmem_offset >=? shmem_offset s) &&
     (u64 (aligned_shmem_offset + size) >? aligned_shmem_offset) &&
     (u64 (aligned_shmem_offset + size) <? SHMEM_SIZE)
  then HOk (aligned_shmem_offset, u64 (shmem_guest_base s + aligned_shmem_offset),
            mkShmem (shmem_guest_base s) (u64 (aligned_shmem_offset + size))
              (memset (shmem_bytes s) aligned_shmem_offset 0 size))
  else HThrow "Not enough enclave shared memory for allocation."%string.

Definition set_bytes (s : Shmem) (m : Z -> Z) : Shmem :=
  mkShmem (shmem_guest_base s) (shmem_offset s) m.

(** A type [T]: its size, its alignment and the bytes its constructor leaves. *)
Record ctype : Type := mkType { sizeof : Z; alignof : Z; constructed : list Z }.

Definition uint8 : ctype := mkType 1 1 [0].

Record SharedMemoryObject : Type := mkObject { host_object : Z; object_enclave_start : Z }.

(** [array_count] is the length of the host span. *)
Record SharedMemoryArray : Type :=
  mkArray { host_data : Z; array_count : Z; array_enclave_start : Z }.

Definition allocate_shared (T : ctype) (s : Shmem) : hres (SharedMemoryObject * Shmem) :=
  try* (p, e, s1) := allocate_shared_inner (sizeof T) (alignof T) s in
  HOk (mkObject p e, set_bytes s1 (store_bytes (shmem_bytes s1) p (constructed T))).

Definition allocate_shared_array (T : ctype) (count : Z) (s : Shmem)
  : hres (SharedMemoryArray * Shmem) :=
  try* (p, e, s1) := allocate_shared_inner (u64 (count * sizeof T)) (alignof T) s in
  HOk (mkArray p count e,
       set_bytes s1
         (foldl (fun m i => store_bytes m (p + Z.of_nat i * sizeof T) (constructed T))
            (shmem_bytes s1) (seq 0 (Z.to_nat count)))).

(** ** The initializer *)

Record RingbufferInitializer : Type := mkInitializer {
  to_guest_buffer_start : Z;
  to_guest_buffer_size : Z;
  to_guest_buffer_offsets : Z;
  from_guest_buffer_start : Z;
  from_guest_buffer_size : Z;
  from_guest_buffer_offsets : Z;
}.

Definition SIZEOF_INITIALIZER : Z := 48.

Definition initializer_words (i : RingbufferInitializer) : list Z :=
  [to_guest_buffer_start i; to_guest_buffer_size i; to_guest_buffer_offsets i;
   from_guest_buffer_start i; from_guest_buffer_size i; from_guest_buffer_offsets i].

Definition initializer_bytes (i : RingbufferInitializer) : list Z :=
  concat (map (le_bytes 8) (initializer_words i)).

(** [initialize] of both platforms stores the initializer at the region's start. *)
Definition initialize (i : RingbufferInitializer) (s : Shmem) : Shmem :=
  set_bytes s (store_bytes (shmem_bytes s) 0 (initializer_bytes i)).

(** [BufferDef] of CCF as both sides build it: data, size, offsets. *)
Record BufferDef : Type := mkDef { def_data : Z; def_size : Z; def_offsets : Z }.

(** What [RingbufferGuest] sets up before the circuit takes over. *)
Record RingbufferGuest : Type := mkGuest {
  initializer : RingbufferInitializer;
  to_guest_def : BufferDef;
  from_guest_def : BufferDef;
}.

(** The constructor of [RingbufferGuest], from the platform on. *)
Definition ringbuffer_guest (Offsets : ctype) (BUFFER_SIZE : Z) (s : Shmem)
  : hres (RingbufferGuest * Shmem) :=
  try* (to_ring, s1) := allocate_shared_array uint8 BUFFER_SIZE s in
  try* (to_offsets, s2) := allocate_shared Offsets s1 in
  try* (from_ring, s3) := allocate_shared_array uint8 BUFFER_SIZE s2 in
  try* (from_offsets, s4) := allocate_shared Offsets s3 in
  let init := mkInitializer (array_enclave_start to_ring) BUFFER_SIZE
                (object_enclave_start to_offsets) (array_enclave_start from_ring) BUFFER_SIZE
                (object_enclave_start from_offsets) in
  HOk (mkGuest init
         (mkDef (host_data to_ring) BUFFER_SIZE (host_object to_offsets))
         (mkDef (host_data from_ring) BUFFER_SIZE (host_object from_offsets)),
       initialize init s4).

(** ** The guest's validation *)

Definition IO_SHARED_MEMORY_SIZE : Z := 64 * 1024 * 1024.

(** The span the guest is given at boot; only its address is set there. *)
Definition io_shared_range (data : Z) : span := Span data IO_SHARED_MEMORY_SIZE.

(** Returns the address and the number of elements of the span. *)
Definition validate_array (sizeof_T : Z) (shared_memory_range : span)
  (base_address array_count : Z) : gres (Z * Z) :=
  let valid_address_range := range_of_span shared_memory_range in
  if negb (check_valid_subrange valid_address_range
             (range_of_bounds base_address (u64 (base_address + u64 (sizeof_T * array_count)))))
  then GExit (-1)
  else GOk (u64 (span_data shared_memory_range + u64 (base_address - start valid_address_range)),
            array_count).

Definition validate_object (sizeof_T : Z) (shared_memory_range : span) (base_address : Z)
  : gres Z :=
  let valid_address_range := range_of_span shared_memory_range in
  if negb (check_valid_subrange valid_address_range
             (range_of_bounds base_address (u64 (base_address + sizeof_T))))
  then GExit (-1)
  else GOk (u64 (span_data shared_memory_range + u64 (base_address - start valid_address_range))).

(** The one volatile copy of the structure; [mem] is the memory as the guest sees it. *)
Definition read_initializer (mem : Z -> Z) (p : Z) : RingbufferInitializer :=
  mkInitializer (read_le mem p 8) (read_le mem (p + 8) 8) (read_le mem (p + 16) 8)
    (read_le mem (p + 24) 8) (read_le mem (p + 32) 8) (read_le mem (p + 40) 8).

(** [main] up to the call of [app_main]: the two buffer definitions of the circuit. *)
Definition guest_main (sizeof_Offsets : Z) (mem : Z -> Z) (shared_memory_range : span)
  : gres (BufferDef * BufferDef) :=
  let i := read_initializer mem (span_data shared_memory_range) in
  check* to_guest := validate_array 1 shared_memory_range
    (to_guest_buffer_start i) (to_guest_buffer_size i) in
  check* to_offsets := validate_object sizeof_Offsets shared_memory_range
    (to_guest_buffer_offsets i) in
  check* from_guest := validate_array 1 shared_memory_range
    (from_guest_buffer_start i) (from_guest_buffer_size i) in
  check* from_offsets := validate_object sizeof_Offsets shared_memory_range
    (from_guest_buffer_offsets i) in
  GOk (mkDef (fst to_guest) (snd to_guest) to_offsets,
       mkDef (fst from_guest) (snd from_guest) from_offsets).

(** The guest sees the byte at offset [o] of the region at address [base + o]. *)
Definition guest_view (base : Z) (bytes : Z -> Z) : Z -> Z := fun a => bytes (a - base).

(** ** The allocator's blocks *)

Definition shmem_wf (s : Shmem) : Prop :=
  0 <= shmem_guest_base s /\ shmem_guest_base s + SHMEM_SIZE < 2 ^ 64 /\
  0 <= shmem_offset s < SHMEM_SIZE.

(** The offset rounded up to the alignment. *)
Definition rounded (o al : Z) : Z := (o + al - 1) / al * al.

Lemma rounded_spec o al : 0 < al -> (al | rounded o al) /\ o <= rounded o al < o + al.
Proof.
  intros Hal. unfold rounded. split; [by exists ((o + al - 1) / al)|].
  pose proof (Z.mod_pos_bound (o + al - 1) al Hal).
  pose proof (Z.div_mod (o + al - 1) al ltac:(lia)). lia.
Qed.

(** A request that a type of the source can make. *)
Definition request_ok (size al : Z) : Prop := is_u64 size /\ 0 < al <= 2 ^ 32.

Lemma allocate_shared_inner_eq size al s :
  shmem_wf s -> request_ok size al ->
  allocate_shared_inner size al s =
    if decide (0 < size /\ rounded (shmem_offset s) al + size < SHMEM_SIZE) then
      HOk (rounded (shmem_offset s) al, shmem_guest_base s + rounded (shmem_offset s) al,
           mkShmem (shmem_guest_base s) (rounded (shmem_offset s) al + size)
             (memset (shmem_bytes s) (rounded (shmem_offset s) al) 0 size))
    else HThrow "Not enough enclave shared memory for allocation."%string.
Proof.
  intros (Hb & Ht & Ho) (Hs & Ha). unfold allocate_shared_inner. cbn zeta.
  destruct (rounded_spec (shmem_offset s) al) as [_ Hr]; [lia|].
  assert (is_u64 (rounded (shmem_offset s) al)) as Hu.
  { unfold is_u64, SHMEM_SIZE in *. lia. }
  rewrite (u64_small (_ + al - 1)) by (unfold is_u64, SHMEM_SIZE in *; lia).
  change (_ / al * al) with (rounded (shmem_offset s) al). rewrite (u64_small _ Hu).
  unfold is_u64 in *. case_decide as Hd.
  - rewrite !u64_small by (unfold is_u64, SHMEM_SIZE in *; lia).
    rewrite (proj2 (Z.geb_le _ _)), (proj2 (Z.gtb_lt _ _)), (proj2 (Z.ltb_lt _ _)) by lia. done.
  - case_if_prop; [|done]. exfalso. apply Hd.
    destruct (Z.lt_ge_cases (rounded (shmem_offset s) al + size) (2 ^ 64)) as [|Hw].
    + rewrite u64_small in * by (unfold is_u64; lia). lia.
    + assert (u64 (rounded (shmem_offset s) al + size)
              = rounded (shmem_offset s) al + size - 2 ^ 64) as E; [|lia].
      unfold u64. symmetry. apply Z.mod_unique with 1; lia.
Qed.

(** The requests of a program, in order; a block is its offset, size and address. *)
Record block : Type := mkBlock { b_offset : Z; b_size : Z; b_align : Z; b_enclave : Z }.

Fixpoint allocate_all (reqs : list (Z * Z)) (s : Shmem) : hres (list block * Shmem) :=
  match reqs with
  | [] => HOk ([], s)
  | (size, al) :: reqs' =>
      try* (p, e, s1) := allocate_shared_inner size al s in
      try* (bs, s2) := allocate_all reqs' s1 in
      HOk (mkBlock p size al e :: bs, s2)
  end.

Definition in_block (b : block) (o : Z) : Prop := b_offset b <= o < b_offset b + b_size b.

Definition block_ok (base lo hi : Z) (b : block) : Prop :=
  (b_align b | b_offset b) /\ 0 < b_size b /\ lo <= b_offset b /\
  b_offset b + b_size b <= hi /\ b_enclave b = base + b_offset b.

Lemma block_ok_mono base lo lo' hi b : lo' <= lo -> block_ok base lo hi b -> block_ok base lo' hi b.
Proof. unfold block_ok. intros Hl (? & ? & ? & ? & ?). repeat split; try done; lia. Qed.

Lemma memset_out m o v n a : ~ (o <= a < o + n) -> memset m o v n a = m a.
Proof. unfold memset. intros. case_if_prop; [lia|done]. Qed.

Lemma memset_in m o v n a : o <= a < o + n -> memset m o v n a = v.
Proof. unfold memset. intros. case_if_prop; [done|]. destruct E; bool_to_prop; lia. Qed.

Lemma allocate_all_sound reqs : forall s bs s',
  shmem_wf s -> Forall (fun r => request_ok (fst r) (snd r)) reqs ->
  allocate_all reqs s = HOk (bs, s') ->
  shmem_wf s' /\ shmem_offset s <= shmem_offset s' /\ shmem_guest_base s' = shmem_guest_base s /\
  Forall2 (fun r b => b_size b = fst r /\ b_align b = snd r) reqs bs /\
  Forall (block_ok (shmem_guest_base s) (shmem_offset s) (shmem_offset s')) bs /\
  ForallOrdPairs (fun b1 b2 => b_offset b1 + b_size b1 <= b_offset b2) bs /\
  (forall o, (exists b, In b bs /\ in_block b o) -> shmem_bytes s' o = 0) /\
  (forall o, ~ (exists b, In b bs /\ in_block b o) -> shmem_bytes s' o = shmem_bytes s o).
Proof.
  induction reqs as [|[size al] reqs IH]; intros s bs s' Hw Hf Ha; cbn [allocate_all] in Ha.
  { injection Ha as <- <-. split_and!; try done; try lia; try constructor.
    intros o (b & [] & _). }
  apply Forall_cons in Hf as [Hr Hf]. cbn in Hr.
  rewrite (allocate_shared_inner_eq size al s Hw Hr) in Ha. case_decide as Hd; [|done]. cbn in Ha.
  destruct (rounded_spec (shmem_offset s) al) as [Hdv Hro]; [unfold request_ok in Hr; lia|].
  remember (rounded (shmem_offset s) al) as p eqn:Ep.
  remember (mkShmem (shmem_guest_base s) (p + size) (memset (shmem_bytes s) p 0 size)) as s1 eqn:E1.
  destruct (allocate_all reqs s1) as [[bs1 s2]|] eqn:E2; [|done]. cbn in Ha. injection Ha as <- <-.
  assert (shmem_wf s1) as Hw1. { rewrite E1. unfold shmem_wf in *. cbn. lia. }
  destruct (IH s1 bs1 s2 Hw1 Hf E2) as (Hw2 & Hle & Hb & H2 & Hok & Hord & Hin & Hout).
  rewrite E1 in Hle, Hok, Hb; cbn in Hle, Hok, Hb.
  assert (forall b, In b bs1 -> p + size <= b_offset b) as Hge.
  { intros b Hbin. rewrite Forall_forall in Hok.
    destruct (Hok b (proj2 (list_elem_of_In _ _) Hbin)) as (_ & _ & ? & _). lia. }
  split_and!; try done; try lia.
  - by constructor.
  - constructor; [unfold block_ok; cbn; lia || (split_and!; done || lia)|].
    eapply Forall_impl; [exact Hok|]. intros b. apply block_ok_mono. lia.
  - constructor; [|done]. apply List.Forall_forall. intros b Hbin. cbn. by apply Hge.
  - intros o (b & [<-|Hbin] & Ho); [|by apply Hin; eauto]. cbn in Ho.
    rewrite Hout; [rewrite E1; by apply memset_in|].
    intros (b & Hbin & Hbo). specialize (Hge b Hbin). unfold in_block in Ho, Hbo. cbn in Ho. lia.
  - intros o Hno. rewrite Hout; [rewrite E1; cbn|].
    + apply memset_out. intros Ho. apply Hno. eexists. split; [by left|done].
    + intros (b & Hbin & Hbo). apply Hno. exists b. split; [by right|done].
Qed.

(** ** What the guest accepts *)

Definition shared_ok (r : span) : Prop :=
  0 <= span_data r /\ 0 < span_size r /\ span_data r + span_size r < 2 ^ 64.

(** The addresses [a, a + n) lie in the region, short of its last byte. *)
Definition inside (r : span) (a n : Z) : Prop :=
  span_data r <= a /\ 0 < n /\ a + n < span_data r + span_size r.

#[export] Instance inside_dec r a n : Decision (inside r a n).
Proof. unfold inside. apply _. Defined.

Lemma check_shared_exact r a n :
  shared_ok r -> is_u64 a -> is_u64 n ->
  check_valid_subrange (range_of_span r) (range_of_bounds a (u64 (a + n))) =
  bool_decide (inside r a n).
Proof.
  intros (Hd & Hz & Ht) Ha Hn. rewrite range_of_span_wf by lia. unfold is_u64 in *.
  apply eq_true_iff_eq. rewrite bool_decide_eq_true. unfold check_valid_subrange, inside.
  rewrite !andb_true_iff, Z.geb_le, Z.gtb_lt, !Z.ltb_lt. cbn [start end_].
  destruct (Z.lt_ge_cases (a + n) (2 ^ 64)) as [|Hw].
  - rewrite u64_small by (unfold is_u64; lia).
    rewrite range_of_bounds_le by lia. cbn. lia.
  - assert (u64 (a + n) = a + n - 2 ^ 64) as ->.
    { unfold u64. symmetry. apply Z.mod_unique with 1; lia. }
    rewrite range_of_bounds_gt by lia. cbn. lia.
Qed.

(** The pointer the guest computes is the address it validated. *)
Lemma validated_pointer r a : shared_ok r -> is_u64 a ->
  u64 (span_data r + u64 (a - start (range_of_span r))) = a.
Proof.
  intros (Hd & Hz & Ht) Ha. rewrite range_of_span_wf by lia. cbn [start].
  rewrite u64_add_r. replace (span_data r + (a - span_data r)) with a by lia. by apply u64_small.
Qed.

Lemma validate_array_eq sz r a n :
  shared_ok r -> is_u64 a ->
  validate_array sz r a n =
    if decide (inside r a (u64 (sz * n))) then GOk (a, n) else GExit (-1).
Proof.
  intros Hr Ha. unfold validate_array. cbn zeta.
  rewrite check_shared_exact, validated_pointer by auto with monza.
  by destruct (decide (inside r a (u64 (sz * n)))) as [Hd|Hd];
    [rewrite bool_decide_eq_true_2|rewrite bool_decide_eq_false_2].
Qed.

Lemma validate_object_eq sz r a :
  shared_ok r -> is_u64 a -> is_u64 sz ->
  validate_object sz r a = if decide (inside r a sz) then GOk a else GExit (-1).
Proof.
  intros Hr Ha Hs. unfold validate_object. cbn zeta.
  rewrite check_shared_exact, validated_pointer by done.
  by destruct (decide (inside r a sz)) as [Hd|Hd];
    [rewrite bool_decide_eq_true_2|rewrite bool_decide_eq_false_2].
Qed.

Definition initializer_ok (i : RingbufferInitializer) : Prop := Forall is_u64 (initializer_words i).

Lemma read_initializer_ok mem p : initializer_ok (read_initializer mem p).
Proof.
  unfold initializer_ok, initializer_words, read_initializer. cbn.
  repeat (constructor; [apply (read_le_range _ _ 8)|]). constructor.
Qed.

(** What an initializer must say for the guest to go on. *)
Definition acceptable (sizeof_Offsets : Z) (r : span) (i : RingbufferInitializer) : Prop :=
  inside r (to_guest_buffer_start i) (to_guest_buffer_size i) /\
  inside r (to_guest_buffer_offsets i) sizeof_Offsets /\
  inside r (from_guest_buffer_start i) (from_guest_buffer_size i) /\
  inside r (from_guest_buffer_offsets i) sizeof_Offsets.

#[export] Instance acceptable_dec sz r i : Decision (acceptable sz r i).
Proof. unfold acceptable. apply _. Defined.

Definition circuit_of (i : RingbufferInitializer) : BufferDef * BufferDef :=
  (mkDef (to_guest_buffer_start i) (to_guest_buffer_size i) (to_guest_buffer_offsets i),
   mkDef (from_guest_buffer_start i) (from_guest_buffer_size i) (from_guest_buffer_offsets i)).

Lemma guest_main_eq sz mem r :
  shared_ok r -> is_u64 sz ->
  guest_main sz mem r =
    let i := read_initializer mem (span_data r) in
    if decide (acceptable sz r i) then GOk (circuit_of i) else GExit (-1).
Proof.
  intros Hr Hs. unfold guest_main. cbn zeta.
  pose proof (read_initializer_ok mem (span_data r)) as Hi.
  remember (read_initializer mem (span_data r)) as i eqn:E.
  unfold initializer_ok, initializer_words in Hi. rewrite !Forall_cons in Hi.
  destruct Hi as (H1 & H2 & H3 & H4 & H5 & H6 & _).
  rewrite !validate_array_eq, !validate_object_eq by done.
  rewrite !Z.mul_1_l, !(u64_small (to_guest_buffer_size i)),
    !(u64_small (from_guest_buffer_size i)) by done.
  destruct (decide (acceptable sz r i)) as [(? & ? & ? & ?)|Hn].
  - by rewrite !decide_True by done.
  - repeat (case_decide; cbn [gbind]; [|done]). by destruct Hn.
Qed.

(** ** The initializer as bytes *)

Lemma read_le_bytes n : forall mem a v,
  0 <= v < 2 ^ (8 * Z.of_nat n) ->
  (forall i, (i < n)%nat -> mem (a + Z.of_nat i) = nth i (le_bytes n v) 0) ->
  read_le mem a n = v.
Proof.
  induction n as [|n IH]; intros mem a v Hv Hm; cbn [read_le]; [cbn in Hv; lia|].
  rewrite (IH mem (a + 1) (v / 2 ^ 8)).
  - pose proof (Hm 0%nat ltac:(lia)) as H0. cbn [nth le_bytes Z.of_nat] in H0.
    rewrite Z.add_0_r in H0. rewrite H0. unfold u8. rewrite Z.mod_mod by lia.
    change (2 ^ 8) with 256. pose proof (Z.div_mod v 256). lia.
  - replace (8 * Z.of_nat (S n)) with (8 + 8 * Z.of_nat n) in Hv by lia.
    rewrite Z.pow_add_r in Hv by lia. split; [apply Z.div_pos; lia|].
    apply Z.div_lt_upper_bound; lia.
  - intros i Hi. specialize (Hm (S i) ltac:(lia)). cbn [nth le_bytes] in Hm.
    rewrite <- Hm. f_equal. lia.
Qed.

Lemma nth_words (ws : list Z) : forall k i, (i < 8)%nat -> (k < length ws)%nat ->
  nth (8 * k + i) (concat (map (le_bytes 8) ws)) 0 = nth i (le_bytes 8 (nth k ws 0)) 0.
Proof.
  induction ws as [|w ws IH]; intros k i Hi Hk; [cbn in Hk; lia|]. cbn [map concat].
  destruct k as [|k].
  - rewrite app_nth1; [done|]. rewrite le_bytes_length. lia.
  - rewrite app_nth2; rewrite le_bytes_length; [|lia].
    replace (8 * S k + i - 8)%nat with (8 * k + i)%nat by lia. apply IH; [done|cbn in Hk; lia].
Qed.

Lemma initializer_bytes_length i : length (initializer_bytes i) = 48%nat.
Proof. done. Qed.

Lemma store_bytes_out m o bs a :
  ~ (o <= a < o + Z.of_nat (length bs)) -> store_bytes m o bs a = m a.
Proof. unfold store_bytes. intros. case_if_prop; [lia|done]. Qed.

Lemma store_bytes_in m o bs i :
  (i < length bs)%nat -> store_bytes m o bs (o + Z.of_nat i) = nth i bs 0.
Proof.
  unfold store_bytes. intros. case_if_prop; [|destruct E; bool_to_prop; lia]. f_equal. lia.
Qed.

Lemma read_initialized base m i :
  initializer_ok i ->
  read_initializer (guest_view base (store_bytes m 0 (initializer_bytes i))) base = i.
Proof.
  intros Hi. unfold initializer_ok in Hi. rewrite Forall_forall in Hi.
  assert (forall k, (k < 6)%nat ->
    read_le (guest_view base (store_bytes m 0 (initializer_bytes i))) (base + 8 * Z.of_nat k) 8
    = nth k (initializer_words i) 0) as Hw.
  { intros k Hk. apply read_le_bytes.
    - apply Hi, list_elem_of_In, nth_In. done.
    - intros j Hj. unfold guest_view.
      replace (base + 8 * Z.of_nat k + Z.of_nat j - base) with (0 + Z.of_nat (8 * k + j)) by lia.
      rewrite store_bytes_in by (rewrite initializer_bytes_length; lia).
      unfold initializer_bytes. apply nth_words; done. }
  pose proof (Hw 0%nat ltac:(lia)) as H0. pose proof (Hw 1%nat ltac:(lia)) as H1.
  pose proof (Hw 2%nat ltac:(lia)) as H2. pose proof (Hw 3%nat ltac:(lia)) as H3.
  pose proof (Hw 4%nat ltac:(lia)) as H4. pose proof (Hw 5%nat ltac:(lia)) as H5.
  remember (guest_view base _) as mem eqn:E. clear E Hw.
  cbn [nth initializer_words] in *. rewrite Z.mul_0_r, Z.add_0_r in H0.
  unfold read_initializer. rewrite H0. change (base + 8) with (base + 8 * Z.of_nat 1). rewrite H1.
  change (base + 16) with (base + 8 * Z.of_nat 2). rewrite H2.
  change (base + 24) with (base + 8 * Z.of_nat 3). rewrite H3.
  change (base + 32) with (base + 8 * Z.of_nat 4). rewrite H4.
  change (base + 40) with (base + 8 * Z.of_nat 5). rewrite H5. by destruct i.
Qed.

(** ** Host and guest together *)

(** A type whose objects have a size, and whose constructor fills them. *)
Definition type_ok (T : ctype) : Prop :=
  0 < sizeof T < 2 ^ 32 /\ 0 < alignof T <= 2 ^ 32 /\ Z.of_nat (length (constructed T)) = sizeof T.

(** An allocation took the block [p, p + n), which now holds [content]. *)
Record placed (s s' : Shmem) (al p n : Z) (content : Z -> Z) : Prop := {
  pl_wf : shmem_wf s';
  pl_base : shmem_guest_base s' = shmem_guest_base s;
  pl_after : shmem_offset s <= p < shmem_offset s + al;
  pl_align : (al | p);
  pl_size : 0 < n;
  pl_offset : shmem_offset s' = p + n;
  pl_in : forall i, 0 <= i < n -> shmem_bytes s' (p + i) = content i;
  pl_out : forall o, ~ (p <= o < p + n) -> shmem_bytes s' o = shmem_bytes s o;
}.

Definition bytes_at (bs : list Z) (i : Z) : Z := nth (Z.to_nat i) bs 0.

Lemma allocate_shared_placed T s :
  shmem_wf s -> type_ok T -> shmem_offset s + alignof T + sizeof T <= SHMEM_SIZE ->
  exists p s', allocate_shared T s = HOk (mkObject p (shmem_guest_base s + p), s') /\
    placed s s' (alignof T) p (sizeof T) (bytes_at (constructed T)).
Proof.
  intros Hw (Hs & Ha & Hl) Hroom. unfold allocate_shared.
  rewrite allocate_shared_inner_eq by (done || (split; unfold is_u64; lia)).
  destruct (rounded_spec (shmem_offset s) (alignof T)) as [Hd Hr]; [lia|].
  rewrite decide_True by lia. cbn [hbind]. eexists _, _. split; [done|].
  split; cbn; try done; try lia.
  - unfold shmem_wf in *. cbn. lia.
  - intros i Hi. rewrite <- (Z2Nat.id i) at 1 by lia. rewrite store_bytes_in by lia. done.
  - intros o Ho. rewrite store_bytes_out by lia. by apply memset_out.
Qed.

(** Constructing [n] zero bytes one by one. *)
Lemma store_zero_bytes n : forall m p a,
  foldl (fun m i => store_bytes m (p + Z.of_nat i * 1) [0]) m (seq 0 n) a =
  if decide (p <= a < p + Z.of_nat n) then 0 else m a.
Proof.
  induction n as [|n IH]; intros m p a; [rewrite decide_False by lia; done|].
  rewrite seq_S, foldl_app. cbn [foldl]. unfold store_bytes at 1. cbn [length].
  rewrite IH. destruct (decide (p <= a < p + Z.of_nat n)) as [Hin|Hin].
  - rewrite decide_True by lia. case_if_prop; [|done].
    replace (Z.to_nat (a - _)) with 0%nat by lia. done.
  - case_if_prop.
    + rewrite decide_True by lia. replace (Z.to_nat (a - _)) with 0%nat by lia. done.
    + rewrite decide_False; [done|]. destruct E; bool_to_prop; lia.
Qed.

Lemma allocate_bytes_placed n s :
  shmem_wf s -> 0 < n -> shmem_offset s + n < SHMEM_SIZE ->
  exists p s', allocate_shared_array uint8 n s = HOk (mkArray p n (shmem_guest_base s + p), s') /\
    placed s s' 1 p n (fun _ => 0).
Proof.
  intros Hw Hn Hroom. unfold allocate_shared_array, uint8. cbn [sizeof alignof constructed].
  assert (is_u64 n) as Hu. { unfold is_u64, shmem_wf, SHMEM_SIZE in *. lia. }
  rewrite Z.mul_1_r, (u64_small n Hu).
  rewrite allocate_shared_inner_eq by (done || (split; [done|lia])).
  destruct (rounded_spec (shmem_offset s) 1) as [Hd Hr]; [lia|].
  rewrite decide_True by lia. cbn [hbind]. eexists _, _. split; [done|].
  split; cbn -[foldl]; try done; try lia.
  - unfold shmem_wf in *. cbn -[foldl]. lia.
  - intros i Hi. rewrite store_zero_bytes, decide_True by lia. done.
  - intros o Ho. rewrite store_zero_bytes, decide_False by lia. by apply memset_out.
Qed.

(** The guest's name for a buffer of the host. *)
Definition guest_def (base : Z) (d : BufferDef) : BufferDef :=
  mkDef (base + def_data d) (def_size d) (base + def_offsets d).

(** The byte ranges of the two buffers and their offsets, in order of address. *)
Definition guest_ranges (sz : Z) (g : RingbufferGuest) : list (Z * Z) :=
  [(def_data (to_guest_def g), def_size (to_guest_def g)); (def_offsets (to_guest_def g), sz);
   (def_data (from_guest_def g), def_size (from_guest_def g)); (def_offsets (from_guest_def g), sz)].

Definition ranges_apart (l : list (Z * Z)) : Prop :=
  ForallOrdPairs (fun a b => fst a + snd a <= fst b) l.

(** Bytes below the start of a block, or of an earlier one, are not touched. *)
Lemma placed_below s s' al p n c o : placed s s' al p n c -> o < shmem_offset s ->
  shmem_bytes s' o = shmem_bytes s o.
Proof. intros H Ho. apply (pl_out _ _ _ _ _ _ H). pose proof (pl_after _ _ _ _ _ _ H). lia. Qed.

Lemma allocate_shared_array_wraps :
  let T := mkType 8 8 (replicate 8 0) in
  exists s1, allocate_shared_inner (u64 ((2 ^ 61 + 1) * sizeof T)) (alignof T)
    (mkShmem 0 48 (fun _ => 0)) = HOk (48, 48, s1) /\ shmem_offset s1 = 56.
Proof. by eexists. Qed.

(** C29: The shared memory allocator of the host. A call succeeds exactly when the
    request is not empty and fits below the end of the region after rounding, and
    then advances the offset; over any sequence of successful calls, the blocks lie
    in order, apart from each other, aligned, behind the initializer and inside the
    region, their guest addresses are the base plus their offsets, they are zeroed,
    and no byte outside them, the initializer's included, changes. *)
Theorem allocate_shared_blocks what base init_size m s :
  0 <= base -> base + SHMEM_SIZE < 2 ^ 64 -> 0 <= init_size ->
  reserve_initializer what base init_size m = HOk s ->
  (forall size al, request_ok size al -> forall s1, shmem_wf s1 ->
    (exists p e s2, allocate_shared_inner size al s1 = HOk (p, e, s2)) <->
    0 < size /\ rounded (shmem_offset s1) al + size < SHMEM_SIZE) /\
  (forall reqs bs s', Forall (fun r => request_ok (fst r) (snd r)) reqs ->
    allocate_all reqs s = HOk (bs, s') ->
    Forall2 (fun r b => b_size b = fst r /\ b_align b = snd r) reqs bs /\
    Forall (block_ok base init_size (SHMEM_SIZE - 1)) bs /\
    ForallOrdPairs (fun b1 b2 => b_offset b1 + b_size b1 <= b_offset b2) bs /\
    (forall o, (exists b, In b bs /\ in_block b o) -> shmem_bytes s' o = 0) /\
    (forall o, ~ (exists b, In b bs /\ in_block b o) -> shmem_bytes s' o = m o)).
Proof.
  intros Hb Ht Hi Hres. unfold reserve_initializer in Hres. case_if_prop; [|done].
  injection Hres as <-. rewrite u64_small by (unfold is_u64, SHMEM_SIZE in *; lia). split.
  - intros size al Hr s1 Hw. rewrite (allocate_shared_inner_eq size al s1 Hw Hr).
    case_decide as Hd; split; try done; [by eauto|]. intros (? & ? & ? & [=]).
  - intros reqs bs s' Hf Ha. apply allocate_all_sound in Ha; [|unfold shmem_wf; cbn; lia|done].
    destruct Ha as (Hw' & _ & _ & H2 & Hok & Hord & Hin & Hout). split_and!; try done.
    eapply Forall_impl; [exact Hok|]. cbn. intros b (? & ? & ? & ? & ?).
    unfold shmem_wf in Hw'. unfold block_ok. split_and!; done || lia.
Qed.

Lemma allocate_shared_blocks_witness :
  exists bs s', allocate_all [(3, 1); (8, 8); (100, 64)] (mkShmem SHMEM_START 48 (fun _ => 7)) = HOk (bs, s') /\
  map b_offset bs = [48; 56; 64] /\ shmem_bytes s' 52 = 7 /\ shmem_bytes s' 48 = 0 /\
  ForallOrdPairs (fun b1 b2 => b_offset b1 + b_size b1 <= b_offset b2) bs.
Proof.
  eexists _, _. split; [vm_compute; reflexivity|]. split_and!; try (vm_compute; reflexivity).
  refine (proj1 (proj2 (proj2 (proj2 (allocate_shared_blocks EmptyString SHMEM_START 48 (fun _ => 7) _ _ _ _
    eq_refl) [(3, 1); (8, 8); (100, 64)] _ _ _ _)))).
  5: vm_compute; reflexivity.
  all: try (unfold SHMEM_START, SHMEM_SIZE; lia).
  repeat constructor; cbn; try lia; unfold is_u64; lia.
Defined.

Lemma inside_in_span r a n o : inside r a n -> a <= o < a + n -> in_span r o.
Proof. unfold inside, in_span. lia. Qed.

(** C5: the guest trusts nothing the host wrote. For every content of memory, the
    guest's start either exits with -1, exactly when one of the four address ranges
    of the initializer is empty or does not lie in the shared region less its last byte, or builds the
    circuit from exactly the addresses and sizes it read, and then every byte of the
    buffers and of their offsets lies in the shared region. The test is off by one: a range
    that lies in the region and ends exactly at its end is refused, too. An array of larger
    elements is not safe: the byte count wraps, and the guest accepts an array with
    elements outside the region. *)
Theorem guest_main_untrusted sizeof_Offsets data :
  0 < sizeof_Offsets < 2 ^ 32 -> 0 <= data -> data + IO_SHARED_MEMORY_SIZE < 2 ^ 64 ->
  let r := io_shared_range data in
  (forall mem, let i := read_initializer mem data in
    guest_main sizeof_Offsets mem r =
      if decide (acceptable sizeof_Offsets r i) then GOk (circuit_of i) else GExit (-1)) /\
  (forall mem t f, guest_main sizeof_Offsets mem r = GOk (t, f) ->
    forall d, d = t \/ d = f ->
      0 < def_size d /\ (forall o, def_data d <= o < def_data d + def_size d -> in_span r o) /\
      (forall o, def_offsets d <= o < def_offsets d + sizeof_Offsets -> in_span r o)) /\
  (forall n, 0 < n <= IO_SHARED_MEMORY_SIZE ->
    (forall o, data + IO_SHARED_MEMORY_SIZE - n <= o < data + IO_SHARED_MEMORY_SIZE -> in_span r o) /\
    validate_array 1 r (data + IO_SHARED_MEMORY_SIZE - n) n = GExit (-1)) /\
  (forall k, 1 <= k <= 20 -> exists count i, is_u64 count /\
    validate_array (2 ^ k) r data count = GOk (data, count) /\
    0 <= i < count /\ ~ in_span r (data + 2 ^ k * i)).
Proof.
  intros Hs Hd Ht r.
  assert (shared_ok r) as Hr by (unfold shared_ok, r, io_shared_range, IO_SHARED_MEMORY_SIZE in *; cbn; lia).
  assert (forall mem, guest_main sizeof_Offsets mem r = _) as Heq
    by (intros; apply guest_main_eq; [done|unfold is_u64; lia]).
  split_and!; [exact Heq| | |].
  - intros mem t f Hm d Hdf. rewrite Heq in Hm. cbn zeta in Hm. case_decide as Ha; [|done].
    injection Hm as <- <-. destruct Ha as (H1 & H2 & H3 & H4).
    destruct Hdf as [->| ->]; (split; [by destruct H1 as (_ & ? & _), H3 as (_ & ? & _)|]);
      cbn [def_data def_size def_offsets]; split; intros o Ho.
    + exact (inside_in_span _ _ _ _ H1 Ho).
    + exact (inside_in_span _ _ _ _ H2 Ho).
    + exact (inside_in_span _ _ _ _ H3 Ho).
    + exact (inside_in_span _ _ _ _ H4 Ho).
  - intros n Hn. unfold IO_SHARED_MEMORY_SIZE in *. split; [intros o Ho; unfold in_span, r, io_shared_range, IO_SHARED_MEMORY_SIZE; cbn; lia|].
    rewrite validate_array_eq by (done || unfold is_u64; lia). rewrite decide_False; [done|].
    rewrite u64_small by (unfold is_u64; lia). unfold inside, r, io_shared_range, IO_SHARED_MEMORY_SIZE. cbn. lia.
  - intros k Hk. assert (2 ^ 64 = 2 ^ k * 2 ^ (64 - k)) as E64.
    { rewrite <- Z.pow_add_r by lia. f_equal. lia. }
    assert (2 ^ 26 = 2 ^ k * 2 ^ (26 - k)) as E26.
    { rewrite <- Z.pow_add_r by lia. f_equal. lia. }
    assert (2 ^ 1 <= 2 ^ k <= 2 ^ 20) as Hkb by (split; apply Z.pow_le_mono_r; lia).
    assert (2 ^ (26 - k) < 2 ^ (64 - k)) by (apply Z.pow_lt_mono_r; lia).
    assert (0 < 2 ^ (26 - k)) by (apply Z.pow_pos_nonneg; lia).
    exists (2 ^ (64 - k) + 1), (2 ^ (26 - k)).
    assert (2 ^ (64 - k) <= 2 ^ 63) by (apply Z.pow_le_mono_r; lia).
    assert (is_u64 data) by (unfold is_u64, IO_SHARED_MEMORY_SIZE in *; lia).
    split_and!; try (unfold is_u64; lia).
    + rewrite validate_array_eq by done. rewrite decide_True; [done|].
      assert (u64 (2 ^ k * (2 ^ (64 - k) + 1)) = 2 ^ k) as ->.
      { unfold u64. symmetry. apply Z.mod_unique with 1; lia. }
      unfold inside, r, io_shared_range, IO_SHARED_MEMORY_SIZE. cbn [span_data span_size]. lia.
    + rewrite <- E26. unfold in_span, r, io_shared_range, IO_SHARED_MEMORY_SIZE.
      cbn [span_data span_size]. lia.
Qed.

(** A host that points both rings at the same bytes and their offsets into them is
    accepted; a host that points outside is refused. *)
Definition overlapping_initializer : RingbufferInitializer :=
  mkInitializer (2 ^ 30 + 48) 4096 (2 ^ 30 + 51) (2 ^ 30 + 48) 4096 (2 ^ 30 + 51).

Definition escaping_initializer : RingbufferInitializer :=
  mkInitializer (2 ^ 30 + 48) (2 ^ 64 - 16) (2 ^ 30 + 48) (2 ^ 30 + 48) 4096 (2 ^ 30 + 48).

Definition host_memory (i : RingbufferInitializer) : Z -> Z :=
  guest_view (2 ^ 30) (store_bytes (fun _ => 0) 0 (initializer_bytes i)).

Lemma guest_main_untrusted_witness :
  (exists t f, guest_main 24 (host_memory overlapping_initializer) (io_shared_range (2 ^ 30)) = GOk (t, f) /\
    in_span (io_shared_range (2 ^ 30)) (def_offsets t + 23)) /\
  guest_main 24 (host_memory escaping_initializer) (io_shared_range (2 ^ 30)) = GExit (-1).
Proof.
  destruct (guest_main_untrusted 24 (2 ^ 30) ltac:(lia) ltac:(lia)
    ltac:(unfold IO_SHARED_MEMORY_SIZE; lia)) as (Hex & Hin & _). split.
  - eexists _, _. split; [vm_compute; reflexivity|].
    eapply (Hin (host_memory overlapping_initializer)); [vm_compute; reflexivity|by left|cbn; lia].
  - vm_compute. reflexivity.
Defined.

(** What the host constructs, the guest accepts: given room, the rings and their offsets
    are placed and initialised, and the guest that looks at the region builds its
    circuit from the same bytes under their guest addresses. *)
Lemma ringbuffer_accepted what Offsets BUFFER_SIZE base m :
  type_ok Offsets -> 0 < BUFFER_SIZE -> 0 <= base -> base + SHMEM_SIZE < 2 ^ 64 ->
  SIZEOF_INITIALIZER + 2 * (BUFFER_SIZE + sizeof Offsets + alignof Offsets) < SHMEM_SIZE ->
  exists s g s', reserve_initializer what base SIZEOF_INITIALIZER m = HOk s /\
    ringbuffer_guest Offsets BUFFER_SIZE s = HOk (g, s') /\
    guest_main (sizeof Offsets) (guest_view base (shmem_bytes s')) (io_shared_range base) =
      GOk (guest_def base (to_guest_def g), guest_def base (from_guest_def g)) /\
    ranges_apart ((0, SIZEOF_INITIALIZER) :: guest_ranges (sizeof Offsets) g ++ [(SHMEM_SIZE, 0)]) /\
    (forall d i, d = to_guest_def g \/ d = from_guest_def g ->
      def_size d = BUFFER_SIZE /\
      (0 <= i < BUFFER_SIZE -> shmem_bytes s' (def_data d + i) = 0) /\
      (0 <= i < sizeof Offsets ->
       shmem_bytes s' (def_offsets d + i) = bytes_at (constructed Offsets) i)).
Proof.
  intros HT HB Hb Ht Hroom. pose proof HT as (Hsz & Hal & Hl).
  exists (mkShmem base 48 m). unfold SIZEOF_INITIALIZER in *.
  assert (shmem_wf (mkShmem base 48 m)) as Hw0 by (unfold shmem_wf, SHMEM_SIZE in *; cbn; lia).
  destruct (allocate_bytes_placed BUFFER_SIZE (mkShmem base 48 m)) as (p1 & s1 & E1 & P1); [done|done|cbn; lia|].
  destruct P1 as [W1 B1 A1 _ Z1 O1 I1 F1]; cbn in B1, A1.
  destruct (allocate_shared_placed Offsets s1) as (p2 & s2 & E2 & P2); [done|done|lia|].
  destruct P2 as [W2 B2 A2 _ Z2 O2 I2 F2].
  destruct (allocate_bytes_placed BUFFER_SIZE s2) as (p3 & s3 & E3 & P3); [done|done|lia|].
  destruct P3 as [W3 B3 A3 _ Z3 O3 I3 F3].
  destruct (allocate_shared_placed Offsets s3) as (p4 & s4 & E4 & P4); [done|done|lia|].
  destruct P4 as [W4 B4 A4 _ Z4 O4 I4 F4].
  rewrite B3, B2, B1 in E4. rewrite B2, B1 in E3. rewrite B1 in E2.
  unfold ringbuffer_guest. rewrite E1. cbn [hbind]. rewrite E2. cbn [hbind].
  rewrite E3. cbn [hbind]. rewrite E4. cbn [hbind].
  eexists _, _. split; [done|]. split; [done|].
  cbn [array_enclave_start object_enclave_start host_data host_object to_guest_def from_guest_def
    shmem_bytes initialize set_bytes shmem_guest_base].
  assert (forall o, 48 <= o -> forall bs, length bs = 48%nat ->
    store_bytes (shmem_bytes s4) 0 bs o = shmem_bytes s4 o) as Hkeep.
  { intros o Ho bs Hbs. apply store_bytes_out. lia. }
  split_and!.
  - rewrite guest_main_eq.
    2: unfold shared_ok, io_shared_range, IO_SHARED_MEMORY_SIZE, SHMEM_SIZE in *; cbn; lia.
    2: unfold is_u64; lia.
    cbn zeta. cbn [io_shared_range span_data]. rewrite read_initialized.
    + rewrite decide_True; [done|].
      unfold acceptable, inside, io_shared_range, IO_SHARED_MEMORY_SIZE, SHMEM_SIZE in *.
      cbn -[Z.add Z.mul]. lia.
    + unfold initializer_ok, initializer_words, is_u64, SHMEM_SIZE in *. cbn -[Z.add Z.mul Z.pow].
      repeat (constructor; [lia|]). constructor.
  - unfold ranges_apart, guest_ranges. cbn -[Z.add Z.mul SHMEM_SIZE].
    unfold shmem_wf in *.
    repeat (constructor; [repeat (constructor; [cbn -[SHMEM_SIZE]; lia|]); constructor|]). constructor.
  - intros d i Hdf. destruct Hdf as [->| ->]; cbn [def_size def_data def_offsets]; (split; [done|]);
      split; intros Hi; rewrite Hkeep by (done || lia).
    + rewrite F4, F3, F2 by lia. by apply I1.
    + rewrite F4, F3 by lia. by apply I2.
    + rewrite F4 by lia. by apply I3.
    + by apply I4.
Qed.
