(* ===== verification/QemuHost.v ===== *)
(** * The host platform for QEMU

    [QemuEnclavePlatform] of app-framework/include/host/enclave_platform.h: it starts
    a paused QEMU, maps the shared memory, lets the machine run, waits for it and
    cleans up. Host code runs in a monad that carries the trace of system calls and
    may return, throw, block forever or call [std::terminate]. What the operating
    system answers is a parameter. *)

From S2P Require Import Prelude SharedMemory.
From stdpp Require Import strings pretty.
Open Scope Z_scope.

(** ** Host computations *)

Inductive hevent : Type :=
| EvRemove (file : string)
| EvSpawn (args : list string)
| EvKill (pid : Z)
| EvClose (fd : Z)
| EvSystem (command : string)
| EvWait (pid : Z)
| EvUnmap.

#[export] Instance hevent_eq_dec : EqDecision hevent.
Proof. solve_decision. Defined.

(** How a computation ends, with everything it did. *)
Inductive hresult (A : Type) : Type :=
| Returns (a : A) (t : list hevent)
| Throws (what : string) (t : list hevent)
| Blocks (t : list hevent).
Arguments Returns {A} a t.
Arguments Throws {A} what t.
Arguments Blocks {A} t.

Definition host (A : Type) : Type := list hevent -> hresult A.

Definition hret {A} (a : A) : host A := fun t => Returns a t.
Definition hthrow {A} (what : string) : host A := fun t => Throws what t.
Definition hcall (e : hevent) : host unit := fun t => Returns tt (t ++ [e]).
Definition hblock {A} : host A := fun t => Blocks t.
Definition hseq {A B} (m : host A) (k : A -> host B) : host B :=
  fun t => match m t with
           | Returns a t' => k a t'
           | Throws w t' => Throws w t'
           | Blocks t' => Blocks t'
           end.

Notation "'do*' x ':=' m 'in' k" := (hseq m (fun x => k))
  (at level 10, x pattern, m at level 100, k at level 200) : monza_scope.

Definition hwhen (b : bool) (m : host unit) : host unit := if b then m else hret tt.

(** ** The platform *)

(** What the world answers: the random number that names the instance, whether the
    files exist, what [posix_spawn], [shm_open] and [mmap] give, and whether the
    guest shuts down once it was told to run. *)
Record qemu_env : Type := mkEnv {
  env_id : N;
  env_path_exists : bool;
  env_monitor_left_over : bool;
  env_pid : Z;
  env_monitor_appears : bool;
  env_shmem_fd : Z;
  env_mapped : bool;
  env_shmem_content : Z -> Z;
  env_guest_exits : bool;
}.

Record Qemu : Type := mkQemu {
  monitor_file : string;
  qemu_pid : Z;
  shmem_file_id : Z;
  joined : bool;
  shmem : Shmem;
}.

Section Qemu.
Context (env : qemu_env).

Definition shmem_file_of (id : N) : string := ("monza-qemu-shmem-" +:+ pretty id)%string.
Definition monitor_file_of (id : N) : string := ("/tmp/monza-qemu-socket-" +:+ pretty id)%string.

(** The command line of QEMU. *)
Definition qemu_args (path : string) (num_threads : N) : list string :=
  ["/usr/bin/qemu-system-x86_64"; "-enable-kvm"; "-cpu"; "host,+invtsc"; "-no-reboot"; "-nographic";
   "-smp"; "cores=" +:+ pretty num_threads; "-m"; "1G,slots=2,maxmem=1T";
   "-object"; "memory-backend-file,id=shmem,share=on,size=" +:+ pretty SHMEM_SIZE
              +:+ ",mem-path=/dev/shm/" +:+ shmem_file_of (env_id env);
   "-device"; "pc-dimm,memdev=shmem,addr=" +:+ pretty SHMEM_START;
   "-monitor"; "unix:" +:+ monitor_file_of (env_id env) +:+ ",server,nowait";
   "-S"; "-kernel"; path]%string.

Definition cleanup (pid fd : Z) (monitor : string) : host unit :=
  do* _ := hwhen (negb (pid =? 0)) (hcall (EvKill pid)) in
  do* _ := hwhen (negb (fd =? 0)) (hcall (EvClose fd)) in
  hcall (EvRemove monitor).

(** The constructor. Polling for the monitor file ends only when it appears. *)
Definition qemu_construct (path : string) (num_threads : N) (init_size : Z) : host Qemu :=
  let monitor := monitor_file_of (env_id env) in
  do* _ := hwhen (env_monitor_left_over env) (hcall (EvRemove monitor)) in
  do* _ := hcall (EvSpawn (qemu_args path num_threads)) in
  let pid := env_pid env in
  if negb (env_monitor_appears env) then hblock else
  let fd := env_shmem_fd env in
  if fd =? -1 then
    do* _ := cleanup pid fd monitor in
    hthrow "Failed to map enclave shared memory to host."%string
  else if negb (env_mapped env) then
    do* _ := cleanup pid fd monitor in
    hthrow "Failed to map enclave shared memory to host."%string
  else
    match reserve_initializer "No enough enclave shared memoy for initialization arguments."
            SHMEM_START init_size (env_shmem_content env) with
    | HOk s => hret (mkQemu monitor pid fd false s)
    | HThrow w => do* _ := cleanup pid fd monitor in hthrow w
    end.

Definition dquote : string := String (Ascii.ascii_of_nat 34) EmptyString.

(** [std::system] with the command that makes the monitor continue the machine. *)
Definition cont_command (monitor : string) : string :=
  ("echo " +:+ dquote +:+ "cont" +:+ dquote +:+ " | socat - unix-connect:" +:+ monitor)%string.

Definition qemu_async_run (q : Qemu) : host Qemu :=
  do* _ := hcall (EvSystem (cont_command (monitor_file q))) in hret q.

(** [waitpid] returns when the process has ended: QEMU starts paused ([-S]), so it
    ends only after it was told to continue and the guest shut down. *)
Definition waitpid (q : Qemu) : host unit :=
  fun t => if bool_decide (EvSystem (cont_command (monitor_file q)) ∈ t) && env_guest_exits env
           then Returns tt (t ++ [EvWait (qemu_pid q)]) else Blocks t.

Definition set_joined (q : Qemu) : Qemu :=
  mkQemu (monitor_file q) (qemu_pid q) (shmem_file_id q) true (shmem q).

Definition qemu_join (q : Qemu) : host Qemu :=
  do* _ := hwhen (negb (joined q)) (waitpid q) in hret (set_joined q).

Definition qemu_destroy (q : Qemu) : host unit :=
  do* q := (if negb (joined q) then qemu_join q else hret q) in
  do* _ := hcall EvUnmap in
  cleanup (qemu_pid q) (shmem_file_id q) (monitor_file q).

(** ** The factory and the ring buffer guest on QEMU *)

Inductive EnclaveType : Type := QEMU | HCS | HCS_ISOLATED.

(** [EnclavePlatform::create] in a build with or without the two platforms; [hcs]
    stands for the construction of the Windows platform. *)
Definition create {P} (supports_qemu supports_hcs : bool) (qemu : host P) (hcs : bool -> host P)
  (type : EnclaveType) (path : string) : host P :=
  if negb (env_path_exists env) then hthrow ("No enclave file found at " +:+ path)%string else
  match type with
  | QEMU => if supports_qemu then qemu
            else hthrow "QEMU Monza enclaves are not supported in current build"%string
  | HCS => if supports_hcs then hcs false
           else hthrow "HCS Monza enclaves are not supported in current build"%string
  | HCS_ISOLATED => if supports_hcs then hcs true
           else hthrow "HCS Isolated Monza enclaves are not supported in current build"%string
  end.

(** The constructor of [RingbufferGuest]: when an allocation throws, the platform,
    a member that is already constructed, is destroyed before the exception leaves. *)
Definition ringbuffer_guest_qemu (Offsets : ctype) (BUFFER_SIZE : Z) (path : string)
  (num_threads : N) : host (RingbufferGuest * Qemu) :=
  do* q := create true false (qemu_construct path num_threads SIZEOF_INITIALIZER)
             (fun _ => hblock) QEMU path in
  match ringbuffer_guest Offsets BUFFER_SIZE (shmem q) with
  | HOk (g, s) => hret (g, mkQemu (monitor_file q) (qemu_pid q) (shmem_file_id q) (joined q) s)
  | HThrow w => do* _ := qemu_destroy q in hthrow w
  end.

(** The calls a program makes between construction and destruction. *)
Inductive platform_op : Type := OpRun | OpJoin.

Fixpoint run_ops (ops : list platform_op) (q : Qemu) : host Qemu :=
  match ops with
  | [] => hret q
  | OpRun :: ops' => do* q' := qemu_async_run q in run_ops ops' q'
  | OpJoin :: ops' => do* q' := qemu_join q in run_ops ops' q'
  end.

Definition qemu_session (path : string) (num_threads : N) (init_size : Z) (ops : list platform_op)
  : host unit :=
  do* q := qemu_construct path num_threads init_size in
  do* q := run_ops ops q in
  qemu_destroy q.

End Qemu.

(** ** Facts *)

Section QemuFacts.
Context (env : qemu_env).

Definition is_wait (e : hevent) : bool := match e with EvWait _ => true | _ => false end.

Definition waits (t : list hevent) : nat := length (filter (fun e => is_wait e = true) t).

(** The calls of [cleanup]. *)
Definition cleanup_trace (pid fd : Z) (monitor : string) : list hevent :=
  (if pid =? 0 then [] else [EvKill pid]) ++ (if fd =? 0 then [] else [EvClose fd]) ++ [EvRemove monitor].

Lemma hwhen_call b e t : hwhen b (hcall e) t = Returns tt (t ++ if b then [e] else []).
Proof. destruct b; cbn; [done|]. unfold hret. by rewrite app_nil_r. Qed.

Lemma cleanup_eq pid fd monitor t :
  cleanup pid fd monitor t = Returns tt (t ++ cleanup_trace pid fd monitor).
Proof.
  unfold cleanup, cleanup_trace, hwhen, hseq, hcall, hret.
  destruct (pid =? 0), (fd =? 0); cbn; by rewrite <- ?app_assoc.
Qed.

(** The calls of the constructor before it can fail. *)
Definition construct_trace (path : string) (n : N) : list hevent :=
  (if env_monitor_left_over env then [EvRemove (monitor_file_of (env_id env))] else []) ++
  [EvSpawn (qemu_args env path n)].

(** The constructed platform, when nothing fails. *)
Definition constructed_qemu (init_size : Z) : Qemu :=
  mkQemu (monitor_file_of (env_id env)) (env_pid env) (env_shmem_fd env) false
    (mkShmem SHMEM_START init_size (env_shmem_content env)).

Definition construct_succeeds (init_size : Z) : bool :=
  env_monitor_appears env && negb (env_shmem_fd env =? -1) && env_mapped env &&
  (SHMEM_SIZE >? init_size).

Lemma qemu_construct_eq path n init_size : 0 <= init_size ->
  let t := construct_trace path n in
  let t_err := t ++ cleanup_trace (env_pid env) (env_shmem_fd env) (monitor_file_of (env_id env)) in
  qemu_construct env path n init_size [] =
    if negb (env_monitor_appears env) then Blocks t
    else if construct_succeeds init_size then Returns (constructed_qemu init_size) t
    else Throws (if (env_shmem_fd env =? -1) || negb (env_mapped env)
                 then "Failed to map enclave shared memory to host."%string
                 else "No enough enclave shared memoy for initialization arguments."%string) t_err.
Proof.
  intros Hi. unfold qemu_construct, construct_succeeds. cbn zeta.
  unfold hseq at 1. rewrite hwhen_call. unfold hseq at 1. cbn [hcall app].
  change (_ ++ [EvSpawn _]) with (construct_trace path n).
  destruct (env_monitor_appears env); cbn; [|done].
  destruct (env_shmem_fd env =? -1) eqn:Ef; cbn; [by unfold hseq; rewrite cleanup_eq|].
  destruct (env_mapped env); cbn; [|by unfold hseq; rewrite cleanup_eq].
  unfold reserve_initializer. destruct (SHMEM_SIZE >? init_size) eqn:Es; cbn; [|by unfold hseq; rewrite cleanup_eq].
  bool_to_prop. unfold constructed_qemu. rewrite u64_small; [done|]. unfold is_u64, SHMEM_SIZE in *. lia.
Qed.

(** [waitpid] calls still to come before the process is known to be gone. *)
Definition pending (q : Qemu) : nat := if joined q then 0 else 1.

Definition same_process (q q' : Qemu) : Prop :=
  monitor_file q' = monitor_file q /\ qemu_pid q' = qemu_pid q /\ shmem_file_id q' = shmem_file_id q.

Definition continued (q : Qemu) (t : list hevent) : Prop :=
  EvSystem (cont_command (monitor_file q)) ∈ t.

Lemma waits_app t1 t2 : waits (t1 ++ t2) = (waits t1 + waits t2)%nat.
Proof. unfold waits. by rewrite filter_app, length_app. Qed.

(** A machine that runs and shuts down is waited for once. *)
Lemma qemu_join_runs q t : continued q t -> env_guest_exits env = true ->
  exists t1, qemu_join env q t = Returns (set_joined q) (t ++ t1) /\ waits t1 = pending q.
Proof.
  intros Hc He. unfold qemu_join, pending, hwhen, hseq, hret, waitpid.
  destruct (joined q); cbn; [by exists []; rewrite app_nil_r|].
  rewrite bool_decide_eq_true_2, He by done. cbn. by eexists.
Qed.

Lemma run_ops_runs ops : forall q t, continued q t -> env_guest_exits env = true ->
  exists q' t1, run_ops env ops q t = Returns q' (t ++ t1) /\ same_process q q' /\
    (waits t1 + pending q' = pending q)%nat.
Proof.
  induction ops as [|[] ops IH]; intros q t Hc He; cbn [run_ops].
  - exists q, []. rewrite app_nil_r. done.
  - unfold hseq at 1, qemu_async_run. cbn.
    destruct (IH q (t ++ [EvSystem (cont_command (monitor_file q))])) as (q' & t1 & -> & Hs & Hw); [|done|].
    { unfold continued. set_solver. }
    eexists q', _. rewrite <- app_assoc. split; [done|]. split; [done|].
    rewrite waits_app. exact Hw.
  - unfold hseq at 1. destruct (qemu_join_runs q t Hc He) as (t1 & -> & Hw).
    destruct (IH (set_joined q) (t ++ t1)) as (q' & t2 & -> & Hs & Hw2); [|done|].
    { unfold continued in *. cbn. set_solver. }
    exists q', (t1 ++ t2). rewrite app_assoc. split; [done|]. split; [done|].
    rewrite waits_app. cbn in Hw2. lia.
Qed.

(** Without a machine that runs and shuts down, nothing gets past the first wait. *)
Lemma run_ops_stuck ops : forall q t, joined q = false ->
  env_guest_exits env = false ->
  (exists t', run_ops env ops q t = Blocks t') \/
  (exists q' t', run_ops env ops q t = Returns q' t' /\ joined q' = false).
Proof.
  induction ops as [|[] ops IH]; intros q t Hj He; cbn [run_ops].
  - right. by exists q, t.
  - unfold hseq at 1, qemu_async_run. cbn. by apply IH.
  - left. unfold hseq at 1, qemu_join, hwhen, hseq, waitpid. rewrite Hj, He. cbn.
    rewrite andb_false_r. by eexists.
Qed.

Lemma qemu_destroy_stuck q t : joined q = false ->
  env_guest_exits env = false \/ ~ continued q t -> exists t', qemu_destroy env q t = Blocks t'.
Proof.
  intros Hj Hs. unfold qemu_destroy, qemu_join, hwhen, hseq, waitpid. rewrite Hj. cbn.
  destruct Hs as [->|Hc]; [rewrite andb_false_r; by eexists|].
  rewrite bool_decide_eq_false_2 by done. by eexists.
Qed.

Lemma qemu_destroy_runs q t : continued q t -> env_guest_exits env = true ->
  exists t1, qemu_destroy env q t =
    Returns tt (t ++ t1 ++ EvUnmap :: cleanup_trace (qemu_pid q) (shmem_file_id q) (monitor_file q)) /\
    waits t1 = pending q.
Proof.
  intros Hc He. unfold qemu_destroy. destruct (joined q) eqn:Hj; cbn.
  - unfold hseq, hret, hcall. cbn. rewrite cleanup_eq. exists []. cbn.
    rewrite <- app_assoc. unfold pending. rewrite Hj. done.
  - destruct (qemu_join_runs q t Hc He) as (t1 & E & Hw). unfold hseq. rewrite E. cbn.
    rewrite cleanup_eq. exists t1. by rewrite <- !app_assoc.
Qed.

Definition starts_running (ops : list platform_op) : bool :=
  match ops with OpRun :: _ => true | _ => false end.

Lemma session_stuck ops q t : joined q = false -> ~ continued q t ->
  starts_running ops = false \/ env_guest_exits env = false ->
  exists t', (do* q := run_ops env ops q in qemu_destroy env q) t = Blocks t'.
Proof.
  intros Hj Hc Hs. destruct (env_guest_exits env) eqn:He.
  - destruct Hs as [Hs|]; [|done]. unfold hseq at 1. destruct ops as [|[] ops]; cbn in *; [|done|].
    + apply qemu_destroy_stuck; auto.
    + unfold hseq, qemu_join, hwhen, hseq, waitpid. rewrite Hj. cbn.
      rewrite bool_decide_eq_false_2 by done. by eexists.
  - unfold hseq at 1. destruct (run_ops_stuck ops q t Hj He) as [(t' & ->)|(q' & t' & -> & Hj')].
    + by eexists.
    + apply qemu_destroy_stuck; auto.
Qed.

Lemma waits_construct path n : waits (construct_trace path n) = 0%nat.
Proof. unfold construct_trace. by destruct (env_monitor_left_over env). Qed.

Lemma not_continued_construct path n init_size :
  ~ continued (constructed_qemu init_size) (construct_trace path n).
Proof.
  unfold continued, construct_trace. destruct (env_monitor_left_over env); cbn;
    rewrite ?elem_of_cons, elem_of_nil; intuition discriminate.
Qed.

Lemma session_runs path n init_size ops : env_guest_exits env = true ->
  exists t1, (do* q := run_ops env (OpRun :: ops) (constructed_qemu init_size) in qemu_destroy env q)
      (construct_trace path n) =
    Returns tt (t1 ++ EvUnmap :: cleanup_trace (env_pid env) (env_shmem_fd env) (monitor_file_of (env_id env))) /\
    waits t1 = 1%nat.
Proof.
  intros He.
  assert (continued (constructed_qemu init_size) (construct_trace path n ++
    [EvSystem (cont_command (monitor_file_of (env_id env)))])) as Hrun.
  { unfold continued. apply elem_of_app. right. by apply list_elem_of_singleton. }
  cbn [run_ops]. unfold hseq at 1 2, qemu_async_run. cbn -[continued].
  destruct (run_ops_runs ops _ _ Hrun He) as (q' & t1 & E & (M & P & F) & Hw).
  cbn in E. rewrite E.
  destruct (qemu_destroy_runs q' ((construct_trace path n ++
    [EvSystem (cont_command (monitor_file_of (env_id env)))]) ++ t1)) as (t2 & -> & Hw2); [|done|].
  { unfold continued in *. rewrite M. apply elem_of_app. by left. }
  rewrite M, P, F. eexists. split; [by rewrite app_assoc|].
  rewrite !waits_app, waits_construct, Hw2. cbn [Nat.add waits]. exact Hw.
Qed.

End QemuFacts.

(** C37: the life of a QEMU platform. The constructor blocks when QEMU never opens
    its monitor, and throws only after it has killed QEMU, closed the shared file and
    removed the monitor file. A constructed platform can be destroyed only if the
    program let the machine run before it waited and the guest shuts down; then
    exactly one [waitpid] was made, and after it the mapping is removed, and the
    process, already gone, is sent a signal. Otherwise the session blocks forever; in
    particular a ring buffer guest whose buffers do not fit blocks in the destructor
    of the machine that never ran, instead of throwing. *)
Theorem qemu_platform_life env path n init_size ops :
  0 <= init_size ->
  let pid := env_pid env in
  let fd := env_shmem_fd env in
  let monitor := monitor_file_of (env_id env) in
  (env_monitor_appears env = false -> exists t, qemu_construct env path n init_size [] = Blocks t) /\
  (forall what t, qemu_construct env path n init_size [] = Throws what t ->
    exists t0, t = t0 ++ cleanup_trace pid fd monitor /\ waits t = 0%nat) /\
  (forall q t, qemu_construct env path n init_size [] = Returns q t ->
    if starts_running ops && env_guest_exits env then
      exists t1, qemu_session env path n init_size ops [] =
        Returns tt (t1 ++ EvUnmap :: cleanup_trace pid fd monitor) /\ waits t1 = 1%nat
    else exists t1, qemu_session env path n init_size ops [] = Blocks t1) /\
  (forall Offsets BUFFER_SIZE what, construct_succeeds env SIZEOF_INITIALIZER = true ->
    env_path_exists env = true ->
    ringbuffer_guest Offsets BUFFER_SIZE (shmem (constructed_qemu env SIZEOF_INITIALIZER)) = HThrow what ->
    exists t, ringbuffer_guest_qemu env Offsets BUFFER_SIZE path n [] = Blocks t /\ EvKill pid ∉ t).
Proof.
  intros Hi pid fd monitor. pose proof (qemu_construct_eq env path n init_size Hi) as Hq. cbn zeta in Hq.
  split_and!.
  - intros Ha. rewrite Ha in Hq. rewrite Hq. by eexists.
  - intros what t. rewrite Hq. destruct (negb _); [done|]. destruct (construct_succeeds _ _); [done|].
    intros [= <- <-].
    eexists. split; [done|]. rewrite waits_app, waits_construct. unfold cleanup_trace.
    by destruct (env_pid env =? 0), (env_shmem_fd env =? 0).
  - intros q t Hc. assert (qemu_session env path n init_size ops [] =
      (do* q := run_ops env ops q in qemu_destroy env q) t) as ->
      by (unfold qemu_session; unfold hseq at 1; by rewrite Hc).
    rewrite Hc in Hq.
    destruct (env_monitor_appears env); cbn in Hq; [|done].
    destruct (construct_succeeds env init_size); [|done]. injection Hq as -> ->.
    pose proof (not_continued_construct env path n init_size) as Hn.
    destruct (starts_running ops && env_guest_exits env) eqn:Hs.
    + apply andb_true_iff in Hs as [Hs He]. destruct ops as [|[] ops]; try done.
      by apply session_runs.
    + apply session_stuck; [done|done|]. apply andb_false_iff in Hs. tauto.
  - intros Offsets B what Hok Hex Hr. unfold ringbuffer_guest_qemu, create. rewrite Hex. cbn [negb].
    unfold hseq at 1. rewrite (qemu_construct_eq env path n SIZEOF_INITIALIZER) by done. cbn zeta.
    rewrite Hok. unfold construct_succeeds in Hok. bool_to_prop. rewrite H. cbn [negb].
    rewrite Hr. unfold hseq, qemu_destroy, qemu_join, hwhen, hseq, waitpid. cbn.
    rewrite bool_decide_eq_false_2 by apply (not_continued_construct env path n SIZEOF_INITIALIZER).
    cbn. eexists. split; [done|]. unfold construct_trace.
    destruct (env_monitor_left_over env); cbn; rewrite ?elem_of_cons, elem_of_nil; intuition discriminate.
Qed.

Definition sample_env : qemu_env := mkEnv 7 true true 42 true 5 true (fun _ => 0) true.

Lemma qemu_platform_life_witness :
  (exists t1, qemu_session sample_env "app.img"%string 4 48 [OpRun; OpJoin; OpJoin] [] =
     Returns tt (t1 ++ [EvUnmap; EvKill 42; EvClose 5; EvRemove "/tmp/monza-qemu-socket-7"%string])) /\
  (exists t1, qemu_session sample_env "app.img"%string 4 48 [OpJoin] [] = Blocks t1) /\
  (exists t, ringbuffer_guest_qemu sample_env (mkType 24 8 []) (2 ^ 26) "app.img"%string 4 [] = Blocks t).
Proof.
  split_and!.
  - destruct (qemu_platform_life sample_env "app.img"%string 4 48 [OpRun; OpJoin; OpJoin])
      as (_ & _ & H & _); [lia|].
    destruct (H (constructed_qemu sample_env 48)
      (construct_trace sample_env "app.img"%string 4) eq_refl) as (t1 & E & _).
    exists t1. exact E.
  - destruct (qemu_platform_life sample_env "app.img"%string 4 48 [OpJoin]) as (_ & _ & H & _); [lia|].
    exact (H (constructed_qemu sample_env 48) (construct_trace sample_env "app.img"%string 4) eq_refl).
  - destruct (qemu_platform_life sample_env "app.img"%string 4 48 []) as (_ & _ & _ & H); [lia|].
    destruct (H (mkType 24 8 []) (2 ^ 26) "Not enough enclave shared memory for allocation."%string
      eq_refl eq_refl eq_refl) as (t & E & _).
    exists t. exact E.
Defined.
