(* ===== verification/HcsHost.v ===== *)
(** * The host on Windows

    windows/app-framework/host/hcs_enclave.cc and [HcsEnclavePlatform] of
    app-framework/include/host/enclave_platform.h: the configuration document of the
    compute system, the listener that prints what the guest writes to its serial
    port, and the acquisition and release of the Windows resources of an instance.
    Text is a list of character codes. What the Windows calls answer is a parameter. *)

From S2P Require Import Prelude SharedMemory.
From stdpp Require Import strings pretty.
Open Scope Z_scope.

(** ** Text *)

Definition BACKSLASH : Z := 92.
Definition QUOTE : Z := 34.
Definition APOSTROPHE : Z := 39.
Definition LBRACE : Z := 123.
Definition RBRACE : Z := 125.
Definition NEWLINE : Z := 10.

Fixpoint codes (s : string) : list Z :=
  match s with
  | EmptyString => []
  | String c s' => Z.of_nat (Ascii.nat_of_ascii c) :: codes s'
  end.

(** The document's quotes are written as apostrophes, which it does not contain. *)
Definition text (s : string) : list Z :=
  map (fun c => if c =? APOSTROPHE then QUOTE else c) (codes s).

(** [std::format] with positional [{}] fields; [None] is [std::format_error]. *)
Fixpoint format (template : list Z) (args : list (list Z)) : option (list Z) :=
  match template with
  | [] => Some []
  | c :: t1 =>
      if c =? LBRACE then
        match t1 with
        | c2 :: t2 =>
            if c2 =? LBRACE then o ← format t2 args; Some (LBRACE :: o)
            else if c2 =? RBRACE then
              match args with
              | a :: args' => o ← format t2 args'; Some (a ++ o)
              | [] => None
              end
            else None
        | [] => None
        end
      else if c =? RBRACE then
        match t1 with
        | c2 :: t2 => if c2 =? RBRACE then o ← format t2 args; Some (RBRACE :: o) else None
        | [] => None
        end
      else o ← format t1 args; Some (c :: o)
  end.

(** A number as [std::format] prints it. *)
Definition number (n : N) : list Z := codes (pretty n).

Definition escape_file_path (FilePath : list Z) : list Z :=
  flat_map (fun c => if c =? BACKSLASH then [BACKSLASH; BACKSLASH] else [c]) FilePath.

Definition RAM_SIZE_IN_MB : N := 1024.
Definition SECTION_TEMPLATE : list Z := codes "hcsenclave-memory-{}".
Definition HCS_SECTION_TEMPLATE : list Z := codes "\Sessions\{}\BaseNamedObjects\{}".
Definition PIPE_TEMPLATE : list Z := codes "\\.\pipe\hcsenclave-{}".

Definition CONFIG_TEMPLATE : list Z := text "
{{
  'Owner': 'HCSEnclave',
  'SchemaVersion': {{
    'Major': 2,
    'Minor': 5
  }},
  'VirtualMachine': {{
    'StopOnReset': true,
    'Chipset': {{
      'LinuxKernelDirect': {{
        'KernelFilePath': '{}'
      }}
    }},
    'ComputeTopology': {{
      'Memory': {{
        'SizeInMB': {},
        'AllowOvercommit': true
      }},
      'Processor': {{
        'Count': {}
      }}
    }},
    'Devices': {{
      'ComPorts': {{
        '0': {{
          'NamedPipe': '{}'
        }}
      }},
      'SharedMemory': {{
        'Regions': [{{
          'SectionName': '{}',
          'StartOffset': 0,
          'Length': {},
          'AllowGuestWrite': true,
          'HiddenFromGuest': false
        }}]
      }}
    }}
  }},
  'ShouldTerminateOnLastHandleClosed': true
}}
".

Definition ISOLATED_CONFIG_TEMPLATE : list Z := text "
{{
  'Owner': 'HCSEnclave',
  'SchemaVersion': {{
    'Major': 2,
    'Minor': 5
  }},
  'VirtualMachine': {{
    'StopOnReset': true,
    'Chipset': {{
      'Uefi': {{
      }}
    }},
    'GuestState': {{
      'GuestStateFilePath': '{}',
      'GuestStateFileType' : 'FileMode',
      'ForceTransientState' : true
    }},
    'ComputeTopology': {{
      'Memory': {{
        'SizeInMB': {}
      }},
      'Processor': {{
        'Count': {}
      }}
    }},
    'Devices': {{
      'ComPorts': {{
        '0': {{
          'NamedPipe': '{}'
        }}
      }},
      'SharedMemory': {{
        'Regions': [{{
          'SectionName': '{}',
          'StartOffset': 0,
          'Length': {},
          'AllowGuestWrite': true,
          'HiddenFromGuest': false
        }}]
      }}
    }},
    'SecuritySettings': {{
      'Isolation': {{
        'IsolationType': 'SecureNestedPaging',
        'LaunchData' : 'aaaaaaaaaaaaaaaaaaaaaaaaaaaaaaaaaaaaaaaaaaI='
      }}
    }}
  }},
  'ShouldTerminateOnLastHandleClosed': true
}}
".

(** The names and the document the constructor builds; [path] is the canonical path
    of the image, [id_string] the instance's GUID. *)
Definition pipe_name_of (id_string : list Z) : option (list Z) := format PIPE_TEMPLATE [id_string].

Definition section_name_of (id_string : list Z) : option (list Z) :=
  format SECTION_TEMPLATE [id_string].

Definition hcs_section_name_of (session_id : N) (section_name : list Z) : option (list Z) :=
  format HCS_SECTION_TEMPLATE [number session_id; section_name].

Definition config_of (is_isolated : bool) (path pipe_name hcs_section_name : list Z)
  (num_threads shared_memory_size : N) : option (list Z) :=
  if is_isolated then
    format ISOLATED_CONFIG_TEMPLATE
      [escape_file_path path; number RAM_SIZE_IN_MB; number num_threads;
       escape_file_path pipe_name; escape_file_path hcs_section_name; number shared_memory_size]
  else
    format CONFIG_TEMPLATE
      [escape_file_path path; number RAM_SIZE_IN_MB; number num_threads;
       escape_file_path pipe_name; escape_file_path hcs_section_name; number shared_memory_size].

(** ** The pipe listener *)

(** What goes to standard output: [std::setw(6) << time << "ms:"] and characters. *)
Inductive out_item : Type := Stamp (time : Z) | Char (c : Z).

(** Up to and with the first newline, and whether there is one. *)
Fixpoint find_line (sv : list Z) : list Z * list Z * bool :=
  match sv with
  | [] => ([], [], false)
  | c :: sv' =>
      if c =? NEWLINE then ([c], sv', true)
      else let '(curr, rest, nl) := find_line sv' in (c :: curr, rest, nl)
  end.

(** The inner loop over one buffer: the output and the new [partial_line]. *)
Fixpoint print_lines (fuel : nat) (time : Z) (partial_line : bool) (sv : list Z)
  : list out_item * bool :=
  match sv with
  | [] => ([], partial_line)
  | _ =>
      match fuel with
      | O => ([], partial_line)
      | S fuel' =>
          let '(curr, rest, has_newline) := find_line sv in
          let '(out, pl) := print_lines fuel' time (negb has_newline) rest in
          ((if partial_line then [] else [Stamp time]) ++ map Char curr ++ out, pl)
      end
  end.

(** The results of [ReadFile]: bytes with the time of their arrival, where
    [more] is the error [ERROR_MORE_DATA] that also carries bytes, or another error. *)
Inductive read_result : Type :=
| ReadOk (more : bool) (bytes : list Z) (time : Z)
| ReadFailed.

(** The loop of the thread: its output and whether it reported the pipe closed; when
    the results are used up it waits in [ReadFile]. *)
Fixpoint listen (partial_line : bool) (reads : list read_result) : list out_item * bool :=
  match reads with
  | [] => ([], false)
  | ReadFailed :: _ => (map Char (NEWLINE :: codes "Guest closed debug pipe!" ++ [NEWLINE]), true)
  | ReadOk _ bytes time :: reads' =>
      let '(out, pl) :=
        if Nat.ltb 0 (length bytes) then print_lines (length bytes) time partial_line bytes
        else ([], partial_line) in
      let '(out', closed) := listen pl reads' in
      (out ++ out', closed)
  end.

(** ** Messages of Windows *)

(** [{:#x}] of a 32-bit number. *)
Definition hex_digit (d : Z) : Z := if d <? 10 then 48 + d else 97 + (d - 10).

Fixpoint hex_codes (fuel : nat) (v : Z) (acc : list Z) : list Z :=
  match fuel with
  | O => acc
  | S fuel' => let acc' := hex_digit (v mod 16) :: acc in if v / 16 =? 0 then acc' else hex_codes fuel' (v / 16) acc'
  end.

(** [FormatMessage] gives the text for a code in the system's language, or nothing where it fails. *)
Definition GetErrorMessage (FormatMessage : Z -> list Z) (error_code : Z) : list Z :=
  let character_array := FormatMessage error_code in
  if Nat.ltb 0 (length character_array) then character_array
  else codes "Failed to retrieve error message string for error 0x" ++ hex_codes 8 (u32 error_code) [] ++ codes ".".

(** The string that [UuidToStringW] allocates, and [RpcStringFreeW]. *)
Inductive guid_event : Type := StringAllocated | StringFreed.

(** [None] is an exception: no memory for the string, or ([copied] is false) none for the copy. *)
Definition GuidToString (uuid_string : option (list Z)) (copied : bool) : option (list Z) * list guid_event :=
  match uuid_string with
  | None => (None, [])
  | Some guid_string => (if copied then Some guid_string else None, [StringAllocated; StringFreed])
  end.

(** The listener thread whole: what it prints, its error output, and how it ends. Where the pipe cannot be
    opened it ends the process; [opened] is the error then. *)
Inductive listener_end : Type := ListenerWaits | ListenerClosed | ProcessExits (status : Z).

Definition pipe_listener_thread (FormatMessage : Z -> list Z) (opened : option Z) (reads : list read_result)
  : list out_item * list Z * listener_end :=
  match opened with
  | Some error =>
      ([], codes "Opening named pipe failed. " ++ GetErrorMessage FormatMessage error ++ [NEWLINE], ProcessExits (-1))
  | None => let '(out, closed) := listen false reads in (out, [], if closed then ListenerClosed else ListenerWaits)
  end.

(** ** Reading the document back *)

(** A scanner for the string literals of a JSON text: outside a literal, inside one
    with the characters so far (last first), and after a backslash. *)
Inductive scan_mode : Type := Plain | InString (acc : list Z) | Escape (acc : list Z).

Definition unescape (c : Z) : option Z :=
  if (c =? BACKSLASH) || (c =? QUOTE) || (c =? 47) then Some c
  else if c =? 98 then Some 8 else if c =? 102 then Some 12 else if c =? 110 then Some 10
  else if c =? 114 then Some 13 else if c =? 116 then Some 9 else None.

(** The literals found so far are kept last first; [None] is a malformed text. *)
Definition scan_char (st : scan_mode * list (list Z)) (c : Z) : option (scan_mode * list (list Z)) :=
  let '(mode, found) := st in
  match mode with
  | Plain => Some (if c =? QUOTE then InString [] else Plain, found)
  | InString acc =>
      if c =? QUOTE then Some (Plain, rev acc :: found)
      else if c =? BACKSLASH then Some (Escape acc, found)
      else if c <? 32 then None else Some (InString (c :: acc), found)
  | Escape acc => c' ← unescape c; Some (InString (c' :: acc), found)
  end.

Fixpoint scan (st : scan_mode * list (list Z)) (l : list Z) : option (scan_mode * list (list Z)) :=
  match l with [] => Some st | c :: l' => st' ← scan_char st c; scan st' l' end.

Lemma scan_app l1 l2 : forall st, scan st (l1 ++ l2) = st' ← scan st l1; scan st' l2.
Proof.
  induction l1 as [|c l1 IH]; intros st; cbn; [done|].
  destruct (scan_char st c) as [st'|]; cbn; [apply IH|done].
Qed.

(** Characters of a file name that a JSON literal can hold as they are, or escaped. *)
Definition name_ok (p : list Z) : Prop := Forall (fun c => c <> QUOTE /\ 32 <= c) p.

#[export] Instance name_ok_dec p : Decision (name_ok p).
Proof. unfold name_ok. apply _. Defined.

Lemma scan_escaped p : forall acc found, name_ok p ->
  scan (InString acc, found) (escape_file_path p) = Some (InString (rev p ++ acc), found).
Proof.
  unfold name_ok. induction p as [|c p IH]; intros acc found Hp; [done|].
  apply Forall_cons in Hp as [[Hq Hc] Hp]. unfold escape_file_path in *. cbn [flat_map rev].
  rewrite scan_app. destruct (c =? BACKSLASH) eqn:Eb; bool_to_prop.
  - subst c. cbn. rewrite (IH _ _ Hp). by rewrite <- app_assoc.
  - cbn. unfold QUOTE, BACKSLASH in *. rewrite (proj2 (Z.eqb_neq c 34) Hq), (proj2 (Z.eqb_neq c 92) Eb).
    rewrite (proj2 (Z.ltb_ge c 32) Hc). cbn. rewrite (IH _ _ Hp). by rewrite <- app_assoc.
Qed.

Lemma scan_plain l found : Forall (fun c => c <> QUOTE) l -> scan (Plain, found) l = Some (Plain, found).
Proof.
  induction 1 as [|c l Hc _ IH]; cbn; [done|]. by rewrite (proj2 (Z.eqb_neq c QUOTE) Hc).
Qed.

(** *** Numbers *)

Lemma pretty_go_codes x : forall s, Forall (fun c => c <> QUOTE) (codes s) ->
  Forall (fun c => c <> QUOTE) (codes (pretty_N_go x s)).
Proof.
  induction (N.lt_wf_0 x) as [x _ IH]; intros s Hs.
  destruct (decide (x = 0)%N) as [->|Hx]; [by rewrite pretty_N_go_0|].
  rewrite pretty_N_go_step by lia. apply IH; [by apply N.div_lt; lia|].
  cbn [codes]. constructor; [|done]. unfold pretty_N_char.
  generalize (x `mod` 10)%N. intros [|q]; cbn; [discriminate|].
  do 4 (try destruct q as [q|q|]; cbn; try discriminate).
Qed.

Lemma number_plain n : Forall (fun c => c <> QUOTE) (number n).
Proof.
  unfold number, pretty, pretty_N. case_decide; [by repeat constructor|].
  apply pretty_go_codes. constructor.
Qed.

(** *** Templates *)

(** The pieces of a template between its fields, with the braces resolved. *)
Fixpoint pieces (template acc : list Z) : option (list (list Z)) :=
  match template with
  | [] => Some [rev acc]
  | c :: t1 =>
      if c =? LBRACE then
        match t1 with
        | c2 :: t2 =>
            if c2 =? LBRACE then pieces t2 (LBRACE :: acc)
            else if c2 =? RBRACE then ps ← pieces t2 []; Some (rev acc :: ps)
            else None
        | [] => None
        end
      else if c =? RBRACE then
        match t1 with
        | c2 :: t2 => if c2 =? RBRACE then pieces t2 (RBRACE :: acc) else None
        | [] => None
        end
      else pieces t1 (c :: acc)
  end.

Fixpoint fill (ps args : list (list Z)) : list Z :=
  match ps, args with
  | [p], _ => p
  | p :: ps', a :: args' => p ++ a ++ fill ps' args'
  | _, _ => []
  end.

Lemma pieces_cons t acc ps : pieces t acc = Some ps -> exists p ps', ps = p :: ps'.
Proof.
  assert (forall n t acc ps, (length t <= n)%nat -> pieces t acc = Some ps -> exists p ps', ps = p :: ps')
    as H; [|by apply H with (length t)].
  clear. induction n as [|n IH]; intros [|c t1] acc ps Hn; cbn in *; try lia; intros H;
    try (injection H as <-; by eauto).
  destruct (c =? LBRACE).
  - destruct t1 as [|c2 t2]; [done|]. cbn in Hn. destruct (c2 =? LBRACE); [eapply IH; [|done]; lia|].
    destruct (c2 =? RBRACE); [|done]. destruct (pieces t2 []); [|done]. injection H as <-. by eauto.
  - destruct (c =? RBRACE); [|eapply IH; [|done]; lia].
    destruct t1 as [|c2 t2]; [done|]. cbn in Hn. destruct (c2 =? RBRACE); [|done]. eapply IH; [|done]. lia.
Qed.

(** [format] puts the arguments between the pieces. *)
Lemma format_fill n : forall t acc ps args, (length t <= n)%nat -> pieces t acc = Some ps ->
  length ps = S (length args) -> exists o, format t args = Some o /\ fill ps args = rev acc ++ o.
Proof.
  induction n as [|n IH]; intros [|c t1] acc ps args Hn; cbn [length pieces format] in *; try lia;
    intros Hp Hl; try (injection Hp as <-; exists []; by rewrite app_nil_r).
  assert (forall c t args, (length t <= n)%nat -> pieces t (c :: acc) = Some ps ->
    length ps = S (length args) ->
    exists o, (o ← format t args; Some (c :: o)) = Some o /\ fill ps args = rev acc ++ o) as Hstep.
  { clear - IH. intros c t args Hn Hp Hl. destruct (IH t (c :: acc) ps args Hn Hp Hl) as (o & -> & Hf).
    eexists. split; [done|]. rewrite Hf. cbn. by rewrite <- app_assoc. }
  destruct (c =? LBRACE).
  - destruct t1 as [|c2 t2]; [done|]. cbn in Hn. destruct (c2 =? LBRACE); [apply Hstep; done || lia|].
    destruct (c2 =? RBRACE); [|done]. destruct (pieces t2 []) as [ps'|] eqn:Ep; [|done].
    injection Hp as <-. destruct args as [|a args].
    { destruct (pieces_cons _ _ _ Ep) as (? & ? & ->). done. }
    destruct (IH t2 [] ps' args ltac:(lia) Ep ltac:(cbn in Hl; lia)) as (o & -> & Hf).
    eexists. split; [done|]. destruct (pieces_cons _ _ _ Ep) as (p & l & ->). 
    change (fill (rev acc :: p :: l) (a :: args)) with (rev acc ++ a ++ fill (p :: l) args). by rewrite Hf.
  - destruct (c =? RBRACE); [|apply Hstep; done || lia].
    destruct t1 as [|c2 t2]; [done|]. cbn in Hn. destruct (c2 =? RBRACE); [|done].
    apply Hstep; done || lia.
Qed.

(** The literals of the two documents, the three names at their places. *)
Definition config_strings (path pipe section : list Z) : list (list Z) :=
  map text ["Owner"; "HCSEnclave"; "SchemaVersion"; "Major"; "Minor"; "VirtualMachine"; "StopOnReset";
            "Chipset"; "LinuxKernelDirect"; "KernelFilePath"]%string ++ [path] ++
  map text ["ComputeTopology"; "Memory"; "SizeInMB"; "AllowOvercommit"; "Processor"; "Count"; "Devices";
            "ComPorts"; "0"; "NamedPipe"]%string ++ [pipe] ++
  map text ["SharedMemory"; "Regions"; "SectionName"]%string ++ [section] ++
  map text ["StartOffset"; "Length"; "AllowGuestWrite"; "HiddenFromGuest";
            "ShouldTerminateOnLastHandleClosed"]%string.

Definition isolated_config_strings (path pipe section : list Z) : list (list Z) :=
  map text ["Owner"; "HCSEnclave"; "SchemaVersion"; "Major"; "Minor"; "VirtualMachine"; "StopOnReset";
            "Chipset"; "Uefi"; "GuestState"; "GuestStateFilePath"]%string ++ [path] ++
  map text ["GuestStateFileType"; "FileMode"; "ForceTransientState";
            "ComputeTopology"; "Memory"; "SizeInMB"; "Processor"; "Count"; "Devices";
            "ComPorts"; "0"; "NamedPipe"]%string ++ [pipe] ++
  map text ["SharedMemory"; "Regions"; "SectionName"]%string ++ [section] ++
  map text ["StartOffset"; "Length"; "AllowGuestWrite"; "HiddenFromGuest"; "SecuritySettings";
            "Isolation"; "IsolationType"; "SecureNestedPaging"; "LaunchData";
            "aaaaaaaaaaaaaaaaaaaaaaaaaaaaaaaaaaaaaaaaaaI="; "ShouldTerminateOnLastHandleClosed"]%string.

Lemma scan_frame l : forall m m' f n g, scan (m, f) l = Some (m', n ++ f) ->
  scan (m, g) l = Some (m', n ++ g).
Proof.
  assert (forall l m f, (scan (m, f) l = None /\ forall g, scan (m, g) l = None) \/
    exists m' n, forall g, scan (m, g) l = Some (m', n ++ g)) as H.
  { clear. induction l as [|c l IH]; intros m f; cbn; [right; by exists m, []|].
    assert (forall m0, (scan (m0, f) l = None /\ forall g, scan (m0, g) l = None) \/
      exists m' n, forall g, scan (m0, g) l = Some (m', n ++ g)) as IH' by (intros; apply IH).
    destruct m as [|acc|acc]; cbn.
    - apply IH'.
    - destruct (c =? QUOTE); cbn.
      + destruct (IH Plain []) as [[_ Hn]|(m' & n & Hs)]; [left; split; intros; apply Hn|].
        right. exists m', (n ++ [rev acc]). intros g. rewrite Hs. by rewrite <- app_assoc.
      + destruct (c =? BACKSLASH); cbn; [apply IH'|]. destruct (c <? 32); cbn; [by left|apply IH'].
    - destruct (unescape c); cbn; [apply IH'|by left]. }
  intros m m' f n g Hs. destruct (H l m f) as [[Hn _]|(m1 & n1 & H1)]; [by rewrite Hs in Hn|].
  rewrite H1 in Hs. injection Hs as -> Hn. apply app_inv_tail in Hn as ->. apply H1.
Qed.

(** A piece after a name closes the literal; [n] are the literals that follow. *)
Lemma scan_close acc f r m' n : scan (Plain, []) r = Some (m', n) ->
  scan (InString acc, f) (QUOTE :: r) = Some (m', n ++ rev acc :: f).
Proof.
  intros H. cbn. apply scan_frame with []. by rewrite app_nil_r.
Qed.

Lemma scan_open f p m' n : scan (Plain, []) p = Some (m', n) -> scan (Plain, f) p = Some (m', n ++ f).
Proof. intros H. apply scan_frame with []. by rewrite app_nil_r. Qed.

(** Scanning a filled template with three escaped names and three numbers, at the
    positions the two documents have them. *)
Lemma scan_filled p0 r1 p2 p3 r4 r5 p6 path pipe section a b c n0 n1 n2 n3 n4 n5 n6 :
  name_ok path -> name_ok pipe -> name_ok section ->
  scan (Plain, []) p0 = Some (InString [], n0) -> scan (Plain, []) r1 = Some (Plain, n1) ->
  scan (Plain, []) p2 = Some (Plain, n2) -> scan (Plain, []) p3 = Some (InString [], n3) ->
  scan (Plain, []) r4 = Some (InString [], n4) -> scan (Plain, []) r5 = Some (Plain, n5) ->
  scan (Plain, []) p6 = Some (Plain, n6) ->
  scan (Plain, []) (fill [p0; QUOTE :: r1; p2; p3; QUOTE :: r4; QUOTE :: r5; p6]
    [escape_file_path path; number a; number b; escape_file_path pipe; escape_file_path section; number c])
  = Some (Plain, n6 ++ n5 ++ section :: n4 ++ pipe :: n3 ++ n2 ++ n1 ++ path :: n0).
Proof.
  intros Hp Hq Hs H0 H1 H2 H3 H4 H5 H6. cbn [fill].
  rewrite scan_app, H0. cbn [mbind option_bind].
  rewrite scan_app, scan_escaped, app_nil_r by done. cbn [mbind option_bind].
  rewrite scan_app, (scan_close _ _ _ _ _ H1), rev_involutive. cbn [mbind option_bind].
  rewrite scan_app, scan_plain by apply number_plain. cbn [mbind option_bind].
  rewrite scan_app, (scan_open _ _ _ _ H2). cbn [mbind option_bind].
  rewrite scan_app, scan_plain by apply number_plain. cbn [mbind option_bind].
  rewrite scan_app, (scan_open _ _ _ _ H3). cbn [mbind option_bind].
  rewrite scan_app, scan_escaped, app_nil_r by done. cbn [mbind option_bind].
  rewrite scan_app, (scan_close _ _ _ _ _ H4), rev_involutive. cbn [mbind option_bind].
  rewrite scan_app, scan_escaped, app_nil_r by done. cbn [mbind option_bind].
  rewrite scan_app, (scan_close _ _ _ _ _ H5), rev_involutive. cbn [mbind option_bind].
  rewrite scan_app, scan_plain by apply number_plain. cbn [mbind option_bind].
  apply (scan_open _ _ _ _ H6).
Qed.

Lemma config_scan t path pipe section a b c p0 r1 p2 p3 r4 r5 p6 n0 n1 n2 n3 n4 n5 n6 strings :
  name_ok path -> name_ok pipe -> name_ok section ->
  pieces t [] = Some [p0; QUOTE :: r1; p2; p3; QUOTE :: r4; QUOTE :: r5; p6] ->
  scan (Plain, []) p0 = Some (InString [], n0) -> scan (Plain, []) r1 = Some (Plain, n1) ->
  scan (Plain, []) p2 = Some (Plain, n2) -> scan (Plain, []) p3 = Some (InString [], n3) ->
  scan (Plain, []) r4 = Some (InString [], n4) -> scan (Plain, []) r5 = Some (Plain, n5) ->
  scan (Plain, []) p6 = Some (Plain, n6) ->
  strings = rev (n6 ++ n5 ++ section :: n4 ++ pipe :: n3 ++ n2 ++ n1 ++ path :: n0) ->
  exists doc, format t [escape_file_path path; number a; number b;
      escape_file_path pipe; escape_file_path section; number c] = Some doc /\
    scan (Plain, []) doc = Some (Plain, rev strings).
Proof.
  intros Hp Hq Hs Hpc H0 H1 H2 H3 H4 H5 H6 ->.
  destruct (format_fill (length t) t [] _ [escape_file_path path; number a; number b;
    escape_file_path pipe; escape_file_path section; number c] (le_n _) Hpc eq_refl) as (doc & Hd & Hf).
  exists doc. split; [exact Hd|]. cbn [rev app] in Hf. rewrite <- Hf, rev_involutive.
  by apply scan_filled.
Qed.

(** The configuration document cannot be broken by the names in it. For any image
    path, pipe and section name without quotes and control characters, however many
    backslashes they have, formatting the template succeeds, and reading the string
    literals of the document back gives exactly the template's own literals with the
    three names, unescaped, at their places, for both kinds of machine. *)
Theorem config_names_roundtrip path pipe section num_threads shared_memory_size :
  name_ok path -> name_ok pipe -> name_ok section ->
  (exists doc, config_of false path pipe section num_threads shared_memory_size = Some doc /\
    scan (Plain, []) doc = Some (Plain, rev (config_strings path pipe section))) /\
  (exists doc, config_of true path pipe section num_threads shared_memory_size = Some doc /\
    scan (Plain, []) doc = Some (Plain, rev (isolated_config_strings path pipe section))).
Proof.
  intros Hp Hq Hs. split; unfold config_of.
  - eapply config_scan; [done|done|done|vm_compute; reflexivity..].
  - eapply config_scan; [done|done|done|vm_compute; reflexivity..].
Qed.

Lemma config_names_roundtrip_witness :
  exists doc, config_of true (codes "C:\vm\{x}\app.vmgs") (codes "\\.\pipe\hcsenclave-1") (codes "\S\1") 4 64
    = Some doc /\
  scan (Plain, []) doc = Some (Plain, rev (isolated_config_strings
    (codes "C:\vm\{x}\app.vmgs") (codes "\\.\pipe\hcsenclave-1") (codes "\S\1"))).
Proof.
  refine (proj2 (config_names_roundtrip (codes "C:\vm\{x}\app.vmgs") (codes "\\.\pipe\hcsenclave-1")
    (codes "\S\1") 4 64 _ _ _));
    apply (bool_decide_unpack _); vm_compute; exact I.
Defined.

(** ** Messages read back *)

Definition hex_value_digit (c : Z) : Z := if c <? 58 then c - 48 else c - 97 + 10.
Definition hex_value (l : list Z) : Z := fold_left (fun v c => v * 16 + hex_value_digit c) l 0.

Lemma hex_digit_value d : 0 <= d < 16 -> hex_value_digit (hex_digit d) = d.
Proof. intros Hd. unfold hex_digit, hex_value_digit. repeat case_if_prop; lia. Qed.

Lemma hex_codes_S fuel v acc : hex_codes (S fuel) v acc =
  (let acc' := hex_digit (v mod 16) :: acc in if v / 16 =? 0 then acc' else hex_codes fuel (v / 16) acc').
Proof. done. Qed.

Lemma hex_codes_value fuel : forall v acc, 0 <= v < 16 ^ Z.of_nat (S fuel) ->
  fold_left (fun v c => v * 16 + hex_value_digit c) (hex_codes (S fuel) v acc) 0 =
  fold_left (fun v c => v * 16 + hex_value_digit c) acc v.
Proof.
  induction fuel as [|fuel IH]; intros v acc Hv; rewrite hex_codes_S;
    pose proof (Z.div_mod v 16 ltac:(lia)) as Hdm; pose proof (Z.mod_pos_bound v 16 ltac:(lia)) as Hb.
  - change (16 ^ Z.of_nat 1) with 16 in Hv. rewrite (proj2 (Z.eqb_eq _ _) (Z.div_small v 16 Hv)). cbn [fold_left].
    rewrite hex_digit_value, Z.mod_small by done. f_equal; lia.
  - destruct (Z.eqb_spec (v / 16) 0) as [E|E].
    + cbn [fold_left]. rewrite hex_digit_value by done. f_equal. lia.
    + rewrite IH; [cbn [fold_left]; rewrite hex_digit_value by done; f_equal; lia|].
      split; [apply Z.div_pos; lia|]. apply Z.div_lt_upper_bound; [lia|].
      replace (16 * 16 ^ Z.of_nat (S fuel)) with (16 ^ Z.of_nat (S (S fuel))); [lia|]. rewrite (Nat2Z.inj_succ (S fuel)), Z.pow_succ_r by lia. done.
Qed.

(** A message always has text, and one for which the system has none names its code. *)
Lemma GetErrorMessage_text FormatMessage error_code : 0 <= error_code < 2 ^ 32 ->
  GetErrorMessage FormatMessage error_code <> [] /\
  (FormatMessage error_code = [] -> exists digits,
     GetErrorMessage FormatMessage error_code =
       codes "Failed to retrieve error message string for error 0x" ++ digits ++ codes "." /\ hex_value digits = error_code).
Proof.
  intros Hu. unfold GetErrorMessage. split.
  - destruct (FormatMessage error_code); cbn; done.
  - intros ->. eexists. split; [done|]. unfold hex_value, u32.
    rewrite Z.mod_small by lia. rewrite (hex_codes_value 7); [done|]. change (16 ^ Z.of_nat 8) with (2 ^ 32). lia.
Qed.

(** The string of the system is freed once wherever it was allocated. *)
Lemma GuidToString_frees uuid_string copied :
  snd (GuidToString uuid_string copied) = match uuid_string with Some _ => [StringAllocated; StringFreed] | None => [] end.
Proof. by destruct uuid_string. Qed.

(** ** The listener against a reference *)

(** Every character with the time its buffer arrived; a stamp goes before each
    character that starts a line. *)
Fixpoint stamped (line_start : bool) (l : list (Z * Z)) : list out_item :=
  match l with
  | [] => []
  | (c, t) :: l' => (if line_start then [Stamp t] else []) ++ Char c :: stamped (c =? NEWLINE) l'
  end.

Definition ends_line (start : bool) (l : list Z) : bool :=
  match last l with Some c => c =? NEWLINE | None => start end.

Lemma ends_line_app start l1 l2 : ends_line start (l1 ++ l2) = ends_line (ends_line start l1) l2.
Proof. unfold ends_line. rewrite last_app. by destruct (last l2). Qed.

Lemma stamped_app l1 l2 : forall start,
  stamped start (l1 ++ l2) = stamped start l1 ++ stamped (ends_line start (map fst l1)) l2.
Proof.
  induction l1 as [|[c t] l1 IH]; intros start; cbn; [done|].
  change (c :: map fst l1) with ([c] ++ map fst l1).
  rewrite IH, <- app_assoc, ends_line_app. done.
Qed.

Lemma find_line_spec sv : forall curr rest nl, sv <> [] -> find_line sv = (curr, rest, nl) ->
  sv = curr ++ rest /\ curr <> [] /\ (nl = false -> rest = []) /\
  forall t start, stamped start (map (fun c => (c, t)) curr) =
    (if start then [Stamp t] else []) ++ map Char curr /\
  ends_line start curr = nl.
Proof.
  induction sv as [|c sv IH]; intros curr rest nl Hne; [done|]. cbn.
  destruct (c =? NEWLINE) eqn:Ec.
  - intros [= <- <- <-]. by split_and!.
  - destruct (find_line sv) as [[curr' rest'] nl'] eqn:Ef. intros [= <- <- <-].
    destruct sv as [|c' sv].
    { injection Ef as <- <- <-. by split_and!. }
    destruct (IH curr' rest' nl' ltac:(done) eq_refl) as (Hs & Hn & Hr & Ht).
    split_and!; [by rewrite Hs|done|done|]. intros t start. destruct (Ht t false) as [H1 H2]. split.
    + cbn. rewrite Ec, H1. done.
    + change (c :: curr') with ([c] ++ curr'). rewrite ends_line_app. cbn. rewrite Ec. exact H2.
Qed.

Lemma print_lines_stamped fuel : forall time pl sv, (length sv <= fuel)%nat ->
  print_lines fuel time pl sv =
    (stamped (negb pl) (map (fun c => (c, time)) sv), negb (ends_line (negb pl) sv)).
Proof.
  induction fuel as [|fuel IH]; intros time pl sv Hl.
  { destruct sv; [|cbn in Hl; lia]. cbn. unfold ends_line. cbn. by rewrite negb_involutive. }
  destruct sv as [|c sv]; [cbn; unfold ends_line; cbn; by rewrite negb_involutive|].
  remember (c :: sv) as l eqn:El. cbn [print_lines]. rewrite El. rewrite <- El.
  destruct (find_line l) as [[curr rest] nl] eqn:Ef.
  destruct (find_line_spec l curr rest nl ltac:(by subst) Ef) as (Hs & Hn & Hr & Ht).
  destruct (Ht time (negb pl)) as [H1 H2].
  assert (length rest <= fuel)%nat.
  { rewrite Hs in Hl. rewrite length_app in Hl. destruct curr; [done|]. cbn in Hl. lia. }
  rewrite IH by done. rewrite negb_involutive, Hs, map_app, stamped_app, map_map. cbn [fst].
  rewrite map_id, H1, H2, ends_line_app, H2. by destruct pl; rewrite <- ?app_assoc.
Qed.

(** The bytes of a read with the time they arrived. *)
Definition read_chars (r : read_result) : list (Z * Z) :=
  match r with ReadOk _ bytes time => map (fun c => (c, time)) bytes | ReadFailed => [] end.

(** The listener prints what the guest wrote. However the bytes arrive in buffers,
    its output is the bytes in order with one time stamp before each byte that starts
    a line, the time of the buffer that byte came in, and none elsewhere; a read
    error ends the thread with a message and reports the pipe closed. *)
Theorem listen_stamps_lines reads rest : forall partial_line,
  Forall (fun r => r <> ReadFailed) reads ->
  fst (listen partial_line reads) = stamped (negb partial_line) (flat_map read_chars reads) /\
  snd (listen partial_line reads) = false /\
  listen partial_line (reads ++ ReadFailed :: rest) =
    (stamped (negb partial_line) (flat_map read_chars reads) ++
       map Char (NEWLINE :: codes "Guest closed debug pipe!" ++ [NEWLINE]), true).
Proof.
  induction reads as [|r reads IH]; intros pl Hf; [done|].
  apply Forall_cons in Hf as [Hr Hf]. destruct r as [more bytes time|]; [|done]. cbn [listen app flat_map].
  assert ((if Nat.ltb 0 (length bytes) then print_lines (length bytes) time pl bytes else ([], pl)) =
    (stamped (negb pl) (read_chars (ReadOk more bytes time)), negb (ends_line (negb pl) bytes))) as ->.
  { destruct bytes as [|c bytes]; [cbn; unfold ends_line; cbn; by rewrite negb_involutive|].
    by apply print_lines_stamped. }
  destruct (IH (negb (ends_line (negb pl) bytes)) Hf) as (H1 & H2 & H3).
  destruct (listen _ reads) as [out closed]. rewrite H3. cbn in H1, H2.
  assert (stamped (negb pl) (read_chars (ReadOk more bytes time) ++ flat_map read_chars reads) =
    stamped (negb pl) (read_chars (ReadOk more bytes time)) ++ out) as E.
  { rewrite stamped_app, H1, negb_involutive. cbn [read_chars]. by rewrite map_map, map_id. }
  rewrite E. cbn [fst snd]. split_and!; [done|done|]. by rewrite <- H1, app_assoc.
Qed.

Lemma listen_stamps_lines_witness :
  fst (listen false [ReadOk false [72; 105] 12; ReadOk true [33; 10; 65] 13; ReadOk false [10; 66] 20]) =
  [Stamp 12; Char 72; Char 105; Char 33; Char 10; Stamp 13; Char 65; Char 10; Stamp 20; Char 66].
Proof.
  apply (listen_stamps_lines
    [ReadOk false [72; 105] 12; ReadOk true [33; 10; 65] 13; ReadOk false [10; 66] 20] [] false).
  repeat constructor; discriminate.
Defined.
