(* ===== verification/HcsPlatform.v ===== *)
(** * Resources and life of a Windows machine

    [VmAccessGranter], [SecurityAttributes], [CreateSection] and [HCSEnclave] of
    windows/app-framework/host/hcs_enclave.cc, and [HcsEnclavePlatform] of
    app-framework/include/host/enclave_platform.h. The trace records each resource
    that is acquired and released; a local object with a destructor is a [scope],
    the members of [HCSEnclave] are a record whose destruction releases them in the
    reverse order of declaration. Whether each Windows call succeeds is a parameter. *)

From S2P Require Import Prelude SharedMemory HcsHost.
From stdpp Require Import strings.
Open Scope Z_scope.

Inductive resource : Type :=
| Descriptor | Sid | Acl | Operation | Section | Mapping | System | PipeClosed | Listener
| ExitEvent | Grant (path : list Z).

#[export] Instance resource_eq_dec : EqDecision resource.
Proof. solve_decision. Defined.

Inductive event : Type :=
| Acquired (r : resource)
| Released (r : resource)
| SystemStarted
| ListenerJoined.

#[export] Instance event_eq_dec : EqDecision event.
Proof. solve_decision. Defined.

(** How a computation over a state ends: with a value, an exception, forever blocked,
    or in [std::terminate]. *)
Inductive result (S A : Type) : Type :=
| Ret (a : A) (s : S) (t : list event)
| Exc (what : string) (s : S) (t : list event)
| Block (t : list event)
| Terminate (t : list event).
Arguments Ret {S A} a s t.
Arguments Exc {S A} what s t.
Arguments Block {S A} t.
Arguments Terminate {S A} t.

Definition comp (S A : Type) : Type := S -> list event -> result S A.

Definition ret {S A} (a : A) : comp S A := fun s t => Ret a s t.
Definition throw {S A} (what : string) : comp S A := fun s t => Exc what s t.
Definition block {S A} : comp S A := fun _ t => Block t.
Definition log {S} (e : event) : comp S unit := fun s t => Ret tt s (t ++ [e]).
Definition modify {S} (f : S -> S) : comp S unit := fun s t => Ret tt (f s) t.
Definition get {S} : comp S S := fun s t => Ret s s t.
Definition bind {S A B} (m : comp S A) (k : A -> comp S B) : comp S B :=
  fun s t => match m s t with
             | Ret a s' t' => k a s' t'
             | Exc w s' t' => Exc w s' t'
             | Block t' => Block t'
             | Terminate t' => Terminate t'
             end.

Notation "'run*' x ':=' m 'in' k" := (bind m (fun x => k))
  (at level 10, x pattern, m at level 100, k at level 200) : monza_scope.

Definition when {S} (b : bool) (m : comp S unit) : comp S unit := if b then m else ret tt.

(** A failed call throws. *)
Definition check {S} (ok : bool) (what : string) : comp S unit := if ok then ret tt else throw what.

(** A local that releases [r] however its scope is left. *)
Definition scope {S A} (r : resource) (body : comp S A) : comp S A :=
  fun s t => match body s (t ++ [Acquired r]) with
             | Ret a s' t' => Ret a s' (t' ++ [Released r])
             | Exc w s' t' => Exc w s' (t' ++ [Released r])
             | Block t' => Block t'
             | Terminate t' => Terminate t'
             end.

(** ** The Windows calls *)

Record hcs_env : Type := mkHcsEnv {
  guid_ok : bool; guid_string_ok : bool; operation_ok : bool;
  sid_ok : bool; acl_ok : bool; init_descriptor_ok : bool; dacl_ok : bool; section_ok : bool;
  canonical_ok : bool; grant_ok : bool; create_ok : bool; create_wait_ok : bool; event_ok : bool;
  start_operation_ok : bool; start_ok : bool; start_wait_ok : bool; exit_event_ok : bool;
  machine_stops : bool;   (** a started machine exits or closes its pipe *)
  pipe_closes : bool;     (** [ReadFile] fails at last once a started machine has stopped *)
  idle_pipe_closes : bool (** the same for a machine that was never started *)
}.

(** ** Components *)

(** [HcsWaitForOperationResultAndReport] *)
Definition wait_operation {S} (ok : bool) : comp S unit :=
  check ok "HcsWaitForOperationResult failed."%string.

(** The paths [VmAccessGranter] holds; its destructor revokes each in order. *)
Definition granter_add_path (env : hcs_env) (path : list Z) : comp (list (list Z)) unit :=
  run* _ := check (grant_ok env) "HcsGrantVmAccess failed."%string in
  run* _ := log (Acquired (Grant path)) in
  modify (fun paths => paths ++ [path]).

Definition granter_destroy (paths : list (list Z)) : list event := map (fun p => Released (Grant p)) paths.

(** The members of [SecurityAttributes] that may be null; the descriptor is not. *)
Record SecurityAttributes : Type := mkSecurity { sid_everyone : bool; acl : bool }.

Definition security_destroy (s : SecurityAttributes) : list event :=
  [Released Descriptor] ++ (if acl s then [Released Acl] else []) ++
  (if sid_everyone s then [Released Sid] else []).

(** [everyone_full] up to its return; the state is [result]. *)
Definition everyone_full_body (env : hcs_env) : comp SecurityAttributes unit :=
  run* _ := check (sid_ok env) "AllocateAndInitializeSid failed."%string in
  run* _ := log (Acquired Sid) in
  run* _ := modify (fun s => mkSecurity true (acl s)) in
  run* _ := check (acl_ok env) "SetEntriesInAcl failed."%string in
  run* _ := log (Acquired Acl) in
  run* _ := modify (fun s => mkSecurity (sid_everyone s) true) in
  run* _ := check (init_descriptor_ok env) "InitializeSecurityDescriptor failed."%string in
  check (dacl_ok env) "SetSecurityDescriptorDacl failed."%string.

(** [result] is destroyed when an exception leaves [everyone_full]. *)
Definition everyone_full {S} (env : hcs_env) : comp S SecurityAttributes :=
  fun s t => match everyone_full_body env (mkSecurity false false) (t ++ [Acquired Descriptor]) with
             | Ret _ r t' => Ret r s t'
             | Exc w r t' => Exc w s (t' ++ security_destroy r)
             | Block t' => Block t'
             | Terminate t' => Terminate t'
             end.

Definition CreateSection {S} (env : hcs_env) : comp S unit :=
  run* security_attributes := everyone_full env in
  fun s t => match (run* _ := check (section_ok env) "Creating section failed."%string in
                    log (Acquired Section)) s t with
             | Ret a s' t' => Ret a s' (t' ++ security_destroy security_attributes)
             | Exc w s' t' => Exc w s' (t' ++ security_destroy security_attributes)
             | r => r
             end.

(** ** [HCSEnclave] *)

(** The members; [pipe_listener] is null or a thread that is joinable or not. *)
Record Members : Type := mkMembers {
  access_granter : option (list (list Z));
  hcs_system : bool;
  shared_section : bool;
  shared_memory_mapping : bool;
  pipe_closed : bool;
  pipe_listener : option bool;
  started : bool;
}.

Definition no_members : Members := mkMembers None false false false false None false.

Definition set_granter g m := mkMembers g (hcs_system m) (shared_section m) (shared_memory_mapping m)
  (pipe_closed m) (pipe_listener m) (started m).
Definition set_system b m := mkMembers (access_granter m) b (shared_section m) (shared_memory_mapping m)
  (pipe_closed m) (pipe_listener m) (started m).
Definition set_section b m := mkMembers (access_granter m) (hcs_system m) b (shared_memory_mapping m)
  (pipe_closed m) (pipe_listener m) (started m).
Definition set_mapping b m := mkMembers (access_granter m) (hcs_system m) (shared_section m) b
  (pipe_closed m) (pipe_listener m) (started m).
Definition set_pipe_closed b m := mkMembers (access_granter m) (hcs_system m) (shared_section m)
  (shared_memory_mapping m) b (pipe_listener m) (started m).
Definition set_listener l m := mkMembers (access_granter m) (hcs_system m) (shared_section m)
  (shared_memory_mapping m) (pipe_closed m) l (started m).
Definition set_started b m := mkMembers (access_granter m) (hcs_system m) (shared_section m)
  (shared_memory_mapping m) (pipe_closed m) (pipe_listener m) b.

(** [access_granter->add_path], on the member. *)
Definition member_add_path (env : hcs_env) (path : list Z) : comp Members unit :=
  fun m t => match granter_add_path env path (from_option id [] (access_granter m)) t with
             | Ret a g t' => Ret a (set_granter (Some g) m) t'
             | Exc w g t' => Exc w (set_granter (Some g) m) t'
             | Block t' => Block t'
             | Terminate t' => Terminate t'
             end.

(** The body of the constructor. [MapViewOfFile] is not checked: [mapped] is whether
    it succeeded. The system handle becomes a member only after the wait. *)
Definition hcs_body (env : hcs_env) (mapped : bool) (path : list Z) (is_isolated : bool)
  : comp Members unit :=
  run* _ := check (guid_ok env) "CoCreateGuid failed."%string in
  run* _ := check (guid_string_ok env) "Out of memory when converting GUID to string."%string in
  run* _ := modify (set_granter (Some [])) in
  run* _ := check (operation_ok env) "HcsCreateOperation failed."%string in
  scope Operation (
    run* _ := CreateSection env in
    run* _ := modify (set_section true) in
    run* _ := when mapped (log (Acquired Mapping)) in
    run* _ := modify (set_mapping mapped) in
    run* _ := check (canonical_ok env) "filesystem_error"%string in
    run* _ := when is_isolated (member_add_path env path) in
    run* _ := check (create_ok env) "HcsCreateComputeSystem failed."%string in
    run* _ := log (Acquired System) in
    run* _ := wait_operation (create_wait_ok env) in
    run* _ := modify (set_system true) in
    run* _ := check (event_ok env) "CreateEventEx failed."%string in
    run* _ := log (Acquired PipeClosed) in
    run* _ := modify (set_pipe_closed true) in
    run* _ := log (Acquired Listener) in
    modify (set_listener (Some true))).

(** Whether the listener thread comes to its end. *)
Definition listener_ends (env : hcs_env) (t : list event) : bool :=
  if bool_decide (SystemStarted ∈ t) then machine_stops env && pipe_closes env
  else idle_pipe_closes env.

(** [std::thread::join]: a thread that is not joinable makes it throw. *)
Definition thread_join (env : hcs_env) : comp Members unit :=
  fun m t => match pipe_listener m with
             | Some true =>
                 if listener_ends env t then Ret tt (set_listener (Some false) m) (t ++ [ListenerJoined])
                 else Block t
             | _ => Exc "std::system_error"%string m t
             end.

Definition flag (b : bool) (r : resource) : list event := if b then [Released r] else [].

(** The members after the listener, in reverse order of declaration. *)
Definition release_rest (m : Members) : list event :=
  flag (pipe_closed m) PipeClosed ++ flag (shared_memory_mapping m) Mapping ++
  flag (shared_section m) Section ++ flag (hcs_system m) System ++
  granter_destroy (from_option id [] (access_granter m)).

(** Destruction of the members. The deleter of the listener joins the thread; an
    exception in it leaves a destructor, which ends in [std::terminate]. *)
Definition members_destroy (env : hcs_env) : comp Members unit :=
  fun m t => match pipe_listener m with
             | None => Ret tt m (t ++ release_rest m)
             | Some _ => match thread_join env m t with
                         | Ret _ m' t' => Ret tt m' (t' ++ [Released Listener] ++ release_rest m')
                         | Exc _ _ t' => Terminate t'
                         | r => r
                         end
             end.

(** The constructor: when its body throws, the members are destroyed. *)
Definition hcs_construct (env : hcs_env) (mapped : bool) (path : list Z) (is_isolated : bool)
  (t : list event) : result Members unit :=
  match hcs_body env mapped path is_isolated no_members t with
  | Exc w m t' => match members_destroy env m t' with
                  | Ret _ m' t'' => Exc w m' t''
                  | r => r
                  end
  | r => r
  end.

Definition shared_memory_guest_base : Z := Z.of_N RAM_SIZE_IN_MB * 1024 * 1024.

Definition hcs_async_run (env : hcs_env) : comp Members unit :=
  run* _ := check (start_operation_ok env) "HcsCreateOperation failed."%string in
  scope Operation (
    run* _ := check (start_ok env) "HcsStartComputeSystem failed."%string in
    run* _ := log SystemStarted in
    run* _ := wait_operation (start_wait_ok env) in
    modify (set_started true)).

Definition hcs_join (env : hcs_env) : comp Members unit :=
  run* m := get in
  run* _ := when (started m)
    (run* _ := check (exit_event_ok env) "CreateEventEx failed."%string in
     scope ExitEvent (if machine_stops env then ret tt else block)) in
  run* _ := modify (set_started false) in
  thread_join env.

(** ** [HcsEnclavePlatform] *)

Record Platform : Type := mkPlatform { instance : Members; platform_joined : bool }.

Definition on_instance (c : comp Members unit) : comp Platform unit :=
  fun p t => match c (instance p) t with
             | Ret a m t' => Ret a (mkPlatform m (platform_joined p)) t'
             | Exc w m t' => Exc w (mkPlatform m (platform_joined p)) t'
             | Block t' => Block t'
             | Terminate t' => Terminate t'
             end.

Definition platform_async_run (env : hcs_env) : comp Platform unit := on_instance (hcs_async_run env).

Definition platform_join (env : hcs_env) : comp Platform unit :=
  run* p := get in
  run* _ := when (negb (platform_joined p)) (on_instance (hcs_join env)) in
  modify (fun p => mkPlatform (instance p) true).

(** The destructor: an exception in its body ends in [std::terminate]; then the
    members, here the instance, are destroyed. *)
Definition platform_destroy (env : hcs_env) : comp Platform unit :=
  fun p t => match (if negb (platform_joined p) then platform_join env p t else Ret tt p t) with
             | Ret _ p' t' => on_instance (members_destroy env) p' t'
             | Exc _ _ t' => Terminate t'
             | r => r
             end.

Inductive hcs_op : Type := HcsRun | HcsJoin.

(** A program's calls; exceptions are caught by the program. *)
Fixpoint hcs_ops (env : hcs_env) (ops : list hcs_op) : comp Platform unit :=
  match ops with
  | [] => ret tt
  | op :: ops' =>
      fun p t => match (match op with HcsRun => platform_async_run env | HcsJoin => platform_join env end) p t with
                 | Ret _ p' t' => hcs_ops env ops' p' t'
                 | Exc _ p' t' => hcs_ops env ops' p' t'
                 | r => r
                 end
  end.

(** ** Every resource is released once *)

Definition same_resource (r r' : resource) : bool :=
  match r, r' with
  | Descriptor, Descriptor | Sid, Sid | Acl, Acl | Operation, Operation | Section, Section
  | Mapping, Mapping | System, System | PipeClosed, PipeClosed | Listener, Listener
  | ExitEvent, ExitEvent => true
  | Grant p, Grant p' => bool_decide (p = p')
  | _, _ => false
  end.

Definition acquired (r : resource) (t : list event) : nat :=
  length (List.filter (fun e => match e with Acquired r' => same_resource r r' | _ => false end) t).
Definition released (r : resource) (t : list event) : nat :=
  length (List.filter (fun e => match e with Released r' => same_resource r r' | _ => false end) t).

(** Everything acquired was released, but for one each of [kept]. *)
Definition balanced (t : list event) (kept : list resource) : Prop :=
  forall r, acquired r t = (released r t + length (List.filter (same_resource r) kept))%nat.

(** The members a successful construction leaves. *)
Definition held (mapped : bool) (path : list Z) (is_isolated : bool) : list resource :=
  (if mapped then [Mapping] else []) ++ (if is_isolated then [Grant path] else []) ++
  [Section; System; PipeClosed; Listener].

(** The calls up to the creation of the system succeed and the wait for it fails. *)
Definition system_leaks (env : hcs_env) (is_isolated : bool) : bool :=
  guid_ok env && guid_string_ok env && operation_ok env && sid_ok env && acl_ok env &&
  init_descriptor_ok env && dacl_ok env && section_ok env && canonical_ok env &&
  (negb is_isolated || grant_ok env) && create_ok env && negb (create_wait_ok env).

(** Balance of a trace that is known but for the path. *)
Ltac solve_balanced :=
  intros r; destruct r; cbn; solve [reflexivity|destruct (bool_decide _); reflexivity].

Ltac run_body := cbv -[balanced released].

(** Follows the calls of the constructor; [fails] proves the goal where one fails. *)
Ltac construct_cases env mapped is_isolated fails :=
  destruct env as [e1 e2 e3 e4 e5 e6 e7 e8 e9 e10 e11 e12 e13 e14 e15 e16 e17 e18 e19 e20];
  unfold hcs_construct; run_body;
  destruct e1; run_body; [|fails]; destruct e2; run_body; [|fails]; destruct e3; run_body; [|fails];
  destruct e4; run_body; [|fails]; destruct e5; run_body; [|fails]; destruct e6; run_body; [|fails];
  destruct e7; run_body; [|fails]; destruct e8; run_body; [|fails];
  destruct e9; run_body; [|destruct mapped; run_body; fails];
  destruct mapped, is_isolated; run_body; try (destruct e10; run_body; [|fails]);
  (destruct e11; run_body; [|fails]); (destruct e12; run_body; [|fails]);
  (destruct e13; run_body; [|fails]).

(** What a successful construction leaves. *)
Lemma hcs_construct_members env mapped path is_isolated m t :
  hcs_construct env mapped path is_isolated [] = Ret tt m t ->
  pipe_listener m = Some true /\ started m = false /\
  Forall (fun r => released r t = 0%nat) [Section; System; PipeClosed; Listener].
Proof.
  construct_cases env mapped is_isolated ltac:(done).
  all: intros [= <- <-]; split_and!; [done|done|]; by repeat constructor.
Qed.

Lemma hcs_construct_not_started env mapped path is_isolated m t :
  hcs_construct env mapped path is_isolated [] = Ret tt m t -> bool_decide (SystemStarted ∈ t) = false.
Proof. construct_cases env mapped is_isolated ltac:(done). all: intros [= <- <-]; reflexivity. Qed.

(** Construction of a Windows machine neither blocks nor terminates the process.
    Whichever Windows call fails, an exception leaves the constructor only after
    everything acquired before was released, once, with one exception: when waiting
    for the creation of the compute system fails, its handle is never closed. When
    nothing fails, exactly the members are held. *)
Theorem hcs_construct_balanced env mapped path is_isolated :
  match hcs_construct env mapped path is_isolated [] with
  | Ret _ m t => balanced t (held mapped path is_isolated) /\ pipe_listener m = Some true /\ started m = false
  | Exc _ _ t => balanced t (if system_leaks env is_isolated then [System] else [])
  | _ => False
  end.
Proof.
  unfold system_leaks. construct_cases env mapped is_isolated ltac:(solve_balanced).
  all: split; [solve_balanced|done].
Qed.

(** ** Shared memory of the platform *)

(** Where the section is mapped in the host (0: [MapViewOfFile] failed, which nobody checks), and
    what the guest's view of it is. *)
Record HcsShared : Type := mkHcsShared { hcs_shmem_base : Z; hcs_shmem : Shmem }.

(** An access to shared memory: through a null pointer it ends the process. *)
Inductive host_access (A : Type) : Type := Access (a : A) | Throws (what : string) | AccessViolation.
Arguments Access {A} a.
Arguments Throws {A} what.
Arguments AccessViolation {A}.

(** The constructor of [HcsEnclavePlatform]; when its body throws, the instance is destroyed. *)
Definition platform_construct (env : hcs_env) (mapping : Z) (path : list Z) (is_isolated : bool)
  (init_size : Z) (bytes : Z -> Z) : result unit (Platform * HcsShared) :=
  match hcs_construct env (negb (mapping =? 0)) path is_isolated [] with
  | Ret _ m t =>
      if SHMEM_SIZE >? init_size then
        Ret (mkPlatform m false, mkHcsShared mapping (mkShmem shared_memory_guest_base (u64 (0 + init_size)) bytes)) tt t
      else
        match members_destroy env m t with
        | Ret _ _ t' => Exc "Not enough enclave shared memory for initialization arguments."%string tt t'
        | Exc w _ t' => Exc w tt t'
        | Block t' => Block t'
        | Terminate t' => Terminate t'
        end
  | Exc w _ t => Exc w tt t
  | Block t => Block t
  | Terminate t => Terminate t
  end.

(** [allocate_shared_inner]: the host pointer, the enclave address and the new state. *)
Definition hcs_allocate_shared_inner (size alignment : Z) (h : HcsShared) : host_access (Z * Z * HcsShared) :=
  let s := hcs_shmem h in
  let aligned_shmem_offset := u64 (u64 (shmem_offset s + alignment - 1) / alignment * alignment) in
  if (aligned_shmem_offset >=? shmem_offset s) &&
     (u64 (aligned_shmem_offset + size) >? aligned_shmem_offset) &&
     (u64 (aligned_shmem_offset + size) <? SHMEM_SIZE)
  then
    if hcs_shmem_base h =? 0 then AccessViolation
    else Access (hcs_shmem_base h + aligned_shmem_offset, u64 (shmem_guest_base s + aligned_shmem_offset),
                 mkHcsShared (hcs_shmem_base h)
                   (mkShmem (shmem_guest_base s) (u64 (aligned_shmem_offset + size))
                     (memset (shmem_bytes s) aligned_shmem_offset 0 size)))
  else Throws "Not enough enclave shared memory for allocation."%string.

(** [initialize]. *)
Definition hcs_initialize (i : RingbufferInitializer) (h : HcsShared) : host_access HcsShared :=
  if hcs_shmem_base h =? 0 then AccessViolation
  else Access (mkHcsShared (hcs_shmem_base h) (initialize i (hcs_shmem h))).

(** On a mapped section both platforms allocate alike, at host addresses relative to the mapping. *)
Lemma hcs_allocates_like_qemu size alignment h : hcs_shmem_base h <> 0 ->
  hcs_allocate_shared_inner size alignment h =
    match allocate_shared_inner size alignment (hcs_shmem h) with
    | HOk (p, e, s) => Access (hcs_shmem_base h + p, e, mkHcsShared (hcs_shmem_base h) s)
    | HThrow w => Throws w
    end.
Proof.
  intros Hb. unfold hcs_allocate_shared_inner, allocate_shared_inner. cbn zeta.
  destruct (_ && _); [|done]. by destruct (Z.eqb_spec (hcs_shmem_base h) 0).
Qed.

(** When every Windows call but [MapViewOfFile] succeeds, construction does too, and the first use of shared
    memory ends the process. *)
Theorem unmapped_section_unnoticed env path is_isolated init_size bytes m t :
  hcs_construct env false path is_isolated [] = Ret tt m t -> init_size < SHMEM_SIZE ->
  exists h, platform_construct env 0 path is_isolated init_size bytes = Ret (mkPlatform m false, h) tt t /\
    (forall i, hcs_initialize i h = AccessViolation) /\
    (forall size alignment, hcs_allocate_shared_inner size alignment h = AccessViolation \/
       exists w, hcs_allocate_shared_inner size alignment h = Throws w).
Proof.
  intros Hc Hi. unfold platform_construct. cbn [Z.eqb negb]. rewrite Hc.
  rewrite (proj2 (Z.gtb_lt SHMEM_SIZE init_size)) by lia. eexists. split; [done|]. split; [done|].
  intros size alignment. unfold hcs_allocate_shared_inner. destruct (_ && _); [by left|right; by eexists].
Qed.

(** Arguments that do not fit are reported only if the pipe of the idle machine closes. *)
Theorem oversized_arguments_block env mapping path is_isolated init_size bytes m t :
  hcs_construct env (negb (mapping =? 0)) path is_isolated [] = Ret tt m t -> SHMEM_SIZE <= init_size ->
  if idle_pipe_closes env
  then exists t', platform_construct env mapping path is_isolated init_size bytes =
    Exc "Not enough enclave shared memory for initialization arguments."%string tt t'
  else platform_construct env mapping path is_isolated init_size bytes = Block t.
Proof.
  intros Hc Hi. destruct (hcs_construct_members _ _ _ _ _ _ Hc) as (Hl & _ & _).
  pose proof (hcs_construct_not_started _ _ _ _ _ _ Hc) as Hs. unfold platform_construct.
  rewrite Hc. destruct (Z.gtb_spec SHMEM_SIZE init_size); [lia|]. unfold members_destroy, thread_join, listener_ends.
  rewrite Hl, Hs. destruct (idle_pipe_closes env); [by eexists|done].
Qed.

(** ** The end of a session *)

(** The listener thread has been joined exactly when the platform says so. *)
Definition session_inv (p : Platform) : Prop :=
  pipe_listener (instance p) = Some (negb (platform_joined p)).

(** A computation on the instance that leaves the listener as it is. *)
Definition keeps_listener (c : comp Members unit) : Prop :=
  forall m t, match c m t with
              | Ret _ m' _ | Exc _ m' _ => pipe_listener m' = pipe_listener m
              | _ => True
              end.

Lemma hcs_async_run_keeps env : keeps_listener (hcs_async_run env).
Proof.
  intros m t. unfold hcs_async_run, bind, check, scope, wait_operation, check, log, modify, ret, throw.
  by destruct (start_operation_ok env), (start_ok env), (start_wait_ok env).
Qed.

(** Joining a joinable listener ends with the thread joined, throws before the
    thread is touched, or blocks. *)
Lemma hcs_join_cases env m t : pipe_listener m = Some true ->
  (exists m' t', hcs_join env m t = Ret tt m' t' /\ pipe_listener m' = Some false) \/
  (exists w t', hcs_join env m t = Exc w m t') \/ (exists t', hcs_join env m t = Block t').
Proof.
  intros Hl. unfold hcs_join, bind, get, when, check, scope, modify, ret, throw, block, thread_join.
  destruct (started m), (exit_event_ok env), (machine_stops env); cbn; eauto; rewrite Hl;
    destruct (listener_ends env _); cbn; eauto 10.
Qed.

Lemma platform_join_cases env p t : session_inv p ->
  (exists p' t', platform_join env p t = Ret tt p' t' /\ session_inv p' /\ platform_joined p' = true) \/
  (exists w t', platform_join env p t = Exc w p t') \/ (exists t', platform_join env p t = Block t').
Proof.
  unfold session_inv. destruct p as [m [|]]; cbn; intros Hl; unfold platform_join, bind, get, when; cbn -[hcs_join].
  - left. by eexists _, _.
  - unfold on_instance; cbn -[hcs_join]. destruct (hcs_join_cases env m t Hl)
      as [(m' & t' & -> & Hl')|[(w & t' & ->)|(t' & ->)]]; cbn; eauto 10.
Qed.

Lemma hcs_ops_inv env ops : forall p t, session_inv p ->
  match hcs_ops env ops p t with
  | Ret _ p' _ => session_inv p'
  | Block _ => True
  | _ => False
  end.
Proof.
  induction ops as [|[] ops IH]; intros p t Hp; cbn [hcs_ops]; [done| |].
  - unfold platform_async_run, on_instance. pose proof (hcs_async_run_keeps env (instance p) t) as Hk.
    destruct (hcs_async_run env (instance p) t) as [u m' t'|w m' t'|t'|t'] eqn:E; try done.
    + apply IH. unfold session_inv in *. cbn. by rewrite Hk.
    + apply IH. unfold session_inv in *. cbn. by rewrite Hk.
    + unfold hcs_async_run, bind, check, scope, wait_operation, check, log, modify, ret, throw in E.
      by destruct (start_operation_ok env), (start_ok env), (start_wait_ok env).
  - destruct (platform_join_cases env p t Hp) as [(p' & t' & -> & Hi & _)|[(w & t' & ->)|(t' & ->)]];
      [by apply IH|by apply IH|done].
Qed.

Lemma platform_destroy_cases env p t : session_inv p ->
  (exists t', platform_destroy env p t = Terminate t') \/ (exists t', platform_destroy env p t = Block t').
Proof.
  intros Hp. unfold platform_destroy.
  assert (forall p' t', session_inv p' -> platform_joined p' = true ->
    on_instance (members_destroy env) p' t' = Terminate t') as Hd.
  { intros p' t' Hi Hj. unfold session_inv in Hi. rewrite Hj in Hi. cbn in Hi.
    unfold on_instance, members_destroy, thread_join. by rewrite Hi. }
  destruct (platform_joined p) eqn:Hj; cbn [negb].
  - left. exists t. by apply Hd.
  - destruct (platform_join_cases env p t Hp) as [(p' & t' & -> & Hi & Hj')|[(w & t' & ->)|(t' & ->)]];
      eauto.
Qed.

(** A program on Windows never gets past the end of its machine. After any calls
    of [async_run] and [join], exceptions caught, the destruction of the platform
    either blocks forever or ends the process with [std::terminate]: the destructor
    first joins the listener thread and the thread's own deleter joins it again. When
    the machine was started, stops and closes its pipe, it is the latter, with no
    resource released. *)
Theorem hcs_session_never_ends env mapped path is_isolated m t :
  hcs_construct env mapped path is_isolated [] = Ret tt m t ->
  (forall ops, match hcs_ops env ops (mkPlatform m false) t with
    | Ret _ p t1 => (exists t2, platform_destroy env p t1 = Terminate t2) \/
                    (exists t2, platform_destroy env p t1 = Block t2)
    | Block _ => True
    | _ => False
    end) /\
  (start_operation_ok env = true -> start_ok env = true -> start_wait_ok env = true ->
   exit_event_ok env = true -> machine_stops env = true -> pipe_closes env = true ->
   exists p t1 t2, hcs_ops env [HcsRun; HcsJoin] (mkPlatform m false) t = Ret tt p t1 /\
     platform_destroy env p t1 = Terminate t2 /\
     Forall (fun r => released r t2 = 0%nat) [Section; System; PipeClosed; Listener]).
Proof.
  intros Hc. destruct (hcs_construct_members _ _ _ _ _ _ Hc) as (Hl & Hs & Hr). split.
  - intros ops. pose proof (hcs_ops_inv env ops (mkPlatform m false) t Hl) as Hi.
    destruct (hcs_ops env ops (mkPlatform m false) t); try done. by apply platform_destroy_cases.
  - intros H1 H2 H3 H4 H5 H6. cbn [hcs_ops].
    unfold platform_async_run, on_instance, hcs_async_run, bind, check, scope, wait_operation, check, log,
      modify, ret. rewrite H1, H2, H3. cbn -[platform_join].
    unfold platform_join, bind, get, when, on_instance, hcs_join, bind, get, when, check, scope, modify, ret.
    cbn -[thread_join]. rewrite H4, H5. unfold thread_join. cbn -[listener_ends]. rewrite Hl.
    unfold listener_ends. rewrite bool_decide_eq_true_2 by set_solver. rewrite H5, H6.
    cbn. eexists _, _, _. split; [done|]. split; [done|].
    repeat (apply Forall_cons in Hr as [Hx Hr]; constructor;
      [unfold released in *; rewrite !List.filter_app, !length_app, Hx; reflexivity|clear Hx]); constructor.
Qed.

Definition all_well : hcs_env := mkHcsEnv true true true true true true true true true true true true true
  true true true true true true false.

Lemma hcs_session_never_ends_witness :
  exists m t, hcs_construct all_well true [67; 58] true [] = Ret tt m t /\
  exists p t1 t2, hcs_ops all_well [HcsRun; HcsJoin] (mkPlatform m false) t = Ret tt p t1 /\
     platform_destroy all_well p t1 = Terminate t2.
Proof.
  eexists _, _. split; [vm_compute; reflexivity|].
  destruct (hcs_session_never_ends all_well true [67; 58] true _ _ eq_refl) as [_ H].
  destruct (H eq_refl eq_refl eq_refl eq_refl eq_refl eq_refl) as (p & t1 & t2 & H1 & H2 & _).
  by exists p, t1, t2.
Defined.
