(* ===== verification/Transition.v ===== *)
(** * Transitions between kernel and compartment (compartment.asm, macros.asm, syscall.h)

    The assembly that enters a compartment, serves its system calls, resumes it and
    leaves it again, as lists of instructions run on a machine state. The kernel keeps
    what it needs to come back in frames on its own stack, linked through the last stack
    pointer of the core's execution context; compartments can be entered again from the
    callbacks they make, so the frames nest.

    Memory is a map from addresses to the words the code reads and writes there. *)

From S2P Require Import Prelude Cpu.

(** ** Machine *)

Inductive reg : Type :=
| RAX | RBX | RCX | RDX | RSI | RDI | RBP | RSP | R8 | R9 | R10 | R11 | R12 | R13 | R14 | R15.

Definition reg_code (r : reg) : nat :=
  match r with
  | RAX => 0 | RBX => 1 | RCX => 2 | RDX => 3 | RSI => 4 | RDI => 5 | RBP => 6 | RSP => 7
  | R8 => 8 | R9 => 9 | R10 => 10 | R11 => 11 | R12 => 12 | R13 => 13 | R14 => 14 | R15 => 15
  end.

(** [user] is ring 3; [fs] and [gs] are the base addresses. *)
Record cpu : Type := mkCpu {
  rf : reg -> Z; rip : Z; rflags : Z; cr3 : Z; fs : Z; gs : Z; tr : Z; user : bool; mem : Z -> Z;
}.

Definition set_reg (r : reg) (v : Z) (s : cpu) : cpu :=
  mkCpu (fun q => if Nat.eqb (reg_code q) (reg_code r) then v else rf s q)
    (rip s) (rflags s) (cr3 s) (fs s) (gs s) (tr s) (user s) (mem s).

Definition write (a v : Z) (m : Z -> Z) : Z -> Z := fun b => if b =? a then v else m b.

Definition set_mem (m : Z -> Z) (s : cpu) : cpu :=
  mkCpu (rf s) (rip s) (rflags s) (cr3 s) (fs s) (gs s) (tr s) (user s) m.

Inductive instr : Type :=
| MovR (d src : reg)             (** mov d, src *)
| MovI (d : reg) (v : Z)         (** mov d, v *)
| XorSelf (d : reg)              (** xor d, d *)
| Load (d b : reg) (off : Z)     (** mov d, [b + off] *)
| Store (b : reg) (off : Z) (src : reg) (** mov [b + off], src *)
| LoadAbs (d : reg) (a : Z)      (** mov d, [a] *)
| LoadGs (d : reg) (off : Z)     (** mov d, [gs:off] *)
| AddI (d : reg) (v : Z) | SubI (d : reg) (v : Z) | ShrI (d : reg) (v : Z) | ShlI (d : reg) (v : Z)
| AddAbs (d : reg) (a : Z)       (** add d, [a] *)
| Push (r : reg) | Pop (r : reg) | Pushf | Popf
| WrCr3 (r : reg) | WrFs (r : reg) | WrGs (r : reg) | Str (r : reg)
| JmpR (r : reg) | Ret
| Sysret                         (** to ring 3 at RCX with flags R11 *)
| RdCr3 (r : reg) | RdFs (r : reg)
| AndI (d : reg) (v : Z)
| Test (d : reg)                 (** test d, d *)
| CmpI (d : reg) (v : Z)         (** cmp d, v *)
| PushI (v : Z)
| StoreI (b : reg) (off v : Z)   (** mov qword [b + off], v *)
| IncM (b : reg) (off : Z)       (** lock inc qword [b + off] *)
| Ltr (r : reg)
| JmpI (a : Z)
| Iretq.                         (** pops RIP, CS, flags, RSP and SS *)

(** The status flags: carry, parity, auxiliary carry, zero, sign and overflow. *)
Definition STATUS_FLAGS : Z := 0x8D5.

(** The flags with the status flags of [w]. *)
Definition with_status (fl w : Z) : Z := Z.lor (Z.ldiff fl STATUS_FLAGS) (Z.land w STATUS_FLAGS).

(** The other flags: those of the system, the interrupt flag among them, and the direction flag. *)
Definition system_flags (fl : Z) : Z := Z.ldiff fl STATUS_FLAGS.

Definition flag (n : Z) (b : bool) : Z := if b then 2 ^ n else 0.

Definition sign (a : Z) : bool := Z.testbit a 63.

(** Parity of the low byte, zero and sign. *)
Definition result_flags (r : Z) : Z :=
  flag 2 (negb (fold_left xorb (map (Z.testbit r) [0; 1; 2; 3; 4; 5; 6; 7]) false)) + flag 6 (r =? 0) + flag 7 (sign r).

Definition add_flags (a b : Z) : Z :=
  let r := u64 (a + b) in
  result_flags r + flag 0 (2 ^ 64 <=? a + b) + flag 4 (16 <=? a mod 16 + b mod 16) +
  flag 11 (Bool.eqb (sign a) (sign b) && negb (Bool.eqb (sign r) (sign a))).

Definition sub_flags (a b : Z) : Z :=
  let r := u64 (a - b) in
  result_flags r + flag 0 (a <? b) + flag 4 (a mod 16 <? b mod 16) +
  flag 11 (negb (Bool.eqb (sign a) (sign b)) && negb (Bool.eqb (sign r) (sign a))).

(** Logic operations clear carry and overflow. What the processor leaves undefined (the auxiliary carry here, and
    the overflow of shifts by more than one) is left as it was in [fl]. *)
Definition logic_flags (fl r : Z) : Z := result_flags r + Z.land fl 0x10.
Definition shift_flags (fl r : Z) (out : bool) : Z := result_flags r + flag 0 out + Z.land fl 0x810.

(** [inc] keeps the carry. *)
Definition inc_flags (fl a : Z) : Z := Z.lor (Z.ldiff (add_flags a 1) 1) (Z.land fl 1).

Definition set_status (w : Z) (s : cpu) : cpu :=
  mkCpu (rf s) (rip s) (with_status (rflags s) w) (cr3 s) (fs s) (gs s) (tr s) (user s) (mem s).

Arguments with_status : simpl never.
Arguments system_flags : simpl never.
Arguments add_flags : simpl never.
Arguments sub_flags : simpl never.
Arguments logic_flags : simpl never.
Arguments shift_flags : simpl never.
Arguments inc_flags : simpl never.

Lemma status_system fl w : system_flags (with_status fl w) = system_flags fl.
Proof.
  unfold system_flags, with_status. apply Z.bits_inj'. intros n Hn.
  rewrite !Z.ldiff_spec, Z.lor_spec, Z.ldiff_spec, Z.land_spec.
  by destruct (Z.testbit fl n), (Z.testbit w n), (Z.testbit STATUS_FLAGS n).
Qed.

Lemma status_again fl w w' : with_status (with_status fl w) w' = with_status fl w'.
Proof. unfold with_status at 1. fold (system_flags (with_status fl w)). by rewrite status_system. Qed.

(** The interrupt flag is one of the others. *)
Lemma system_interrupt fl : Z.testbit (system_flags fl) 9 = Z.testbit fl 9.
Proof. unfold system_flags. rewrite Z.ldiff_spec. change (Z.testbit STATUS_FLAGS 9) with false. apply andb_true_r. Qed.

Definition push_word (v : Z) (s : cpu) : cpu :=
  let a := u64 (rf s RSP - 8) in set_mem (write a v (mem s)) (set_reg RSP a s).

Definition exec1 (s : cpu) (i : instr) : cpu :=
  match i with
  | MovR d src => set_reg d (rf s src) s
  | MovI d v => set_reg d v s
  | XorSelf d => set_reg d 0 (set_status (logic_flags (rflags s) 0) s)
  | Load d b off => set_reg d (mem s (u64 (rf s b + off))) s
  | Store b off src => set_mem (write (u64 (rf s b + off)) (rf s src) (mem s)) s
  | LoadAbs d a => set_reg d (mem s a) s
  | LoadGs d off => set_reg d (mem s (u64 (gs s + off))) s
  | AddI d v => set_reg d (u64 (rf s d + v)) (set_status (add_flags (rf s d) v) s)
  | SubI d v => set_reg d (u64 (rf s d - v)) (set_status (sub_flags (rf s d) v) s)
  | ShrI d v =>
      let r := Z.shiftr (rf s d) v in
      set_reg d r (set_status (shift_flags (rflags s) r (Z.testbit (rf s d) (v - 1))) s)
  | ShlI d v =>
      let r := u64 (Z.shiftl (rf s d) v) in
      set_reg d r (set_status (shift_flags (rflags s) r (Z.testbit (rf s d) (64 - v))) s)
  | AddAbs d a => set_reg d (u64 (rf s d + mem s a)) (set_status (add_flags (rf s d) (mem s a)) s)
  | Push r => push_word (rf s r) s
  | Pop r => let v := mem s (rf s RSP) in set_reg r v (set_reg RSP (u64 (rf s RSP + 8)) s)
  | Pushf => push_word (rflags s) s
  | Popf => mkCpu (rf (set_reg RSP (u64 (rf s RSP + 8)) s)) (rip s) (mem s (rf s RSP)) (cr3 s) (fs s) (gs s)
              (tr s) (user s) (mem s)
  | WrCr3 r => mkCpu (rf s) (rip s) (rflags s) (rf s r) (fs s) (gs s) (tr s) (user s) (mem s)
  | WrFs r => mkCpu (rf s) (rip s) (rflags s) (cr3 s) (rf s r) (gs s) (tr s) (user s) (mem s)
  | WrGs r => mkCpu (rf s) (rip s) (rflags s) (cr3 s) (fs s) (rf s r) (tr s) (user s) (mem s)
  | Str r => set_reg r (tr s) s
  | JmpR r => mkCpu (rf s) (rf s r) (rflags s) (cr3 s) (fs s) (gs s) (tr s) (user s) (mem s)
  | Ret => mkCpu (rf (set_reg RSP (u64 (rf s RSP + 8)) s)) (mem s (rf s RSP)) (rflags s) (cr3 s) (fs s) (gs s)
             (tr s) (user s) (mem s)
  | Sysret => mkCpu (rf s) (rf s RCX) (rf s R11) (cr3 s) (fs s) (gs s) (tr s) true (mem s)
  | RdCr3 r => set_reg r (cr3 s) s
  | RdFs r => set_reg r (fs s) s
  | AndI d v => set_reg d (Z.land (rf s d) v) (set_status (logic_flags (rflags s) (Z.land (rf s d) v)) s)
  | Test d => set_status (logic_flags (rflags s) (rf s d)) s
  | CmpI d v => set_status (sub_flags (rf s d) v) s
  | PushI v => push_word v s
  | StoreI b off v => set_mem (write (u64 (rf s b + off)) v (mem s)) s
  | IncM b off =>
      let a := u64 (rf s b + off) in
      set_mem (write a (u64 (mem s a + 1)) (mem s)) (set_status (inc_flags (rflags s) (mem s a)) s)
  | Ltr r => mkCpu (rf s) (rip s) (rflags s) (cr3 s) (fs s) (gs s) (rf s r) (user s) (mem s)
  | JmpI a => mkCpu (rf s) a (rflags s) (cr3 s) (fs s) (gs s) (tr s) (user s) (mem s)
  | Iretq =>
      let sp := rf s RSP in
      mkCpu (rf (set_reg RSP (mem s (u64 (sp + 24))) s)) (mem s sp) (mem s (u64 (sp + 16))) (cr3 s) (fs s) (gs s)
        (tr s) (negb (Z.land (mem s (u64 (sp + 8))) 3 =? 0)) (mem s)
  end.

Definition exec (code : list instr) (s : cpu) : cpu := fold_left exec1 code s.

(** ** The code *)

Definition RBX_OFFSET : Z := 0.
Definition RBP_OFFSET : Z := 8.
Definition R12_OFFSET : Z := 16.
Definition R13_OFFSET : Z := 24.
Definition R14_OFFSET : Z := 32.
Definition R15_OFFSET : Z := 40.
Definition REGS_END : Z := 48.
Definition COMPARTMENTBASE_PAGETABLE_OFFSET : Z := 0.
Definition COMPARTMENTBASE_TLS_OFFSET : Z := 8.
Definition CLEAN_RFLAGS : Z := 514.
Definition PCD_SELF_OFFSET : Z := 0.
Definition PCD_TEC_OFFSET : Z := 24.
Definition PCD_LOG2_SIZE : Z := 7.
Definition TEC_TLS_OFFSET : Z := 16.
Definition TEC_LAST_SP_OFFSET : Z := 40.

Section Code.
(** Addresses of the variables [kernel_pagetable] and [per_core_data], and of the labels
    [.compartment_stub]. *)
Context (kernel_pagetable per_core_data enter_stub resume_stub : Z).

Definition save_registers : list instr :=
  [SubI RSP REGS_END; Store RSP RBX_OFFSET RBX; Store RSP RBP_OFFSET RBP; Store RSP R12_OFFSET R12;
   Store RSP R13_OFFSET R13; Store RSP R14_OFFSET R14; Store RSP R15_OFFSET R15].

Definition restore_registers : list instr :=
  [Load RBX RSP RBX_OFFSET; Load RBP RSP RBP_OFFSET; Load R12 RSP R12_OFFSET; Load R13 RSP R13_OFFSET;
   Load R14 RSP R14_OFFSET; Load R15 RSP R15_OFFSET; AddI RSP REGS_END].

Definition save_kernel_state (last self : reg) : list instr := save_registers ++ [Pushf; Push last; Push self].

Definition restore_kernel_state (last self : reg) : list instr := [Pop self; Pop last; Popf] ++ restore_registers.

Definition get_compartment_from_state (r : reg) : list instr := [Load r RSP 0].

Definition get_thread_execution_context_entry (r : reg) : list instr :=
  [LoadGs r PCD_SELF_OFFSET; AddI r PCD_TEC_OFFSET].

Definition reset_per_core_pointer : list instr :=
  [Str RAX; SubI RAX 0x33; ShrI RAX 4; ShlI RAX PCD_LOG2_SIZE; AddAbs RAX per_core_data; WrGs RAX].

(** Called with lambda, ret, data in RDI, RSI, RDX, fp in RCX, sp in R8 and self in R9:
    the part up to ring 3. *)
Definition enter_from_kernel : list instr :=
  get_thread_execution_context_entry R10 ++ [Load R11 R10 TEC_LAST_SP_OFFSET] ++
  save_kernel_state R11 R9 ++
  get_thread_execution_context_entry R10 ++ [Store R10 TEC_LAST_SP_OFFSET RSP] ++
  [Load RAX R9 COMPARTMENTBASE_TLS_OFFSET; WrFs RAX] ++
  [Load RAX R9 COMPARTMENTBASE_PAGETABLE_OFFSET; WrCr3 RAX] ++
  [MovR RAX RCX; MovI RCX enter_stub; MovI R11 CLEAN_RFLAGS; Sysret].

(** The stub at the end runs in ring 3. *)
Definition compartment_enter : list instr :=
  enter_from_kernel ++ [MovR RSP R8; XorSelf R8; Push R8; JmpR RAX].

(** Called with ret in RDI, sp in RSI and self in RDX. *)
Definition compartment_resume : list instr :=
  [Load RAX RDX COMPARTMENTBASE_TLS_OFFSET; WrFs RAX] ++
  [Load RAX RDX COMPARTMENTBASE_PAGETABLE_OFFSET; WrCr3 RAX] ++
  [MovR RAX RDI; MovI RCX resume_stub; MovI R11 CLEAN_RFLAGS; Sysret] ++
  [MovR RSP RSI; Popf; Ret].

(** What compartment_enter leaves, from the frame the context names. *)
Definition leave_frame (self : reg) : list instr :=
  restore_kernel_state R11 self ++ [Store R10 TEC_LAST_SP_OFFSET R11].

(** The part of kernel_enter that every system call runs. *)
Definition kernel_enter_prefix : list instr :=
  [Push R11; MovR RCX R10; LoadAbs RAX kernel_pagetable; WrCr3 RAX] ++
  reset_per_core_pointer ++ get_thread_execution_context_entry R10 ++
  [MovR R11 RSP; Load RSP R10 TEC_LAST_SP_OFFSET; Load RAX R10 TEC_TLS_OFFSET; WrFs RAX].

Inductive handler : Type := ForwardAllocChunk | ForwardAllocMetaData | ForwardDeallocChunk | ForwardCallback.

Inductive Syscalls : Type :=
| SYSCALL_COMPARTMENT_EXIT | SYSCALL_COMPARTMENT_RETURN | SYSCALL_COMPARTMENT_ALLOC_CHUNK
| SYSCALL_COMPARTMENT_ALLOC_META_DATA | SYSCALL_COMPARTMENT_DEALLOC_CHUNK | SYSCALL_COMPARTMENT_CALLBACK.

Definition syscall_code (c : Syscalls) : Z :=
  match c with
  | SYSCALL_COMPARTMENT_EXIT => 0 | SYSCALL_COMPARTMENT_RETURN => 1 | SYSCALL_COMPARTMENT_ALLOC_CHUNK => 2
  | SYSCALL_COMPARTMENT_ALLOC_META_DATA => 3 | SYSCALL_COMPARTMENT_DEALLOC_CHUNK => 4
  | SYSCALL_COMPARTMENT_CALLBACK => 5
  end.

(** The kernel is back behind its call of [compartment_enter]; the same after
    [compartment_forward_exit(self, status)]; or a handler is called, its argument registers
    set, and comes back in the state it was called in but for what it computed. *)
Inductive kernel_entry : Type :=
| KReturn (s : cpu)
| KExit (self status : Z) (s : cpu)
| KCall (h : handler) (s : cpu).

Definition exit_frame (s : cpu) : kernel_entry :=
  let s1 := exec (leave_frame RDI) s in
  KExit (rf s1 RDI) (rf s1 RSI) (exec [MovI RAX 0; Ret] s1).

(** [cmp rdi, c] and the branch behind it. *)
Definition switch (c : Syscalls) (same other : cpu -> kernel_entry) (s : cpu) : kernel_entry :=
  let s' := exec [CmpI RDI (syscall_code c)] s in
  if rf s RDI =? syscall_code c then same s' else other s'.

Definition call_handler (h : handler) (s : cpu) : kernel_entry :=
  KCall h (exec (get_compartment_from_state RDI ++ [Push R11]) s).

Definition return_frame (s : cpu) : kernel_entry := KReturn (exec (leave_frame RAX ++ [MovI RAX 1; Ret]) s).

Definition kernel_enter (s : cpu) : kernel_entry :=
  (switch SYSCALL_COMPARTMENT_RETURN return_frame
  (switch SYSCALL_COMPARTMENT_ALLOC_CHUNK (call_handler ForwardAllocChunk)
  (switch SYSCALL_COMPARTMENT_ALLOC_META_DATA (call_handler ForwardAllocMetaData)
  (switch SYSCALL_COMPARTMENT_DEALLOC_CHUNK (call_handler ForwardDeallocChunk)
  (switch SYSCALL_COMPARTMENT_CALLBACK (call_handler ForwardCallback)
  exit_frame))))) (exec kernel_enter_prefix s).

(** Behind the call of a handler, its result in RAX. *)
Definition finish_call : list instr :=
  [Pop R11; MovR RDI RAX; MovR RSI R11] ++ get_compartment_from_state RDX ++ compartment_resume.

Definition abort_kernel_callback (s : cpu) : kernel_entry :=
  exit_frame (exec ([MovR RSI RDI] ++ get_thread_execution_context_entry R10 ++ [Load RSP R10 TEC_LAST_SP_OFFSET]) s).

(** The instruction, with nothing masked from the flags; [syscall()] moves RCX to R10
    before it. *)
Definition do_syscall (next : Z) (s : cpu) : cpu :=
  let s1 := set_reg R11 (rflags s) (set_reg RCX next (exec [MovR R10 RCX] s)) in
  mkCpu (rf s1) (rip s1) (rflags s1) (cr3 s1) (fs s1) (gs s1) (tr s1) false (mem s1).

End Code.

(** ** What the kernel's stack holds *)

(** What a call of [compartment_enter] has to give back: stack pointer of the frame, the
    compartment, the last stack pointer before, the flags, the registers a function has to
    preserve, and the return address. *)
Record frame : Type := mkFrame {
  f_sp : Z; f_self : Z; f_last : Z; f_flags : Z;
  f_rbx : Z; f_rbp : Z; f_r12 : Z; f_r13 : Z; f_r14 : Z; f_r15 : Z; f_ret : Z;
}.

Definition frame_words (f : frame) : list Z :=
  [f_self f; f_last f; f_flags f; f_rbx f; f_rbp f; f_r12 f; f_r13 f; f_r14 f; f_r15 f; f_ret f].

Definition FRAME_SIZE : Z := 80.

(** The words lie one after the other from the frame's stack pointer. *)
Fixpoint words_at (m : Z -> Z) (a : Z) (ws : list Z) : Prop :=
  match ws with [] => True | w :: ws' => m a = w /\ words_at m (a + 8) ws' end.

Definition frame_at (m : Z -> Z) (f : frame) : Prop := words_at m (f_sp f) (frame_words f).

Lemma words_at_ext m m' ws : forall a,
  (forall b, a <= b < a + 8 * Z.of_nat (length ws) -> m' b = m b) -> words_at m a ws -> words_at m' a ws.
Proof.
  induction ws as [|w ws IH]; intros a Hm Hw; [done|]. destruct Hw as [<- Hw]. cbn [length] in Hm. split.
  - apply Hm. lia.
  - apply IH; [|done]. intros b Hb. apply Hm. lia.
Qed.

Lemma frame_at_ext m m' f : (forall b, f_sp f <= b < f_sp f + FRAME_SIZE -> m' b = m b) ->
  frame_at m f -> frame_at m' f.
Proof. intros Hm. apply words_at_ext. exact Hm. Qed.

(** The memory once the frame has been stored. *)
Definition frame_mem (f : frame) (m : Z -> Z) : Z -> Z :=
  write (f_sp f) (f_self f) (write (f_sp f + 8) (f_last f) (write (f_sp f + 16) (f_flags f)
  (write (f_sp f + 64) (f_r15 f) (write (f_sp f + 56) (f_r14 f) (write (f_sp f + 48) (f_r13 f)
  (write (f_sp f + 40) (f_r12 f) (write (f_sp f + 32) (f_rbp f) (write (f_sp f + 24) (f_rbx f) m)))))))).

Lemma write_eq a v m b : b = a -> write a v m b = v.
Proof. intros ->. unfold write. by rewrite Z.eqb_refl. Qed.

Lemma write_ne a v m b : b <> a -> write a v m b = m b.
Proof. intros Hne. unfold write. by destruct (Z.eqb_spec b a). Qed.

Lemma write_cong a a' v v' m m' : a = a' -> v = v' -> m = m' -> write a v m = write a' v' m'.
Proof. by intros -> -> ->. Qed.

Lemma frame_mem_ne f m a : ~ f_sp f <= a < f_sp f + 72 -> frame_mem f m a = m a.
Proof. intros Ha. unfold frame_mem. by rewrite !write_ne by lia. Qed.

Lemma frame_mem_at f m : m (f_sp f + 72) = f_ret f -> frame_at (frame_mem f m) f.
Proof.
  intros Hr. unfold frame_at, frame_words. cbn [words_at]. split_and!; try done;
    [unfold frame_mem; repeat first [rewrite write_eq by lia; done | rewrite write_ne by lia]..|].
  rewrite frame_mem_ne, <- Hr by lia. f_equal. lia.
Qed.

Lemma exec_app c1 c2 s : exec (c1 ++ c2) s = exec c2 (exec c1 s).
Proof. apply fold_left_app. Qed.

(** Resolves the reads and the wrap-around of addresses that are known to be in range;
    [known] rewrites with what the state says of memory. *)
Ltac read_state known :=
  cbv [REGS_END RBX_OFFSET RBP_OFFSET R12_OFFSET R13_OFFSET R14_OFFSET R15_OFFSET PCD_SELF_OFFSET PCD_TEC_OFFSET
       TEC_TLS_OFFSET TEC_LAST_SP_OFFSET COMPARTMENTBASE_TLS_OFFSET COMPARTMENTBASE_PAGETABLE_OFFSET] in *;
  repeat first
    [ known
    | rewrite Z.add_0_r
    | match goal with
      | |- context [write ?a ?v ?m ?b] => rewrite (write_eq a v m b) by lia
      | |- context [write ?a ?v ?m ?b] => rewrite (write_ne a v m b) by lia
      | |- context [u64 ?x] => rewrite (u64_small x) by (unfold is_u64; lia)
      end ].

Section Frames.
Context (kernel_pagetable per_core_data enter_stub resume_stub : Z).
Context (kbase ktop pcds core kpt ktls outer_sp : Z) (is_comp : Z -> Prop) (pt_of tls_of : Z -> Z).

(** The core's data, and where its context has the last stack pointer. *)
Definition pcd : Z := pcds + 128 * core.
Definition LAST : Z := pcd + 64.

(** Words the kernel's own code never changes: the two variables, the core's own
    pointer and thread-local block, and the first two members of each compartment. *)
Definition static_word (a v : Z) : Prop :=
  (a = kernel_pagetable /\ v = kpt) \/ (a = per_core_data /\ v = pcds) \/ (a = pcd /\ v = pcd) \/
  (a = pcd + 40 /\ v = ktls) \/
  exists self, is_comp self /\ ((a = self /\ v = pt_of self) \/ (a = self + 8 /\ v = tls_of self)).

Definition kernel_word (a : Z) : Prop := kbase <= a < ktop \/ a = LAST \/ exists v, static_word a v.

Lemma static_comp self : is_comp self ->
  static_word self (pt_of self) /\ static_word (self + 8) (tls_of self).
Proof. intros Hc. unfold static_word. split; do 4 right; exists self; tauto. Qed.

Record layout : Prop := {
  ly_core : 0 <= core < 256;
  ly_pcds : 0 <= pcds /\ pcds + 128 * 256 <= 2 ^ 64;
  ly_stack : 0 <= kbase /\ ktop < 2 ^ 64;
  ly_static : forall a v, static_word a v -> 0 <= a < 2 ^ 64 /\ ~ kbase <= a < ktop /\ a <> LAST;
  ly_last : ~ kbase <= LAST < ktop;
}.
Context (Hly : layout).

Definition statics_ok (m : Z -> Z) : Prop := forall a v, static_word a v -> m a = v.

Lemma pcd_bounds : 0 <= pcd /\ pcd + 128 <= 2 ^ 64.
Proof. unfold pcd. destruct Hly as [Hc Hp _ _ _]. lia. Qed.

(** [frame_of s] is what the frame of an entry from [s] should hold: the flags are pushed behind the [sub] that makes
    room for the registers. *)
Definition frame_of (s : cpu) : frame :=
  mkFrame (rf s RSP - 72) (rf s R9) (mem s LAST) (with_status (rflags s) (sub_flags (rf s RSP) REGS_END)) (rf s RBX) (rf s RBP) (rf s R12) (rf s R13)
    (rf s R14) (rf s R15) (mem s (rf s RSP)).

(** Runs straight-line code on a symbolic state. *)
Ltac code_cbn := cbn -[u64 write Z.add Z.sub Z.shiftr Z.shiftl frame_at frame_of frame_mem].
Ltac run_code := code_cbn; unfold push_word, set_mem; code_cbn.

(** The kernel's part of the entry writes exactly the frame and the link to it. *)
Lemma enter_from_kernel_spec s :
  gs s = pcd -> statics_ok (mem s) -> is_comp (rf s R9) -> kbase <= rf s RSP - 72 -> rf s RSP + 8 <= ktop ->
  let k := exec (enter_from_kernel enter_stub) s in
  user k = true /\ rf k RAX = rf s RCX /\ rf k RDI = rf s RDI /\ rf k RSI = rf s RSI /\ rf k RDX = rf s RDX /\
  rf k R8 = rf s R8 /\ cr3 k = pt_of (rf s R9) /\ fs k = tls_of (rf s R9) /\ tr k = tr s /\
  mem k = write LAST (rf s RSP - 72) (frame_mem (frame_of s) (mem s)).
Proof.
  intros Hgs Hst Hc Hlo Hhi. pose proof pcd_bounds as Hp. destruct Hly as [_ _ Hstack Hstatic Hlast].
  pose proof (Hst pcd pcd ltac:(unfold static_word; tauto)) as Hself.
  destruct (Hstatic pcd pcd ltac:(unfold static_word; tauto)) as (_ & Hself_out & Hself_last).
  assert (static_word (rf s R9) (pt_of (rf s R9))) as Hpt by by apply static_comp.
  assert (static_word (rf s R9 + 8) (tls_of (rf s R9))) as Htls by by apply static_comp.
  pose proof (Hstatic _ _ Hpt) as Hr9. pose proof (Hstatic _ _ Htls) as Hr9'.
  apply Hst in Hpt, Htls. unfold LAST in *. run_code. rewrite Hgs.
  split_and!; try reflexivity; read_state ltac:(rewrite Hself).
  - exact Hpt.
  - exact Htls.
  - unfold frame_mem, frame_of, LAST. cbn -[write Z.add Z.sub].
    repeat (apply write_cong; [lia|first [reflexivity|lia|apply status_again|f_equal; lia]|]). done.
Qed.

Lemma enter_stub_spec k :
  let u := exec [MovR RSP R8; XorSelf R8; Push R8; JmpR RAX] k in
  user u = user k /\ rip u = rf k RAX /\ rf u RDI = rf k RDI /\ rf u RSI = rf k RSI /\ rf u RDX = rf k RDX /\
  rf u RSP = u64 (rf k R8 - 8) /\ cr3 u = cr3 k /\ fs u = fs k /\ tr u = tr k /\
  mem u = write (u64 (rf k R8 - 8)) 0 (mem k).
Proof. run_code. by split_and!. Qed.

Lemma enter_spec s :
  gs s = pcd -> statics_ok (mem s) -> is_comp (rf s R9) ->
  kbase <= rf s RSP - 72 -> rf s RSP + 8 <= ktop -> ~ kernel_word (u64 (rf s R8 - 8)) ->
  let u := exec (compartment_enter enter_stub) s in
  user u = true /\ rip u = rf s RCX /\ rf u RDI = rf s RDI /\ rf u RSI = rf s RSI /\ rf u RDX = rf s RDX /\
  rf u RSP = u64 (rf s R8 - 8) /\ cr3 u = pt_of (rf s R9) /\ fs u = tls_of (rf s R9) /\ tr u = tr s /\
  frame_at (mem u) (frame_of s) /\ mem u LAST = f_sp (frame_of s) /\
  forall a, ~ rf s RSP - 72 <= a < rf s RSP -> a <> LAST -> a <> u64 (rf s R8 - 8) -> mem u a = mem s a.
Proof.
  intros Hgs Hst Hc Hlo Hhi Hu. destruct Hly as [_ _ _ _ Hlast].
  destruct (enter_from_kernel_spec s Hgs Hst Hc Hlo Hhi) as (Hk1 & Hk2 & Hk3 & Hk4 & Hk5 & Hk6 & Hk7 & Hk8 & Hk9 & Hm).
  unfold compartment_enter. rewrite exec_app. set (k := exec (enter_from_kernel enter_stub) s) in *. clearbody k.
  destruct (enter_stub_spec k) as (Hs1 & Hs2 & Hs3 & Hs4 & Hs5 & Hs6 & Hs7 & Hs8 & Hs9 & Hsm).
  cbv zeta. set (u := exec [MovR RSP R8; _; _; _] k) in *. clearbody u. rewrite Hk6, Hm in Hsm.
  unfold kernel_word in Hu.
  assert (forall a, kbase <= a < ktop -> a <> u64 (rf s R8 - 8)) as Hus by (intros a Ha ->; tauto).
  split_and!; [congruence..| | |]; rewrite ?Hsm.
  - apply (frame_at_ext (frame_mem (frame_of s) (mem s))).
    + unfold FRAME_SIZE, frame_of, f_sp. intros b Hb. rewrite !write_ne; [done|lia|apply Hus; lia].
    + apply frame_mem_at. unfold frame_of, f_sp, f_ret. f_equal. lia.
  - rewrite write_ne by (intros E; rewrite <- E in Hu; tauto). by apply write_eq.
  - intros a Ha Hal Hau. rewrite !write_ne by done. apply frame_mem_ne. unfold frame_of, f_sp. lia.
Qed.

(** Leaving gives back what the frame holds; the status flags are those of the last [add]. *)
Definition restored (f : frame) (result : Z) (s : cpu) : Prop :=
  rf s RBX = f_rbx f /\ rf s RBP = f_rbp f /\ rf s R12 = f_r12 f /\ rf s R13 = f_r13 f /\ rf s R14 = f_r14 f /\
  rf s R15 = f_r15 f /\ rf s RSP = f_sp f + FRAME_SIZE /\ rip s = f_ret f /\ system_flags (rflags s) = system_flags (f_flags f) /\
  rf s RAX = result.

(** [s'] has the system registers of [s]. *)
Definition same_system (s s' : cpu) : Prop :=
  cr3 s' = cr3 s /\ fs s' = fs s /\ gs s' = gs s /\ tr s' = tr s /\ user s' = user s.

Lemma leave_spec self v f s :
  self = RAX \/ self = RDI ->
  rf s RSP = f_sp f -> rf s R10 = pcd + PCD_TEC_OFFSET -> frame_at (mem s) f ->
  kbase <= f_sp f -> f_sp f + FRAME_SIZE <= ktop ->
  let s1 := exec (leave_frame self) s in
  let s2 := exec [MovI RAX v; Ret] s1 in
  restored f v s2 /\ same_system s s2 /\ mem s2 = write LAST (f_last f) (mem s) /\
  rf s1 self = f_self f /\ rf s1 RSI = rf s RSI.
Proof.
  intros Hself Hsp H10 Hf Hlo Hhi. destruct Hly as [_ _ [Hk0 Hk1] _ Hlast]. pose proof pcd_bounds as Hp.
  unfold FRAME_SIZE, LAST in *. destruct Hf as (F0 & F1 & F2 & F3 & F4 & F5 & F6 & F7 & F8 & F9 & _).
  unfold restored, same_system, FRAME_SIZE. set (m := mem s) in *.
  destruct Hself as [-> | ->]; run_code; rewrite Hsp, H10; fold m; read_state fail; split_and!;
    first [done | lia | apply write_cong; [lia|done|done] | rewrite status_system; f_equal; etransitivity; [|eassumption]; f_equal; lia
      | etransitivity; [|eassumption]; f_equal; lia].
Qed.

(** The common part of a system call: the caller's stack pointer is kept in R11, the
    kernel's page table, per-core data, stack and thread-local block are put in place
    whatever the compartment has left in the registers, and the flags are stored through
    the compartment's stack pointer. *)
Lemma prefix_spec s :
  tr s = TSS_SEG core -> statics_ok (mem s) -> ~ kernel_word (u64 (rf s RSP - 8)) ->
  let s1 := exec (kernel_enter_prefix kernel_pagetable per_core_data) s in
  rf s1 RSP = mem s LAST /\ rf s1 R10 = pcd + PCD_TEC_OFFSET /\ rf s1 R11 = u64 (rf s RSP - 8) /\
  rf s1 RDI = rf s RDI /\ rf s1 RSI = rf s RSI /\ rf s1 RDX = rf s RDX /\ rf s1 RCX = rf s R10 /\
  cr3 s1 = kpt /\ fs s1 = ktls /\ gs s1 = pcd /\ tr s1 = tr s /\ user s1 = user s /\
  mem s1 = write (u64 (rf s RSP - 8)) (rf s R11) (mem s).
Proof.
  intros Htr Hst Hu. pose proof pcd_bounds as Hp. destruct Hly as [Hcore Hpcds _ Hstatic _].
  assert (forall a v, static_word a v -> write (u64 (rf s RSP - 8)) (rf s R11) (mem s) a = v) as Hst'.
  { intros a v Ha. rewrite write_ne; [by apply Hst|]. intros ->. apply Hu. unfold kernel_word. eauto. }
  assert (write (u64 (rf s RSP - 8)) (rf s R11) (mem s) LAST = mem s LAST) as Hlast.
  { apply write_ne. intros E. apply Hu. unfold kernel_word. rewrite <- E. tauto. }
  pose proof (Hst' kernel_pagetable kpt ltac:(unfold static_word; tauto)) as Hkpt.
  pose proof (Hst' per_core_data pcds ltac:(unfold static_word; tauto)) as Hpd.
  pose proof (Hst' pcd pcd ltac:(unfold static_word; tauto)) as Hself.
  pose proof (Hst' (pcd + 40) ktls ltac:(unfold static_word; tauto)) as Hktls.
  run_code. rewrite Htr. unfold TSS_SEG, GDT_TSS_OFFSET.
  set (m1 := write (u64 (rf s RSP - 8)) (rf s R11) (mem s)) in *. clearbody m1.
  remember (u64 (rf s RSP - 8)) as usp eqn:Husp.
  rewrite (u64_small (48 + 16 * core + 3 - 51)) by (unfold is_u64; lia).
  rewrite Z.shiftr_div_pow2 by lia. replace ((48 + 16 * core + 3 - 51) / 2 ^ 4) with core by zlia.
  unfold PCD_LOG2_SIZE. rewrite Z.shiftl_mul_pow2 by lia. rewrite Hpd.
  rewrite (u64_small (core * 2 ^ 7)) by (unfold is_u64; lia).
  replace (u64 (core * 2 ^ 7 + pcds)) with pcd by (unfold pcd in *; rewrite u64_small; unfold is_u64; lia).
  unfold LAST in *. read_state ltac:(rewrite Hself). replace (pcd + 24 + 40) with (pcd + 64) by lia.
  replace (pcd + 24 + 16) with (pcd + 40) by lia. by split_and!.
Qed.

Lemma finish_call_spec f usp s :
  statics_ok (mem s) -> is_comp (f_self f) -> mem s (f_sp f) = f_self f -> mem s (f_sp f - 8) = usp ->
  rf s RSP = f_sp f - 8 -> kbase <= f_sp f - 8 -> f_sp f < ktop ->
  let u := exec (finish_call resume_stub) s in
  user u = true /\ cr3 u = pt_of (f_self f) /\ fs u = tls_of (f_self f) /\ tr u = tr s /\ mem u = mem s /\
  rf u RAX = rf s RAX /\ rflags u = mem s usp /\ rip u = mem s (u64 (usp + 8)) /\
  rf u RSP = u64 (u64 (usp + 8) + 8).
Proof.
  intros Hst Hc Hself Husp Hsp Hlo Hhi. destruct Hly as [_ _ [Hk0 Hk1] Hstatic _].
  destruct (static_comp _ Hc) as [Hpt Htls].
  pose proof (Hstatic _ _ Hpt) as Hr. pose proof (Hstatic _ _ Htls) as Hr'. apply Hst in Hpt, Htls.
  assert (u64 (f_sp f - 8 + 8) = f_sp f) as E by (rewrite u64_small by (unfold is_u64; lia); lia).
  assert (u64 (f_self f + 8) = f_self f + 8) as E1 by (apply u64_small; unfold is_u64; lia).
  assert (u64 (f_self f) = f_self f) as E2 by (apply u64_small; unfold is_u64; lia).
  assert (u64 (f_sp f) = f_sp f) as E3 by (apply u64_small; unfold is_u64; lia).
  run_code. rewrite Hsp, Husp. cbv [COMPARTMENTBASE_TLS_OFFSET COMPARTMENTBASE_PAGETABLE_OFFSET].
  rewrite !E, !Z.add_0_r, !E3, !Hself, !E1, !E2, !Hpt, !Htls. by split_and!.
Qed.

(** ** The system

    The frames of the entries under way, innermost first. A frame whose compartment has
    made a system call that is being served is suspended, with the stack pointer the
    compartment goes on with. *)

Definition frames : Type := list (frame * option Z).

(** The kernel's stack is in use from here on. *)
Definition low (g : frames) : Z :=
  match g with
  | [] => ktop
  | (f, None) :: _ => f_sp f
  | (f, Some _) :: _ => f_sp f - 8
  end.

(** The frames lie above each other and are linked from [last]. *)
Fixpoint chain (m : Z -> Z) (g : frames) (last : Z) : Prop :=
  match g with
  | [] => last = outer_sp
  | (f, p) :: g' =>
      last = f_sp f /\ frame_at m f /\ (forall u, p = Some u -> m (f_sp f - 8) = u) /\ is_comp (f_self f) /\
      kbase <= f_sp f - 8 /\ f_sp f + FRAME_SIZE <= low g' /\ chain m g' (f_last f)
  end.

Definition suspended (g : frames) : Prop := Forall (fun x => snd x <> None) g.

(** The kernel runs with its own page table, thread-local block and per-core data. *)
Definition in_kernel (s : cpu) : Prop := user s = false /\ cr3 s = kpt /\ fs s = ktls /\ gs s = pcd.

Definition trans_inv (s : cpu) (g : frames) : Prop :=
  statics_ok (mem s) /\ tr s = TSS_SEG core /\ chain (mem s) g (mem s LAST) /\
  if user s then exists f g', g = (f, None) :: g' /\ suspended g' /\ cr3 s = pt_of (f_self f)
  else suspended g /\ in_kernel s.

(** A system call from [s]; [next] is the address of the instruction behind. *)
Definition syscall_entry (next : Z) (s : cpu) : kernel_entry :=
  kernel_enter kernel_pagetable per_core_data (do_syscall next s).

Inductive trans : cpu * frames -> cpu * frames -> Prop :=
| T_kernel s s' g : (** kernel code keeps the stack in use and the words it never changes *)
    user s = false -> same_system s s' ->
    (forall a, a = LAST \/ (exists v, static_word a v) \/ low g <= a < ktop -> mem s' a = mem s a) ->
    trans (s, g) (s', g)
| T_enter s g : (** the kernel calls [compartment_enter] with room on its stack *)
    user s = false -> is_comp (rf s R9) -> kbase <= rf s RSP - 80 -> rf s RSP + 8 <= low g ->
    ~ kernel_word (u64 (rf s R8 - 8)) ->
    trans (s, g) (exec (compartment_enter enter_stub) s, (frame_of s, None) :: g)
| T_user s s' g : (** compartment code sets registers at will but no word of the kernel *)
    user s = true -> user s' = true -> cr3 s' = cr3 s -> tr s' = tr s ->
    (forall a, kernel_word a -> mem s' a = mem s a) ->
    trans (s, g) (s', g)
| T_return s s' f g next :
    user s = true -> ~ kernel_word (u64 (rf s RSP - 8)) ->
    syscall_entry next s = KReturn s' -> trans (s, (f, None) :: g) (s', g)
| T_exit s s' f g next self status :
    user s = true -> ~ kernel_word (u64 (rf s RSP - 8)) ->
    syscall_entry next s = KExit self status s' -> trans (s, (f, None) :: g) (s', g)
| T_call s s' f g next h :
    user s = true -> ~ kernel_word (u64 (rf s RSP - 8)) ->
    syscall_entry next s = KCall h s' ->
    trans (s, (f, None) :: g) (s', (f, Some (u64 (rf s RSP - 8))) :: g)
| T_resume s f usp g : (** the handler comes back *)
    user s = false -> rf s RSP = f_sp f - 8 ->
    trans (s, (f, Some usp) :: g) (exec (finish_call resume_stub) s, (f, None) :: g)
| T_abort s s' f usp g self status :
    user s = false -> abort_kernel_callback s = KExit self status s' ->
    trans (s, (f, Some usp) :: g) (s', g).

Inductive trans_run (s0 : cpu) : cpu * frames -> Prop :=
| trans_start : trans_run s0 (s0, [])
| trans_next x y : trans_run s0 x -> trans x y -> trans_run s0 y.

(** *** The invariant *)

Lemma frames_low m g : forall last, chain m g last -> low g <= ktop.
Proof.
  induction g as [|[f [u|]] g IH]; intros last; cbn; [lia| |];
    intros (_ & _ & _ & _ & _ & Hl & Hc); apply IH in Hc; unfold FRAME_SIZE in Hl; lia.
Qed.

Lemma frames_ext m m' g : (forall b, low g <= b < ktop -> m' b = m b) ->
  forall last, chain m g last -> chain m' g last.
Proof.
  induction g as [|[f p] g IH]; intros Hm last Hc; [done|].
  destruct Hc as (-> & Hf & Hp & Hi & Hk & Hl & Hc). pose proof (frames_low m g _ Hc) as Hle.
  assert (low ((f, p) :: g) <= f_sp f) as Hlow by (cbn; destruct p; lia). unfold FRAME_SIZE in Hl.
  assert (forall b, f_sp f <= b < ktop -> m' b = m b) as Hm' by (intros b Hb; apply Hm; lia).
  split_and!; [done| | |done|done|done|].
  - apply (frame_at_ext m); [|done]. unfold FRAME_SIZE. intros b Hb. apply Hm'. lia.
  - intros u ->. rewrite Hm; [by apply Hp|]. cbn. lia.
  - apply IH; [|done]. intros b Hb. apply Hm'. lia.
Qed.

(** Losing the top frame: the link is back at the frame before. *)
Lemma frames_pop m f p g last : chain m ((f, p) :: g) last -> chain (write LAST (f_last f) m) g (f_last f).
Proof.
  intros (_ & _ & _ & _ & Hk & Hl & Hc). apply (frames_ext m); [|done].
  intros b Hb. apply write_ne. unfold FRAME_SIZE in Hl. destruct Hly. lia.
Qed.

Lemma statics_write m a v : ~ (exists w, static_word a w) -> statics_ok m -> statics_ok (write a v m).
Proof. intros Ha Hs b w Hb. rewrite write_ne; [by apply Hs|]. intros ->. eauto. Qed.

Lemma statics_ext m m' : (forall a v, static_word a v -> m' a = m a) -> statics_ok m -> statics_ok m'.
Proof. intros Hm Hs a v Ha. rewrite (Hm a v Ha). by apply Hs. Qed.

Lemma last_not_static : ~ exists w, static_word LAST w.
Proof. intros [w Hw]. by destruct (ly_static Hly _ _ Hw) as (_ & _ & ?). Qed.

(** Leaving through the top frame, from a state of the kernel that has its words. *)
Lemma leave_inv self v f p g s :
  self = RAX \/ self = RDI -> statics_ok (mem s) -> tr s = TSS_SEG core -> in_kernel s ->
  chain (mem s) ((f, p) :: g) (rf s RSP) -> suspended g -> rf s R10 = pcd + PCD_TEC_OFFSET ->
  let s1 := exec (leave_frame self) s in
  let s2 := exec [MovI RAX v; Ret] s1 in
  restored f v s2 /\ trans_inv s2 g /\ in_kernel s2 /\ rf s1 self = f_self f /\ rf s1 RSI = rf s RSI.
Proof.
  intros Hself Hst Htr Hk Hc Hsus H10 s1 s2. pose proof Hc as (Hsp & Hf & _ & _ & Hlo & Hhi & Hc').
  pose proof (frames_low _ _ _ Hc') as Hle.
  destruct (leave_spec self v f s Hself Hsp H10 Hf ltac:(lia) ltac:(lia)) as (Hr & Hsys & Hm & Hs1 & Hs2).
  fold s1 in Hr, Hsys, Hm, Hs1, Hs2. fold s2 in Hr, Hsys, Hm. clearbody s1 s2.
  destruct Hsys as (E1 & E2 & E3 & E4 & E5), Hk as (K1 & K2 & K3 & K4).
  assert (in_kernel s2) as Hk2 by (split_and!; congruence).
  split_and!; [done| |done..]. unfold trans_inv. rewrite Hm, write_eq by done.
  split_and!; [by apply statics_write; [apply last_not_static|]|congruence|by eapply frames_pop|].
  rewrite E5, K1. done.
Qed.

(** A handler is called with the compartment and the caller's stack pointer saved. *)
Lemma call_spec f g s :
  statics_ok (mem s) -> tr s = TSS_SEG core -> in_kernel s -> chain (mem s) ((f, None) :: g) (rf s RSP) ->
  mem s LAST = f_sp f -> suspended g ->
  let s' := exec (get_compartment_from_state RDI ++ [Push R11]) s in
  rf s' RDI = f_self f /\ rf s' RSI = rf s RSI /\ rf s' RDX = rf s RDX /\ rf s' RCX = rf s RCX /\
  in_kernel s' /\ trans_inv s' ((f, Some (rf s R11)) :: g).
Proof.
  intros Hst Htr (K1 & K2 & K3 & K4) Hc Hlast Hsus.
  pose proof Hc as (Hsp & Hf & _ & Hi & Hlo & Hhi & Hc'). pose proof (frames_low _ _ _ Hc') as Hle.
  destruct (Hly) as [_ _ [Hk0 Hk1] Hstatic Hlo'].
  assert (u64 (f_sp f + 0) = f_sp f /\ u64 (f_sp f - 8) = f_sp f - 8) as [E1 E2]
    by (unfold FRAME_SIZE in *; rewrite !u64_small; unfold is_u64; lia).
  assert (chain (write (f_sp f - 8) (rf s R11) (mem s)) g (f_last f)) as Hc2.
  { apply (frames_ext (mem s)); [|done]. intros b Hb. apply write_ne. unfold FRAME_SIZE in *. lia. }
  assert (frame_at (write (f_sp f - 8) (rf s R11) (mem s)) f) as Hf2.
  { apply (frame_at_ext (mem s)); [|done]. intros b Hb. apply write_ne. lia. }
  assert (mem s (f_sp f) = f_self f) as Hself by apply Hf.
  unfold in_kernel, trans_inv. run_code. rewrite Hsp, E1, E2, Hself, K1.
  split_and!; try done.
  - apply statics_write; [|done]. intros [w Hw]. destruct (Hstatic _ _ Hw) as (_ & Ho & _).
    unfold FRAME_SIZE in *. lia.
  - rewrite write_ne; [done|]. unfold FRAME_SIZE in *. lia.
  - intros u [= <-]. by apply write_eq.
  - by constructor.
Qed.

Definition handler_reason (h : handler) : Z :=
  syscall_code match h with
  | ForwardAllocChunk => SYSCALL_COMPARTMENT_ALLOC_CHUNK
  | ForwardAllocMetaData => SYSCALL_COMPARTMENT_ALLOC_META_DATA
  | ForwardDeallocChunk => SYSCALL_COMPARTMENT_DEALLOC_CHUNK
  | ForwardCallback => SYSCALL_COMPARTMENT_CALLBACK
  end.

(** What a system call made in the innermost frame [f] does. *)
Definition syscall_served (f : frame) (g : frames) (s : cpu) (e : kernel_entry) : Prop :=
  match e with
  | KReturn s' => rf s RDI = syscall_code SYSCALL_COMPARTMENT_RETURN /\ restored f 1 s' /\ in_kernel s' /\ trans_inv s' g
  | KExit self status s' => ~ 1 <= rf s RDI <= 5 /\ self = f_self f /\ status = rf s RSI /\ restored f 0 s' /\
      in_kernel s' /\ trans_inv s' g
  | KCall h s' => rf s RDI = handler_reason h /\ rf s' RDI = f_self f /\ rf s' RSI = rf s RSI /\
      rf s' RDX = rf s RDX /\ rf s' RCX = rf s RCX /\ in_kernel s' /\
      trans_inv s' ((f, Some (u64 (rf s RSP - 8))) :: g)
  end.

(** The kernel is ready to serve the system call that [s] made in the innermost frame [f]. *)
Definition ready (f : frame) (g : frames) (s s1 : cpu) : Prop :=
  statics_ok (mem s1) /\ tr s1 = TSS_SEG core /\ in_kernel s1 /\ chain (mem s1) ((f, None) :: g) (rf s1 RSP) /\
  mem s1 LAST = f_sp f /\ suspended g /\ rf s1 R10 = pcd + PCD_TEC_OFFSET /\
  rf s1 R11 = u64 (rf s RSP - 8) /\ rf s1 RDI = rf s RDI /\ rf s1 RSI = rf s RSI /\ rf s1 RDX = rf s RDX /\
  rf s1 RCX = rf s RCX.

(** The common part keeps the kernel's words and brings the kernel back into its state. *)
Lemma prefix_inv f g s next :
  trans_inv s ((f, None) :: g) -> user s = true -> ~ kernel_word (u64 (rf s RSP - 8)) ->
  ready f g s (exec (kernel_enter_prefix kernel_pagetable per_core_data) (do_syscall next s)).
Proof.
  intros (Hst & Htr & Hc & Hmode) Huser Hu. rewrite Huser in Hmode.
  destruct Hmode as (f' & g' & [= <- <-] & Hsus & _). set (d := do_syscall next s).
  assert (mem d = mem s /\ tr d = tr s /\ user d = false /\ rf d RSP = rf s RSP /\ rf d RDI = rf s RDI /\
    rf d RSI = rf s RSI /\ rf d RDX = rf s RDX /\ rf d R10 = rf s RCX) as (D1 & D2 & D3 & D4 & D5 & D6 & D7 & D8) by done.
  clearbody d.
  destruct (prefix_spec d) as (P1 & P2 & P3 & P4 & P5 & P6 & P7 & P8 & P9 & P10 & P11 & P12 & P13);
    [congruence|by rewrite D1|by rewrite D4|].
  unfold ready. set (s1 := exec _ d) in *. clearbody s1. rewrite D1, D4 in *.
  assert (forall a, kernel_word a -> mem s1 a = mem s a) as Hm.
  { intros a Ha. rewrite P13. apply write_ne. by intros ->. }
  split_and!; try congruence.
  - apply (statics_ext (mem s)); [|done]. intros a v Ha. apply Hm. unfold kernel_word. eauto.
  - split_and!; congruence.
  - rewrite P1. apply (frames_ext (mem s)); [|done]. intros b Hb. apply Hm. left.
    destruct Hc as (_ & _ & _ & _ & ? & _). cbn in Hb. lia.
  - rewrite Hm by (right; by left). by destruct Hc as (-> & _).
Qed.

(** A comparison of the number only changes the status flags. *)
Lemma switch_served f g s s1 c same other :
  ready f g s s1 ->
  (forall s2, ready f g s s2 -> rf s RDI = syscall_code c -> syscall_served f g s (same s2)) ->
  (forall s2, ready f g s s2 -> rf s RDI <> syscall_code c -> syscall_served f g s (other s2)) ->
  syscall_served f g s (switch c same other s1).
Proof.
  intros Hr Hsame Hother. assert (rf s1 RDI = rf s RDI) as E by apply Hr. unfold switch. rewrite E.
  assert (ready f g s (exec [CmpI RDI (syscall_code c)] s1)) as Hr' by exact Hr.
  destruct (Z.eqb_spec (rf s RDI) (syscall_code c)); auto.
Qed.

Lemma call_served f g s s1 h :
  ready f g s s1 -> rf s RDI = handler_reason h -> syscall_served f g s (call_handler h s1).
Proof.
  intros (Hst & Htr & Hk & Hc & Hl & Hsus & H10 & H11 & P1 & P2 & P3 & P4) Hr.
  destruct (call_spec f g s1 Hst Htr Hk Hc Hl Hsus) as (C1 & C2 & C3 & C4 & C5 & C6).
  rewrite H11 in C6. unfold syscall_served, call_handler. split_and!; [done|done|congruence|congruence|congruence|done|done].
Qed.

Lemma return_served f g s s1 :
  ready f g s s1 -> rf s RDI = syscall_code SYSCALL_COMPARTMENT_RETURN -> syscall_served f g s (return_frame s1).
Proof.
  intros (Hst & Htr & Hk & Hc & Hl & Hsus & H10 & _) Hr.
  destruct (leave_inv RAX 1 f None g s1 (or_introl eq_refl) Hst Htr Hk Hc Hsus H10) as (L1 & L2 & L3 & _).
  unfold syscall_served, return_frame. rewrite exec_app. by split_and!.
Qed.

Lemma exit_served f g s s1 : ready f g s s1 -> ~ 1 <= rf s RDI <= 5 -> syscall_served f g s (exit_frame s1).
Proof.
  intros (Hst & Htr & Hk & Hc & Hl & Hsus & H10 & _ & _ & P2 & _) Hr.
  destruct (leave_inv RDI 0 f None g s1 (or_intror eq_refl) Hst Htr Hk Hc Hsus H10) as (L1 & L2 & L3 & L4 & L5).
  unfold exit_frame, syscall_served. split_and!; [done|done|congruence|done..].
Qed.

Lemma syscall_spec f g s next :
  trans_inv s ((f, None) :: g) -> user s = true -> ~ kernel_word (u64 (rf s RSP - 8)) ->
  syscall_served f g s (syscall_entry next s).
Proof.
  intros Hinv Huser Hu. unfold syscall_entry, kernel_enter. pose proof (prefix_inv f g s next Hinv Huser Hu) as Hr.
  apply switch_served; [done|by intros; apply return_served|intros s2 R2 N2].
  do 4 (apply switch_served; [done|by intros; apply call_served|clear dependent s2; intros s2 R2 ?]).
  apply exit_served; [done|]. cbn [syscall_code] in *. lia.
Qed.

Lemma abort_spec f usp g s :
  trans_inv s ((f, Some usp) :: g) -> user s = false ->
  exists s', abort_kernel_callback s = KExit (f_self f) (rf s RDI) s' /\
    restored f 0 s' /\ in_kernel s' /\ trans_inv s' g.
Proof.
  intros (Hst & Htr & Hc & Hmode) Huser. rewrite Huser in Hmode. destruct Hmode as [Hsus Hk].
  pose proof pcd_bounds as Hp. pose proof Hk as (_ & K2 & K3 & K4).
  pose proof (Hst pcd pcd ltac:(unfold static_word; tauto)) as Hself.
  set (s1 := exec ([MovR RSI RDI] ++ get_thread_execution_context_entry R10 ++ [Load RSP R10 TEC_LAST_SP_OFFSET]) s).
  assert (mem s1 = mem s /\ tr s1 = tr s /\ rf s1 RSI = rf s RDI /\ in_kernel s1 /\
    rf s1 R10 = pcd + PCD_TEC_OFFSET /\ rf s1 RSP = mem s LAST) as (E1 & E2 & E3 & E4 & E5 & E6).
  { unfold s1. run_code. rewrite K4. split_and!; try done; unfold LAST; read_state ltac:(rewrite Hself); [done|].
    f_equal. lia. }
  destruct (leave_inv RDI 0 f (Some usp) g s1) as (L1 & L2 & L3 & L4 & L5);
    [by right|by rewrite E1|congruence|done|by rewrite E1, E6|by inversion Hsus|done|].
  unfold abort_kernel_callback, exit_frame. fold s1. rewrite L4, L5, E3. eexists. by split_and!.
Qed.

Lemma kernel_step_inv s s' g :
  user s = false -> same_system s s' ->
  (forall a, a = LAST \/ (exists v, static_word a v) \/ low g <= a < ktop -> mem s' a = mem s a) ->
  trans_inv s g -> trans_inv s' g.
Proof.
  intros Hu (E1 & E2 & E3 & E4 & E5) Hm (Hst & Htr & Hc & Hmode). unfold trans_inv, in_kernel in *.
  rewrite Hu in *. rewrite E1, E2, E3, E4, E5. split_and!; [|done| |apply Hmode..].
  - apply (statics_ext (mem s)); [|done]. intros a v Ha. apply Hm. eauto.
  - rewrite Hm by by left. apply (frames_ext (mem s)); [|done]. intros b Hb. apply Hm. tauto.
Qed.

Lemma user_step_inv s s' g :
  user s = true -> user s' = true -> cr3 s' = cr3 s -> tr s' = tr s ->
  (forall a, kernel_word a -> mem s' a = mem s a) -> trans_inv s g -> trans_inv s' g.
Proof.
  intros Hu Hu' E1 E2 Hm (Hst & Htr & Hc & Hmode). unfold trans_inv in *. rewrite Hu in Hmode.
  rewrite Hu', E1, E2. destruct Hmode as (f & g' & -> & Hsus & Hcr3). split_and!; [|done| |by exists f, g'].
  - apply (statics_ext (mem s)); [|done]. intros a v Ha. apply Hm. unfold kernel_word. eauto.
  - rewrite (Hm LAST) by (right; by left). apply (frames_ext (mem s)); [|done]. intros b Hb. apply Hm. left.
    destruct Hc as (_ & _ & _ & _ & ? & _). cbn in Hb. lia.
Qed.

Lemma enter_inv s g :
  user s = false -> is_comp (rf s R9) -> kbase <= rf s RSP - 80 -> rf s RSP + 8 <= low g ->
  ~ kernel_word (u64 (rf s R8 - 8)) -> trans_inv s g ->
  trans_inv (exec (compartment_enter enter_stub) s) ((frame_of s, None) :: g).
Proof.
  intros Hu Hi Hlo Hhi Huser (Hst & Htr & Hc & Hmode). rewrite Hu in Hmode. destruct Hmode as (Hsus & _ & _ & _ & Hgs).
  pose proof (frames_low _ _ _ Hc) as Hle. destruct (Hly) as [_ _ _ Hstatic Hlast].
  destruct (enter_spec s Hgs Hst Hi ltac:(lia) ltac:(lia) Huser)
    as (U1 & _ & _ & _ & _ & _ & U2 & _ & U3 & U4 & U5 & U6).
  set (u := exec _ s) in *. clearbody u.
  assert (forall a, kernel_word a -> a <> u64 (rf s R8 - 8)) as Hne by (intros a Ha ->; done).
  unfold trans_inv. rewrite U1, U2, U3, U5. split_and!; [|done| |].
  - apply (statics_ext (mem s)); [|done]. intros a v Ha. destruct (Hstatic a v Ha) as (_ & Ho & Hl).
    apply U6; [lia|done|]. apply Hne. unfold kernel_word. eauto.
  - cbn [chain]. split_and!; try done.
    + unfold frame_of, f_sp. lia.
    + unfold frame_of, f_sp, FRAME_SIZE. lia.
    + apply (frames_ext (mem s)); [|done]. intros b Hb. apply U6; [lia| |].
      * intros ->. lia.
      * apply Hne. left. lia.
  - by exists (frame_of s), g.
Qed.

Lemma resume_inv s f usp g :
  user s = false -> rf s RSP = f_sp f - 8 -> trans_inv s ((f, Some usp) :: g) ->
  trans_inv (exec (finish_call resume_stub) s) ((f, None) :: g).
Proof.
  intros Hu Hsp (Hst & Htr & Hc & Hmode). rewrite Hu in Hmode. destruct Hmode as [Hsus _].
  pose proof Hc as (Hl & Hf & Hp & Hi & Hlo & Hhi & Hc'). pose proof (frames_low _ _ _ Hc') as Hle.
  destruct (finish_call_spec f usp s Hst Hi ltac:(apply Hf) ltac:(by apply Hp) Hsp Hlo
    ltac:(unfold FRAME_SIZE in Hhi; lia)) as (U1 & U2 & _ & U3 & U4 & _).
  unfold trans_inv. rewrite U1, U2, U3, U4. split_and!; [done|done| |].
  - by split_and!.
  - exists f, g. split_and!; [done|by inversion Hsus|done].
Qed.

Lemma trans_step_inv x y : trans x y -> trans_inv (fst x) (snd x) -> trans_inv (fst y) (snd y).
Proof.
  destruct 1; cbn [fst snd]; intros Hi.
  - by apply (kernel_step_inv s s' g).
  - by apply enter_inv.
  - by apply (user_step_inv s s' g).
  - pose proof (syscall_spec f g s next Hi ltac:(done) ltac:(done)) as Hs. rewrite H1 in Hs. apply Hs.
  - pose proof (syscall_spec f g s next Hi ltac:(done) ltac:(done)) as Hs. rewrite H1 in Hs. apply Hs.
  - pose proof (syscall_spec f g s next Hi ltac:(done) ltac:(done)) as Hs. rewrite H1 in Hs. apply Hs.
  - by apply resume_inv with usp.
  - destruct (abort_spec f usp g s Hi ltac:(done)) as (s2 & Ha & _ & _ & Hi2). rewrite H0 in Ha. by injection Ha as -> -> ->.
Qed.

(** C4: However compartments are entered, call back into the kernel, enter each other
    again from there and are stopped, the frames on the kernel's stack are those of the
    entries under way - as long as no system call and no entry is made with a stack pointer whose next word
    below is one the kernel relies on (its stack, the variables, the per-core data, the members of a compartment):
    [kernel_enter] stores the flags through that pointer in ring 0, and [syscall_stack_pointer_trusted] shows it fail.
    On that condition, a compartment runs under the page table it was
    entered with; a system call of it, whatever it left in the other registers, brings the kernel back to its own
    page table, stack, per-core data and thread-local block and is served for the innermost
    compartment; unknown numbers count as exit. When
    it returns, exits or is aborted, the kernel goes on behind the entry with the
    callee-saved registers, stack pointer and flags (but for the status flags) it had there, and the result 1 or 0. *)
Theorem transitions_nest s0 s g :
  statics_ok (mem s0) -> tr s0 = TSS_SEG core -> in_kernel s0 -> mem s0 LAST = outer_sp ->
  trans_run s0 (s, g) ->
  if user s then
    exists f g', g = (f, None) :: g' /\ suspended g' /\ cr3 s = pt_of (f_self f) /\
      forall next, ~ kernel_word (u64 (rf s RSP - 8)) -> syscall_served f g' s (syscall_entry next s)
  else
    in_kernel s /\ suspended g /\
    forall f usp g', g = (f, Some usp) :: g' ->
      (exists s', abort_kernel_callback s = KExit (f_self f) (rf s RDI) s' /\ restored f 0 s' /\ in_kernel s') /\
      (rf s RSP = f_sp f - 8 ->
       let u := exec (finish_call resume_stub) s in
       user u = true /\ cr3 u = pt_of (f_self f) /\ fs u = tls_of (f_self f) /\ rf u RAX = rf s RAX /\
       rflags u = mem s usp /\ rip u = mem s (u64 (usp + 8)) /\ rf u RSP = u64 (u64 (usp + 8) + 8)).
Proof.
  intros Hst Htr Hk Hl Hrun.
  assert (forall x, trans_run s0 x -> trans_inv (fst x) (snd x)) as Hall.
  { induction 1 as [|x y _ IH Hs]; [|by eapply trans_step_inv].
    unfold trans_inv. cbn. rewrite (proj1 Hk). split_and!; [done..| |done]. constructor. }
  specialize (Hall _ Hrun). cbn in Hall. pose proof Hall as (Hs & _ & Hc & Hmode).
  destruct (user s) eqn:Hu.
  - destruct Hmode as (f & g' & -> & Hsus & Hcr3). exists f, g'. split_and!; [done..|].
    intros next Hnk. by apply syscall_spec.
  - destruct Hmode as [Hsus Hks]. split_and!; [done..|]. intros f usp g' ->. split.
    + destruct (abort_spec f usp g' s Hall Hu) as (s' & ? & ? & ? & _). eauto.
    + intros Hsp. pose proof Hc as (_ & Hf & Hp & Hi & Hlo & Hhi & Hc'). pose proof (frames_low _ _ _ Hc').
      destruct (finish_call_spec f usp s Hs Hi ltac:(apply Hf) ltac:(by apply Hp) Hsp Hlo
        ltac:(unfold FRAME_SIZE in Hhi; lia)) as (? & ? & ? & _ & _ & ? & ? & ? & ?). by split_and!.
Qed.

End Frames.

(** *** An example

    One core, one compartment; the kernel enters it with 42 in RBX. *)

Definition ex_mem : Z -> Z :=
  write 256 7 (write 264 4096 (write 4096 4096 (write (4096 + 40) 8 (write 262144 9 (write (262144 + 8) 10
  (write 131000 777 (fun _ => 0))))))).

Definition ex_cpu : cpu :=
  mkCpu (fun r => match r with RSP => 131000 | R9 => 262144 | R8 => 300000 | RCX => 5555 | RBX => 42 | _ => 0 end)
    0 2 7 8 4096 (TSS_SEG 0) false ex_mem.

(** The compartment clears its registers and returns. *)
Definition clear_and_return (u : cpu) : cpu :=
  mkCpu (fun r => match r with RSP => 299000 | RDI => 1 | _ => 0 end) (rip u) (rflags u) (cr3 u) 0 0 (tr u) true (mem u).

Definition ex_user : cpu := clear_and_return (exec (compartment_enter 0) ex_cpu).

Lemma ex_step u g : user u = true ->
  trans 256 264 0 0 65536 131072 4096 0 7 8 (fun self => self = 262144) (fun _ => 9) (fun _ => 10)
    (u, g) (clear_and_return u, g).
Proof. intros Hu. by apply T_user. Qed.

Lemma ex_layout : layout 256 264 65536 131072 4096 0 7 8 (fun self => self = 262144) (fun _ => 9) (fun _ => 10).
Proof.
  split; unfold LAST, pcd; [lia..| |lia]. unfold static_word, pcd.
  intros a v [[-> _]|[[-> _]|[[-> _]|[[-> _]|(self & -> & [[-> _]|[-> _]])]]]]; lia.
Qed.

Lemma ex_statics : statics_ok 256 264 4096 0 7 8 (fun self => self = 262144) (fun _ => 9) (fun _ => 10) ex_mem.
Proof.
  unfold statics_ok, static_word, pcd.
  intros a v [[-> ->]|[[-> ->]|[[-> ->]|[[-> ->]|(self & -> & [[-> ->]|[-> ->]])]]]]; vm_compute; reflexivity.
Qed.

Lemma transitions_nest_witness : exists s',
  syscall_entry 256 264 0 ex_user = KReturn s' /\ rf s' RBX = 42 /\ rip s' = 777 /\ rf s' RAX = 1 /\ cr3 s' = 7.
Proof.
  pose proof (transitions_nest 256 264 0 0 65536 131072 4096 0 7 8 0 (fun self => self = 262144) (fun _ => 9)
    (fun _ => 10) ex_layout ex_cpu ex_user [(frame_of 4096 0 ex_cpu, None)] ex_statics eq_refl
    (conj eq_refl (conj eq_refl (conj eq_refl eq_refl))) eq_refl) as Ht.
  assert (forall a, kernel_word 256 264 65536 131072 4096 0 7 8 (fun self => self = 262144) (fun _ => 9) (fun _ => 10) a ->
    a < 290000) as Hkw.
  { unfold kernel_word, static_word, LAST, pcd. intros a [H|[H|(v & H)]]; [lia|lia|].
    destruct H as [[-> _]|[[-> _]|[[-> _]|[[-> _]|(self & -> & [[-> _]|[-> _]])]]]]; lia. }
  assert (user (exec (compartment_enter 0) ex_cpu) = true) as Hentered by (vm_compute; reflexivity).
  destruct Ht as (f & g' & [= <- <-] & _ & _ & Hs).
  - refine (trans_next _ _ _ _ _ _ _ _ _ _ _ _ _ _ _ _ _ (ex_step _ _ Hentered)).
    eapply trans_next; [apply trans_start|].
    apply T_enter; [done|done|vm_compute; discriminate|vm_compute; discriminate|].
    intros Hk. apply Hkw in Hk. vm_compute in Hk. discriminate.
  - assert (rf ex_user RDI = 1) as Hrdi by reflexivity.
    destruct (syscall_entry 256 264 0 ex_user) as [s'|self status s'|h s'] eqn:E;
      specialize (Hs 0); rewrite E in Hs.
    + exists s'. destruct Hs as (_ & (H1 & _ & _ & _ & _ & _ & _ & H2 & _ & H3) & (_ & H4 & _) & _); [|by split_and!].
      intros Hk. apply Hkw in Hk. vm_compute in Hk. discriminate.
    + destruct Hs as (Hr & _); [|lia]. intros Hk. apply Hkw in Hk. vm_compute in Hk. discriminate.
    + destruct Hs as (Hr & _); [|by rewrite Hrdi in Hr; destruct h].
      intros Hk. apply Hkw in Hk. vm_compute in Hk. discriminate.
Defined.

(** The store at the beginning of a system call goes through the stack pointer of the
    compartment, in ring 0: pointed at the saved return address, it makes the kernel go on
    at the compartment's flags. The rules above exclude it with the condition on the stack
    pointer. *)
Lemma syscall_stack_pointer_trusted :
  let u := exec (compartment_enter 0) ex_cpu in
  let v := set_reg RSP (131000 + 8) (set_reg RDI 1 u) in
  match syscall_entry 256 264 0 v with KReturn s' => rip s' | _ => 0 end = rflags u.
Proof. vm_compute. reflexivity. Qed.
