(* ===== verification/CompartmentCalls.v ===== *)
(** * Calls between kernel and compartment (experimental/include/*.h, arch/x86_64/compartment.cc, inc/syscall.h)

    The compartment's side of the system calls and callbacks, the construction of a
    compartment with its standard output, and the memory it is given. *)

From S2P Require Import Prelude External Address Heap PageTable Ownership OwnershipProps Compartment CompartmentProps.
From S2P Require Import Cpu Threads Transition.

(** ** System calls *)

(** The functions of compartment.cc; their arguments go where a call of the kernel's
    function expects them behind the compartment. *)
Inductive compartment_call : Type :=
| compartment_exit (status : Z)
| compartment_return
| compartment_alloc_chunk (size ras : Z)
| compartment_alloc_meta_data (size : Z)
| compartment_dealloc_chunk (p size : Z)
| compartment_callback (index ret data : Z).

Definition syscall1 (reason : Syscalls) (s : cpu) : cpu := set_reg RDI (syscall_code reason) s.

Definition call_args (c : compartment_call) (s : cpu) : cpu :=
  match c with
  | compartment_exit status => set_reg RSI status (syscall1 SYSCALL_COMPARTMENT_EXIT s)
  | compartment_return => syscall1 SYSCALL_COMPARTMENT_RETURN s
  | compartment_alloc_chunk size ras => set_reg RDX ras (set_reg RSI size (syscall1 SYSCALL_COMPARTMENT_ALLOC_CHUNK s))
  | compartment_alloc_meta_data size => set_reg RSI size (syscall1 SYSCALL_COMPARTMENT_ALLOC_META_DATA s)
  | compartment_dealloc_chunk p size => set_reg RDX size (set_reg RSI p (syscall1 SYSCALL_COMPARTMENT_DEALLOC_CHUNK s))
  | compartment_callback index ret data =>
      set_reg RCX data (set_reg RDX ret (set_reg RSI index (syscall1 SYSCALL_COMPARTMENT_CALLBACK s)))
  end.

Section Reach.
Context (kernel_pagetable per_core_data enter_stub resume_stub : Z).
Context (kbase ktop pcds core kpt ktls outer_sp : Z) (is_comp : Z -> Prop) (pt_of tls_of : Z -> Z).
Context (Hly : layout kernel_pagetable per_core_data kbase ktop pcds core kpt ktls is_comp pt_of tls_of).

Notation "'kinv'" :=
  (trans_inv kernel_pagetable per_core_data kbase ktop pcds core kpt ktls outer_sp is_comp pt_of tls_of).

(** What the call of compartment [f] should come to in the kernel. *)
Definition reaches_kernel (c : compartment_call) (f : frame) (e : kernel_entry) : Prop :=
  match c, e with
  | compartment_exit status, KExit self st s' => self = f_self f /\ st = status /\ restored f 0 s'
  | compartment_return, KReturn s' => restored f 1 s'
  | compartment_alloc_chunk size ras, KCall ForwardAllocChunk s' => rf s' RDI = f_self f /\ rf s' RSI = size /\ rf s' RDX = ras
  | compartment_alloc_meta_data size, KCall ForwardAllocMetaData s' => rf s' RDI = f_self f /\ rf s' RSI = size
  | compartment_dealloc_chunk p size, KCall ForwardDeallocChunk s' => rf s' RDI = f_self f /\ rf s' RSI = p /\ rf s' RDX = size
  | compartment_callback index ret data, KCall ForwardCallback s' =>
      rf s' RDI = f_self f /\ rf s' RSI = index /\ rf s' RDX = ret /\ rf s' RCX = data
  | _, _ => False
  end.

Lemma call_args_same c s : mem (call_args c s) = mem s /\ cr3 (call_args c s) = cr3 s /\ tr (call_args c s) = tr s /\
  user (call_args c s) = user s /\ rf (call_args c s) RSP = rf s RSP.
Proof. by destruct c. Qed.

(** The registers a call is made with. *)
Definition call_regs (c : compartment_call) (t : cpu) : Prop :=
  match c with
  | compartment_exit status => rf t RDI = 0 /\ rf t RSI = status
  | compartment_return => rf t RDI = 1
  | compartment_alloc_chunk size ras => rf t RDI = 2 /\ rf t RSI = size /\ rf t RDX = ras
  | compartment_alloc_meta_data size => rf t RDI = 3 /\ rf t RSI = size
  | compartment_dealloc_chunk p size => rf t RDI = 4 /\ rf t RSI = p /\ rf t RDX = size
  | compartment_callback index ret data => rf t RDI = 5 /\ rf t RSI = index /\ rf t RDX = ret /\ rf t RCX = data
  end.

Lemma call_args_regs c s : call_regs c (call_args c s).
Proof. by destruct c. Qed.

Lemma served_reaches c f g t e :
  call_regs c t -> syscall_served kernel_pagetable per_core_data kbase ktop pcds core kpt ktls outer_sp is_comp pt_of tls_of f g t e ->
  reaches_kernel c f e.
Proof.
  intros Hr Hs. unfold handler_reason in *.
  destruct e as [s'|self st s'|h s']; cbn [syscall_served] in Hs.
  - destruct Hs as (H1 & H2 & _). cbn in H1. destruct c; cbn in *; try lia. done.
  - destruct Hs as (H1 & H2 & H3 & H4 & _). destruct c; cbn in Hr |- *; try lia. destruct Hr as [_ Hr]. by rewrite H3.
  - destruct Hs as (H1 & H2 & H3 & H4 & H5 & _). unfold handler_reason in H1.
    destruct c, h; cbn in Hr, H1 |- *; destruct_and? Hr; try lia; split_and!; congruence.
Qed.

(** Each of the compartment's system calls reaches the kernel function it is for, called
    for the compartment that runs, with the arguments the compartment passed. *)
Theorem calls_reach_kernel c f g s next :
  kinv s ((f, None) :: g) -> user s = true ->
  ~ kernel_word kernel_pagetable per_core_data kbase ktop pcds core kpt ktls is_comp pt_of tls_of (u64 (rf s RSP - 8)) ->
  reaches_kernel c f (syscall_entry kernel_pagetable per_core_data next (call_args c s)).
Proof.
  intros Hi Hu Hk. destruct (call_args_same c s) as (E1 & E2 & E3 & E4 & E5). pose proof (call_args_regs c s) as Hr.
  set (t := call_args c s) in *. clearbody t.
  assert (kinv t ((f, None) :: g)) as Hi'.
  { apply (user_step_inv kernel_pagetable per_core_data kbase ktop pcds core kpt ktls outer_sp is_comp pt_of tls_of s);
      [done|congruence|done|done| |done]. intros a _. by rewrite E1. }
  eapply served_reaches; [exact Hr|]. eapply syscall_spec; [exact Hly|exact Hi'|congruence|by rewrite E5].
Qed.

End Reach.

(** ** Callbacks *)

(** The thread control block of the running code; [None] before there is one. *)
Definition is_compartment (t : option TCB) : bool :=
  match t with None => false | Some b => negb (tcb_compartment b =? null_owner) end.

Definition matches_compartment (compartment : CompartmentOwner) (t : option TCB) : bool :=
  match t with None => false | Some b => tcb_compartment b =? compartment end.

(** [CompartmentCallback]: the handle a compartment holds. *)
Record CompartmentCallback : Type := mkCallback { cc_owner : CompartmentOwner; cc_index : Z }.

Definition callback_default : CompartmentCallback := mkCallback null_owner (u64 (-1)).

(** [Callback::get_compartment_callback]. *)
Definition get_compartment_callback (owner : CompartmentOwner) (index : Z) : CompartmentCallback := mkCallback owner index.

Section Callbacks.
Context {A R : Type} (bits sizeof_A sizeof_R : Z).

(** Where the arguments and the results of callbacks lie. *)
Record tmem : Type := mkTmem { args_at : Z -> A; res_at : Z -> R }.

(** A registered callback: the sizes of its types and its function, which can end the
    compartment itself. *)
Definition Callback : Type := Z * Z * (A -> syscall_result R).

(** [compartment_forward_callback] with [Callback::callback], to the end. *)
Definition kernel_callback (c : CompartmentBase Callback) (st : OwnStore) (owner : CompartmentOwner)
  (index ret data : Z) (m : tmem) : syscall_result tmem :=
  sbind (forward_callback bits c st owner index ret data) (fun f =>
  sbind (f (args_at m data)) (fun r =>
  SysOk (mkTmem (args_at m) (fun a => if a =? ret then r else res_at m a)))).

(** What comes of a call: a result; the compartment aborts itself; the kernel ends it. *)
Inductive call_result : Type := CallReturned (r : R) | CallAborts | CallEnded.

(** [CompartmentCallback::operator()] in the compartment with control block [t], with its
    arguments and result on its stack at [data] and [ret]. *)
Definition callback_call (t : option TCB) (cb : CompartmentCallback) (args : A) (data ret : Z)
  (c : CompartmentBase Callback) (st : OwnStore) (owner : CompartmentOwner) (m : tmem) : call_result :=
  if negb (matches_compartment (cc_owner cb) t) then CallAborts
  else
    let m1 := mkTmem (fun a => if a =? data then args else args_at m a) (res_at m) in
    match kernel_callback c st owner (cc_index cb) ret data m1 with
    | SysOk m2 => CallReturned (res_at m2 ret)
    | SysAbort => CallEnded
    end.

(** [register_callback] with the handle it returns. *)
Definition register (f : A -> syscall_result R) (owner : CompartmentOwner) (c : CompartmentBase Callback)
  : CompartmentCallback * CompartmentBase Callback :=
  let '(index, c') := register_callback (sizeof_A, sizeof_R, f) c in
  (get_compartment_callback owner index, c').

Lemma callback_spec f owner c cb c1 c2 later t args data ret st m :
  register f owner c = (cb, c1) -> callbacks c2 = callbacks c1 ++ later ->
  callback_call t cb args data ret c2 st owner m =
    (if negb (matches_compartment owner t) then CallAborts
     else match require (validate_owner bits st owner sizeof_A data 1), require (validate_owner bits st owner sizeof_R ret 1), f args with
          | SysOk _, SysOk _, SysOk r => CallReturned r
          | _, _, _ => CallEnded
          end) /\
  (forall o i, Z.of_nat (length (callbacks c2)) <= i -> matches_compartment o t = true ->
     callback_call t (mkCallback o i) args data ret c2 st owner m = CallEnded).
Proof.
  intros Hr Hc2. unfold Callback in *. unfold register, register_callback in Hr. injection Hr as <- <-. cbn [callbacks] in Hc2. split.
  - unfold callback_call. cbn [cc_owner get_compartment_callback cc_index].
    destruct (matches_compartment owner t); cbn [negb]; [|done].
    unfold kernel_callback, forward_callback, get_callback. rewrite Hc2, !length_app. cbn [length].
    destruct (Z.ltb_spec (Z.of_nat (length (callbacks c))) (Z.of_nat (length (callbacks c) + 1 + length later))); [|lia].
    rewrite Nat2Z.id, <- app_assoc, lookup_app_r, Nat.sub_diag by lia. cbn [app lookup list_lookup].
    destruct (require (validate_owner bits st owner sizeof_A data 1)); [|done]. cbn [sbind].
    destruct (require (validate_owner bits st owner sizeof_R ret 1)); [|done]. cbn [sbind args_at].
    rewrite Z.eqb_refl. destruct (f args) as [r|]; [|done]. cbn. by rewrite Z.eqb_refl.
  - intros o i Hi Ho. unfold callback_call. cbn [cc_owner cc_index]. rewrite Ho. cbn [negb].
    unfold kernel_callback, forward_callback, get_callback.
    destruct (Z.ltb_spec i (Z.of_nat (length (callbacks c2)))); [lia|done].
Qed.

(** A callback handle calls the function it was made for, whatever is registered later:
    the function gets the arguments of the call and its result comes back, provided the
    arguments and the place for the result lie in the compartment's memory; if not, if the
    function refuses, or if the handle was never given out, the compartment is ended. In
    another compartment the handle only aborts the caller. *)
Theorem callback_calls_function f owner c cb c1 c2 later t args data ret st m :
  register f owner c = (cb, c1) -> callbacks c2 = callbacks c1 ++ later ->
  callback_call t cb args data ret c2 st owner m =
    (if negb (matches_compartment owner t) then CallAborts
     else match require (validate_owner bits st owner sizeof_A data 1), require (validate_owner bits st owner sizeof_R ret 1), f args with
          | SysOk _, SysOk _, SysOk r => CallReturned r
          | _, _, _ => CallEnded
          end) /\
  (forall o i, Z.of_nat (length (callbacks c2)) <= i -> matches_compartment o t = true ->
     callback_call t (mkCallback o i) args data ret c2 st owner m = CallEnded).
Proof. intros Hr Hc2. by apply (callback_spec f owner c cb c1 c2 later). Qed.

End Callbacks.

(** ** Invocation *)

Section Invocation.
Context {CB T : Type} `{SnmallocBits} (stack_size sizeof_R alignof_R : Z).

(** What the compartment runs is a function of the pointer to its data, which may call the
    kernel, and gives a result or exits. *)
Definition lambda : Type := Z -> CompartmentBase CB -> option T * CompartmentBase CB.

(** [invoke_helper] in the compartment: the result is left in its place and
    [compartment_return] called; otherwise the exit comes to [compartment_forward_exit].
    [garbage] is what lies in the place of a result that was never stored. *)
Definition invoke_helper (f : lambda) (data : Z) (garbage : T) (ret sp : Z) (c : CompartmentBase CB)
  : bool * T * CompartmentBase CB :=
  match f data c with
  | (Some v, c') => (true, v, c')
  | (None, c') => (false, garbage, forward_exit c')
  end.

(** [Compartment::invoke]; [data] is [data.get_ptr()]. *)
Definition invoke (f : lambda) (data : Z) (garbage : T) (fresh : span) (c : CompartmentBase CB)
  : CompartmentErrorOr T * CompartmentBase CB :=
  invoke_typed stack_size fresh sizeof_R alignof_R (invoke_helper f data garbage) c.

(** [operator T]: an error converts to a default value. *)
Definition error_or_value (dflt : T) (e : CompartmentErrorOr T) : T := match e with CValue v => v | CError => dflt end.

(** An invocation of a valid compartment gives exactly what the function returned; if
    the function exits, it gives an error, no garbage is looked at, and the compartment is
    never entered again. An invalid compartment is not entered. *)
Theorem invoke_gives_result f data garbage fresh c :
  let '(res, c') := invoke f data garbage fresh c in
  (is_valid c = false -> res = CError /\ c' = c) /\
  (is_valid c = true ->
   exists a, let '(o, c1) := f data (with_arch a c) in
     res = match o with Some v => CValue v | None => CError end /\
     get_success res = bool_decide (is_Some o) /\ callbacks c' = callbacks c1 /\
     is_valid c' = match o with Some _ => is_valid c1 | None => false end /\
     (o = None -> forall g b, invoke f data g b c' = (CError, c'))).
Proof.
  unfold invoke, invoke_typed. destruct (is_valid c) eqn:Hv; cbn [negb]; [|done].
  destruct (get_stack _ _ _) as [range a]. destruct (reserve _ _ _) as [slot st1]. unfold invoke_helper.
  destruct (f data (with_arch a c)) as [o c1] eqn:Hf. destruct o as [v|]; cbn [negb]; (split; [done|]); intros _; exists a;
    rewrite Hf; by split_and!.
Qed.

End Invocation.

(** ** Construction *)

Section Construct.
Context `{SnmallocBits} (bits stack_size : Z) (mem : Z -> Z) (st : OwnStore).

(** [WriteBuffers]: where the spans lie, and the spans; and what a write comes to. *)
Definition WriteBuffers : Type := Z * list span.
Definition Written : Type := list Z * Z.

(** [get_compartment_writer], and the function registered as standard output. *)
Definition get_compartment_writer : CompartmentOwner -> WriteBuffers -> syscall_result Written :=
  fun owner buffers => kwritev_stdout_protected bits mem st owner (fst buffers) (snd buffers).

Definition stdout_callback (owner : CompartmentOwner) : WriteBuffers -> syscall_result Written :=
  fun buffers => get_compartment_writer owner buffers.

Definition SIZEOF_WRITEBUFFERS : Z := 16.
Definition SIZEOF_SIZE_T : Z := 8.

#[local] Abbreviation base := (CompartmentBase (@Callback WriteBuffers Written)).

(** [CompartmentBase()] on its first stack; the limits in the control block are null. *)
Definition base_construct (stack : span) : base := mkComp true [] (mkArch [stack] false 0 0).

(** [Compartment()]: standard output is registered and the compartment is entered once with
    the handle to prepare itself; whether that succeeds is not looked at. *)
Definition Compartment_construct (owner : CompartmentOwner) (stack fresh : span)
  (prepare : CompartmentCallback -> Z -> Z -> base -> bool * bool * base) : CompartmentCallback * base :=
  let c := base_construct stack in
  let '(stdout, c) := register SIZEOF_WRITEBUFFERS SIZEOF_SIZE_T (stdout_callback owner) owner c in
  let '(_, c) := invoke_typed stack_size fresh 1 1 (prepare stdout) c in
  (stdout, c).

(** A new compartment has its standard output as its first and only callback and its
    first stack free again, whatever its own preparation did. It is valid exactly if the
    preparation left it so; if the preparation exited, the constructor still succeeds and
    every later invocation is an error. *)
Theorem construct_ready owner stack fresh prepare :
  (forall h r sp c1, arch_wf (arch c1) -> balanced c1 (snd (prepare h r sp c1))) ->
  let '(stdout, c) := Compartment_construct owner stack fresh prepare in
  stdout = mkCallback owner 0 /\
  callbacks c = [(SIZEOF_WRITEBUFFERS, SIZEOF_SIZE_T, stdout_callback owner)] /\
  stack_of_stacks (arch c) = [stack] /\ is_initial_stack_used (arch c) = false /\
  (is_valid c = false -> forall T size align fresh' (enter : Z -> Z -> base -> bool * T * base),
     invoke_typed stack_size fresh' size align enter c = (CError, c)).
Proof.
  intros Hp. unfold Compartment_construct. set (c0 := base_construct stack). cbn [register register_callback].
  destruct (register SIZEOF_WRITEBUFFERS SIZEOF_SIZE_T (stdout_callback owner) owner c0) as [stdout c1] eqn:Hr.
  unfold register, register_callback in Hr. injection Hr as <- <-. cbn [length Z.of_nat].
  assert (arch_wf (arch c0)) as Hw by (by exists stack, []).
  match goal with |- context [invoke_typed ?a ?b ?c ?d ?e ?x] => 
    pose proof (invoke_balanced a c d b e x Hw) as Hb; set (res := invoke_typed a b c d e x) in * end.
  destruct Hb as ((Hs & Hu) & Hc & Hv); [intros r sp c2; apply Hp|].
  destruct res as [r c] eqn:Hres. cbn [snd arch] in *. cbn in Hs, Hu, Hc. split_and!; try done.
  intros Hinv T size align fresh' enter. unfold invoke_typed. by rewrite Hinv.
Qed.

Lemma construct_callbacks owner stack fresh prepare :
  (forall h r sp c1, arch_wf (arch c1) -> balanced c1 (snd (prepare h r sp c1))) ->
  let '(stdout, c) := Compartment_construct owner stack fresh prepare in
  exists c1, register SIZEOF_WRITEBUFFERS SIZEOF_SIZE_T (stdout_callback owner) owner (base_construct stack) = (stdout, c1) /\
    callbacks c = callbacks c1.
Proof.
  intros Hp. unfold Compartment_construct. set (c0 := base_construct stack).
  destruct (register SIZEOF_WRITEBUFFERS SIZEOF_SIZE_T (stdout_callback owner) owner c0) as [stdout c1] eqn:Hr.
  assert (arch_wf (arch c1)) as Hw.
  { unfold register, register_callback in Hr. injection Hr as <- <-. by exists stack, []. }
  pose proof (invoke_balanced stack_size 1 1 fresh (prepare stdout) c1 Hw ltac:(intros r sp c2; apply Hp)) as (_ & Hc & _).
  destruct (invoke_typed stack_size fresh 1 1 (prepare stdout) c1) as [r c]. by exists c1.
Qed.

(** What a compartment writes to its standard output, through the handle the constructor
    gives it, is printed byte for byte if the buffers are its own or public; else the
    compartment is ended and nothing is printed. More callbacks registered later do not
    change that. *)
Theorem stdout_reaches_writer owner stack fresh prepare c later t ptr bufs data ret m :
  (forall h r sp c1, arch_wf (arch c1) -> balanced c1 (snd (prepare h r sp c1))) ->
  callbacks c = callbacks (snd (Compartment_construct owner stack fresh prepare)) ++ later ->
  matches_compartment owner t = true ->
  require (validate_owner bits st owner SIZEOF_WRITEBUFFERS data 1) = SysOk tt ->
  require (validate_owner bits st owner SIZEOF_SIZE_T ret 1) = SysOk tt ->
  callback_call bits t (fst (Compartment_construct owner stack fresh prepare)) (ptr, bufs) data ret c st owner m =
    match kwritev_stdout_protected bits mem st owner ptr bufs with
    | SysOk (_, n) => CallReturned (flat_map (buffer_bytes mem) bufs, n)
    | SysAbort => CallEnded
    end.
Proof.
  intros Hp Hc Ht Hd Hr. pose proof (construct_callbacks owner stack fresh prepare Hp) as Hcc.
  destruct (Compartment_construct owner stack fresh prepare) as [stdout c0]. destruct Hcc as (c1 & Hreg & Hc1).
  cbn [fst snd] in *. rewrite Hc1 in Hc.
  destruct (callback_spec bits SIZEOF_WRITEBUFFERS SIZEOF_SIZE_T (stdout_callback owner) owner (base_construct stack) stdout c1 c later
    t (ptr, bufs) data ret st m Hreg Hc) as [Hcall _].
  etransitivity; [exact Hcall|]. rewrite Ht, Hd, Hr. cbn [negb]. unfold stdout_callback, get_compartment_writer. cbn [fst snd].
  assert (forall x : syscall_result Written, x = SysAbort \/ (exists n, x = SysOk (flat_map (buffer_bytes mem) bufs, n)) ->
    match x with SysOk r => CallReturned r | SysAbort => CallEnded end =
    match x with SysOk (_, n) => CallReturned (flat_map (buffer_bytes mem) bufs, n) | SysAbort => CallEnded end) as Hx
    by (by intros x [->|[n ->]]).
  clear Hcall. apply Hx. unfold kwritev_stdout_protected. destruct (negb _); [by left|]. destruct (existsb _ _); [by left|right].
  by eexists.
Qed.

End Construct.

(** ** Memory given to a compartment *)

Definition memset (a n : Z) (m : Z -> Z) : Z -> Z := fun b => if (a <=? b) && (b <? a + n) then 0 else m b.

Section Memory.
(** [snmalloc::bits::next_pow2], and the object range of the allocator state, whose state is [A]. *)
Context {A : Type} (next_pow2 : Z -> Z) (MIN_CHUNK_SIZE : Z) (alloc_range : A -> Z -> Z * A).

(** [do_alloc]: the allocated block is cleared in full, for [init_size] bytes, or not at all. *)
Definition do_alloc (clear zero_init : bool) (alloc_size init_size : Z) (s : A) (m : Z -> Z) : outcome (CompartmentMemory * A * (Z -> Z)) :=
  let '(base, s') := alloc_range s alloc_size in
  if base =? 0 then Kabort
  else Done (mkCM base alloc_size, s',
             if clear then memset base alloc_size m else if zero_init then memset base init_size m else m).

(** The two constructors of [CompartmentMemory<T, clear, zero_init>]: one object, or [count] of them; no size is [NoData]. *)
Definition memory_construct_one (clear zero_init : bool) (sizeof_T : option Z) (s : A) (m : Z -> Z)
  : outcome (CompartmentMemory * A * (Z -> Z)) :=
  match sizeof_T with
  | None => Done (mkCM 0 0, s, m)
  | Some sz => do_alloc clear zero_init (Z.max (next_pow2 sz) MIN_CHUNK_SIZE) sz s m
  end.

Definition memory_construct_many (clear zero_init : bool) (sizeof_T count : Z) (s : A) (m : Z -> Z)
  : outcome (CompartmentMemory * A * (Z -> Z)) :=
  if count =? 0 then Done (mkCM 0 0, s, m)
  else
    let size := u64 (count * sizeof_T) in
    do_alloc clear zero_init (Z.max (next_pow2 size) MIN_CHUNK_SIZE) size s m.

(** [CompartmentMemory<uint8_t, false, false>]: the thread-local block and every stack. *)
Definition byte_memory (count : Z) := memory_construct_many false false 1 count.

(** The memories of [ArchitecturalCompartmentBase()], in the order of its initialisers and body: the thread-local
    block (before [initialize_tls] fills it) and the first stack. *)
Definition arch_memories (tls_size stack_size : Z) (s : A) (m : Z -> Z)
  : outcome (CompartmentMemory * CompartmentMemory * A * (Z -> Z)) :=
  let* r := byte_memory tls_size s m in
  let '(tls, s1, m1) := r in
  let* r := byte_memory stack_size s1 m1 in
  let '(stack, s2, m2) := r in Done (tls, stack, s2, m2).

(** The stack that [get_stack] adds for an invocation from a callback. *)
Definition get_stack_memory (stack_size : Z) := byte_memory stack_size.

(** [CompartmentMemory<FData, false, true> data(alloc_local_state)]. *)
Definition data_memory (sizeof_FData : option Z) := memory_construct_one false true sizeof_FData.

(** The memories of [Compartment<FData>()]. *)
Definition compartment_memories (tls_size stack_size : Z) (sizeof_FData : option Z) (s : A) (m : Z -> Z)
  : outcome (CompartmentMemory * CompartmentMemory * CompartmentMemory * A * (Z -> Z)) :=
  let* r := arch_memories tls_size stack_size s m in
  let '(tls, stack, s1, m1) := r in
  let* r := data_memory sizeof_FData s1 m1 in
  let '(data, s2, m2) := r in Done (tls, stack, data, s2, m2).

(** [alloc_compartment_memory<CData>(count)], with its default arguments. *)
Definition alloc_compartment_memory (sizeof_CData count : Z) := memory_construct_many true false sizeof_CData count.

(** The byte [b] is one of the first [n] of the block. *)
Definition in_block (cm : CompartmentMemory) (n b : Z) : bool := (cm_base cm <=? b) && (b <? cm_base cm + n).

Lemma do_alloc_spec clear zero_init alloc_size init_size s m cm s' m' :
  do_alloc clear zero_init alloc_size init_size s m = Done (cm, s', m') ->
  cm_alloc_size cm = alloc_size /\
  forall b, m' b = if in_block cm (if clear then alloc_size else if zero_init then init_size else 0) b then 0 else m b.
Proof.
  unfold do_alloc. destruct (alloc_range s alloc_size) as [base s1]. destruct (base =? 0); [done|]. intros [= <- <- <-].
  split; [done|]. intros b. unfold in_block. cbn [cm_base]. destruct clear; [done|]. destruct zero_init; [done|].
  destruct (Z.leb_spec base b), (Z.ltb_spec b (base + 0)); cbn; done || lia.
Qed.

Context (Hpow : forall v, 0 <= v < 2 ^ 64 -> v <= next_pow2 v).

Lemma memory_many_spec clear zero_init sizeof_T count s m cm s' m' :
  0 < sizeof_T -> 0 < count -> count * sizeof_T < 2 ^ 64 ->
  memory_construct_many clear zero_init sizeof_T count s m = Done (cm, s', m') ->
  count * sizeof_T <= cm_alloc_size cm /\
  forall b, m' b = if in_block cm (if clear then cm_alloc_size cm else if zero_init then count * sizeof_T else 0) b then 0 else m b.
Proof.
  intros HT Hc Hsz. unfold memory_construct_many. destruct (Z.eqb_spec count 0); [lia|].
  rewrite u64_small by (unfold is_u64; nia). specialize (Hpow (count * sizeof_T) ltac:(nia)).
  intros Hm. apply do_alloc_spec in Hm as [Hs Hb]. rewrite Hs. split; [lia|]. exact Hb.
Qed.

Lemma byte_memory_spec count s m cm s' m' :
  0 < count < 2 ^ 64 -> byte_memory count s m = Done (cm, s', m') -> count <= cm_alloc_size cm /\ forall b, m' b = m b.
Proof.
  intros Hc Hm. apply memory_many_spec in Hm as [Hs Hb]; [|lia..]. split; [lia|]. intros b. rewrite Hb.
  unfold in_block. destruct (Z.leb_spec (cm_base cm) b), (Z.ltb_spec b (cm_base cm + 0)); cbn; done || lia.
Qed.


End Memory.

(** ** Stack limits *)

(** A compartment that calls back into the kernel and is entered again from there goes on
    afterwards with the stack limits of the inner invocation in its control block: its own
    stack is in use, the limits name a stack that has been given back. *)
Theorem nested_limits_stale stack_size stack fresh (c : ArchCompartment) :
  stack_of_stacks c = [stack] -> is_initial_stack_used c = false -> 0 <= stack_size ->
  0 <= span_data fresh -> 0 <= span_size fresh -> span_data fresh + span_size fresh < 2 ^ 64 ->
  let outer := snd (get_stack stack_size fresh c) in
  let inner := snd (get_stack stack_size fresh outer) in
  let after := release_stack inner in
  active after = [stack] /\ stack_limit_low after = span_data fresh /\
  stack_limit_high after = span_data fresh + span_size fresh.
Proof.
  intros Hs Hu Hz Hd Hn Hb. unfold get_stack. rewrite Hs, Hu. cbn. unfold release_stack. cbn. unfold active. cbn.
  split_and!; [done|done|]. rewrite u64_small by (unfold is_u64; lia). done.
Qed.

(** ** Witnesses *)

Definition irq_free : cpu := exec (compartment_enter 0) ex_cpu.

Lemma calls_reach_kernel_witness :
  reaches_kernel (compartment_callback 3 4 5) (frame_of 4096 0 ex_cpu)
    (syscall_entry 256 264 0 (call_args (compartment_callback 3 4 5) irq_free)).
Proof.
  assert (forall a, kernel_word 256 264 65536 131072 4096 0 7 8 (fun self => self = 262144) (fun _ => 9) (fun _ => 10) a ->
    a < 290000) as Hkw.
  { unfold kernel_word, static_word, LAST, pcd. intros a [H|[H|(v & H)]]; [lia|lia|].
    destruct H as [[-> _]|[[-> _]|[[-> _]|[[-> _]|(self & -> & [[-> _]|[-> _]])]]]]; lia. }
  apply (calls_reach_kernel 256 264 65536 131072 4096 0 7 8 0 (fun self => self = 262144) (fun _ => 9) (fun _ => 10)
    ex_layout (compartment_callback 3 4 5) (frame_of 4096 0 ex_cpu) [] irq_free 0).
  - refine (trans_step_inv 256 264 0 0 65536 131072 4096 0 7 8 0 (fun self => self = 262144) (fun _ => 9) (fun _ => 10) ex_layout
      (ex_cpu, []) (irq_free, _) _ _).
    + apply T_enter; [done|done|vm_compute; discriminate|vm_compute; discriminate|].
      intros Hk. apply Hkw in Hk. vm_compute in Hk. discriminate.
    + split_and!; [exact ex_statics|reflexivity|reflexivity|]. split; [constructor|by split_and!].
  - vm_compute. reflexivity.
  - intros Hk. apply Hkw in Hk. vm_compute in Hk. discriminate.
Defined.

Definition double : Z -> syscall_result Z := fun x => SysOk (2 * x).

Definition no_callbacks : CompartmentBase (@Callback Z Z) := mkComp true [] (mkArch [Span 0x10000 0x4000] false 0 0).

(** The chunk at 0x4000 belongs to compartment 9. *)
Definition one_chunk : OwnStore := set_chunk_owner 1 9 own_initial.

Lemma callback_calls_function_witness :
  let '(cb, c1) := register 8 8 double 9 no_callbacks in
  callback_call 14 (Some (mkTCB 0 0 0 9)) cb 21 0x4100 0x4200 c1 one_chunk 9 (mkTmem (fun _ => 0) (fun _ => 0)) = CallReturned 42.
Proof.
  destruct (register 8 8 double 9 no_callbacks) as [cb c1] eqn:E.
  destruct (callback_calls_function 14 8 8 double 9 no_callbacks cb c1 c1 [] (Some (mkTCB 0 0 0 9)) 21 0x4100 0x4200 one_chunk
    (mkTmem (fun _ => 0) (fun _ => 0)) E ltac:(by rewrite app_nil_r)) as [H _]. rewrite H. vm_compute. reflexivity.
Defined.

(** A preparation that does nothing. *)
Definition prepared (h : CompartmentCallback) (r sp : Z) (c : CompartmentBase (@Callback WriteBuffers Written))
  : bool * bool * CompartmentBase (@Callback WriteBuffers Written) := (true, true, c).

Lemma prepared_balanced h r sp c1 : arch_wf (arch c1) -> balanced c1 (snd (prepared h r sp c1)).
Proof. done. Qed.

Lemma construct_ready_witness :
  let '(stdout, c) := @Compartment_construct ref_bits 14 0x4000 (fun a => a) one_chunk 9 (Span 0x8000 0x4000) (Span 0 0) prepared in
  stdout = mkCallback 9 0 /\ is_initial_stack_used (arch c) = false.
Proof.
  pose proof (@construct_ready ref_bits 14 0x4000 (fun a => a) one_chunk 9 (Span 0x8000 0x4000) (Span 0 0) prepared
    prepared_balanced) as H.
  destruct (Compartment_construct _ _ _ _ _ _ _ _) as [stdout c]. destruct H as (H1 & _ & _ & H2 & _). by split.
Defined.

Lemma stdout_reaches_writer_witness :
  let k := @Compartment_construct ref_bits 14 0x4000 (fun a => a) one_chunk 9 (Span 0x8000 0x4000) (Span 0 0) prepared in
  callback_call 14 (Some (mkTCB 0 0 0 9)) (fst k) (0x4000, [Span 0x4010 2]) 0x4100 0x4200 (snd k) one_chunk 9
    (mkTmem (fun _ => (0, [])) (fun _ => ([], 0))) = CallReturned ([0x4010; 0x4011], 2).
Proof.
  intros k. etransitivity; [apply (@stdout_reaches_writer ref_bits 14 0x4000 (fun a => a) one_chunk 9 (Span 0x8000 0x4000)
    (Span 0 0) prepared (snd k) [] (Some (mkTCB 0 0 0 9)) 0x4000 [Span 0x4010 2] 0x4100 0x4200
    (mkTmem (fun _ => (0, [])) (fun _ => ([], 0))) prepared_balanced);
    [by rewrite app_nil_r|reflexivity|vm_compute; reflexivity|vm_compute; reflexivity]|vm_compute; reflexivity].
Defined.

(** Blocks are handed out from 0x8000 on, and every byte was 7. *)
Definition bump (s size : Z) : Z * Z := (s, s + size).


Lemma nested_limits_stale_witness :
  let c := mkArch [Span 0x8000 0x4000] false 0 0 in
  let outer := snd (get_stack 0x4000 (Span 0x10000 0x4000) c) in
  let after := release_stack (snd (get_stack 0x4000 (Span 0x10000 0x4000) outer)) in
  active after = [Span 0x8000 0x4000] /\ stack_limit_low after = 0x10000.
Proof.
  destruct (nested_limits_stale 0x4000 (Span 0x8000 0x4000) (Span 0x10000 0x4000) (mkArch [Span 0x8000 0x4000] false 0 0))
    as (H1 & H2 & _); [done|done|lia|cbn; lia|cbn; lia|cbn; lia|]. by split.
Defined.

Definition counting : @lambda unit Z := fun data c => (Some (data + 1), c).

Lemma invoke_gives_result_witness :
  fst (@invoke unit Z ref_bits 0x4000 8 8 counting 41 0 (Span 0 0) (mkComp true [] (mkArch [Span 0x10000 0x4000] false 0 0))) =
  CValue 42.
Proof.
  pose proof (@invoke_gives_result unit Z ref_bits 0x4000 8 8 counting 41 0 (Span 0 0)
    (mkComp true [] (mkArch [Span 0x10000 0x4000] false 0 0))) as H.
  destruct (invoke _ _ _ _ _ _ _ _) as [res c']. destruct H as [_ H]. destruct (H eq_refl) as (a & Hr & _). exact Hr.
Defined.
