(* ===== verification/Interrupts.v ===== *)
(** * Exceptions and interrupts (exceptions.asm, cores.asm, macros.asm, trap.h, gdt.cc)

    The gates through which exceptions and interrupts come in, the code that saves and
    restores the interrupted state around their handlers, and the table of gates, as
    instruction lists on the machine of [Transition]. The processor's part, delivery
    through a gate on the stack the gate names, is [deliver]. *)

From S2P Require Import Prelude External Cpu Transition.

(** ** The processor *)

(** Exception gates leave interrupts enabled, interrupt gates disable them. *)
Inductive gate_type : Type := ExceptionGate | InterruptGate.

#[export] Instance reg_eq_dec : EqDecision reg.
Proof. solve_decision. Defined.

Definition RFLAGS_IF : Z := 0x200.

(** Words pushed one after the other. *)
Fixpoint push_words (vs : list Z) (s : cpu) : cpu :=
  match vs with [] => s | v :: vs' => push_words vs' (push_word v s) end.

(** What the processor pushes: stack segment and pointer, flags, code segment, instruction
    pointer and the error code of the exceptions that have one. *)
Definition interrupt_words (ss : Z) (err : option Z) (s : cpu) : list Z :=
  [ss; rf s RSP; rflags s; if user s then COMPARTMENT_CS else KERNEL_CS; rip s] ++
  match err with Some e => [e] | None => [] end.

Definition enter_gate (entry flags : Z) (s : cpu) : cpu :=
  mkCpu (rf s) entry flags (cr3 s) (fs s) (gs s) (tr s) false (mem s).

(** Delivery through a gate with a stack of its own: [ist] is the top of that stack. *)
Definition deliver (g : gate_type) (ist ss : Z) (err : option Z) (entry : Z) (s : cpu) : cpu :=
  enter_gate entry (match g with ExceptionGate => rflags s | InterruptGate => Z.ldiff (rflags s) RFLAGS_IF end)
    (push_words (interrupt_words ss err s) (set_reg RSP (ist - ist mod 16) s)).

(** ** The code *)

Definition INT_ERR_OFFSET : Z := 0.
Definition INT_RIP_OFFSET : Z := 8.
Definition INT_CS_OFFSET : Z := 0x10.
Definition TRAP_REGS_END : Z := 0x78.

(** The registers in the order of [TrapFrame]. *)
Definition trap_regs : list reg := [RDI; RSI; RDX; RCX; R8; R9; R10; R11; RBX; RBP; R12; R13; R14; R15; RAX].

(** Registers at consecutive words. *)
Fixpoint slots (off : Z) (l : list reg) : list (reg * Z) :=
  match l with [] => [] | r :: l' => (r, off) :: slots (off + 8) l' end.

(** The [TRAP_*_OFFSET] constants. *)
Definition trap_slots : list (reg * Z) := slots 0 trap_regs.

Definition save_regs : list instr :=
  SubI RSP TRAP_REGS_END :: map (fun x => Store RSP (snd x) (fst x)) trap_slots.

Definition restore_regs : list instr :=
  map (fun x => Load (fst x) RSP (snd x)) trap_slots ++ [AddI RSP TRAP_REGS_END].

(** Signed reading of a 64-bit word, as [jl] and [jge] compare. *)
Definition s64 (z : Z) : Z := if z <? 2 ^ 63 then z else z - 2 ^ 64.

(** Code with branches: straight-line code, a conditional jump over one of two pieces, and one piece after another. *)
Inductive prog : Type :=
| Code (l : list instr)
| If (c : cpu -> bool) (p q : prog)
| Seq (p q : prog).

Fixpoint run (p : prog) (s : cpu) : cpu :=
  match p with
  | Code l => exec l s
  | If c p q => if c s then run p s else run q s
  | Seq p q => run q (run p s)
  end.

Lemma run_code l s : run (Code l) s = exec l s.
Proof. reflexivity. Qed.

Lemma run_seq p q s : run (Seq p q) s = run q (run p s).
Proof. reflexivity. Qed.

Lemma run_if c p q s : run (If c p q) s = if c s then run p s else run q s.
Proof. reflexivity. Qed.

Section Code.
(** Addresses of the variables [kernel_pagetable], [per_core_data] and
    [local_apic_mapping], of the two labels of [acquire_semaphore], and of [shutdown]. *)
Context (kernel_pagetable per_core_data local_apic_mapping loop_suspend loop_hlt shutdown : Z).

Definition set_kernel_cr3 (off : Z) (s : cpu) : cpu :=
  let s1 := exec [Load RAX RSP off; AndI RAX 3; Test RAX] s in
  if rf s1 RAX =? 0 then s1 else exec [LoadAbs RAX kernel_pagetable; WrCr3 RAX] s1.

Definition swap_kernel_cr3_code (r : reg) (off : Z) : prog :=
  Seq (Code [Load r RSP off; AndI r 3; Test r])
    (If (fun s => rf s r =? 0) (Code [XorSelf r]) (Code [RdCr3 r; LoadAbs RAX kernel_pagetable; WrCr3 RAX])).

Definition swap_kernel_cr3 (r : reg) (off : Z) (s : cpu) : cpu := run (swap_kernel_cr3_code r off) s.

Definition restore_swapped_cr3 (r : reg) (s : cpu) : cpu :=
  let s1 := exec [Test r] s in if rf s1 r =? 0 then s1 else exec [WrCr3 r] s1.

Definition reset_suspend_check_code (off : Z) : prog :=
  Seq (Code [Load RAX RSP off; CmpI RAX loop_suspend])
    (If (fun s => s64 (rf s RAX) <? s64 loop_suspend) (Code [])
      (Seq (Code [CmpI RAX loop_hlt])
        (If (fun s => s64 loop_hlt <=? s64 (rf s RAX)) (Code []) (Code [StoreI RSP off loop_suspend])))).

Definition reset_suspend_check_macro (off : Z) (s : cpu) : cpu := run (reset_suspend_check_code off) s.

Definition interrupt_prelude_code : prog :=
  Seq (Code save_regs)
    (Seq (swap_kernel_cr3_code RBX (TRAP_REGS_END + INT_CS_OFFSET))
      (Code (reset_per_core_pointer per_core_data ++ [RdFs RBP] ++ get_thread_execution_context_entry R10 ++
             [Load RAX R10 TEC_TLS_OFFSET; WrFs RAX]))).

Definition interrupt_prelude (s : cpu) : cpu := run interrupt_prelude_code s.

Definition interrupt_prelude_no_status (s : cpu) : cpu := interrupt_prelude (exec [PushI 0] s).

Definition interrupt_conclusion (s : cpu) : cpu :=
  exec (restore_regs ++ [AddI RSP 8; Iretq])
    (reset_suspend_check_macro (TRAP_REGS_END + INT_RIP_OFFSET)
      (exec [WrFs RBP] (restore_swapped_cr3 RBX s))).

(** [exception_gate_pagefault] up to the call of [page_fault_handler]; [cr2] is the
    address that faulted. *)
Definition exception_gate_pagefault_code (cr2 : Z) : prog :=
  Seq interrupt_prelude_code (Code [MovI RDI cr2; MovR RSI RBX; MovR RDX RSP]).

Definition exception_gate_pagefault (cr2 : Z) (s : cpu) : cpu := run (exception_gate_pagefault_code cr2) s.

(** [exception_gate_breakpoint] up to the call of [print_exception]. *)
Definition exception_gate_breakpoint (ex_string : Z) (s : cpu) : cpu :=
  exec [MovI RDI ex_string; Load RSI RSP (TRAP_REGS_END + INT_ERR_OFFSET);
        Load RDX RSP (TRAP_REGS_END + INT_RIP_OFFSET)] (interrupt_prelude_no_status s).

(** [print_and_halt] up to the call of [print_exception], and behind it. *)
Definition print_and_halt (ex_string : Z) (s : cpu) : cpu :=
  exec [MovI RDI ex_string; Load RSI RSP INT_ERR_OFFSET; Load RDX RSP INT_RIP_OFFSET]
    (set_kernel_cr3 INT_CS_OFFSET s).

Definition print_and_halt_no_status (ex_string : Z) (s : cpu) : cpu :=
  print_and_halt ex_string (exec [PushI 0] s).

Definition print_and_halt_end : list instr := [JmpI shutdown].

Definition PCD_NOT_GEN_OFFSET : Z := 0x10.

(** [wakeup_handler]; the last store acknowledges the interrupt at the local APIC. *)
Definition wakeup_handler_code : prog :=
  Seq (Code [Push RDI; Push RAX; LoadGs RDI PCD_SELF_OFFSET; AddI RDI PCD_NOT_GEN_OFFSET; IncM RDI 0])
    (Seq (reset_suspend_check_code 0x10)
      (Code [LoadAbs RDI local_apic_mapping; XorSelf RAX; Store RDI 0xB0 RAX; Pop RAX; Pop RDI; Iretq])).

Definition wakeup_handler (s : cpu) : cpu := run wakeup_handler_code s.

Definition nop_interrupt_gate : list instr := [Iretq].

(** The inline assembly of [install_gdt] behind [lgdt]: [change_cs] is its label. *)
Definition install_gdt (change_cs tss_seg : Z) : list instr :=
  [PushI KERNEL_DS; Push RSP; Pushf; PushI KERNEL_CS; PushI change_cs; Iretq; MovI RCX tss_seg; Ltr RCX; Pop RAX].

(** The pieces one after the other. *)
Lemma suspend_check_eq off s :
  reset_suspend_check_macro off s =
  let s1 := exec [Load RAX RSP off; CmpI RAX loop_suspend] s in
  if s64 (rf s1 RAX) <? s64 loop_suspend then s1
  else let s2 := exec [CmpI RAX loop_hlt] s1 in
    if s64 loop_hlt <=? s64 (rf s2 RAX) then s2 else exec [StoreI RSP off loop_suspend] s2.
Proof.
  unfold reset_suspend_check_macro, reset_suspend_check_code. rewrite run_seq, run_code, run_if.
  set (s1 := exec _ s). clearbody s1. cbv zeta beta. destruct (_ <? _); [exact eq_refl|].
  rewrite run_seq, run_code, run_if. set (s2 := exec _ s1). clearbody s2. cbv beta. destruct (_ <=? _); exact eq_refl.
Qed.

Lemma interrupt_prelude_eq s :
  interrupt_prelude s =
  exec (reset_per_core_pointer per_core_data ++ [RdFs RBP] ++ get_thread_execution_context_entry R10 ++
        [Load RAX R10 TEC_TLS_OFFSET; WrFs RAX])
    (swap_kernel_cr3 RBX (TRAP_REGS_END + INT_CS_OFFSET) (exec save_regs s)).
Proof. unfold interrupt_prelude, interrupt_prelude_code, swap_kernel_cr3. rewrite run_seq, run_code, run_seq, run_code. exact eq_refl. Qed.

Lemma exception_gate_pagefault_eq cr2 s :
  exception_gate_pagefault cr2 s = exec [MovI RDI cr2; MovR RSI RBX; MovR RDX RSP] (interrupt_prelude s).
Proof. unfold exception_gate_pagefault, exception_gate_pagefault_code, interrupt_prelude. rewrite run_seq, run_code. exact eq_refl. Qed.

Lemma wakeup_handler_eq s :
  wakeup_handler s =
  exec [LoadAbs RDI local_apic_mapping; XorSelf RAX; Store RDI 0xB0 RAX; Pop RAX; Pop RDI; Iretq]
    (reset_suspend_check_macro 0x10
      (exec [Push RDI; Push RAX; LoadGs RDI PCD_SELF_OFFSET; AddI RDI PCD_NOT_GEN_OFFSET; IncM RDI 0] s)).
Proof. unfold wakeup_handler, wakeup_handler_code, reset_suspend_check_macro. rewrite run_seq, run_code, run_seq, run_code. exact eq_refl. Qed.

End Code.

(** Where an interrupted core goes on. *)
Definition resume_point (loop_suspend loop_hlt rip : Z) : Z :=
  if (s64 loop_suspend <=? s64 rip) && (s64 rip <? s64 loop_hlt) then loop_suspend else rip.

(** ** Saving and restoring *)

(** Runs straight-line code on a symbolic state, and resolves its reads. *)
Ltac irq_cbn := cbn -[u64 write Z.add Z.sub Z.shiftr Z.shiftl Z.land Z.ldiff Z.modulo words_at].
Ltac irq_run := irq_cbn; unfold push_word, set_mem; irq_cbn.
Ltac irq_mem :=
  repeat match goal with
  | |- context [write ?a ?v ?m ?b] => first [rewrite (write_eq a v m b) by lia | rewrite (write_ne a v m b) by lia]
  | |- context [u64 ?x] => rewrite (u64_small x) by (unfold is_u64; lia)
  end.

Lemma words_at_app m a ws ws' :
  words_at m a (ws ++ ws') <-> words_at m a ws /\ words_at m (a + 8 * Z.of_nat (length ws)) ws'.
Proof.
  revert a; induction ws as [|w ws IH]; intros a; cbn [app words_at length].
  - rewrite Z.mul_0_r, Z.add_0_r. tauto.
  - rewrite IH. replace (a + 8 + 8 * Z.of_nat (length ws)) with (a + 8 * Z.of_nat (S (length ws))) by lia. tauto.
Qed.

(** The registers that hold other than general values; of the flags all but the status flags. *)
Definition same_control (s s' : cpu) : Prop :=
  cr3 s' = cr3 s /\ fs s' = fs s /\ gs s' = gs s /\ tr s' = tr s /\ user s' = user s /\ rip s' = rip s /\
  system_flags (rflags s') = system_flags (rflags s).

#[export] Instance same_control_trans : Transitive same_control.
Proof.
  intros s1 s2 s3 (? & ? & ? & ? & ? & ? & ?) (? & ? & ? & ? & ? & ? & ?). unfold same_control. split_and!; congruence.
Qed.

(** An arithmetic instruction leaves the control registers. *)
Lemma set_status_control r v w s : same_control s (set_reg r v (set_status w s)).
Proof. unfold same_control. cbn. split_and!; try done. apply status_system. Qed.

Lemma reg_code_inj q r : reg_code q = reg_code r -> q = r.
Proof. by destruct q, r. Qed.

Lemma rf_set_eq r v s : rf (set_reg r v s) r = v.
Proof. cbn. by rewrite Nat.eqb_refl. Qed.

Lemma rf_set_ne r v s q : q <> r -> rf (set_reg r v s) q = rf s q.
Proof. intros Hne. cbn. destruct (Nat.eqb_spec (reg_code q) (reg_code r)) as [E|]; [by apply reg_code_inj in E|done]. Qed.

Lemma mem_set r v s : mem (set_reg r v s) = mem s.
Proof. done. Qed.

Lemma exec_cons i c s : exec (i :: c) s = exec c (exec1 s i).
Proof. done. Qed.

Lemma store_slots_spec sp l : forall off s,
  rf s RSP = sp -> 0 <= sp + off -> sp + off + 8 * Z.of_nat (length l) <= 2 ^ 64 ->
  let p := exec (map (fun x => Store RSP (snd x) (fst x)) (slots off l)) s in
  rf p = rf s /\ same_control s p /\ words_at (mem p) (sp + off) (map (rf s) l) /\
  forall a, ~ sp + off <= a < sp + off + 8 * Z.of_nat (length l) -> mem p a = mem s a.
Proof.
  induction l as [|r l IH]; intros off s Hsp Hlo Hhi; cbn [length] in Hhi; [done|].
  cbn [slots map]. cbv zeta. rewrite exec_cons. cbn [fst snd exec1]. rewrite Hsp, u64_small by (unfold is_u64; lia).
  set (s1 := set_mem _ s). destruct (IH (off + 8) s1) as (H1 & H2 & H3 & H4); [done|lia|lia|].
  replace (sp + (off + 8)) with (sp + off + 8) in * by lia. split_and!.
  - by rewrite H1.
  - exact H2.
  - cbn [map words_at]. split; [|exact H3]. rewrite H4 by lia. by apply write_eq.
  - intros a Ha. cbn [length] in Ha. rewrite H4 by lia. apply write_ne. lia.
Qed.

Lemma load_slots_spec sp l : forall off s ws,
  rf s RSP = sp -> RSP ∉ l -> NoDup l -> 0 <= sp + off -> sp + off + 8 * Z.of_nat (length l) <= 2 ^ 64 ->
  length ws = length l -> words_at (mem s) (sp + off) ws ->
  let p := exec (map (fun x => Load (fst x) RSP (snd x)) (slots off l)) s in
  map (rf p) l = ws /\ (forall q, q ∉ l -> rf p q = rf s q) /\ same_control s p /\ mem p = mem s.
Proof.
  induction l as [|r l IH]; intros off s ws Hsp Hr Hnd Hlo Hhi Hlen Hw; cbn [length] in *.
  { by destruct ws. }
  destruct ws as [|w ws]; [done|]. cbn [words_at] in Hw. destruct Hw as [Hw Hws]. injection Hlen as Hlen.
  apply not_elem_of_cons in Hr as [Hr Hrl]. apply NoDup_cons in Hnd as [Hl Hnd].
  cbn [slots map]. cbv zeta. rewrite exec_cons. cbn [fst snd exec1]. rewrite Hsp, u64_small, Hw by (unfold is_u64; lia).
  destruct (IH (off + 8) (set_reg r w s) ws) as (H1 & H2 & H3 & H4); try done; try lia.
  { by rewrite rf_set_ne. }
  { by replace (sp + (off + 8)) with (sp + off + 8) by lia. }
  split_and!; try done.
  - cbn [map]. rewrite H1, H2 by done. by rewrite rf_set_eq.
  - intros q Hq. apply not_elem_of_cons in Hq as [Hq Hql]. rewrite H2 by done. by apply rf_set_ne.
Qed.

Lemma trap_regs_nodup : NoDup trap_regs.
Proof. apply (bool_decide_unpack _). vm_compute. exact I. Qed.

Lemma rsp_not_trap : RSP ∉ trap_regs.
Proof. unfold trap_regs. rewrite !not_elem_of_cons. split_and!; try done. apply not_elem_of_nil. Qed.

Lemma save_spec s sp :
  rf s RSP = sp -> 120 <= sp <= 2 ^ 64 ->
  let p := exec save_regs s in
  rf p RSP = sp - 120 /\ (forall r, r <> RSP -> rf p r = rf s r) /\ same_control s p /\
  words_at (mem p) (sp - 120) (map (rf s) trap_regs) /\
  forall a, ~ sp - 120 <= a < sp -> mem p a = mem s a.
Proof.
  intros Hsp Hb. unfold save_regs, trap_slots. cbv zeta. rewrite exec_cons. cbn [exec1]. rewrite Hsp.
  unfold TRAP_REGS_END. rewrite u64_small by (unfold is_u64; lia).
  set (s1 := set_reg RSP (sp - 0x78) (set_status _ s)).
  destruct (store_slots_spec (sp - 120) trap_regs 0 s1) as (H1 & H2 & H3 & H4); [apply rf_set_eq|lia|cbn; lia|].
  rewrite Z.add_0_r in *. cbn [length trap_regs] in H4. split_and!.
  - rewrite H1. apply rf_set_eq.
  - intros r Hr. rewrite H1. unfold s1. by rewrite rf_set_ne.
  - etransitivity; [|exact H2]. unfold s1. apply set_status_control.
  - exact H3.
  - intros a Ha. rewrite H4 by lia. done.
Qed.

Lemma restore_tail p s sp ws :
  rf p RSP = sp -> 0 <= sp -> sp + 120 < 2 ^ 64 -> map (rf p) trap_regs = ws -> same_control s p -> mem p = mem s ->
  let q := exec [AddI RSP TRAP_REGS_END] p in
  rf q RSP = sp + 120 /\ map (rf q) trap_regs = ws /\ same_control s q /\ mem q = mem s.
Proof.
  intros Hp Hb Ht H1 H3 H4. cbv zeta. rewrite exec_cons. cbn [exec1 exec fold_left]. rewrite Hp.
  unfold TRAP_REGS_END. rewrite u64_small by (unfold is_u64; lia).
  split_and!; [apply rf_set_eq| |etransitivity; [exact H3|apply set_status_control]|exact H4]. rewrite <- H1.
  unfold trap_regs. cbn [map]. by rewrite !rf_set_ne by done.
Qed.

Lemma restore_spec s sp ws :
  rf s RSP = sp -> 0 <= sp -> sp + 120 < 2 ^ 64 -> length ws = 15%nat -> words_at (mem s) sp ws ->
  let p := exec restore_regs s in
  rf p RSP = sp + 120 /\ map (rf p) trap_regs = ws /\ same_control s p /\ mem p = mem s.
Proof.
  intros Hsp Hb Ht Hl Hw. unfold restore_regs, trap_slots. cbv zeta. rewrite exec_app.
  destruct (load_slots_spec sp trap_regs 0 s ws) as (H1 & H2 & H3 & H4);
    [done|apply rsp_not_trap|apply trap_regs_nodup|lia|cbn; lia|done|by rewrite Z.add_0_r|].
  apply restore_tail; [rewrite H2; [done|apply rsp_not_trap]|assumption..].
Qed.

(** ** Delivery *)

Lemma push_word_at v s sp :
  rf s RSP = sp -> 8 <= sp < 2 ^ 64 ->
  rf (push_word v s) RSP = sp - 8 /\ mem (push_word v s) = write (sp - 8) v (mem s) /\
  (forall r, r <> RSP -> rf (push_word v s) r = rf s r) /\ same_control s (push_word v s).
Proof.
  intros Hsp Hb. unfold push_word. rewrite Hsp, u64_small by (unfold is_u64; lia).
  split_and!; [apply rf_set_eq|done| |done]. intros r Hr. cbn [set_mem rf]. by apply rf_set_ne.
Qed.

Lemma push_words_spec vs : forall sp s,
  rf s RSP = sp -> 8 * Z.of_nat (length vs) <= sp < 2 ^ 64 ->
  let p := push_words vs s in
  rf p RSP = sp - 8 * Z.of_nat (length vs) /\ (forall r, r <> RSP -> rf p r = rf s r) /\ same_control s p /\
  words_at (mem p) (sp - 8 * Z.of_nat (length vs)) (rev vs) /\
  forall a, ~ sp - 8 * Z.of_nat (length vs) <= a < sp -> mem p a = mem s a.
Proof.
  induction vs as [|v vs IH]; intros sp s Hsp Hb; cbn [push_words length].
  { split_and!; try done. lia. }
  cbn [length] in Hb. destruct (push_word_at v s sp) as (P1 & P2 & P3 & P4); [done|lia|].
  destruct (IH (sp - 8) (push_word v s)) as (I1 & I2 & I3 & I4 & I5); [done|lia|].
  set (q := push_word v s) in *. clearbody q. set (p := push_words vs q) in *. clearbody p. cbv zeta.
  replace (sp - 8 * Z.of_nat (S (length vs))) with (sp - 8 - 8 * Z.of_nat (length vs)) by lia. split_and!.
  - exact I1.
  - intros r Hr. by rewrite I2, P3.
  - by transitivity q.
  - cbn [rev]. rewrite words_at_app. split; [done|]. rewrite length_rev. cbn [words_at]. split; [|done].
    rewrite I5 by lia. rewrite P2. apply write_eq. lia.
  - intros a Ha. rewrite I5 by lia. rewrite P2. apply write_ne. lia.
Qed.

Lemma push_words_app vs v s : push_words (vs ++ [v]) s = push_word v (push_words vs s).
Proof. revert s; induction vs as [|w vs IH]; intros s; [done|]. apply IH. Qed.

Lemma push_in_gate entry fl v s : exec [PushI v] (enter_gate entry fl s) = enter_gate entry fl (push_word v s).
Proof. reflexivity. Qed.

(** Without an error code the gate pushes one. *)
Lemma deliver_no_status g ist ss entry s :
  exec [PushI 0] (deliver g ist ss None entry s) = deliver g ist ss (Some 0) entry s.
Proof. unfold deliver, interrupt_words. rewrite push_in_gate, push_words_app. by rewrite app_nil_r. Qed.

Lemma aligned_top ist : (16 | ist) -> ist - ist mod 16 = ist.
Proof. intros [q ->]. rewrite Z.mod_mul by lia. lia. Qed.

Lemma deliver_spec g ist ss err entry s :
  (16 | ist) -> 48 <= ist < 2 ^ 64 ->
  let d := deliver g ist ss err entry s in
  let sp := match err with Some _ => ist - 48 | None => ist - 40 end in
  rf d RSP = sp /\ (forall r, r <> RSP -> rf d r = rf s r) /\ cr3 d = cr3 s /\ fs d = fs s /\ gs d = gs s /\
  tr d = tr s /\ user d = false /\ rip d = entry /\
  words_at (mem d) sp (rev (interrupt_words ss err s)) /\
  forall a, ~ sp <= a < ist -> mem d a = mem s a.
Proof.
  intros Ha Hb. unfold deliver. rewrite aligned_top by done. cbv zeta. set (ws := interrupt_words ss err s).
  assert (ist - 8 * Z.of_nat (length ws) = match err with Some _ => ist - 48 | None => ist - 40 end) as Hsp
    by (unfold ws, interrupt_words; destruct err; cbn [length app]; lia).
  destruct (push_words_spec ws ist (set_reg RSP ist s)) as (I1 & I2 & (C1 & C2 & C3 & C4 & _) & I4 & I5);
    [apply rf_set_eq|destruct err; lia|].
  rewrite Hsp in *. clearbody ws. set (p := push_words ws _) in *. clearbody p.
  unfold enter_gate. cbn [rf cr3 fs gs tr user rip mem]. split_and!; try done.
  intros r Hr. rewrite I2 by done. by apply rf_set_ne.
Qed.

(** ** Into and out of a handler *)

Section Handling.
Context (kernel_pagetable per_core_data local_apic_mapping loop_suspend loop_hlt : Z).
Context (kbase ktop pcds core kpt ktls : Z) (is_comp : Z -> Prop) (pt_of tls_of : Z -> Z).
Context (Hly : layout kernel_pagetable per_core_data kbase ktop pcds core kpt ktls is_comp pt_of tls_of).

Notation "'kstatic'" := (static_word kernel_pagetable per_core_data pcds core kpt ktls is_comp pt_of tls_of).
Notation "'kstatics'" := (statics_ok kernel_pagetable per_core_data pcds core kpt ktls is_comp pt_of tls_of).
Notation "'kword'" :=
  (kernel_word kernel_pagetable per_core_data kbase ktop pcds core kpt ktls is_comp pt_of tls_of).
Notation "'kpcd'" := (pcd pcds core).

(** The kernel's per-core data and thread-local block are put in place. *)
Lemma prelude_tail_spec s :
  kstatics (mem s) -> tr s = TSS_SEG core ->
  let p := exec (reset_per_core_pointer per_core_data ++ [RdFs RBP] ++ get_thread_execution_context_entry R10 ++
                 [Load RAX R10 TEC_TLS_OFFSET; WrFs RAX]) s in
  rf p RSP = rf s RSP /\ rf p RBX = rf s RBX /\ rf p RBP = fs s /\ cr3 p = cr3 s /\ fs p = ktls /\ gs p = kpcd /\
  tr p = tr s /\ user p = user s /\ system_flags (rflags p) = system_flags (rflags s) /\ mem p = mem s.
Proof.
  intros Hst Htr. pose proof (pcd_bounds _ _ _ _ _ _ _ _ _ _ _ Hly) as Hp. destruct Hly as [Hcore Hpcds _ _ _].
  pose proof (Hst per_core_data pcds ltac:(unfold static_word; tauto)) as Hpd.
  pose proof (Hst kpcd kpcd ltac:(unfold static_word; tauto)) as Hself.
  pose proof (Hst (kpcd + 40) ktls ltac:(unfold static_word; tauto)) as Hktls.
  irq_run. rewrite Htr. unfold TSS_SEG, GDT_TSS_OFFSET.
  rewrite (u64_small (48 + 16 * core + 3 - 51)) by (unfold is_u64; lia).
  rewrite Z.shiftr_div_pow2 by lia. replace ((48 + 16 * core + 3 - 51) / 2 ^ 4) with core by zlia.
  unfold PCD_LOG2_SIZE. rewrite Z.shiftl_mul_pow2 by lia. rewrite Hpd.
  rewrite (u64_small (core * 2 ^ 7)) by (unfold is_u64; lia).
  replace (u64 (core * 2 ^ 7 + pcds)) with kpcd by (unfold pcd in *; rewrite u64_small; unfold is_u64; lia).
  unfold PCD_SELF_OFFSET, PCD_TEC_OFFSET, TEC_TLS_OFFSET. rewrite Z.add_0_r.
  rewrite (u64_small kpcd) by (unfold is_u64; lia). rewrite Hself.
  rewrite (u64_small (kpcd + 24)), (u64_small (kpcd + 24 + 16)) by (unfold is_u64; lia).
  replace (kpcd + 24 + 16) with (kpcd + 40) by lia. rewrite !status_system. by split_and!.
Qed.

(** [swap_kernel_cr3] looks at the code segment of the interrupted code. *)
Lemma swap_spec s off cs :
  mem s (u64 (rf s RSP + off)) = cs -> kstatics (mem s) ->
  let p := swap_kernel_cr3 kernel_pagetable RBX off s in
  rf p RSP = rf s RSP /\ rf p RBX = (if Z.land cs 3 =? 0 then 0 else cr3 s) /\
  cr3 p = (if Z.land cs 3 =? 0 then cr3 s else kpt) /\ fs p = fs s /\ gs p = gs s /\ tr p = tr s /\
  user p = user s /\ system_flags (rflags p) = system_flags (rflags s) /\ mem p = mem s.
Proof.
  intros Hcs Hst. pose proof (Hst kernel_pagetable kpt ltac:(unfold static_word; tauto)) as Hk.
  unfold swap_kernel_cr3, swap_kernel_cr3_code. irq_cbn. rewrite Hcs. destruct (Z.land cs 3 =? 0); irq_cbn; rewrite ?Hk, ?status_system; by split_and!.
Qed.

Lemma prelude_spec s sp cs :
  rf s RSP = sp -> 120 <= sp -> sp + 24 < 2 ^ 64 -> mem s (sp + 16) = cs -> kstatics (mem s) -> tr s = TSS_SEG core ->
  (forall a v, kstatic a v -> ~ sp - 120 <= a < sp) ->
  let p := interrupt_prelude kernel_pagetable per_core_data s in
  rf p RSP = sp - 120 /\ rf p RBX = (if Z.land cs 3 =? 0 then 0 else cr3 s) /\ rf p RBP = fs s /\
  cr3 p = (if Z.land cs 3 =? 0 then cr3 s else kpt) /\ fs p = ktls /\ gs p = kpcd /\ tr p = tr s /\
  user p = user s /\ system_flags (rflags p) = system_flags (rflags s) /\
  words_at (mem p) (sp - 120) (map (rf s) trap_regs) /\
  forall a, ~ sp - 120 <= a < sp -> mem p a = mem s a.
Proof.
  intros Hsp Hlo Hhi Hcs Hst Htr Hout.
  destruct (save_spec s sp Hsp ltac:(lia)) as (S1 & S2 & (C1 & C2 & C3 & C4 & C5 & C6 & C7) & S4 & S5).
  rewrite interrupt_prelude_eq. set (s1 := exec save_regs s) in *. clearbody s1.
  assert (kstatics (mem s1)) as Hst1.
  { intros a v Ha. rewrite S5 by (by eapply Hout). by apply Hst. }
  destruct (swap_spec s1 (TRAP_REGS_END + INT_CS_OFFSET) cs) as (W1 & W2 & W3 & W4 & W5 & W6 & W7 & W8 & W9); [|done|].
  { rewrite S1. unfold TRAP_REGS_END, INT_CS_OFFSET. rewrite u64_small by (unfold is_u64; lia).
    rewrite S5 by lia. rewrite <- Hcs. f_equal. lia. }
  set (s2 := swap_kernel_cr3 _ _ _ _) in *. clearbody s2.
  destruct (prelude_tail_spec s2) as (T1 & T2 & T3 & T4 & T5 & T6 & T7 & T8 & T9 & T10); [by rewrite W9|congruence|].
  cbv zeta. set (s3 := exec _ s2) in *. clearbody s3. rewrite C1 in W2, W3.
  split_and!; try congruence. intros a Ha. rewrite T10, W9. by apply S5.
Qed.

Lemma suspend_check_spec s off a :
  u64 (rf s RSP + off) = a ->
  let p := reset_suspend_check_macro loop_suspend loop_hlt off s in
  (forall r, r <> RAX -> rf p r = rf s r) /\ same_control s p /\
  mem p a = resume_point loop_suspend loop_hlt (mem s a) /\ forall b, b <> a -> mem p b = mem s b.
Proof.
  intros Ha. rewrite suspend_check_eq. unfold resume_point.
  set (s1 := exec [Load RAX RSP off; CmpI RAX loop_suspend] s). cbv zeta. set (s2 := exec [CmpI RAX loop_hlt] s1).
  assert (rf s1 RAX = mem s a /\ (forall r, r <> RAX -> rf s1 r = rf s r) /\ same_control s s1 /\ mem s1 = mem s)
    as (L1 & L2 & L3 & L4).
  { unfold s1. cbn -[u64 set_reg]. rewrite Ha. split_and!; [apply rf_set_eq|intros r Hr; by apply rf_set_ne| |done].
    unfold same_control. cbn. rewrite status_system. by split_and!. }
  assert (rf s2 = rf s1 /\ same_control s s2 /\ mem s2 = mem s) as (M1 & M2 & M3).
  { split_and!; [done| |done]. transitivity s1; [done|]. unfold s2, same_control. cbn. rewrite status_system. by split_and!. }
  clearbody s2. clearbody s1. rewrite M1, L1.
  destruct (Z.ltb_spec (s64 (mem s a)) (s64 loop_suspend)) as [H1|H1];
    [|destruct (Z.leb_spec (s64 loop_hlt) (s64 (mem s a))) as [H2|H2]].
  - destruct (Z.leb_spec (s64 loop_suspend) (s64 (mem s a))); [lia|]. cbn [andb]. rewrite L4. by split_and!.
  - destruct (Z.ltb_spec (s64 (mem s a)) (s64 loop_hlt)); [lia|]. rewrite andb_false_r, M1, M3. by split_and!.
  - destruct (Z.leb_spec (s64 loop_suspend) (s64 (mem s a))); [|lia].
    destruct (Z.ltb_spec (s64 (mem s a)) (s64 loop_hlt)); [|lia]. cbn [andb].
    cbn [exec fold_left exec1]. rewrite M1, L2, Ha by done. cbn [set_mem rf mem]. rewrite M1, M3. split_and!; try done.
    + by apply write_eq.
    + intros b Hb. by apply write_ne.
Qed.

(** What [iretq] takes from the stack. *)
Lemma iretq_spec s sp rip' cs fl rsp' :
  rf s RSP = sp -> 0 <= sp -> sp + 32 < 2 ^ 64 -> words_at (mem s) sp [rip'; cs; fl; rsp'] ->
  let e := exec [Iretq] s in
  (forall r, r <> RSP -> rf e r = rf s r) /\ rf e RSP = rsp' /\ rip e = rip' /\ rflags e = fl /\
  user e = negb (Z.land cs 3 =? 0) /\ cr3 e = cr3 s /\ fs e = fs s /\ gs e = gs s /\ tr e = tr s /\ mem e = mem s.
Proof.
  intros Hsp Hlo Hhi (W1 & W2 & W3 & W4 & _). cbn -[u64 set_reg Z.land]. rewrite Hsp.
  rewrite !(u64_small (sp + _)) by (unfold is_u64; lia).
  replace (sp + 16) with (sp + 8 + 8) by lia. replace (sp + 24) with (sp + 8 + 8 + 8) by lia.
  rewrite W1, W2, W3, W4, rf_set_eq. split_and!; try done.
  intros r Hr. by rewrite rf_set_ne.
Qed.

Lemma iret_spec s sp rip' cs fl rsp' :
  rf s RSP = sp -> 0 <= sp -> sp + 40 < 2 ^ 64 -> words_at (mem s) (sp + 8) [rip'; cs; fl; rsp'] ->
  let e := exec [AddI RSP 8; Iretq] s in
  (forall r, r <> RSP -> rf e r = rf s r) /\ rf e RSP = rsp' /\ rip e = rip' /\ rflags e = fl /\
  user e = negb (Z.land cs 3 =? 0) /\ cr3 e = cr3 s /\ fs e = fs s /\ gs e = gs s /\ tr e = tr s /\ mem e = mem s.
Proof.
  intros Hsp Hlo Hhi Hw. cbv zeta. rewrite exec_cons. cbn [exec1]. rewrite Hsp, u64_small by (unfold is_u64; lia).
  destruct (iretq_spec (set_reg RSP (sp + 8) (set_status (add_flags sp 8) s)) (sp + 8) rip' cs fl rsp') as (I1 & I2); [apply rf_set_eq|lia|lia|done|].
  split; [|exact I2]. intros r Hr. rewrite I1 by done. by rewrite rf_set_ne.
Qed.

Lemma conclusion_spec h sp regs err rip' cs fl rsp' ss :
  rf h RSP = sp -> 0 <= sp -> sp + 168 < 2 ^ 64 -> length regs = 15%nat ->
  words_at (mem h) sp (regs ++ [err; rip'; cs; fl; rsp'; ss]) ->
  let e := interrupt_conclusion loop_suspend loop_hlt h in
  map (rf e) trap_regs = regs /\ rf e RSP = rsp' /\ rip e = resume_point loop_suspend loop_hlt rip' /\
  rflags e = fl /\ cr3 e = (if rf h RBX =? 0 then cr3 h else rf h RBX) /\ fs e = rf h RBP /\ gs e = gs h /\
  tr e = tr h /\ user e = negb (Z.land cs 3 =? 0) /\ forall a, a <> sp + 128 -> mem e a = mem h a.
Proof.
  intros Hsp Hlo Hhi Hlen Hw. apply words_at_app in Hw as [Hw1 Hw2]. rewrite Hlen in Hw2.
  change (8 * Z.of_nat 15) with 120 in Hw2.
  unfold interrupt_conclusion. set (s1 := exec [WrFs RBP] (restore_swapped_cr3 RBX h)).
  assert (rf s1 = rf h /\ cr3 s1 = (if rf h RBX =? 0 then cr3 h else rf h RBX) /\ fs s1 = rf h RBP /\ gs s1 = gs h /\
    tr s1 = tr h /\ mem s1 = mem h) as (A1 & A2 & A3 & A4 & A5 & A6).
  { unfold s1, restore_swapped_cr3. cbn. destruct (rf h RBX =? 0); by split_and!. }
  clearbody s1.
  destruct (suspend_check_spec s1 (TRAP_REGS_END + INT_RIP_OFFSET) (sp + 128)) as (B1 & (D1 & D2 & D3 & D4 & _) & B3 & B4).
  { rewrite A1, Hsp. unfold TRAP_REGS_END, INT_RIP_OFFSET. rewrite u64_small by (unfold is_u64; lia). lia. }
  set (s2 := reset_suspend_check_macro _ _ _ s1) in *. clearbody s2. rewrite A6 in B3, B4. cbv zeta. rewrite exec_app.
  destruct (restore_spec s2 sp regs) as (R1 & R2 & (E1 & E2 & E3 & E4 & _) & R4);
    [by rewrite B1, A1|done|lia|done| |].
  { eapply words_at_ext; [|exact Hw1]. rewrite Hlen. intros b Hb. apply B4. lia. }
  set (s3 := exec restore_regs s2) in *. clearbody s3. cbn [words_at] in Hw2.
  destruct Hw2 as (F1 & F2 & F3 & F4 & F5 & F6 & _).
  destruct (iret_spec s3 (sp + 120) (resume_point loop_suspend loop_hlt rip') cs fl rsp')
    as (G1 & G2 & G3 & G4 & G5 & G6 & G7 & G8 & G9 & G10); [done|lia|lia| |].
  { cbn [words_at]. rewrite R4. split_and!; try done.
    - replace (sp + 120 + 8) with (sp + 128) by lia. rewrite B3. f_equal. rewrite <- F2. f_equal. lia.
    - rewrite B4 by lia. done.
    - rewrite B4 by lia. done.
    - rewrite B4 by lia. done. }
  set (e := exec [AddI RSP 8; Iretq] s3) in *. clearbody e. split_and!; try congruence.
  - rewrite <- R2. apply map_ext_in. intros r Hr%list_elem_of_In. apply G1. intros ->. by apply rsp_not_trap.
  - intros a Ha. rewrite G10, R4. by apply B4.
Qed.

(** The stack of the gates, apart from what the kernel relies on. *)
Context (ibase ist outer_sp : Z) (Hist : (16 | ist)).
Context (Hroom : 0 <= ibase /\ ibase + 168 <= ist /\ ist < 2 ^ 64).
Context (Hapart : forall a, kword a -> ~ ibase <= a < ist).

Notation "'kinv'" :=
  (trans_inv kernel_pagetable per_core_data kbase ktop pcds core kpt ktls outer_sp is_comp pt_of tls_of).

(** [TrapFrame] with the error code and what the processor pushed. *)
Definition trap_frame (ss err : Z) (s : cpu) : list Z :=
  map (rf s) trap_regs ++ rev (interrupt_words ss (Some err) s).

(** What the code of the gate finds when it calls the handler. *)
Definition handler_state (ss err : Z) (s p : cpu) : Prop :=
  rf p RSP = ist - 168 /\ words_at (mem p) (ist - 168) (trap_frame ss err s) /\
  rf p RBX = (if user s then cr3 s else 0) /\ rf p RBP = fs s /\
  cr3 p = (if user s then kpt else cr3 s) /\ fs p = ktls /\ gs p = kpcd /\ tr p = tr s /\ user p = false /\
  forall a, ~ ist - 168 <= a < ist -> mem p a = mem s a.

(** A handler comes back with the registers a function has to preserve, and leaves the
    trap frame and the kernel's words. *)
Definition handled (p h : cpu) : Prop :=
  rf h RSP = rf p RSP /\ rf h RBX = rf p RBX /\ rf h RBP = rf p RBP /\ same_system p h /\
  forall a, kword a \/ ist - 168 <= a < ist -> mem h a = mem p a.

Lemma handled_same p : handled p p.
Proof. unfold handled, same_system. by split_and!. Qed.

(** [e] goes on where [s] was interrupted. *)
Definition resumed (s e : cpu) : Prop :=
  (forall r, rf e r = rf s r) /\ rip e = resume_point loop_suspend loop_hlt (rip s) /\ rflags e = rflags s /\
  cr3 e = cr3 s /\ fs e = fs s /\ gs e = kpcd /\ tr e = tr s /\ user e = user s.

Lemma kernel_word_static a v : kstatic a v -> kword a.
Proof. intros Ha. unfold kernel_word. eauto. Qed.

Lemma ring_of_cs s :
  (Z.land (if user s then COMPARTMENT_CS else KERNEL_CS) 3 =? 0) = negb (user s).
Proof. by destruct (user s). Qed.

Lemma gate_spec g ss err entry s :
  kstatics (mem s) -> tr s = TSS_SEG core ->
  handler_state ss err s
    (interrupt_prelude kernel_pagetable per_core_data (deliver g ist ss (Some err) entry s)).
Proof.
  intros Hst Htr.
  destruct (deliver_spec g ist ss (Some err) entry s Hist ltac:(lia))
    as (D1 & D2 & D3 & D4 & D5 & D6 & D7 & D8 & D9 & D10).
  set (d := deliver g ist ss (Some err) entry s) in *. clearbody d.
  assert (forall a, kword a -> mem d a = mem s a) as Hd.
  { intros a Ha. apply D10. specialize (Hapart a Ha). lia. }
  destruct (prelude_spec d (ist - 48) (if user s then COMPARTMENT_CS else KERNEL_CS))
    as (P1 & P2 & P3 & P4 & P5 & P6 & P7 & P8 & P9 & P10 & P11); [done|lia|lia| | |congruence| |].
  { destruct D9 as (_ & _ & W & _). rewrite <- W. f_equal. lia. }
  { intros a v Ha. rewrite Hd by by eapply kernel_word_static. by apply Hst. }
  { intros a v Ha. pose proof (Hapart a (kernel_word_static _ _ Ha)). lia. }
  set (p := interrupt_prelude _ _ d) in *. clearbody p. rewrite ring_of_cs in P2, P4. rewrite D3 in P2, P4.
  replace (ist - 48 - 120) with (ist - 168) in * by lia. unfold handler_state. split_and!; try congruence.
  - apply words_at_app. split.
    + replace (map (rf s) trap_regs) with (map (rf d) trap_regs); [done|].
      apply map_ext_in. intros r Hr%list_elem_of_In. apply D2. intros ->. by apply rsp_not_trap.
    + replace (ist - 168 + _) with (ist - 48) by (cbn [length map trap_regs]; lia).
      eapply words_at_ext; [|exact D9]. intros b Hb. apply P11. lia.
  - rewrite P2. by destruct (user s).
  - rewrite P4. by destruct (user s).
  - intros a Ha. rewrite P11, D10 by lia. done.
Qed.

Lemma handler_kernel_words ss err s p a : handler_state ss err s p -> kword a -> mem p a = mem s a.
Proof. intros (_ & _ & _ & _ & _ & _ & _ & _ & _ & Hm) Ha. apply Hm. specialize (Hapart a Ha). lia. Qed.

(** Exceptions leave interrupts enabled. *)
Lemma gate_flags g ss err entry s :
  kstatics (mem s) -> tr s = TSS_SEG core ->
  system_flags (rflags (interrupt_prelude kernel_pagetable per_core_data (deliver g ist ss (Some err) entry s))) =
  system_flags (match g with ExceptionGate => rflags s | InterruptGate => Z.ldiff (rflags s) RFLAGS_IF end).
Proof.
  intros Hst Htr.
  destruct (deliver_spec g ist ss (Some err) entry s Hist ltac:(lia))
    as (D1 & D2 & D3 & D4 & D5 & D6 & D7 & D8 & D9 & D10).
  assert (rflags (deliver g ist ss (Some err) entry s) =
    match g with ExceptionGate => rflags s | InterruptGate => Z.ldiff (rflags s) RFLAGS_IF end) as <- by done.
  set (d := deliver g ist ss (Some err) entry s) in *. clearbody d.
  destruct (prelude_spec d (ist - 48) (mem d (ist - 48 + 16)))
    as (_ & _ & _ & _ & _ & _ & _ & _ & P9 & _); [done|lia|lia|done| |congruence| |exact P9].
  - intros a v Ha. pose proof (Hapart a (kernel_word_static _ _ Ha)). rewrite D10 by lia. by apply Hst.
  - intros a v Ha. pose proof (Hapart a (kernel_word_static _ _ Ha)). lia.
Qed.

Lemma trap_regs_all r : r = RSP \/ r ∈ trap_regs.
Proof. destruct r; first [by left|right; apply (bool_decide_unpack _); vm_compute; exact I]. Qed.

Lemma map_regs (f g : reg -> Z) r : map f trap_regs = map g trap_regs -> r ∈ trap_regs -> f r = g r.
Proof.
  generalize trap_regs. induction l as [|q l IH]; intros Hm Hr; [by apply elem_of_nil in Hr|].
  injection Hm as Hq Hm. apply elem_of_cons in Hr as [->|Hr]; [done|]. by apply IH.
Qed.

Lemma resume_spec ss err s p h :
  (user s = true -> cr3 s <> 0) -> handler_state ss err s p -> handled p h ->
  let e := interrupt_conclusion loop_suspend loop_hlt h in
  resumed s e /\ forall a, kword a -> mem e a = mem s a.
Proof.
  intros Hcr3 Hp. pose proof (handler_kernel_words ss err s p) as Hpm.
  pose proof Hp as (P1 & P2 & P3 & P4 & P5 & P6 & P7 & P8 & P9 & P10).
  intros (H1 & H2 & H3 & (S1 & S2 & S3 & S4 & S5) & H5).
  destruct (conclusion_spec h (ist - 168) (map (rf s) trap_regs) err (rip s)
    (if user s then COMPARTMENT_CS else KERNEL_CS) (rflags s) (rf s RSP) ss)
    as (E1 & E2 & E3 & E4 & E5 & E6 & E7 & E8 & E9 & E10); [congruence|lia|lia|done| |].
  { eapply words_at_ext; [|exact P2]. cbn [length map app trap_regs]. intros b Hb. apply H5. right. lia. }
  cbv zeta. set (e := interrupt_conclusion _ _ h) in *. clearbody e. rewrite ring_of_cs in E9. split.
  - unfold resumed. split_and!; try congruence.
    + intros r. destruct (trap_regs_all r) as [->|Hr]; [done|]. by apply map_regs.
    + rewrite E5, H2, P3, S1, P5. destruct (user s); [|done]. destruct (Z.eqb_spec (cr3 s) 0); [tauto|done].
    + rewrite E9. by destruct (user s).
  - intros a Ha. rewrite E10, H5, Hpm; [done..|by left|]. specialize (Hapart a Ha). lia.
Qed.

Lemma set_kernel_cr3_spec s off cs :
  mem s (u64 (rf s RSP + off)) = cs -> kstatics (mem s) ->
  let p := set_kernel_cr3 kernel_pagetable off s in
  rf p RSP = rf s RSP /\ cr3 p = (if Z.land cs 3 =? 0 then cr3 s else kpt) /\ fs p = fs s /\ gs p = gs s /\
  user p = user s /\ mem p = mem s.
Proof.
  intros Hcs Hst. pose proof (Hst kernel_pagetable kpt ltac:(unfold static_word; tauto)) as Hk.
  unfold set_kernel_cr3. irq_cbn. rewrite Hcs. destruct (Z.land cs 3 =? 0); irq_cbn; rewrite ?Hk; by split_and!.
Qed.

Lemma report_args_spec s ex sp err r :
  rf s RSP = sp -> 0 <= sp -> sp + 8 < 2 ^ 64 -> mem s sp = err -> mem s (sp + 8) = r ->
  let p := exec [MovI RDI ex; Load RSI RSP INT_ERR_OFFSET; Load RDX RSP INT_RIP_OFFSET] s in
  rf p RDI = ex /\ rf p RSI = err /\ rf p RDX = r /\ cr3 p = cr3 s /\ fs p = fs s /\ gs p = gs s /\ user p = user s.
Proof.
  intros Hsp H0 Hb He Hr. unfold INT_ERR_OFFSET, INT_RIP_OFFSET. irq_cbn. rewrite Hsp, Z.add_0_r.
  rewrite !u64_small by (unfold is_u64; lia). by split_and!.
Qed.

(** An exception that is not handled is reported with its name, its error code (0 when
    it has none) and the address it came from, under the kernel's page table but with the
    thread-local block and the per-core pointer of the code that raised it. *)
Theorem fatal_exception_reported ss err entry ex s :
  kstatics (mem s) ->
  let p := match err with
           | Some e => print_and_halt kernel_pagetable ex (deliver ExceptionGate ist ss (Some e) entry s)
           | None => print_and_halt_no_status kernel_pagetable ex (deliver ExceptionGate ist ss None entry s)
           end in
  rf p RDI = ex /\ rf p RSI = default 0 err /\ rf p RDX = rip s /\ user p = false /\
  cr3 p = (if user s then kpt else cr3 s) /\ fs p = fs s /\ gs p = gs s.
Proof.
  intros Hst p.
  assert (p = print_and_halt kernel_pagetable ex (deliver ExceptionGate ist ss (Some (default 0 err)) entry s)) as ->.
  { unfold p. destruct err as [e|]; [done|]. unfold print_and_halt_no_status. by rewrite deliver_no_status. }
  destruct (deliver_spec ExceptionGate ist ss (Some (default 0 err)) entry s Hist ltac:(lia))
    as (D1 & D2 & D3 & D4 & D5 & D6 & D7 & D8 & D9 & D10).
  unfold print_and_halt. set (d := deliver _ _ _ _ _ _) in *. clearbody d. destruct D9 as (W0 & W1 & W2 & _).
  destruct (set_kernel_cr3_spec d INT_CS_OFFSET (if user s then COMPARTMENT_CS else KERNEL_CS)) as (K1 & K2 & K3 & K4 & K5 & K6).
  { rewrite D1. unfold INT_CS_OFFSET. rewrite u64_small by (unfold is_u64; lia). rewrite <- W2. f_equal. lia. }
  { intros a v Ha. pose proof (Hapart a (kernel_word_static _ _ Ha)). rewrite D10 by lia. by apply Hst. }
  set (q := set_kernel_cr3 _ _ d) in *. clearbody q. rewrite ring_of_cs, D3 in K2.
  destruct (report_args_spec q ex (ist - 48) (default 0 err) (rip s)) as (R1 & R2 & R3 & R4 & R5 & R6 & R7);
    [congruence|lia|lia|by rewrite K6|by rewrite K6|].
  set (p := exec _ q) in *. clearbody p. split_and!; try congruence. rewrite R4, K2. by destruct (user s).
Qed.

(** A gate written for an exception without error code, when the processor pushes one:
    the error code is reported as the address, and whether the page table is switched
    depends on the address of the code that raised the exception. *)
Lemma extra_status_misreported ss e entry ex s :
  kstatics (mem s) ->
  let p := print_and_halt_no_status kernel_pagetable ex (deliver ExceptionGate ist ss (Some e) entry s) in
  rf p RSI = 0 /\ rf p RDX = e /\ cr3 p = (if Z.land (rip s) 3 =? 0 then cr3 s else kpt).
Proof.
  intros Hst. destruct (deliver_spec ExceptionGate ist ss (Some e) entry s Hist ltac:(lia))
    as (D1 & D2 & D3 & D4 & D5 & D6 & D7 & D8 & D9 & D10).
  unfold print_and_halt_no_status, print_and_halt. set (d := deliver _ _ _ _ _ _) in *. clearbody d.
  destruct D9 as (W0 & W1 & _). change (exec [PushI 0] d) with (push_word 0 d).
  destruct (push_word_at 0 d (ist - 48) D1 ltac:(lia)) as (Q1 & Q2 & _ & (C1 & _)).
  set (q := push_word 0 d) in *. clearbody q. replace (ist - 48 - 8) with (ist - 56) in * by lia.
  destruct (set_kernel_cr3_spec q INT_CS_OFFSET (rip s)) as (K1 & K2 & _ & _ & _ & K6).
  { rewrite Q1. unfold INT_CS_OFFSET. rewrite u64_small by (unfold is_u64; lia). rewrite Q2, write_ne by lia.
    rewrite <- W1. f_equal. lia. }
  { intros a v Ha. pose proof (Hapart a (kernel_word_static _ _ Ha)). rewrite Q2, write_ne, D10 by lia. by apply Hst. }
  set (r := set_kernel_cr3 _ _ q) in *. clearbody r. rewrite C1, D3 in K2.
  destruct (report_args_spec r ex (ist - 56) 0 e) as (_ & R2 & R3 & R4 & _);
    [congruence|lia|lia|rewrite K6, Q2; by apply write_eq| |].
  { rewrite K6, Q2, write_ne by lia. rewrite <- W0. f_equal. lia. }
  set (p := exec _ r) in *. clearbody p. cbv zeta. split_and!; congruence.
Qed.

(** *** Runs with interrupts *)

Lemma in_use_kernel s g a : kinv s g ->
  a = LAST pcds core \/ (exists v, kstatic a v) \/ low ktop g <= a < ktop -> kword a.
Proof.
  intros (_ & _ & Hc & _) Ha. unfold kernel_word. destruct Ha as [->|[Ha|Ha]]; [tauto|tauto|]. left.
  destruct g as [|[f p] g']; cbn in Ha; [lia|]. destruct Hc as (_ & _ & _ & _ & ? & _).
  destruct p; cbn in Ha; lia.
Qed.

(** Interrupted code goes on in the same entries. *)
Lemma resumed_inv s e g :
  resumed s e -> (forall a, kword a -> mem e a = mem s a) -> kinv s g -> kinv e g.
Proof.
  intros (R1 & R2 & R3 & R4 & R5 & R6 & R7 & R8) Hm Hi. destruct (user s) eqn:Hu.
  - by apply (user_step_inv kernel_pagetable per_core_data kbase ktop pcds core kpt ktls outer_sp
      is_comp pt_of tls_of s e g).
  - pose proof Hi as (_ & _ & Hc & Hmode). rewrite Hu in Hmode. destruct Hmode as [_ (_ & K2 & K3 & K4)].
    apply (kernel_step_inv kernel_pagetable per_core_data kbase ktop pcds core kpt ktls outer_sp
      is_comp pt_of tls_of s e g); [done|unfold same_system; split_and!; congruence| |done].
    intros a Ha. apply Hm. by eapply in_use_kernel.
Qed.

(** The gate of the other vectors only returns. *)
Lemma nop_spec ss entry s :
  let e := exec nop_interrupt_gate (deliver InterruptGate ist ss None entry s) in
  (forall r, rf e r = rf s r) /\ rip e = rip s /\ rflags e = rflags s /\ same_system s e /\
  forall a, kword a -> mem e a = mem s a.
Proof.
  destruct (deliver_spec InterruptGate ist ss None entry s Hist ltac:(lia))
    as (D1 & D2 & D3 & D4 & D5 & D6 & D7 & D8 & D9 & D10).
  unfold nop_interrupt_gate. set (d := deliver _ ist ss None entry s) in *. clearbody d.
  destruct D9 as (W1 & W2 & W3 & W4 & _).
  destruct (iretq_spec d (ist - 40) (rip s) (if user s then COMPARTMENT_CS else KERNEL_CS) (rflags s) (rf s RSP))
    as (I1 & I2 & I3 & I4 & I5 & I6 & I7 & I8 & I9 & I10); [done|lia|lia|by split_and!|].
  cbv zeta. set (e := exec [Iretq] d) in *. clearbody e. rewrite ring_of_cs in I5. unfold same_system.
  split_and!; try congruence.
  - intros r. destruct (decide (r = RSP)) as [->|Hr]; [done|]. rewrite I1 by done. by apply D2.
  - rewrite I5. by destruct (user s).
  - intros a Ha. rewrite I10. apply D10. specialize (Hapart a Ha). lia.
Qed.

(** The wake-up counts at the address that the pointer at GS gives. *)
Lemma inc_spec d x :
  0 <= gs d < 2 ^ 64 -> mem d (gs d) = x -> 0 <= x -> x + PCD_NOT_GEN_OFFSET < 2 ^ 64 ->
  let n := x + PCD_NOT_GEN_OFFSET in
  let p := exec [LoadGs RDI PCD_SELF_OFFSET; AddI RDI PCD_NOT_GEN_OFFSET; IncM RDI 0] d in
  rf p RDI = n /\ (forall r, r <> RDI -> rf p r = rf d r) /\ same_control d p /\
  mem p = write n (u64 (mem d n + 1)) (mem d).
Proof.
  intros Hgs Hself Hx Hx'. unfold PCD_NOT_GEN_OFFSET, PCD_SELF_OFFSET in *. irq_cbn. rewrite Z.add_0_r.
  assert (u64 (gs d) = gs d) as E3 by (apply u64_small; unfold is_u64; lia). rewrite !E3, !Hself.
  assert (u64 (x + 16) = x + 16) as E4 by (apply u64_small; unfold is_u64; lia). rewrite !E4, !Z.add_0_r, !E4.
  split_and!; try done; [intros r Hr; destruct r; done|]. unfold same_control. cbn. rewrite !status_system. by split_and!.
Qed.

Lemma push2_spec d sp x :
  rf d RSP = sp -> 16 <= sp < 2 ^ 64 -> 0 <= gs d < 2 ^ 64 -> mem d (gs d) = x -> 0 <= x ->
  x + PCD_NOT_GEN_OFFSET < 2 ^ 64 -> ~ sp - 16 <= x + PCD_NOT_GEN_OFFSET < sp -> ~ sp - 16 <= gs d < sp ->
  let p := exec [Push RDI; Push RAX; LoadGs RDI PCD_SELF_OFFSET; AddI RDI PCD_NOT_GEN_OFFSET; IncM RDI 0] d in
  rf p RSP = sp - 16 /\ (forall r, r <> RSP -> r <> RDI -> rf p r = rf d r) /\ same_control d p /\
  mem p (sp - 16) = rf d RAX /\ mem p (sp - 8) = rf d RDI /\
  mem p (x + PCD_NOT_GEN_OFFSET) = u64 (mem d (x + PCD_NOT_GEN_OFFSET) + 1) /\
  forall a, ~ sp - 16 <= a < sp -> a <> x + PCD_NOT_GEN_OFFSET -> mem p a = mem d a.
Proof.
  intros Hsp Hb Hgs Hself Hx Hx' Ho Ho'. cbv zeta.
  destruct (push_word_at (rf d RDI) d sp Hsp ltac:(lia)) as (P1 & P2 & P3 & P4). rewrite exec_cons. cbn [exec1].
  set (d1 := push_word (rf d RDI) d) in *. clearbody d1.
  destruct (push_word_at (rf d1 RAX) d1 (sp - 8) P1 ltac:(lia)) as (Q1 & Q2 & Q3 & Q4). rewrite exec_cons. cbn [exec1].
  set (d2 := push_word (rf d1 RAX) d1) in *. clearbody d2. rewrite (P3 RAX) in Q2 by done. rewrite P2 in Q2.
  replace (sp - 8 - 8) with (sp - 16) in * by lia.
  assert (gs d2 = gs d) as Eg by (destruct P4 as (_ & _ & P4 & _), Q4 as (_ & _ & Q4 & _); congruence).
  destruct (inc_spec d2 x) as (I1 & I2 & I3 & I4); [by rewrite Eg| |done|done|].
  { rewrite Eg, Q2, !write_ne by lia. done. }
  set (p := exec _ d2) in *. clearbody p. rewrite I4, Q2. unfold PCD_NOT_GEN_OFFSET in *. split_and!.
  - by rewrite I2.
  - intros r Hr Hr'. by rewrite I2, Q3, P3.
  - transitivity d1; [done|]. by transitivity d2.
  - irq_mem. done.
  - irq_mem. done.
  - rewrite write_eq, !write_ne by lia. done.
  - intros a Ha Ha'. rewrite !write_ne by lia. done.
Qed.

Lemma pop_word r s sp : rf s RSP = sp -> 0 <= sp -> sp + 8 < 2 ^ 64 -> r <> RSP ->
  let p := exec1 s (Pop r) in
  rf p RSP = sp + 8 /\ rf p r = mem s sp /\ (forall q, q <> RSP -> q <> r -> rf p q = rf s q) /\ same_control s p /\
  mem p = mem s.
Proof.
  intros Hsp H0 Hb Hr. cbn [exec1]. cbv zeta. rewrite Hsp, u64_small by (unfold is_u64; lia).
  split_and!; try done.
  - rewrite rf_set_ne by done. apply rf_set_eq.
  - apply rf_set_eq.
  - intros q Hq Hq'. by rewrite !rf_set_ne by done.
Qed.

(** The wake-up also writes to the acknowledgement register of the local APIC. *)
Context (apic : Z) (Hapic : 0 <= apic < 2 ^ 32 /\ ~ ibase <= apic + 0xB0 < ist).

(** The acknowledgement and the return. *)
Lemma wakeup_tail_spec s sp rip' cs fl rsp' :
  rf s RSP = sp -> 0 <= sp -> sp + 56 < 2 ^ 64 -> mem s local_apic_mapping = apic ->
  words_at (mem s) (sp + 16) [rip'; cs; fl; rsp'] -> ~ sp <= apic + 0xB0 < sp + 56 ->
  let e := exec [LoadAbs RDI local_apic_mapping; XorSelf RAX; Store RDI 0xB0 RAX; Pop RAX; Pop RDI; Iretq] s in
  (forall r, r <> RSP -> r <> RAX -> r <> RDI -> rf e r = rf s r) /\ rf e RAX = mem s sp /\ rf e RDI = mem s (sp + 8) /\
  rf e RSP = rsp' /\ rip e = rip' /\ rflags e = fl /\ user e = negb (Z.land cs 3 =? 0) /\
  cr3 e = cr3 s /\ fs e = fs s /\ gs e = gs s /\ tr e = tr s /\ mem e = write (apic + 0xB0) 0 (mem s).
Proof.
  intros Hsp Hlo Hhi Hl Hw Ho. cbv zeta. rewrite 3!exec_cons. set (s1 := exec1 _ (Store RDI 0xB0 RAX)).
  assert ((forall r, r <> RAX -> r <> RDI -> rf s1 r = rf s r) /\ same_control s s1 /\
    mem s1 = write (apic + 0xB0) 0 (mem s)) as (S1 & (C1 & C2 & C3 & C4 & _) & S3).
  { unfold s1. cbn -[u64]. rewrite Hl, u64_small by (unfold is_u64; lia). split_and!; try done.
    - intros r Hr Hr'. by destruct r.
    - unfold same_control. cbn. rewrite status_system. by split_and!. }
  clearbody s1. rewrite exec_cons. destruct (pop_word RAX s1 sp) as (A1 & A2 & A3 & (D1 & D2 & D3 & D4 & _) & A5);
    [by rewrite S1|lia|lia|done|].
  set (s2 := exec1 s1 (Pop RAX)) in *. clearbody s2. rewrite exec_cons.
  destruct (pop_word RDI s2 (sp + 8)) as (B1 & B2 & B3 & (E1 & E2 & E3 & E4 & _) & B5); [done|lia|lia|done|].
  set (s3 := exec1 s2 (Pop RDI)) in *. clearbody s3. replace (sp + 8 + 8) with (sp + 16) in B1 by lia.
  destruct (iretq_spec s3 (sp + 16) rip' cs fl rsp') as (I1 & I2 & I3 & I4 & I5 & I6 & I7 & I8 & I9 & I10); [done|lia|lia| |].
  { eapply words_at_ext; [|exact Hw]. cbn [length]. intros b Hb. rewrite B5, A5, S3. apply write_ne. lia. }
  set (e := exec [Iretq] s3) in *. clearbody e. split_and!; try congruence.
  - intros r H1 H2 H3. rewrite I1, B3, A3, S1 by done. done.
  - rewrite I1, B3, A2, S3, write_ne by (done || lia). done.
  - rewrite I1, B2, A5, S3, write_ne by (done || lia). done.
Qed.

(** The wake-up interrupt when GS leads to [x]. *)
Lemma wakeup_gen ss entry s x :
  0 <= gs s < 2 ^ 64 -> ~ ist - 56 <= gs s < ist -> mem s (gs s) = x -> 0 <= x -> x + PCD_NOT_GEN_OFFSET < 2 ^ 64 ->
  ~ ist - 56 <= x + PCD_NOT_GEN_OFFSET < ist -> mem s local_apic_mapping = apic ->
  ~ ist - 56 <= local_apic_mapping < ist -> local_apic_mapping <> x + PCD_NOT_GEN_OFFSET ->
  apic + 0xB0 <> x + PCD_NOT_GEN_OFFSET ->
  let e := wakeup_handler local_apic_mapping loop_suspend loop_hlt (deliver InterruptGate ist ss None entry s) in
  (forall r, rf e r = rf s r) /\ rip e = resume_point loop_suspend loop_hlt (rip s) /\ rflags e = rflags s /\
  same_system s e /\
  mem e (x + PCD_NOT_GEN_OFFSET) = u64 (mem s (x + PCD_NOT_GEN_OFFSET) + 1) /\
  words_at (mem e) (ist - 40)
    [resume_point loop_suspend loop_hlt (rip s); if user s then COMPARTMENT_CS else KERNEL_CS; rflags s; rf s RSP; ss] /\
  forall a, ~ ist - 56 <= a < ist -> a <> x + PCD_NOT_GEN_OFFSET -> a <> apic + 0xB0 -> mem e a = mem s a.
Proof.
  intros Hgs Hgs' Hx Hx0 Hx1 Hx2 Hla Hl1 Hl2 Hax.
  destruct (deliver_spec InterruptGate ist ss None entry s Hist ltac:(lia))
    as (D1 & D2 & D3 & D4 & D5 & D6 & D7 & D8 & D9 & D10).
  rewrite wakeup_handler_eq. set (d := deliver _ ist ss None entry s) in *. clearbody d.
  destruct (push2_spec d (ist - 40) x) as (P1 & P2 & (C1 & C2 & C3 & C4 & _) & P4 & P5 & P6 & P7);
    [done|lia|lia| |done|done|lia|lia|].
  { rewrite D5, D10 by lia. done. }
  set (p := exec _ d) in *. clearbody p. replace (ist - 40 - 16) with (ist - 56) in * by lia.
  destruct (suspend_check_spec p 0x10 (ist - 40)) as (B1 & (E1 & E2 & E3 & E4 & _) & B3 & B4).
  { rewrite P1, u64_small by (unfold is_u64; lia). lia. }
  set (q := reset_suspend_check_macro _ _ _ p) in *. clearbody q.
  destruct D9 as (W1 & W2 & W3 & W4 & W5 & _).
  assert (forall b, ist - 40 < b < ist -> mem q b = mem d b) as Hq.
  { intros b Hb. rewrite B4, P7 by lia. done. }
  destruct (wakeup_tail_spec q (ist - 56) (resume_point loop_suspend loop_hlt (rip s))
    (if user s then COMPARTMENT_CS else KERNEL_CS) (rflags s) (rf s RSP))
    as (T1 & T2 & T3 & T4 & T5 & T6 & T7 & T8 & T9 & T10 & T11 & T12);
    [by rewrite B1, P1|lia|lia| | |lia|].
  { rewrite B4, P7, D10 by lia. done. }
  { replace (ist - 56 + 16) with (ist - 40) by lia. cbn [words_at]. rewrite B3, P7, W1 by lia.
    split_and!; [done|rewrite Hq by lia; done..|done]. }
  cbv zeta. set (e := exec _ q) in *. clearbody e. rewrite ring_of_cs, negb_involutive in T7.
  replace (ist - 56 + 8) with (ist - 40 - 8) in * by lia. split_and!; try congruence.
  - intros r. destruct (decide (r = RSP)) as [->|Hr]; [done|].
    destruct (decide (r = RAX)) as [->|Hr1]; [by rewrite T2, B4, P4, D2 by (done || lia)|].
    destruct (decide (r = RDI)) as [->|Hr2]; [by rewrite T3, B4, P5, D2 by (done || lia)|].
    by rewrite T1, B1, P2, D2.
  - unfold same_system. split_and!; congruence.
  - rewrite T12, write_ne, B4, P6, D10 by lia. done.
  - rewrite T12. eapply words_at_ext; [intros b Hb; apply write_ne; cbn [length] in Hb; lia|].
    cbn [words_at]. rewrite B3, P7, W1 by lia. split_and!; [done|rewrite Hq by lia; done..|done].
  - intros a Ha Ha1 Ha2. rewrite T12, write_ne, B4, P7, D10 by lia. done.
Qed.

(** A wake-up that comes while a compartment runs counts at the address the compartment
    has put where its GS points: GS is not reset, the store has the rights of ring 0, and
    the stacks of the interrupts are writable for ring 0 under the compartment's page table.
    So the compartment can count up a word there, such as the saved state of an interrupt of
    another core. *)
Theorem wakeup_trusts_gs ss entry s target :
  user s = true -> 0 <= gs s < 2 ^ 64 -> ~ ist - 56 <= gs s < ist -> mem s (gs s) = target - PCD_NOT_GEN_OFFSET ->
  PCD_NOT_GEN_OFFSET <= target < 2 ^ 64 -> ~ ist - 56 <= target < ist ->
  mem s local_apic_mapping = apic -> ~ ist - 56 <= local_apic_mapping < ist -> local_apic_mapping <> target ->
  apic + 0xB0 <> target ->
  let e := wakeup_handler local_apic_mapping loop_suspend loop_hlt (deliver InterruptGate ist ss None entry s) in
  mem e target = u64 (mem s target + 1) /\ user e = true /\ forall r, rf e r = rf s r.
Proof.
  intros Hu Hg1 Hg2 Hg3 Ht1 Ht2 Hla Hl1 Hl2 Hax.
  destruct (wakeup_gen ss entry s (target - PCD_NOT_GEN_OFFSET)) as (W1 & _ & _ & (_ & _ & _ & _ & W4) & W5 & _); try done;
    rewrite ?Z.sub_add; try done; try lia.
  rewrite Z.sub_add in W5. cbv zeta. set (e := wakeup_handler _ _ _ _) in *. clearbody e. split_and!; congruence.
Qed.

(** In the kernel GS leads to the data of the core. *)
Context (Hnot : ~ kword (kpcd + PCD_NOT_GEN_OFFSET) /\ ~ ibase <= kpcd + PCD_NOT_GEN_OFFSET < ist).
Context (Hapic' : ~ kword (apic + 0xB0) /\ apic + 0xB0 <> kpcd + PCD_NOT_GEN_OFFSET).
Context (Hlam : ~ ibase <= local_apic_mapping < ist /\ local_apic_mapping <> kpcd + PCD_NOT_GEN_OFFSET).

Lemma wakeup_spec ss entry s :
  kstatics (mem s) -> gs s = kpcd -> mem s local_apic_mapping = apic ->
  let e := wakeup_handler local_apic_mapping loop_suspend loop_hlt (deliver InterruptGate ist ss None entry s) in
  resumed s e /\ (forall a, kword a -> mem e a = mem s a) /\
  mem e (kpcd + PCD_NOT_GEN_OFFSET) = u64 (mem s (kpcd + PCD_NOT_GEN_OFFSET) + 1) /\
  words_at (mem e) (ist - 40)
    [resume_point loop_suspend loop_hlt (rip s); if user s then COMPARTMENT_CS else KERNEL_CS; rflags s; rf s RSP; ss].
Proof.
  intros Hst Hgs Hla. assert (kstatic kpcd kpcd) as Hself by (unfold static_word; tauto).
  pose proof (Hapart _ (kernel_word_static _ _ Hself)) as Hself'.
  pose proof (pcd_bounds _ _ _ _ _ _ _ _ _ _ _ Hly) as Hp.
  assert (0 <= kpcd + PCD_NOT_GEN_OFFSET < 2 ^ 64) as Hn by (unfold PCD_NOT_GEN_OFFSET; lia).
  destruct (wakeup_gen ss entry s kpcd) as (W1 & W2 & W3 & (E1 & E2 & E3 & E4 & E5) & W5 & W6 & W7);
    try lia; [rewrite Hgs; by apply Hst|].
  cbv zeta. set (e := wakeup_handler _ _ _ _) in *. clearbody e. split_and!; try done.
  - unfold resumed. split_and!; try done; congruence.
  - intros a Ha. specialize (Hapart a Ha). apply W7; [lia|intros ->; tauto..].
Qed.

Context (enter_stub resume_stub : Z) (Hpt : forall self, is_comp self -> pt_of self <> 0).

Notation "'ktrans'" :=
  (trans kernel_pagetable per_core_data enter_stub resume_stub kbase ktop pcds core kpt ktls is_comp pt_of tls_of).

(** The steps [R] of uninterrupted code, and at any point a page fault or a breakpoint whose handler comes back,
    an interrupt without work, or in the kernel a wake-up: the gates of the table that go back. *)
Inductive irq_step (R : cpu * frames -> cpu * frames -> Prop) : cpu * frames -> cpu * frames -> Prop :=
| I_step x y : R x y -> irq_step R x y
| I_pagefault s g cr2 ss err entry p h e :
    p = exception_gate_pagefault kernel_pagetable per_core_data cr2 (deliver ExceptionGate ist ss (Some err) entry s) ->
    handled p h -> e = interrupt_conclusion loop_suspend loop_hlt h -> irq_step R (s, g) (e, g)
| I_breakpoint s g ex ss entry p h e :
    p = exception_gate_breakpoint kernel_pagetable per_core_data ex (deliver ExceptionGate ist ss None entry s) ->
    handled p h -> e = interrupt_conclusion loop_suspend loop_hlt h -> irq_step R (s, g) (e, g)
| I_nop s g ss entry e :
    e = exec nop_interrupt_gate (deliver InterruptGate ist ss None entry s) -> irq_step R (s, g) (e, g)
| I_wakeup s g ss entry e :
    user s = false -> mem s local_apic_mapping = apic ->
    e = wakeup_handler local_apic_mapping loop_suspend loop_hlt (deliver InterruptGate ist ss None entry s) ->
    irq_step R (s, g) (e, g).

Inductive irq_run (R : cpu * frames -> cpu * frames -> Prop) (s0 : cpu) : cpu * frames -> Prop :=
| irq_start : irq_run R s0 (s0, [])
| irq_next x y : irq_run R s0 x -> irq_step R x y -> irq_run R s0 y.

Lemma inv_cr3 s g : kinv s g -> user s = true -> cr3 s <> 0.
Proof.
  intros (_ & _ & Hc & Hmode) Hu. rewrite Hu in Hmode. destruct Hmode as (f & g' & -> & _ & ->).
  destruct Hc as (_ & _ & _ & Hi & _). by apply Hpt.
Qed.

(** The arguments are put into other registers. *)
Lemma handler_state_args ss err s q p :
  handler_state ss err s q -> rf p RSP = rf q RSP -> rf p RBX = rf q RBX -> rf p RBP = rf q RBP -> same_system q p ->
  mem p = mem q -> handler_state ss err s p.
Proof.
  unfold handler_state. intros (P1 & P2 & P3 & P4 & P5 & P6 & P7 & P8 & P9 & P10) E1 E2 E3 (E4 & E5 & E6 & E7 & E8) ->.
  split_and!; congruence || done.
Qed.

Lemma pagefault_args cr2 ss err s q :
  handler_state ss err s q ->
  let p := exec [MovI RDI cr2; MovR RSI RBX; MovR RDX RSP] q in
  handler_state ss err s p /\ rf p RDI = cr2 /\ rf p RSI = (if user s then cr3 s else 0) /\ rf p RDX = ist - 168.
Proof.
  intros Hp. pose proof Hp as (P1 & _ & P3 & _). cbv zeta. split; [by apply (handler_state_args ss err s q)|]. by split_and!.
Qed.

Lemma breakpoint_args ex ss s q :
  handler_state ss 0 s q ->
  let p := exec [MovI RDI ex; Load RSI RSP (TRAP_REGS_END + INT_ERR_OFFSET); Load RDX RSP (TRAP_REGS_END + INT_RIP_OFFSET)] q in
  handler_state ss 0 s p /\ rf p RDI = ex /\ rf p RSI = 0 /\ rf p RDX = rip s.
Proof.
  intros Hp. pose proof Hp as (P1 & P2 & _). apply words_at_app in P2 as [_ P2]. cbv zeta.
  split; [by apply (handler_state_args ss 0 s q)|]. destruct P2 as (W0 & W1 & _). cbn [length map trap_regs] in W0, W1.
  unfold TRAP_REGS_END, INT_ERR_OFFSET, INT_RIP_OFFSET. cbn -[u64]. rewrite P1, !u64_small by (unfold is_u64; lia).
  split_and!; [done|rewrite <- W0; f_equal; lia|rewrite <- W1; f_equal; lia].
Qed.

(** The page-fault gate calls its handler with the address, the page table that was left (0 in the kernel) and the trap frame. *)
Lemma pagefault_spec cr2 ss err entry s :
  kstatics (mem s) -> tr s = TSS_SEG core ->
  let p := exception_gate_pagefault kernel_pagetable per_core_data cr2 (deliver ExceptionGate ist ss (Some err) entry s) in
  handler_state ss err s p /\ rf p RDI = cr2 /\ rf p RSI = (if user s then cr3 s else 0) /\ rf p RDX = ist - 168.
Proof.
  intros Hst Htr. exact (pagefault_args cr2 ss err s _ (gate_spec ExceptionGate ss err entry s Hst Htr)).
Qed.

(** The breakpoint gate calls its handler with its name, no error code and the address behind the breakpoint. *)
Lemma breakpoint_spec ex ss entry s :
  kstatics (mem s) -> tr s = TSS_SEG core ->
  let p := exception_gate_breakpoint kernel_pagetable per_core_data ex (deliver ExceptionGate ist ss None entry s) in
  handler_state ss 0 s p /\ rf p RDI = ex /\ rf p RSI = 0 /\ rf p RDX = rip s.
Proof.
  intros Hst Htr. unfold exception_gate_breakpoint, interrupt_prelude_no_status. rewrite deliver_no_status.
  exact (breakpoint_args ex ss s _ (gate_spec ExceptionGate ss 0 entry s Hst Htr)).
Qed.

Lemma gate_inv s g ss err p h :
  kinv s g -> handler_state ss err s p -> handled p h -> kinv (interrupt_conclusion loop_suspend loop_hlt h) g.
Proof.
  intros Hi Hp Hh. destruct (resume_spec ss err s p h (inv_cr3 s g Hi) Hp Hh) as [Hr Hm]. by apply (resumed_inv s).
Qed.

Lemma nop_inv s g ss entry : kinv s g -> kinv (exec nop_interrupt_gate (deliver InterruptGate ist ss None entry s)) g.
Proof.
  intros Hi. destruct (nop_spec ss entry s) as (N1 & N2 & N3 & N4 & N5).
  set (e := exec _ _) in *. clearbody e. destruct N4 as (E1 & E2 & E3 & E4 & E5).
  destruct (user s) eqn:Hu.
  - apply (user_step_inv kernel_pagetable per_core_data kbase ktop pcds core kpt ktls outer_sp
      is_comp pt_of tls_of s e g); done.
  - apply (kernel_step_inv kernel_pagetable per_core_data kbase ktop pcds core kpt ktls outer_sp
      is_comp pt_of tls_of s e g); [done|unfold same_system; split_and!; congruence| |done].
    intros a Ha. apply N5. by eapply in_use_kernel.
Qed.

Lemma wakeup_inv s g ss entry :
  kinv s g -> user s = false -> mem s local_apic_mapping = apic ->
  kinv (wakeup_handler local_apic_mapping loop_suspend loop_hlt (deliver InterruptGate ist ss None entry s)) g.
Proof.
  intros Hi Hu Hla. pose proof Hi as (Hst & _ & _ & Hmode). rewrite Hu in Hmode. destruct Hmode as [_ (_ & _ & _ & Hgs)].
  destruct (wakeup_spec ss entry s Hst Hgs Hla) as (Hr & Hm & _). by apply (resumed_inv s).
Qed.

Lemma irq_step_inv x y : irq_step ktrans x y -> kinv (fst x) (snd x) -> kinv (fst y) (snd y).
Proof.
  destruct 1 as [x y Ht|s g cr2 ss err entry p h e Hp Hh He|s g ex ss entry p h e Hp Hh He|s g ss entry e He
    |s g ss entry e Hu Hla He]; intros Hi; cbn [fst snd] in *.
  - by eapply trans_step_inv.
  - rewrite Hp in Hh. rewrite He. pose proof Hi as (Hst & Htr & _). 
    exact (gate_inv s g ss err _ h Hi (proj1 (pagefault_spec cr2 ss err entry s Hst Htr)) Hh).
  - rewrite Hp in Hh. rewrite He. pose proof Hi as (Hst & Htr & _). 
    exact (gate_inv s g ss 0 _ h Hi (proj1 (breakpoint_spec ex ss entry s Hst Htr)) Hh).
  - rewrite He. by apply nop_inv.
  - rewrite He. by apply wakeup_inv.
Qed.

Lemma irq_run_inv s0 x :
  kstatics (mem s0) -> tr s0 = TSS_SEG core -> in_kernel pcds core kpt ktls s0 -> mem s0 (LAST pcds core) = outer_sp ->
  irq_run ktrans s0 x -> kinv (fst x) (snd x).
Proof.
  intros Hst Htr Hk Hl. induction 1 as [|x y _ IH Hs]; [|by eapply irq_step_inv].
  unfold trans_inv. cbn. rewrite (proj1 Hk). split_and!; [done..| |done]. constructor.
Qed.


Fixpoint read_words (m : Z -> Z) (a : Z) (n : nat) : list Z :=
  match n with O => [] | S n' => m a :: read_words m (a + 8) n' end.

Lemma words_at_read m n : forall a, words_at m a (read_words m a n).
Proof. induction n as [|n IH]; intros a; cbn; [done|]. by split. Qed.

(** C39: All gates share one stack and exceptions do not mask interrupts, so a wake-up that
    comes while the handler of a compartment's exception runs is pushed over the trap frame:
    the wake-up itself returns properly, but the end of the exception then does not go back
    to the compartment but to the handler, in ring 0, under the compartment's page table. *)
Theorem nested_interrupt_overwrites_frame s g ss err entry ss' entry' :
  kinv s g -> user s = true ->
  let p := interrupt_prelude kernel_pagetable per_core_data (deliver ExceptionGate ist ss (Some err) entry s) in
  mem s local_apic_mapping = apic ->
  let w := wakeup_handler local_apic_mapping loop_suspend loop_hlt (deliver InterruptGate ist ss' None entry' p) in
  let e := interrupt_conclusion loop_suspend loop_hlt w in
  system_flags (rflags p) = system_flags (rflags s) /\ resumed p w /\ user e = false /\ rf e RSP = ist - 168 /\ cr3 e = cr3 s /\
  rip e = resume_point loop_suspend loop_hlt (resume_point loop_suspend loop_hlt (rip p)).
Proof.
  intros Hi Hu p Hla w e. pose proof Hi as (Hst & Htr & _ & _).
  pose proof (gate_flags ExceptionGate ss err entry s Hst Htr) as Hfl. fold p in Hfl.
  pose proof (gate_spec ExceptionGate ss err entry s Hst Htr) as Hp. fold p in Hp.
  pose proof (handler_kernel_words ss err s p) as Hpm. pose proof Hp as (P1 & P2 & P3 & P4 & P5 & P6 & P7 & P8 & P9 & P10).
  clearbody p. rewrite Hu in P3.
  destruct (wakeup_spec ss' entry' p) as (Hr & _ & _ & Hw); [|done|rewrite P10 by lia; done|].
  { intros a v Ha. rewrite Hpm by first [done|by eapply kernel_word_static]. by apply Hst. }
  fold w in Hr, Hw. clearbody w. split; [done|]. split; [done|]. rewrite P9, P1 in Hw. destruct Hr as (R1 & _).
  set (regs := read_words (mem w) (ist - 168) 15).
  destruct (conclusion_spec w (ist - 168) regs (mem w (ist - 48)) (resume_point loop_suspend loop_hlt (rip p)) KERNEL_CS (rflags p)
    (ist - 168) ss') as (_ & E2 & E3 & _ & E5 & _ & _ & _ & E9 & _); [by rewrite R1|lia|lia|done| |].
  { apply words_at_app. split; [apply words_at_read|]. cbn [length regs read_words]. 
    replace (ist - 168 + _) with (ist - 48) by lia. split; [done|]. by replace (ist - 48 + 8) with (ist - 40) by lia. }
  fold e in E2, E3, E5, E9. clearbody e. rewrite R1, P3 in E5. split_and!; try done.
  rewrite E5. destruct (Z.eqb_spec (cr3 s) 0) as [E|_]; [|done]. by apply inv_cr3 with (g := g) in E.
Qed.

End Handling.

(** Behind the report the gates jump to the variable that holds the address of the
    function to call instead of to that function, so the core goes on in the bytes of the
    variable. *)
Theorem fatal_exception_misses_shutdown shutdown fn h :
  mem h shutdown = fn -> fn <> shutdown -> rip (exec (print_and_halt_end shutdown) h) <> fn.
Proof. intros Hf Hne. cbn. congruence. Qed.

(** [install_gdt] reloads code segment and task register and goes on behind with the stack
    as it was. *)
Lemma install_gdt_spec change_cs core s sp :
  rf s RSP = sp -> 48 <= sp < 2 ^ 64 ->
  let e := exec (install_gdt change_cs (TSS_SEG core)) s in
  rf e RSP = sp /\ rip e = change_cs /\ tr e = TSS_SEG core /\ user e = false /\ rflags e = rflags s /\
  cr3 e = cr3 s /\ fs e = fs s /\ gs e = gs s.
Proof.
  intros Hsp Hb. unfold install_gdt. cbv zeta.
  assert (forall v d x, rf d RSP = x -> 8 <= x < 2 ^ 64 -> exists d', push_word v d = d' /\ rf d' RSP = x - 8 /\
    mem d' = write (x - 8) v (mem d) /\ same_control d d' /\ rflags d' = rflags d) as Hpush.
  { intros v d x Hx Hxb. destruct (push_word_at v d x Hx Hxb) as (A & B & _ & C). by exists (push_word v d). }
  rewrite exec_cons. cbn [exec1]. destruct (Hpush KERNEL_DS s sp Hsp ltac:(lia)) as (d1 & -> & R1 & M1 & C1 & F1).
  rewrite exec_cons. cbn [exec1]. destruct (Hpush (rf d1 RSP) d1 _ R1 ltac:(lia)) as (d2 & -> & R2 & M2 & C2 & F2).
  rewrite exec_cons. cbn [exec1]. destruct (Hpush (rflags d2) d2 _ R2 ltac:(lia)) as (d3 & -> & R3 & M3 & C3 & _).
  rewrite exec_cons. cbn [exec1]. destruct (Hpush KERNEL_CS d3 _ R3 ltac:(lia)) as (d4 & -> & R4 & M4 & C4 & _).
  rewrite exec_cons. cbn [exec1]. destruct (Hpush change_cs d4 _ R4 ltac:(lia)) as (d5 & -> & R5 & M5 & C5 & _).
  assert (same_control s d5) as (S1 & S2 & S3 & S4 & S5 & S6 & S7).
  { transitivity d1; [done|]. transitivity d2; [done|]. transitivity d3; [done|]. by transitivity d4. }
  assert (rflags d2 = rflags s) as F by congruence.
  destruct (iretq_spec d5 (sp - 40) change_cs KERNEL_CS (rflags s) (sp - 8))
    as (I1 & I2 & I3 & I4 & I5 & I6 & I7 & I8 & I9 & I10); [rewrite R5; lia|lia|lia| |].
  { cbn [words_at]. rewrite M5, M4, M3, M2, F, R1. split_and!; irq_mem; done. }
  rewrite exec_cons. replace (exec1 d5 Iretq) with (exec [Iretq] d5) by done.
  set (e := exec [Iretq] d5) in *. clearbody e. cbn -[u64]. rewrite I2.
  replace (u64 (sp - 8 + 8)) with sp by (rewrite u64_small; unfold is_u64; lia).
  split_and!; first [congruence|by rewrite I5].
Qed.

(** ** Witnesses

    The machine of the example of [Transition], with the stack of the interrupts at
    0x60000 and the local APIC at 0x70000. *)

Definition irq_mem : Z -> Z := write 272 0x70000 ex_mem.

Definition irq_cpu : cpu :=
  mkCpu (rf ex_cpu) (rip ex_cpu) (rflags ex_cpu) (cr3 ex_cpu) (fs ex_cpu) (gs ex_cpu) (tr ex_cpu) (user ex_cpu) irq_mem.

Abbreviation ex_comp := (fun self : Z => self = 262144).
Abbreviation ex_kword := (kernel_word 256 264 65536 131072 4096 0 7 8 ex_comp (fun _ => 9) (fun _ => 10)).

Lemma ex_kword_low a : ex_kword a -> a < 290000 /\ a <> 272 /\ a <> 4096 + 16.
Proof.
  unfold kernel_word, static_word, LAST, pcd. intros [H|[H|(v & H)]]; [lia|lia|].
  destruct H as [[-> _]|[[-> _]|[[-> _]|[[-> _]|(self & -> & [[-> _]|[-> _]])]]]]; lia.
Qed.

Lemma irq_statics : statics_ok 256 264 4096 0 7 8 ex_comp (fun _ => 9) (fun _ => 10) irq_mem.
Proof.
  intros a v Ha. unfold irq_mem. rewrite write_ne; [by apply ex_statics|].
  assert (ex_kword a) as Hk by (unfold kernel_word; eauto). apply ex_kword_low in Hk. lia.
Qed.

Lemma ex_apart a : ex_kword a -> ~ 390000 <= a < 0x60000.
Proof. intros Ha. apply ex_kword_low in Ha. lia. Qed.

Lemma irq_user : user (exec (compartment_enter 0) irq_cpu) = true.
Proof. vm_compute. reflexivity. Qed.

(** The compartment entered. *)
Definition irq_entered : cpu := exec (compartment_enter 0) irq_cpu.

Lemma irq_enters :
  trans 256 264 0 0 65536 131072 4096 0 7 8 ex_comp (fun _ => 9) (fun _ => 10)
    (irq_cpu, []) (irq_entered, [(frame_of 4096 0 irq_cpu, None)]).
Proof.
  apply T_enter; [done|done|vm_compute; discriminate|vm_compute; discriminate|].
  intros Hk. apply ex_kword_low in Hk as [Hk _]. vm_compute in Hk. discriminate.
Qed.

Lemma irq_entered_inv :
  trans_inv 256 264 65536 131072 4096 0 7 8 0 ex_comp (fun _ => 9) (fun _ => 10) irq_entered
    [(frame_of 4096 0 irq_cpu, None)].
Proof.
  refine (trans_step_inv 256 264 0 0 65536 131072 4096 0 7 8 0 ex_comp (fun _ => 9) (fun _ => 10) ex_layout
    (irq_cpu, []) (irq_entered, _) irq_enters _).
  split_and!; [exact irq_statics|reflexivity|reflexivity|]. split; [constructor|by split_and!].
Qed.


Lemma nested_interrupt_overwrites_frame_witness :
  let p := interrupt_prelude 256 264 (deliver ExceptionGate 0x60000 16 (Some 6) 0 irq_entered) in
  let w := wakeup_handler 272 1 2 (deliver InterruptGate 0x60000 16 None 0 p) in
  let e := interrupt_conclusion 1 2 w in
  user irq_entered = true /\ user e = false /\ rf e RSP = 0x60000 - 168 /\ cr3 e = 9.
Proof.
  destruct (nested_interrupt_overwrites_frame 256 264 272 1 2 65536 131072 4096 0 7 8 ex_comp (fun _ => 9) (fun _ => 10)
    ex_layout 390000 0x60000 0) with (apic := 0x70000) (s := irq_entered)
    (g := [(frame_of 4096 0 irq_cpu, @None Z)]) (ss := 16) (err := 6) (entry := 0) (ss' := 16) (entry' := 0)
    as (_ & _ & E1 & E2 & E3 & _).
  - by exists 0x6000.
  - lia.
  - apply ex_apart.
  - lia.
  - unfold pcd, PCD_NOT_GEN_OFFSET. split; [|lia]. intros Hk. apply ex_kword_low in Hk. lia.
  - unfold pcd, PCD_NOT_GEN_OFFSET. split; [|lia]. intros Hk. apply ex_kword_low in Hk. lia.
  - unfold pcd, PCD_NOT_GEN_OFFSET. lia.
  - done.
  - exact irq_entered_inv.
  - exact irq_user.
  - vm_compute. reflexivity.
  - split; [exact irq_user|]. split_and!; [exact E1|exact E2|rewrite E3; vm_compute; reflexivity].
Defined.

(** It points GS at 299000 and puts an address of the stack of another core there. *)
Definition irq_gs : cpu :=
  mkCpu (fun _ => 0) 5555 514 9 0 299000 (TSS_SEG 0) true (write 299000 (391000 - 16) irq_mem).

Lemma wakeup_trusts_gs_witness :
  mem (wakeup_handler 272 1 2 (deliver InterruptGate 0x60000 16 None 0 irq_gs)) 391000 = 1.
Proof.
  destruct (wakeup_trusts_gs 272 1 2 390000 0x60000) with (apic := 0x70000) (ss := 16) (entry := 0) (s := irq_gs)
    (target := 391000) as (E & _).
  - by exists 0x6000.
  - lia.
  - lia.
  - reflexivity.
  - cbn; lia.
  - cbn; lia.
  - reflexivity.
  - unfold PCD_NOT_GEN_OFFSET. lia.
  - lia.
  - vm_compute. reflexivity.
  - lia.
  - lia.
  - lia.
  - rewrite E. vm_compute. reflexivity.
Defined.

Lemma fatal_exception_reported_witness :
  let p := print_and_halt_no_status 256 77 (deliver ExceptionGate 0x60000 16 None 0 irq_entered) in
  rf p RDI = 77 /\ cr3 p = 7 /\ fs p = 10.
Proof.
  destruct (fatal_exception_reported 256 264 65536 131072 4096 0 7 8 ex_comp (fun _ => 9) (fun _ => 10)
    390000 0x60000) with (ss := 16) (err := @None Z) (entry := 0) (ex := 77) (s := irq_entered)
    as (E1 & _ & _ & _ & E2 & E3 & _).
  - by exists 0x6000.
  - lia.
  - apply ex_apart.
  - exact (proj1 irq_entered_inv).
  - split_and!; [exact E1|exact E2|exact E3].
Defined.

Lemma fatal_exception_misses_shutdown_witness : rip (exec (print_and_halt_end 256) irq_cpu) <> 7.
Proof. apply (fatal_exception_misses_shutdown 256 7 irq_cpu); [reflexivity|lia]. Defined.
