(* ===== verification/Idt.v ===== *)
(** * The interrupt descriptor table (exceptions.asm)

    The table of gates that [setup_idt_generic] writes byte by byte, and what the gates
    mean to a compartment that runs when a wake-up comes. *)

From S2P Require Import Prelude External Address Heap PageTable PageTableWf PageTableOps PageTableProps.
From S2P Require Import Ownership OwnershipProps Isolation Lifecycle Cpu Transition Interrupts.

(** ** Memory in bytes *)

(** [n] bytes of [v] at [a], the lowest first. *)
Definition store (a n v : Z) (m : Z -> Z) : Z -> Z :=
  fun b => if (a <=? b) && (b <? a + n) then Z.shiftr v (8 * (b - a)) mod 256 else m b.

Fixpoint load (m : Z -> Z) (a : Z) (n : nat) : Z :=
  match n with O => 0 | S n' => m a + 256 * load m (a + 1) n' end.

Lemma store_out a n v m b : ~ a <= b < a + n -> store a n v m b = m b.
Proof. intros Hb. unfold store. destruct (Z.leb_spec a b), (Z.ltb_spec b (a + n)); cbn; try done; lia. Qed.

Lemma store_in a n v m b : a <= b < a + n -> store a n v m b = Z.shiftr v (8 * (b - a)) mod 256.
Proof. intros Hb. unfold store. destruct (Z.leb_spec a b), (Z.ltb_spec b (a + n)); cbn; try done; lia. Qed.

Lemma load_ext m m' n : forall a, (forall b, a <= b < a + Z.of_nat n -> m' b = m b) -> load m' a n = load m a n.
Proof.
  induction n as [|n IH]; intros a Hm; [done|]. cbn [load]. rewrite Hm by lia. rewrite (IH (a + 1)); [done|].
  intros b Hb. apply Hm. lia.
Qed.

Lemma load_bytes m v n : forall a, (forall i, 0 <= i < Z.of_nat n -> m (a + i) = Z.shiftr v (8 * i) mod 256) ->
  load m a n = v mod 2 ^ (8 * Z.of_nat n).
Proof.
  revert v. induction n as [|n IH]; intros v a Hm; [cbn; by rewrite Z.mod_1_r|]. cbn [load].
  pose proof (Hm 0 ltac:(lia)) as H0. rewrite Z.add_0_r, Z.mul_0_r, Z.shiftr_0_r in H0. rewrite H0.
  rewrite (IH (Z.shiftr v 8)).
  - rewrite Z.shiftr_div_pow2 by lia. change (2 ^ 8) with 256.
    replace (8 * Z.of_nat (S n)) with (8 + 8 * Z.of_nat n) by lia. rewrite Z.pow_add_r by lia. change (2 ^ 8) with 256.
    rewrite Z.rem_mul_r by lia. lia.
  - intros i Hi. replace (a + 1 + i) with (a + (i + 1)) by lia. rewrite Hm by lia.
    rewrite Z.shiftr_shiftr by lia. do 2 f_equal. lia.
Qed.

Lemma load_store a n v m : 0 <= n -> load (store a n v m) a (Z.to_nat n) = v mod 2 ^ (8 * n).
Proof.
  intros Hn. rewrite (load_bytes _ v); [by rewrite Z2Nat.id by lia|]. intros i Hi.
  rewrite store_in by lia. do 2 f_equal. lia.
Qed.

Lemma load_store_out a n v m b k : b + Z.of_nat k <= a \/ a + n <= b -> load (store a n v m) b k = load m b k.
Proof. intros Hb. apply load_ext. intros c Hc. apply store_out. lia. Qed.

Lemma split_address v : 0 <= v < 2 ^ 64 ->
  v mod 2 ^ 16 + 2 ^ 16 * (Z.shiftr v 16 mod 2 ^ 16) + 2 ^ 32 * (Z.shiftr (Z.shiftr v 16) 16 mod 2 ^ 32) = v.
Proof.
  intros Hv. rewrite Z.shiftr_shiftr, !Z.shiftr_div_pow2 by lia. change (2 ^ (16 + 16)) with (2 ^ 32).
  rewrite (Z.mod_small (v / 2 ^ 32)) by (split; [apply Z.div_pos; lia|apply Z.div_lt_upper_bound; lia]). zlia.
Qed.

(** Reads back the stores of a gate or a table entry. *)
Ltac read_stores :=
  repeat match goal with
  | |- context [load (store ?x 1 ?v ?m) ?x 1] => rewrite (load_store x 1 v m ltac:(lia) : load _ _ 1 = _)
  | |- context [load (store ?x 2 ?v ?m) ?x 2] => rewrite (load_store x 2 v m ltac:(lia) : load _ _ 2 = _)
  | |- context [load (store ?x 4 ?v ?m) ?x 4] => rewrite (load_store x 4 v m ltac:(lia) : load _ _ 4 = _)
  | |- context [load (store ?x 8 ?v ?m) ?x 8] => rewrite (load_store x 8 v m ltac:(lia) : load _ _ 8 = _)
  | |- context [load (store _ _ _ _) _ _] => rewrite load_store_out by lia
  end.

(** ** The code *)

(** Where the gates lead to. *)
Inductive gate_label : Type :=
| exception_gate (n : Z) | exception_gate_reserved | exception_gate_bp | exception_gate_pf | exception_gate_hv
| nop_gate | wakeup_gate.

#[export] Instance gate_label_eq_dec : EqDecision gate_label.
Proof. solve_decision. Defined.

Definition EXCEPTION_TYPE : Z := 0x8f.
Definition INTERRUPT_TYPE : Z := 0x8e.

Section Code.
(** Addresses of the code and of the table. *)
Context (address : gate_label -> Z) (idt : Z).

(** The eight stores of [install_exception_gate] and [install_interrupt_gate]; addresses
    have 32 bits. *)
Definition install_gate (off sel type : Z) (g : gate_label) (m : Z -> Z) : Z -> Z :=
  let at_ k := u32 (idt + off + k) in
  let rax := address g in
  let m := store (at_ 0) 2 rax m in
  let m := store (at_ 2) 2 sel m in
  let m := store (at_ 4) 1 1 m in
  let m := store (at_ 5) 1 type m in
  let rax := Z.shiftr rax 16 in
  let m := store (at_ 6) 2 rax m in
  let rax := Z.shiftr rax 16 in
  let m := store (at_ 8) 4 rax m in
  store (at_ 12) 4 0 m.

Definition install_exception_gate (sel : Z) (m : Z -> Z) (x : Z * gate_label) : Z -> Z :=
  install_gate (fst x * 16) sel EXCEPTION_TYPE (snd x) m.

Definition install_interrupt_gate (sel ecx : Z) (g : gate_label) (m : Z -> Z) : Z -> Z :=
  install_gate ecx sel INTERRUPT_TYPE g m.

Definition enable_gate_for_compartments (k : Z) (m : Z -> Z) : Z -> Z :=
  let a := u32 (idt + k * 16 + 5) in store a 1 (Z.lor (m a) 0x60) m.

(** The first code segment: bit 3 of byte 5 of its descriptor is set. *)
Definition access_byte (e : UserGDTEntry) : Z :=
  let a := attributes e in
  Z.lor (Z.lor (segment_type a) (Z.shiftl (user_segment a) 4))
    (Z.lor (Z.shiftl (descriptor_privilege_level a) 5) (Z.shiftl (present a) 7)).

Fixpoint loop_gdt_code_search (l : list UserGDTEntry) (off : Z) : option Z :=
  match l with
  | [] => None
  | e :: l' => if Z.land (access_byte e) 0x08 =? 0 then loop_gdt_code_search l' (off + 8) else Some off
  end.

(** The gates of the exceptions in the order they are installed, up to the one compartments
    may raise themselves, and behind it. *)
Definition exception_gates_low : list (Z * gate_label) :=
  [(0, exception_gate 0); (1, exception_gate 1); (2, exception_gate 2); (3, exception_gate_bp)].

Definition exception_gates_high : list (Z * gate_label) :=
  [(4, exception_gate 4); (5, exception_gate 5); (6, exception_gate 6); (7, exception_gate 7);
   (8, exception_gate 8); (9, exception_gate 9); (10, exception_gate 10); (11, exception_gate 11);
   (12, exception_gate 12); (13, exception_gate 13); (14, exception_gate_pf); (15, exception_gate_reserved);
   (16, exception_gate 16); (17, exception_gate 17); (18, exception_gate 18); (19, exception_gate 19);
   (20, exception_gate 20); (21, exception_gate_reserved); (22, exception_gate_reserved);
   (23, exception_gate_reserved); (24, exception_gate_reserved); (25, exception_gate_reserved);
   (26, exception_gate_reserved); (27, exception_gate_reserved); (28, exception_gate_hv);
   (29, exception_gate_reserved); (30, exception_gate 30); (31, exception_gate_reserved)].

(** [.loop_install_interrupt_gates]; [None] when the fuel does not reach the end. *)
Fixpoint loop_install_interrupt_gates (fuel : nat) (sel ecx : Z) (m : Z -> Z) : option (Z -> Z) :=
  match fuel with
  | O => None
  | S fuel' =>
      let ecx := ecx - 16 in
      let m := install_interrupt_gate sel ecx nop_gate m in
      if 32 * 16 <=? ecx then loop_install_interrupt_gates fuel' sel ecx m else Some m
  end.

Definition setup_idt_generic (g : GDT) (m : Z -> Z) : option (Z -> Z) :=
  sel ← loop_gdt_code_search (segments g) 0;
  let m := fold_left (install_exception_gate sel) exception_gates_low m in
  let m := enable_gate_for_compartments 3 m in
  let m := fold_left (install_exception_gate sel) exception_gates_high m in
  m ← loop_install_interrupt_gates 256 sel (256 * 16) m;
  Some (install_interrupt_gate sel (0x80 * 16) wakeup_gate m).

End Code.

(** ** The gates as the processor reads them *)

Record gate : Type := mkGate { g_address : Z; g_selector : Z; g_ist : Z; g_type : Z; g_zero : Z }.

Section Table.
Context (address : gate_label -> Z) (idt : Z).
Context (Haddr : forall g, 0 <= address g < 2 ^ 64) (Hidt : 0 <= idt /\ idt + 4096 <= 2 ^ 32).

Definition gate_at (m : Z -> Z) (k : Z) : gate :=
  let b := idt + k * 16 in
  mkGate (load m b 2 + 2 ^ 16 * load m (b + 6) 2 + 2 ^ 32 * load m (b + 8) 4)
    (load m (b + 2) 2) (load m (b + 4) 1) (load m (b + 5) 1) (load m (b + 12) 4).

Lemma gate_at_ext m m' k : (forall b, idt + k * 16 <= b < idt + k * 16 + 16 -> m' b = m b) -> gate_at m' k = gate_at m k.
Proof.
  intros Hm. unfold gate_at. cbv zeta.
  assert (forall o n, 0 <= o -> o + Z.of_nat n <= 16 -> load m' (idt + k * 16 + o) n = load m (idt + k * 16 + o) n) as Hl.
  { intros o n Ho Hn. apply load_ext. intros b Hb. apply Hm. lia. }
  pose proof (Hl 0 2%nat ltac:(lia) ltac:(lia)) as H0. rewrite !Z.add_0_r in H0. rewrite H0.
  rewrite !Hl by lia. done.
Qed.

(** A gate is written in full and nothing else. *)
Lemma install_gate_spec k sel type g m :
  0 <= k < 256 -> 0 <= sel < 2 ^ 16 -> 0 <= type < 256 ->
  let m' := install_gate address idt (k * 16) sel type g m in
  gate_at m' k = mkGate (address g) sel 1 type 0 /\
  forall b, ~ idt + k * 16 <= b < idt + k * 16 + 16 -> m' b = m b.
Proof.
  intros Hk Hs Ht. unfold install_gate. cbv zeta.
  unfold u32. rewrite !(Z.mod_small (idt + k * 16 + _)) by lia. rewrite Z.add_0_r. split.
  - unfold gate_at. cbv zeta. set (a := idt + k * 16).
    read_stores.
    change (8 * 2) with 16. change (8 * 4) with 32. change (8 * 1) with 8. rewrite split_address by apply Haddr.
    rewrite !Z.mod_small by (cbn; lia). done.
  - intros b Hb. rewrite !store_out by lia. done.
Qed.

(** ** What is in the table *)

Lemma lor_lt_pow2 a b n : 0 <= n -> 0 <= a < 2 ^ n -> 0 <= b < 2 ^ n -> Z.lor a b < 2 ^ n.
Proof.
  intros Hn Ha Hb. destruct (Z.eq_dec (Z.lor a b) 0) as [->|Hne]; [lia|].
  assert (0 <= Z.lor a b) by (apply Z.lor_nonneg; lia). apply Z.log2_lt_cancel. rewrite Z.log2_pow2 by done.
  rewrite Z.log2_lor by lia.
  assert (forall x, 0 <= x < 2 ^ n -> x = 0 \/ Z.log2 x < n) as Hl.
  { intros x Hx. destruct (Z.eq_dec x 0) as [->|]; [by left|]. right. apply Z.log2_lt_pow2; lia. }
  pose proof (Z.log2_nonneg a) as La. pose proof (Z.log2_nonneg b) as Lb.
  destruct (Hl a Ha) as [->|], (Hl b Hb) as [->|]; [done|..]; change (Z.log2 0) with 0; lia.
Qed.

Context (m0 : Z -> Z).

(** The table has the gates of [f], and the bytes around it are those of [m0]. *)
Definition holds (m : Z -> Z) (f : Z -> gate) : Prop :=
  (forall k, 0 <= k < 256 -> gate_at m k = f k) /\ forall b, ~ idt <= b < idt + 4096 -> m b = m0 b.

Lemma holds_ext m f f' : (forall k, 0 <= k < 256 -> f k = f' k) -> holds m f -> holds m f'.
Proof. intros Hf [Hm Ho]. split; [|done]. intros k Hk. by rewrite Hm, Hf. Qed.

Definition set_gate (k : Z) (x : gate) (f : Z -> gate) : Z -> gate := fun j => if j =? k then x else f j.

Lemma install_holds k sel type g m f :
  0 <= k < 256 -> 0 <= sel < 2 ^ 16 -> 0 <= type < 256 -> holds m f ->
  holds (install_gate address idt (k * 16) sel type g m) (set_gate k (mkGate (address g) sel 1 type 0) f).
Proof.
  intros Hk Hs Ht [Hm Ho]. destruct (install_gate_spec k sel type g m Hk Hs Ht) as [I1 I2].
  split; [|by intros b Hb; rewrite I2, Ho by lia]. intros j Hj. unfold set_gate. destruct (Z.eqb_spec j k) as [->|Hne]; [done|]. rewrite <- (Hm j Hj). apply gate_at_ext.
  intros b Hb. apply I2. lia.
Qed.

Definition exception_entry (sel : Z) (f : Z -> gate) (x : Z * gate_label) : Z -> gate :=
  set_gate (fst x) (mkGate (address (snd x)) sel 1 EXCEPTION_TYPE 0) f.

Lemma exceptions_hold sel l : 0 <= sel < 2 ^ 16 -> Forall (fun x => 0 <= fst x < 256) l -> forall m f, holds m f ->
  holds (fold_left (install_exception_gate address idt sel) l m) (fold_left (exception_entry sel) l f).
Proof.
  intros Hs. induction 1 as [|[k g] l Hk Hl IH]; intros m f Hm; [done|]. cbn [fold_left]. apply IH.
  unfold install_exception_gate, exception_entry. cbn [fst snd] in *. by apply install_holds.
Qed.

Lemma enable_holds k m f : 0 <= k < 256 -> holds m f -> 0 <= g_type (f k) < 256 ->
  let x := f k in
  holds (enable_gate_for_compartments idt k m)
    (set_gate k (mkGate (g_address x) (g_selector x) (g_ist x) (Z.lor (g_type x) 0x60) (g_zero x)) f).
Proof.
  intros Hk [Hm Ho] Ht x. unfold enable_gate_for_compartments, u32. rewrite (Z.mod_small (idt + k * 16 + 5)) by lia.
  set (a := idt + k * 16). split; [|by intros b Hb; rewrite store_out, Ho by lia]. intros j Hj.
  unfold set_gate. destruct (Z.eqb_spec j k) as [->|Hne].
  - pose proof (Hm k Hk) as Hx. fold x in Hx, Ht. rewrite <- Hx in *. unfold gate_at in *. fold a in Ht |- *. cbv zeta in *.
    cbn [g_address g_selector g_ist g_type g_zero] in *.
    rewrite !(load_store_out (a + 5)) by lia. f_equal; [|apply load_store_out; lia].
    rewrite (load_store (a + 5) 1 _ m ltac:(lia) : load _ _ 1 = _). change (8 * 1) with 8. cbn [load] in Ht |- *.
    rewrite Z.mul_0_r, Z.add_0_r in Ht |- *. apply Z.mod_small. split; [apply Z.lor_nonneg; lia|].
    apply lor_lt_pow2; cbn; lia.
  - rewrite <- (Hm j Hj). apply gate_at_ext. intros b Hb. apply store_out. lia.
Qed.

Lemma gdt_code_search : loop_gdt_code_search (segments gdt_initial) 0 = Some KERNEL_CS.
Proof. reflexivity. Qed.

Definition interrupt_entry (sel k : Z) (g : gate_label) (f : Z -> gate) : Z -> gate :=
  set_gate k (mkGate (address g) sel 1 INTERRUPT_TYPE 0) f.

(** From [n] vectors below [k] + 31 on the loop overwrites those from 31 on. *)
Lemma loop_holds sel : 0 <= sel < 2 ^ 16 -> forall n fuel m f,
  (n < fuel)%nat -> Z.of_nat n + 32 <= 256 -> holds m f ->
  exists m', loop_install_interrupt_gates address idt fuel sel ((Z.of_nat n + 32) * 16) m = Some m' /\
    holds m' (fun j => if (31 <=? j) && (j <? Z.of_nat n + 32) then mkGate (address nop_gate) sel 1 INTERRUPT_TYPE 0 else f j).
Proof.
  intros Hs. induction n as [|n IH]; intros fuel m f Hf Hn Hm; (destruct fuel as [|fuel]; [lia|]);
    cbn [loop_install_interrupt_gates]; unfold install_interrupt_gate.
  - change ((Z.of_nat 0 + 32) * 16 - 16) with (31 * 16). change (32 * 16 <=? 31 * 16) with false. eexists; split; [done|].
    eapply holds_ext; [|by apply install_holds]. intros j Hj. unfold set_gate.
    destruct (Z.eqb_spec j 31), (Z.leb_spec 31 j), (Z.ltb_spec j (Z.of_nat 0 + 32)); cbn [andb]; done || lia.
  - replace ((Z.of_nat (S n) + 32) * 16 - 16) with ((Z.of_nat n + 32) * 16) by lia.
    destruct (Z.leb_spec (32 * 16) ((Z.of_nat n + 32) * 16)); [|lia].
    destruct (IH fuel (install_gate address idt ((Z.of_nat n + 32) * 16) sel INTERRUPT_TYPE nop_gate m)
      (interrupt_entry sel (Z.of_nat n + 32) nop_gate f)) as (m' & Hl & Hh); [lia|lia|apply install_holds; try done; lia|].
    exists m'. split; [done|]. eapply holds_ext; [|exact Hh]. intros j Hj. unfold interrupt_entry, set_gate.
    destruct (Z.eqb_spec j (Z.of_nat n + 32)), (Z.leb_spec 31 j), (Z.ltb_spec j (Z.of_nat n + 32)),
      (Z.ltb_spec j (Z.of_nat (S n) + 32)); cbn [andb]; done || lia.
Qed.

(** The gate each vector has. *)
Definition vector_label (k : Z) : gate_label :=
  if k =? 3 then exception_gate_bp else if k =? 14 then exception_gate_pf
  else if k =? 15 then exception_gate_reserved else if k =? 28 then exception_gate_hv
  else if k =? 30 then exception_gate 30 else if k =? 128 then wakeup_gate
  else if k <? 21 then exception_gate k else if k <? 31 then exception_gate_reserved else nop_gate.

Definition gates_before (sel : Z) : Z -> gate :=
  let f := fold_left (exception_entry sel) exception_gates_low (gate_at m0) in
  fold_left (exception_entry sel) exception_gates_high
    (set_gate 3 (mkGate (address exception_gate_bp) sel 1 (Z.lor EXCEPTION_TYPE 0x60) 0) f).

Lemma vectors_below (l : list (Z * gate_label)) :
  forallb (fun x => (0 <=? fst x) && (fst x <? 256)) l = true -> Forall (fun x => 0 <= fst x < 256) l.
Proof. rewrite forallb_forall, List.Forall_forall. intros Hl x Hx. specialize (Hl x Hx). lia. Qed.

Lemma exceptions_before sel : 0 <= sel < 2 ^ 16 ->
  holds (fold_left (install_exception_gate address idt sel) exception_gates_high
    (enable_gate_for_compartments idt 3
      (fold_left (install_exception_gate address idt sel) exception_gates_low m0))) (gates_before sel).
Proof.
  intros Hs. unfold gates_before. apply exceptions_hold; [done|apply vectors_below; reflexivity|].
  eapply holds_ext; [|apply (enable_holds 3 _ (fold_left (exception_entry sel) exception_gates_low (gate_at m0)));
    [lia|by apply exceptions_hold; [|apply vectors_below; reflexivity|]|change (0 <= EXCEPTION_TYPE < 256); unfold EXCEPTION_TYPE; lia]]. done.
Qed.

Lemma exception_vectors (P : Z -> Prop) k : 0 <= k < 31 -> Forall P (seqZ 0 31) -> P k.
Proof. intros Hk HP. rewrite Forall_forall in HP. apply HP. apply elem_of_seqZ. lia. Qed.

Lemma gates_before_label k : 0 <= k < 31 ->
  gates_before KERNEL_CS k = mkGate (address (vector_label k)) KERNEL_CS 1 (if k =? 3 then 0xef else EXCEPTION_TYPE) 0.
Proof.
  intros Hk. apply (exception_vectors (fun k => gates_before KERNEL_CS k =
    mkGate (address (vector_label k)) KERNEL_CS 1 (if k =? 3 then 0xef else EXCEPTION_TYPE) 0)); [done|].
  cbn [seqZ seq Z.to_nat Pos.to_nat Pos.iter_op fmap list_fmap]. repeat constructor.
Qed.

(** Which gates expect an error code on the stack, and for which exceptions the processor
    pushes one. *)
Definition expects_status (g : gate_label) : bool :=
  match g with
  | exception_gate n => bool_decide (n ∈ [8; 10; 11; 12; 13; 17; 30])
  | exception_gate_pf => true
  | _ => false
  end.

Definition pushes_status (k : Z) : bool := bool_decide (k ∈ [8; 10; 11; 12; 13; 14; 17; 21; 29; 30]).

(** The gates agree with the processor but for control protection (21) and the exceptions
    an encrypted machine raises for its hypervisor (29). *)
Lemma status_convention k :
  0 <= k < 31 -> (expects_status (vector_label k) = pushes_status k <-> k <> 21 /\ k <> 29).
Proof.
  intros Hk. apply (exception_vectors (fun k => expects_status (vector_label k) = pushes_status k <-> k <> 21 /\ k <> 29)); [done|].
  cbn [seqZ seq Z.to_nat Pos.to_nat Pos.iter_op fmap list_fmap].
  repeat (constructor; [vm_compute; intuition congruence|]). constructor.
Qed.

(** C31: [setup_idt_generic] finds the kernel's code segment and fills all 256 gates, each
    with the whole address of its code, that segment and stack 1. Exceptions have gates that
    leave interrupts enabled, and only the breakpoint may be raised from a compartment; the
    vectors from 32 on have interrupt gates, the wake-up at 0x80. Exception 31 alone loses
    its gate to the loop over the interrupts, which goes one vector too far. No byte outside
    the table changes. *)
Theorem setup_idt_exact :
  exists m', setup_idt_generic address idt gdt_initial m0 = Some m' /\
    (forall k, 0 <= k < 256 ->
       gate_at m' k = mkGate (address (vector_label k)) KERNEL_CS 1
         (if k =? 3 then 0xef else if k <? 31 then EXCEPTION_TYPE else INTERRUPT_TYPE) 0) /\
    forall b, ~ idt <= b < idt + 4096 -> m' b = m0 b.
Proof.
  unfold setup_idt_generic. rewrite gdt_code_search. cbn [mbind option_bind].
  destruct (loop_holds KERNEL_CS ltac:(done) 224 256 _ _ ltac:(lia) ltac:(lia) (exceptions_before KERNEL_CS ltac:(done)))
    as (m1 & Hl & Hh).
  change ((Z.of_nat 224 + 32) * 16) with (256 * 16) in Hl. rewrite Hl. cbn [mbind option_bind].
  apply (install_holds 0x80 KERNEL_CS INTERRUPT_TYPE wakeup_gate) in Hh as [Hg Ho]; [|done..].
  eexists; split_and!; [done| |exact Ho]. intros k Hk. unfold install_interrupt_gate. rewrite Hg by done.
  unfold set_gate, vector_label. destruct (Z.eqb_spec k 128) as [->|Hne]; [done|].
  change (Z.of_nat 224 + 32) with 256. destruct (Z.leb_spec 31 k) as [H31|H31].
  - destruct (Z.ltb_spec k 256); [|lia]. cbn [andb].
    rewrite (proj2 (Z.eqb_neq k 3)), (proj2 (Z.eqb_neq k 14)), (proj2 (Z.eqb_neq k 15)), (proj2 (Z.eqb_neq k 28)),
      (proj2 (Z.eqb_neq k 30)), (proj2 (Z.ltb_ge k 21)), (proj2 (Z.ltb_ge k 31)) by lia. done.
  - cbn [andb]. rewrite gates_before_label by lia. unfold vector_label.
    destruct (Z.eqb_spec k 128); [lia|]. destruct (Z.ltb_spec k 31); [done|lia].
Qed.

End Table.

(** ** Execution under a page table

    [run] lets every access succeed. Here each access of memory is checked against the table in CR3 with the rights of the
    ring; the kernel respects read-only entries, as [CR0.WP] is set. *)

(** The first and the last byte of the words that an instruction accesses, and whether it writes them. *)
Definition accesses (s : cpu) (i : instr) : list (Z * bool) :=
  let word a w := [(a, w); (u64 (a + 7), w)] in
  match i with
  | Load _ b off => word (u64 (rf s b + off)) false
  | Store b off _ | StoreI b off _ | IncM b off => word (u64 (rf s b + off)) true
  | LoadAbs _ a | AddAbs _ a => word a false
  | LoadGs _ off => word (u64 (gs s + off)) false
  | Push _ | Pushf | PushI _ => word (u64 (rf s RSP - 8)) true
  | Pop _ | Popf | Ret => word (rf s RSP) false
  | Iretq => flat_map (fun off => word (u64 (rf s RSP + off)) false) [0; 8; 16; 24; 32]
  | _ => []
  end.

(** The state in which an instruction faults is the one before it. *)
Inductive checked : Type :=
| Ran (s : cpu)
| Faulted (a : Z) (w : bool) (s : cpu).

Section Checked.
Context (cfg : page_config) (m : pt_mem).

Definition may (s : cpu) (x : Z * bool) : bool :=
  let '(a, w) := x in
  (0 <=? a) && (a <? 2 ^ 48) &&
  match hw_access cfg (root_depth cfg) m (cr3 s) a with
  | Some (_, w', u) => implb w w' && implb (user s) u
  | None => false
  end.

Fixpoint check_code (l : list instr) (s : cpu) : checked :=
  match l with
  | [] => Ran s
  | i :: l' =>
      match find (fun x => negb (may s x)) (accesses s i) with
      | Some (a, w) => Faulted a w s
      | None => check_code l' (exec1 s i)
      end
  end.

Fixpoint check (p : prog) (s : cpu) : checked :=
  match p with
  | Code l => check_code l s
  | If c p q => if c s then check p s else check q s
  | Seq p q => match check p s with Ran s' => check q s' | f => f end
  end.

(** The error code of a page fault: whether the page is there, whether it is a write, and whether it comes from ring 3. *)
Definition fault_error (s : cpu) (a : Z) (w : bool) : Z :=
  flag 0 (match hw_access cfg (root_depth cfg) m (cr3 s) a with Some _ => true | None => false end) +
  flag 1 w + flag 2 (user s).

Lemma kernel_fault_error s a w : user s = false -> Z.land (fault_error s a w) 4 = 0.
Proof. intros Hu. unfold fault_error. rewrite Hu. by destruct (hw_access _ _ _ _ _), w. Qed.

(** Code that runs to its end without a fault does what it does without the checks. *)
Lemma check_code_ran l : forall s s', check_code l s = Ran s' -> exec l s = s'.
Proof.
  induction l as [|i l IH]; intros s s' Hc; cbn [check_code] in Hc; [by injection Hc|].
  rewrite exec_cons. destruct (find _ _) as [[]|]; [done|]. by apply IH.
Qed.

Lemma check_ran p : forall s s', check p s = Ran s' -> run p s = s'.
Proof.
  induction p as [l|c p IHp q IHq|p IHp q IHq]; intros s s' Hc; cbn [check] in Hc.
  - by apply check_code_ran.
  - rewrite run_if. destruct (c s); auto.
  - rewrite run_seq. destruct (check p s) as [s1|] eqn:E; [|done]. apply IHp in E as ->. auto.
Qed.

(** Instructions that change neither the table nor the ring. *)
Definition plain (i : instr) : bool := match i with WrCr3 _ | Sysret | Iretq => false | _ => true end.

Fixpoint plain_prog (p : prog) : bool :=
  match p with Code l => forallb plain l | If _ p q | Seq p q => plain_prog p && plain_prog q end.

(** The same table and ring, and every word that may not be written as it was. *)
Definition kept (s s' : cpu) : Prop :=
  cr3 s' = cr3 s /\ user s' = user s /\ forall b, may s (b, true) = false -> mem s' b = mem s b.

Lemma may_kept s s' x : cr3 s' = cr3 s -> user s' = user s -> may s' x = may s x.
Proof. intros Hc Hu. unfold may. destruct x. by rewrite Hc, Hu. Qed.

#[export] Instance kept_preorder : PreOrder kept.
Proof.
  split; [by intros s|]. intros s1 s2 s3 (C1 & U1 & M1) (C2 & U2 & M2). split_and!; [congruence..|].
  intros b Hb. rewrite M2, M1; [done..|]. by rewrite (may_kept s1).
Qed.

Lemma exec1_mem s i b : mem (exec1 s i) b = mem s b \/ (b, true) ∈ accesses s i.
Proof.
  assert (forall a v, write a v (mem s) b = mem s b \/ b = a) as Hw
    by (intros a v; unfold write; destruct (Z.eqb_spec b a); auto).
  destruct i; try (by left); cbn -[u64 write]; rewrite ?elem_of_cons;
    match goal with |- write ?a ?v _ _ = _ \/ _ => destruct (Hw a v) as [E| ->]; auto end.
Qed.

Lemma exec1_kept s i :
  plain i = true -> find (fun x => negb (may s x)) (accesses s i) = None -> kept s (exec1 s i).
Proof.
  intros Hp Hf. split_and!; [by destruct i|by destruct i|]. intros b Hb.
  destruct (exec1_mem s i b) as [E|Hin]; [done|]. apply list_elem_of_In in Hin.
  apply (find_none _ _ Hf) in Hin. by rewrite Hb in Hin.
Qed.

Lemma check_code_kept l : forall s, forallb plain l = true ->
  match check_code l s with Ran s' | Faulted _ _ s' => kept s s' end.
Proof.
  induction l as [|i l IH]; intros s Hp; cbn [check_code]; [done|]. cbn [forallb] in Hp. apply andb_true_iff in Hp as [Hi Hl].
  destruct (find _ _) as [[a w]|] eqn:Hf; [done|]. pose proof (exec1_kept s i Hi Hf) as Hk. specialize (IH (exec1 s i) Hl).
  destruct (check_code _ _); by etransitivity.
Qed.

Lemma check_kept p : forall s, plain_prog p = true ->
  match check p s with Ran s' | Faulted _ _ s' => kept s s' end.
Proof.
  induction p as [l|c p IHp q IHq|p IHp q IHq]; intros s Hp; cbn [check]; cbn [plain_prog] in Hp;
    [by apply check_code_kept|apply andb_true_iff in Hp as [Hp Hq]..].
  - destruct (c s); [by apply IHp|by apply IHq].
  - specialize (IHp s Hp). destruct (check p s) as [s1|]; [|done]. specialize (IHq s1 Hq).
    destruct (check q s1); by etransitivity.
Qed.

(** ** A wake-up under a table that does not let it acknowledge *)

Context (local_apic_mapping loop_suspend loop_hlt : Z).

Lemma wakeup_check d :
  let apic := mem d local_apic_mapping in
  may d (local_apic_mapping, true) = false -> may d (u64 (apic + 0xB0), true) = false ->
  exists a w s', check (wakeup_handler_code local_apic_mapping loop_suspend loop_hlt) d = Faulted a w s' /\ kept d s'.
Proof.
  intros apic Hl Ha. unfold wakeup_handler_code. cbn [check].
  match goal with |- context [check_code ?l d] => pose proof (check_code_kept l d eq_refl) as H1;
    destruct (check_code l d) as [s1|a w s1]; [|by exists a, w, s1] end.
  pose proof (check_kept (reset_suspend_check_code loop_suspend loop_hlt 0x10) s1 eq_refl) as H2.
  destruct (check (reset_suspend_check_code _ _ _) s1) as [s2|a w s2]; [|exists a, w, s2; split; [done|by etransitivity]].
  assert (kept d s2) as (C & U & M) by by etransitivity. cbn [check_code].
  destruct (find _ (accesses s2 (LoadAbs RDI local_apic_mapping))) as [[a w]|]; [by exists a, w, s2|]. cbn [accesses find].
  set (s3 := exec1 (exec1 s2 (LoadAbs RDI local_apic_mapping)) (XorSelf RAX)).
  assert (rf s3 RDI = apic /\ cr3 s3 = cr3 d /\ user s3 = user d /\ mem s3 = mem s2) as (R & C3 & U3 & M3)
    by (split_and!; try done; by apply M).
  clearbody s3. rewrite R, (may_kept d), Ha by done. cbn [negb].
  exists (u64 (apic + 0xB0)), true, s3. split; [done|]. split_and!; [done..|]. intros b Hb. rewrite M3. by apply M.
Qed.

(** ** A page fault of ring 0 *)

Context (kernel_pagetable per_core_data : Z).

Lemma kernel_fault_check cr2 ist ss err entry s :
  (16 | ist) -> 168 <= ist < 2 ^ 64 -> user s = false ->
  match check (exception_gate_pagefault_code kernel_pagetable per_core_data cr2)
          (deliver ExceptionGate ist ss (Some err) entry s) with
  | Faulted _ _ s' => cr3 s' = cr3 s /\ user s' = false
  | Ran p => cr3 p = cr3 s /\ user p = false /\ rf p RDI = cr2 /\ rf p RSI = 0 /\
      mem p (u64 (rf p RDX + (TRAP_REGS_END + INT_ERR_OFFSET))) = err
  end.
Proof.
  intros Hal Hist Hu. destruct (deliver_spec ExceptionGate ist ss (Some err) entry s Hal ltac:(lia))
    as (D1 & _ & D3 & _ & _ & _ & D7 & _ & D9 & _).
  unfold interrupt_words in D9. rewrite Hu in D9. cbn [rev app] in D9. destruct D9 as (W1 & _ & W3 & _).
  set (d := deliver _ _ _ _ _ _) in *. clearbody d.
  unfold exception_gate_pagefault_code, interrupt_prelude_code, swap_kernel_cr3_code. cbn [check].
  pose proof (check_code_kept save_regs d eq_refl) as H1. destruct (check_code save_regs d) as [s1|a w s1] eqn:E1;
    destruct H1 as (C1 & U1 & _); [|by rewrite C1, U1]. apply check_code_ran in E1.
  destruct (save_spec d (ist - 48) D1 ltac:(lia)) as (S1 & _ & _ & _ & S5). rewrite E1 in S1, S5.
  match goal with |- context [check_code [Load RBX RSP ?o; AndI RBX 3; Test RBX] s1] =>
    pose proof (check_code_kept [Load RBX RSP o; AndI RBX 3; Test RBX] s1 eq_refl) as H2;
    destruct (check_code [Load RBX RSP o; AndI RBX 3; Test RBX] s1) as [s2|a w s2] eqn:E2 end;
    destruct H2 as (C2 & U2 & _); [|by rewrite C2, U2, C1, U1]. apply check_code_ran in E2.
  assert (rf s2 RBX = 0 /\ rf s2 RSP = ist - 168 /\ mem s2 = mem s1) as (B2 & R2 & M2).
  { rewrite <- E2. irq_cbn. unfold TRAP_REGS_END, INT_CS_OFFSET. rewrite S1, u64_small by (unfold is_u64; lia).
    replace (ist - 48 - 120 + (0x78 + 0x10)) with (ist - 48 + 8 + 8) by lia. rewrite S5, W3 by lia.
    split_and!; [done|lia|done]. }
  rewrite B2, Z.eqb_refl.
  match goal with |- context [check_code [XorSelf RBX] s2] => pose proof (check_code_kept [XorSelf RBX] s2 eq_refl) as H3;
    destruct (check_code [XorSelf RBX] s2) as [s3|a w s3] eqn:E3 end;
    destruct H3 as (C3 & U3 & _); [|by rewrite C3, U3, C2, U2, C1, U1]. apply check_code_ran in E3.
  assert (rf s3 RBX = 0 /\ rf s3 RSP = ist - 168 /\ mem s3 = mem s1) as (B3 & R3 & M3) by by rewrite <- E3.
  match goal with |- context [check_code ?l s3] => pose proof (check_code_kept l s3 eq_refl) as H4;
    destruct (check_code l s3) as [s4|a w s4] eqn:E4 end;
    destruct H4 as (C4 & U4 & _); [|by rewrite C4, U4, C3, U3, C2, U2, C1, U1]. apply check_code_ran in E4.
  assert (rf s4 RBX = 0 /\ rf s4 RSP = ist - 168 /\ mem s4 = mem s1) as (B4 & R4 & M4).
  { rewrite <- E4. irq_cbn. by rewrite B3, R3, M3. }
  cbn [check_code accesses find]. irq_cbn. rewrite B4, R4, M4. split_and!; [congruence..|done|done|].
  unfold TRAP_REGS_END, INT_ERR_OFFSET. rewrite u64_small by (unfold is_u64; lia).
  rewrite S5 by lia. replace (ist - 168 + (0x78 + 0)) with (ist - 48) by lia. exact W1.
Qed.

End Checked.

(** ** A wake-up in a compartment

    [wakeup_handler] stays in the page table of the code it interrupts. *)

(** Memory that is neither the compartment's nor, like the stacks of the interrupts, mapped for ring 0 in its table. *)
Definition kernel_only (bits : Z) (maps stacks : list MapEntry) (st : RangeState) (x : MonzaRange) (va : Z) : Prop :=
  canonical va /\ get_monza_owner bits (rs_own st) va <> r_owner x /\ ~ forced maps stacks va.

(** C40: A wake-up that comes while a compartment runs never gets past its handler. In every reachable state, whatever the
    compartment's registers, GS included, hold: [wakeup_handler], run with each access checked against the table in CR3, which is
    still the compartment's, faults in ring 0, and no memory of the kernel has changed by then: neither the count in the data of the
    core nor the acknowledgement at the local APIC has been stored. Nor does the page fault that follows repair it: its gate
    keeps the table, since the fault comes from ring 0, and either faults again in the same way or calls [page_fault_handler], which stops
    the machine. Memory of the kernel is what the compartment does not own and no map forces to be writable; the
    condition on new compartments is that of C1. *)
Theorem wakeup_faults_in_compartment (bits : Z) (cfg : page_config)
  `{SnmallocBits, !SnmallocBitsOk, NodeAllocator, !NodeAllocatorOk}
  (kernel : Z) (hr : HeapRanges) (predefined interrupt_stack_map : list MapEntry)
  (boot_tables : pt_mem) (lab0 : gmap Z label) comps st x
  (kernel_pagetable per_core_data local_apic_mapping loop_suspend loop_hlt ist ss entry : Z) (s : cpu) :
  page_bits cfg <= bits < 48 ->
  Forall (fun e => region_ok (map_range e) /\ entry_aligned cfg e) (predefined ++ interrupt_stack_map) ->
  Forall (fun e => map_perm e <> PT_COMPARTMENT_WRITE) (predefined ++ interrupt_stack_map) ->
  pt_wf cfg boot_tables lab0 -> table lab0 kernel true ->
  reach bits cfg kernel hr predefined interrupt_stack_map boot_tables true comps st -> x ∈ comps ->
  cr3 s = r_root x -> (16 | ist) -> 168 <= ist < 2 ^ 64 -> ~ ist - 40 <= local_apic_mapping < ist ->
  kernel_only bits predefined interrupt_stack_map st x local_apic_mapping ->
  kernel_only bits predefined interrupt_stack_map st x (u64 (mem s local_apic_mapping + 0xB0)) ->
  exists a w s',
    check cfg (rs_pt st) (wakeup_handler_code local_apic_mapping loop_suspend loop_hlt)
      (deliver InterruptGate ist ss None entry s) = Faulted a w s' /\
    cr3 s' = r_root x /\ user s' = false /\
    (forall b, kernel_only bits predefined interrupt_stack_map st x b -> ~ ist - 40 <= b < ist -> mem s' b = mem s b) /\
    forall ss' entry',
    match check cfg (rs_pt st) (exception_gate_pagefault_code kernel_pagetable per_core_data a)
            (deliver ExceptionGate ist ss' (Some (fault_error cfg (rs_pt st) s' a w)) entry' s') with
    | Faulted _ _ s'' => cr3 s'' = r_root x /\ user s'' = false
    | Ran p => cr3 p = r_root x /\ rf p RDI = a /\ rf p RSI = 0 /\
        page_fault_handler bits cfg hr (rs_own st) (r_owner x) (rf p RDI) (rf p RSI)
          (mem p (u64 (rf p RDX + (TRAP_REGS_END + INT_ERR_OFFSET)))) (rs_pt st) = Kabort
    end.
Proof.
  intros Hbits Hmap Hperm Hwf Hk Hreach Hx Hcr Hal Hist Hlam Hko Hka.
  destruct (deliver_spec InterruptGate ist ss None entry s Hal ltac:(lia)) as (_ & _ & D3 & _ & _ & _ & D7 & _ & _ & D10).
  set (d := deliver _ _ _ _ _ _) in *. clearbody d.
  assert (forall b, kernel_only bits predefined interrupt_stack_map st x b -> may cfg (rs_pt st) d (b, true) = false) as Hmay.
  { intros b (Hc & Ho & Hf). unfold may. rewrite D3, Hcr. apply andb_false_iff. right.
    pose proof (fun pa u => reach_not_writable bits cfg Hbits kernel hr _ predefined interrupt_stack_map Hmap Hperm boot_tables lab0
      Hwf Hk (fun va => eq_refl) comps st x b pa u Hreach Hx Hc Ho Hf) as Hw.
    destruct (hw_access _ _ _ _ b) as [[[pa []] u]|]; [by destruct (Hw pa u)|done..]. }
  destruct (wakeup_check cfg (rs_pt st) local_apic_mapping loop_suspend loop_hlt d) as (a & w & s' & Hf & C & U & M).
  { by apply Hmay. }
  { rewrite D10 by done. by apply Hmay. }
  exists a, w, s'. rewrite D3 in C. rewrite D7 in U. split_and!; [done|congruence|done| |].
  - intros b Hb Hout. rewrite M by by apply Hmay. by apply D10.
  - intros ss' entry'. pose proof (kernel_fault_check cfg (rs_pt st) kernel_pagetable per_core_data a ist ss'
      (fault_error cfg (rs_pt st) s' a w) entry' s' Hal Hist U) as Hg.
    revert Hg. set (c := check _ _ _ _). clearbody c. destruct c as [p|a' w' s'']; intros Hg; [|by rewrite <- Hcr, <- C].
    destruct Hg as (G1 & G2 & G3 & G4 & G5). split_and!; [congruence|done|done|].
    rewrite G5. unfold page_fault_handler. by rewrite kernel_fault_error.
Qed.

(** ** Witnesses *)

Definition ex_address (g : gate_label) : Z :=
  match g with exception_gate n => 0x100000 + 16 * Z.abs n mod 256 | wakeup_gate => 0x1122334455 | _ => 0x200000 end.

Lemma setup_idt_exact_witness :
  exists m', setup_idt_generic ex_address 0x4000 gdt_initial (fun _ => 7) = Some m' /\
    gate_at 0x4000 m' 0x80 = mkGate 0x1122334455 8 1 0x8e 0 /\ gate_at 0x4000 m' 31 = mkGate 0x200000 8 1 0x8e 0.
Proof.
  destruct (setup_idt_exact ex_address 0x4000) with (m0 := fun _ : Z => 7) as (m' & Hm & Hg & _).
  - intros g. unfold ex_address. pose proof (Z.mod_pos_bound (16 * 1) 256). destruct g; try lia.
    pose proof (Z.mod_pos_bound (16 * Z.abs n) 256 ltac:(lia)). lia.
  - lia.
  - exists m'. split_and!; [done|rewrite Hg by lia; reflexivity..].
Defined.

(** The compartment of [example_life] is interrupted while GS holds the address of its core's data, 0x20000, and the word
    at 0x2100 that of the local APIC, 0x70000. *)
Definition interrupted (root : Z) : cpu :=
  mkCpu (fun _ => 0) 5555 514 root 0 0x20000 (TSS_SEG 0) true (write 0x2100 0x70000 (write 0x20000 0x20000 (fun _ => 0))).

Lemma example_forced va : forced example_predefined example_stacks va -> 0x4000 <= va < 0x5000.
Proof.
  intros (e & He & Hp & Hb). unfold example_predefined, predefined_map, example_stacks in He. cbn [app] in He.
  rewrite !elem_of_cons, elem_of_nil in He.
  destruct He as [->|[->|[->|[->|[]]]]]; try discriminate Hp. by apply in_bounds_spec in Hb.
Qed.

Lemma wakeup_faults_in_compartment_witness :
  exists x st a w s', @reach ref_bits ref_alloc 14 SmallPages 0x1000 two_heap example_predefined example_stacks
      example_mem true [x] st /\
    check SmallPages (rs_pt st) (wakeup_handler_code 0x2100 1 2)
      (deliver InterruptGate 0x5000 16 None 0 (interrupted (r_root x))) = Faulted a w s' /\
    cr3 s' = r_root x /\ mem s' 0x20010 = 0 /\ mem s' 0x700b0 = 0.
Proof.
  assert (match example_life with
    | Done (x, _, st) => forallb (fun va => negb (get_monza_owner 14 (rs_own st) va =? r_owner x)) [0x2100; 0x700b0; 0x20010] = true
    | _ => False end) as Hown by (vm_compute; reflexivity).
  run_done example_life E. destruct a as [[x st1] st]. unfold example_life in E.
  apply obind_done in E as ([x' st1'] & Ec & E). apply obind_done in E as ([rg st'] & Ea & E).
  injection E as -> -> ->. cbn [fst snd] in Ea.
  assert (@reach ref_bits ref_alloc 14 SmallPages 0x1000 two_heap example_predefined example_stacks
      example_mem true [x] st) as Hr.
  { eapply reach_step; [eapply reach_construct; [apply reach_boot|..|exact Ec]|];
      [done|intros _; apply not_elem_of_nil|apply not_elem_of_nil|].
    apply (step_alloc _ _ _ _ _ x st1 2 1 rg); [by left|lia|vm_compute; discriminate|exact Ea]. }
  assert (forall va, va ∈ [0x2100; 0x700b0; 0x20010] -> kernel_only 14 example_predefined example_stacks st x va) as Hko.
  { intros va Hva. rewrite forallb_forall in Hown. specialize (Hown va (proj1 (list_elem_of_In _ _) Hva)). split_and!.
    - rewrite !elem_of_cons, elem_of_nil in Hva. unfold canonical. lia.
    - intros E. by rewrite E, Z.eqb_refl in Hown.
    - intros Hf%example_forced. rewrite !elem_of_cons, elem_of_nil in Hva. lia. }
  destruct (example_wf SmallPages true) as [Hwf Ht].
  destruct (@wakeup_faults_in_compartment 14 SmallPages ref_bits ref_bits_ok ref_alloc ref_alloc_ok 0x1000 two_heap
    example_predefined example_stacks example_mem (example_lab true) [x] st x 0x2200 0x2300 0x2100 1 2 0x5000 16 0
    (interrupted (r_root x))) as (a & w & s' & Hf & Hc & _ & Hm & _);
    [exact example_bits|apply entries_okb; vm_compute; reflexivity|repeat constructor; discriminate|exact Hwf|exact Ht|exact Hr|
     by left|reflexivity|by exists 0x500|lia|lia|apply Hko; by left|apply Hko; right; by left|].
  exists x, st, a, w, s'. split_and!; [exact Hr|exact Hf|exact Hc|..];
    (rewrite Hm; [reflexivity|apply Hko; rewrite !elem_of_cons; auto|lia]).
Defined.
