(* ===== verification/CoreStart.v ===== *)
(** * Start of the cores on the generic platform (arch/x86_64/main64.asm, cores_generic.cc, cores.asm, cores.cc, crt/thread.cc)

    [initialize_threads] prepares a context for each core and starts it with
    [init_cpu_generic]: an interrupt through the local APIC sends the core to
    [ap_reset_handler], which takes its registers from variables the starting core has
    filled in, and signals when it no longer needs them. The first core begins in [start],
    which sets the control registers and clears stack and BSS; [shutdown_generic] ends it
    all. *)

From S2P Require Import Prelude External Address Heap Acpi Cpu.

(** ** The local APIC *)

Definition IPI_PENDING_FLAG : Z := Z.shiftl 1 12.

(** The two halves of the interrupt command register, the interrupts sent (destination and
    vector) and for how many more reads the last one is shown as pending. *)
Record Apic : Type := mkApic { icr_high : Z; icr_low : Z; sent : list (Z * Z); busy : nat }.

(** A write to the low half sends the interrupt. [delay] is how long that takes. *)
Definition apic_write (delay : nat) (off v : Z) (a : Apic) : Apic :=
  if off =? 0x310 then mkApic v (icr_low a) (sent a) (busy a)
  else if off =? 0x300 then mkApic (icr_high a) v (sent a ++ [(Z.shiftr (icr_high a) 24, Z.land v 0xff)]) delay
  else a.

Definition apic_read_low (a : Apic) : Z * Apic :=
  match busy a with
  | O => (icr_low a, a)
  | S n => (Z.lor (icr_low a) IPI_PENDING_FLAG, mkApic (icr_high a) (icr_low a) (sent a) n)
  end.

(** The polling loop; [Hang] when the fuel is used up. *)
Fixpoint wait_ipi (fuel : nat) (a : Apic) : outcome Apic :=
  match fuel with
  | O => Hang
  | S fuel' =>
      let '(v, a') := apic_read_low a in
      if negb (Z.land v IPI_PENDING_FLAG =? 0) then wait_ipi fuel' a' else Done a'
  end.

Definition trigger_ipi_generic (fuel delay : nat) (cores : CoreState) (core interrupt : Z) (a : Apic) : outcome Apic :=
  let* c := core_get core cores in
  let config_value := u32 (Z.shiftl (apic_id c) 24) in
  let a := apic_write delay 0x310 config_value a in
  let config_value := interrupt in
  let a := apic_write delay 0x300 config_value a in
  wait_ipi fuel a.

Lemma wait_ipi_ends n : forall fuel a, busy a = n -> (n < fuel)%nat -> 0 <= icr_low a < 256 ->
  wait_ipi fuel a = Done (mkApic (icr_high a) (icr_low a) (sent a) 0).
Proof.
  induction n as [|n IH]; intros fuel a Hb Hf Hl; (destruct fuel as [|fuel]; [lia|]); cbn [wait_ipi];
    unfold apic_read_low; rewrite Hb.
  - assert (Z.land (icr_low a) IPI_PENDING_FLAG = 0) as ->.
    { apply Z.bits_inj'. intros i Hi. rewrite Z.land_spec, Z.bits_0. change IPI_PENDING_FLAG with (2 ^ 12).
      rewrite Z.pow2_bits_eqb by lia. destruct (Z.eqb_spec 12 i) as [<-|]; [|by rewrite andb_false_r].
      rewrite andb_true_r. apply Z.testbit_false; [lia|]. by rewrite Z.div_small by lia. }
    destruct a; cbn in *. by subst.
  - assert (Z.land (Z.lor (icr_low a) IPI_PENDING_FLAG) IPI_PENDING_FLAG = IPI_PENDING_FLAG) as ->.
    { rewrite Z.land_lor_distr_l, Z.land_diag. apply Z.bits_inj'. intros i Hi. rewrite Z.lor_spec, Z.land_spec.
      by destruct (Z.testbit (icr_low a) i), (Z.testbit IPI_PENDING_FLAG i). }
    cbn [negb Z.eqb IPI_PENDING_FLAG Z.shiftl]. by rewrite (IH fuel (mkApic (icr_high a) (icr_low a) (sent a) n)) by (done || lia).
Qed.

Lemma shiftl_byte b : 0 <= b < 256 -> Z.shiftr (u32 (Z.shiftl b 24)) 24 = b.
Proof.
  intros Hb. unfold u32. rewrite Z.shiftl_mul_pow2, Z.mod_small, Z.shiftr_div_pow2 by lia. by rewrite Z.div_mul.
Qed.

(** An interrupt for a core reaches that core's interrupt controller with the vector
    asked for, once, and the call returns when the controller has taken it; for a core
    that does not exist it stops the machine. *)
Theorem trigger_ipi_generic_sends fuel delay cores core interrupt a :
  0 <= interrupt < 256 -> (delay < fuel)%nat -> Forall (fun c => 0 <= apic_id c < 256) (per_core_data cores) -> 0 <= core ->
  match per_core_data cores !! Z.to_nat core with
  | Some c =>
      exists a', trigger_ipi_generic fuel delay cores core interrupt a = Done a' /\
        sent a' = sent a ++ [(apic_id c, interrupt)] /\ busy a' = 0%nat
  | None => trigger_ipi_generic fuel delay cores core interrupt a = Kabort
  end.
Proof.
  intros Hi Hf Hids Hc. unfold trigger_ipi_generic, core_get, num_cores.
  destruct (per_core_data cores !! Z.to_nat core) as [c|] eqn:Hl.
  - pose proof (lookup_lt_Some _ _ _ Hl) as Hlt. destruct (Z.ltb_spec core (Z.of_nat (length (per_core_data cores)))); [|lia].
    cbn [obind]. unfold apic_write. cbv zeta.
    change (0x310 =? 0x310) with true. change (0x300 =? 0x310) with false. change (0x300 =? 0x300) with true.
    cbn [icr_high icr_low sent busy]. rewrite Forall_forall in Hids. specialize (Hids c (list_elem_of_lookup_2 _ _ _ Hl)).
    rewrite (wait_ipi_ends delay) by (done || cbn; lia). eexists. split_and!; [done| |done]. cbn [sent icr_high icr_low].
    rewrite shiftl_byte by done. f_equal. f_equal. f_equal. change 0xff with (Z.ones 8). rewrite Z.land_ones by lia.
    by apply Z.mod_small.
  - by destruct (core <? _).
Qed.

(** ** The handshake *)

(** The registers of a core, as far as its start sets them. *)
Record ApRegs : Type := mkRegs {
  ap_cr0 : Z; ap_cr3 : Z; ap_cr4 : Z; ap_gs : Z; ap_fs : Z; ap_sp : Z; ap_tr : Z; ap_idtr : Z;
}.

(** Waiting in the boot loader; at an instruction of [ap_reset_handler], counted by what it
    sets next; in [ap_reset]. *)
Inductive ap_pc : Type := AOff | AAt (k : nat) | AUp.

(** [initialize_threads] for core [i]: before the context is filled in; in
    [init_cpu_generic] before its [k]-th store, the last being the interrupt; waiting. *)
Inductive start_pc : Type := SContext (i : nat) | SStore (i k : nat) | SWait (i : nat) | SDone.

Record Start : Type := mkStart {
  current_cr0 : Z; current_cr3 : Z; current_cr4 : Z; current_gs : Z; finished_with_current : bool;
  contexts : list (Z * Z);        (** [tls_ptr] and [stack_ptr] of each core *)
  aps : list (ap_pc * ApRegs);
  ipi : option nat;               (** a core that has been sent vector 0x81 *)
  spc : start_pc;
}.

Section Handshake.
(** The registers of the starting core, the per-core data, the descriptor table, and the
    thread-local block and stack made for each core. *)
Context (cr0 cr3 cr4 pcds idtr : Z) (tls_of sp_of : nat -> Z).

Definition pcd_of (i : nat) : Z := pcds + 128 * Z.of_nat i.

(** The core whose data GS points at. *)
Definition core_at (g : Z) : nat := Z.to_nat ((g - pcds) / 128).

Definition set_vars (a b c d : Z) (f : bool) (s : Start) : Start :=
  mkStart a b c d f (contexts s) (aps s) (ipi s) (spc s).
Definition set_spc (pc : start_pc) (s : Start) : Start :=
  mkStart (current_cr0 s) (current_cr3 s) (current_cr4 s) (current_gs s) (finished_with_current s) (contexts s) (aps s)
    (ipi s) pc.
Definition set_ipi (x : option nat) (s : Start) : Start :=
  mkStart (current_cr0 s) (current_cr3 s) (current_cr4 s) (current_gs s) (finished_with_current s) (contexts s) (aps s)
    x (spc s).
Definition set_aps (l : list (ap_pc * ApRegs)) (s : Start) : Start :=
  mkStart (current_cr0 s) (current_cr3 s) (current_cr4 s) (current_gs s) (finished_with_current s) (contexts s) l
    (ipi s) (spc s).
Definition set_contexts (l : list (Z * Z)) (s : Start) : Start :=
  mkStart (current_cr0 s) (current_cr3 s) (current_cr4 s) (current_gs s) (finished_with_current s) l (aps s)
    (ipi s) (spc s).

(** The stores of [init_cpu_generic] for core [i] in their order. *)
Definition init_store (i k : nat) (s : Start) : Start :=
  let f := finished_with_current s in
  match k with
  | 0%nat => set_vars cr0 (current_cr3 s) (current_cr4 s) (current_gs s) f s
  | 1%nat => set_vars (current_cr0 s) cr3 (current_cr4 s) (current_gs s) f s
  | 2%nat => set_vars (current_cr0 s) (current_cr3 s) cr4 (current_gs s) f s
  | 3%nat => set_vars (current_cr0 s) (current_cr3 s) (current_cr4 s) (pcd_of i) f s
  | 4%nat => set_vars (current_cr0 s) (current_cr3 s) (current_cr4 s) (current_gs s) false s
  | _ => set_ipi (Some i) s
  end.

(** The next step of [initialize_threads] up to the end of its first loop. *)
Definition starter_step (s : Start) : option Start :=
  match spc s with
  | SContext i =>
      if Nat.ltb i (length (aps s)) then
        Some (set_spc (SStore i 0) (set_contexts (<[i := (tls_of i, sp_of i)]> (contexts s)) s))
      else Some (set_spc SDone s)
  | SStore i k => Some (set_spc (if Nat.ltb k 5 then SStore i (S k) else SWait i) (init_store i k s))
  | SWait i => Some (set_spc (if finished_with_current s then SContext (S i) else SWait i) s)
  | SDone => None
  end.

(** The interrupt sends the core to [ap_reset_handler]. *)
Definition take_ipi (i : nat) (s : Start) : option Start :=
  match ipi s, aps s !! i with
  | Some j, Some (AOff, r) => if Nat.eqb i j then Some (set_ipi None (set_aps (<[i := (AAt 0, r)]> (aps s)) s)) else None
  | _, _ => None
  end.

(** The instructions of [ap_reset_handler]: CR0, CR4, GS, then through GS the thread-local
    block and the stack, the task register ([install_gdt]), the descriptor table, CR3. *)
Definition ap_set (k : nat) (s : Start) (r : ApRegs) : ApRegs :=
  let ctx := default (0, 0) (contexts s !! core_at (ap_gs r)) in
  match k with
  | 0%nat => mkRegs (current_cr0 s) (ap_cr3 r) (ap_cr4 r) (ap_gs r) (ap_fs r) (ap_sp r) (ap_tr r) (ap_idtr r)
  | 1%nat => mkRegs (ap_cr0 r) (ap_cr3 r) (current_cr4 s) (ap_gs r) (ap_fs r) (ap_sp r) (ap_tr r) (ap_idtr r)
  | 2%nat => mkRegs (ap_cr0 r) (ap_cr3 r) (ap_cr4 r) (current_gs s) (ap_fs r) (ap_sp r) (ap_tr r) (ap_idtr r)
  | 3%nat => mkRegs (ap_cr0 r) (ap_cr3 r) (ap_cr4 r) (ap_gs r) (fst ctx) (ap_sp r) (ap_tr r) (ap_idtr r)
  | 4%nat => mkRegs (ap_cr0 r) (ap_cr3 r) (ap_cr4 r) (ap_gs r) (ap_fs r) (snd ctx) (ap_tr r) (ap_idtr r)
  | 5%nat => mkRegs (ap_cr0 r) (ap_cr3 r) (ap_cr4 r) (ap_gs r) (ap_fs r) (ap_sp r)
               (TSS_SEG (Z.of_nat (core_at (ap_gs r)))) (ap_idtr r)
  | 6%nat => mkRegs (ap_cr0 r) (ap_cr3 r) (ap_cr4 r) (ap_gs r) (ap_fs r) (ap_sp r) (ap_tr r) idtr
  | 7%nat => mkRegs (ap_cr0 r) (current_cr3 s) (ap_cr4 r) (ap_gs r) (ap_fs r) (ap_sp r) (ap_tr r) (ap_idtr r)
  | _ => r
  end.

(** Then it signals that it is finished with the variables, acknowledges the interrupt and
    goes on in [ap_reset]. *)
Definition ap_step (i : nat) (s : Start) : option Start :=
  match aps s !! i with
  | Some (AAt k, r) =>
      let l := <[i := (if Nat.ltb k 9 then AAt (S k) else AUp, ap_set k s r)]> (aps s) in
      if Nat.eqb k 8 then
        Some (set_aps l (set_vars (current_cr0 s) (current_cr3 s) (current_cr4 s) (current_gs s) true s))
      else Some (set_aps l s)
  | _ => None
  end.

Inductive start_action : Type := Starter | TakeIpi (i : nat) | Ap (i : nat).

Definition start_step (a : start_action) (s : Start) : option Start :=
  match a with Starter => starter_step s | TakeIpi i => take_ipi i s | Ap i => ap_step i s end.

Inductive start_run (s0 : Start) : Start -> Prop :=
| start_refl : start_run s0 s0
| start_next a s s' : start_run s0 s -> start_step a s = Some s' -> start_run s0 s'.

(** All cores but the first wait in the boot loader. *)
Definition start_init (s : Start) : Prop :=
  spc s = SContext 1 /\ ipi s = None /\ length (contexts s) = length (aps s) /\
  forall i x, aps s !! i = Some x -> fst x = match i with O => AUp | _ => AOff end.

(** *** The invariant *)

(** What core [i] has right once it is before instruction [k]. *)
Definition right_at (k i : nat) (r : ApRegs) : Prop :=
  ((0 < k)%nat -> ap_cr0 r = cr0) /\ ((1 < k)%nat -> ap_cr4 r = cr4) /\ ((2 < k)%nat -> ap_gs r = pcd_of i) /\
  ((3 < k)%nat -> ap_fs r = tls_of i) /\ ((4 < k)%nat -> ap_sp r = sp_of i) /\
  ((5 < k)%nat -> ap_tr r = TSS_SEG (Z.of_nat i)) /\ ((6 < k)%nat -> ap_idtr r = idtr) /\
  ((7 < k)%nat -> ap_cr3 r = cr3).

(** What is in the variables before store [k]. *)
Definition stored (k i : nat) (s : Start) : Prop :=
  ((0 < k)%nat -> current_cr0 s = cr0) /\ ((1 < k)%nat -> current_cr3 s = cr3) /\ ((2 < k)%nat -> current_cr4 s = cr4) /\
  ((3 < k)%nat -> current_gs s = pcd_of i) /\ ((4 < k)%nat -> finished_with_current s = false).

(** A core that is past the signal. *)
Definition started (i : nat) (x : ap_pc * ApRegs) : Prop := (fst x = AAt 9 \/ fst x = AUp) /\ right_at 8 i (snd x).

(** The core whose turn it is. *)
Definition waited (i : nat) (s : Start) (x : ap_pc * ApRegs) : Prop :=
  (fst x = AOff /\ ipi s = Some i /\ finished_with_current s = false) \/
  (exists k, fst x = AAt k /\ (k <= 8)%nat /\ right_at k i (snd x) /\ ipi s = None /\ finished_with_current s = false) \/
  (started i x /\ ipi s = None /\ finished_with_current s = true).

Definition core_ok (s : Start) (j : nat) (x : ap_pc * ApRegs) : Prop :=
  match spc s with
  | SContext i | SStore i _ => ((j < i)%nat -> started j x) /\ ((i <= j)%nat -> fst x = AOff)
  | SWait i => ((j < i)%nat -> started j x) /\ ((i < j)%nat -> fst x = AOff) /\ (j = i -> waited i s x)
  | SDone => started j x
  end.

Record start_inv (s : Start) : Prop := {
  st_len : length (contexts s) = length (aps s);
  st_first : forall x, aps s !! 0%nat = Some x -> fst x = AUp;
  st_cores : forall j x, (1 <= j)%nat -> aps s !! j = Some x -> core_ok s j x;
  st_pc : match spc s with
          | SContext i => (1 <= i)%nat /\ ipi s = None
          | SStore i k => (1 <= i < length (aps s))%nat /\ (k <= 5)%nat /\ ipi s = None /\ stored k i s /\
                          contexts s !! i = Some (tls_of i, sp_of i)
          | SWait i => (1 <= i < length (aps s))%nat /\ stored 4 i s /\ contexts s !! i = Some (tls_of i, sp_of i)
          | SDone => ipi s = None
          end;
}.

Lemma core_at_pcd i : core_at (pcd_of i) = i.
Proof.
  unfold core_at, pcd_of. replace (pcds + 128 * Z.of_nat i - pcds) with (Z.of_nat i * 128) by lia.
  rewrite Z.div_mul by lia. apply Nat2Z.id.
Qed.

Lemma start_init_inv s : start_init s -> start_inv s.
Proof.
  intros (Hpc & Hipi & Hlen & Hap). split; [done| | |by rewrite Hpc; split; [lia|]].
  - intros x Hx. by rewrite (Hap _ _ Hx).
  - intros j x Hj Hx. unfold core_ok. rewrite Hpc. split; [lia|]. intros _. rewrite (Hap _ _ Hx). by destruct j; [lia|].
Qed.

Lemma stored_step i k s :
  (k <= 5)%nat -> stored k i s ->
  (if Nat.ltb k 5 then stored (S k) i (init_store i k s) else stored 4 i (init_store i k s)) /\
  ((k < 5)%nat -> ipi (init_store i k s) = ipi s) /\ (k = 5%nat -> ipi (init_store i k s) = Some i) /\
  (k = 5%nat -> finished_with_current (init_store i k s) = false) /\
  contexts (init_store i k s) = contexts s /\ aps (init_store i k s) = aps s.
Proof.
  intros Hk (H1 & H2 & H3 & H4 & H5). unfold stored.
  destruct k as [|[|[|[|[|[|k]]]]]]; [..|lia]; cbn; (split_and!; try done; intros; first [done|lia|auto with lia]).
Qed.

Lemma starter_inv s s' : starter_step s = Some s' -> start_inv s -> start_inv s'.
Proof.
  intros Hs [Hlen Hf Hc Hp]. unfold starter_step in Hs. destruct (spc s) as [i|i k|i|] eqn:Hpc; [..|done].
  - destruct (Nat.ltb_spec i (length (aps s))) as [Hi|Hi]; injection Hs as <-.
    + split; cbn; [by rewrite length_insert|done| |].
      * intros j x Hj Hx. specialize (Hc j x Hj Hx). unfold core_ok in *. by rewrite Hpc in Hc.
      * destruct Hp as [Hp1 Hp2]. split_and!; [lia|lia|lia|done| |by apply list_lookup_insert_eq; lia].
        unfold stored. split_and!; lia.
    + split; cbn; [done|done| |by destruct Hp]. intros j x Hj Hx. specialize (Hc j x Hj Hx).
      pose proof (lookup_lt_Some _ _ _ Hx). unfold core_ok in *. rewrite Hpc in Hc. cbn. apply Hc. lia.
  - destruct Hp as (Hi & Hk & Hipi & Hst & Hctx). injection Hs as <-.
    destruct (stored_step i k s Hk Hst) as (S1 & S2 & S3 & S4 & S5 & S6).
    set (s1 := init_store i k s) in *. clearbody s1. split; cbn -[Nat.ltb]; rewrite ?S5, ?S6; [done|done| |].
    + intros j x Hj Hx. specialize (Hc j x Hj Hx). unfold core_ok in *. rewrite Hpc in Hc. cbn -[Nat.ltb].
      destruct (Nat.ltb_spec k 5) as [Hlt|Hge]; [done|]. destruct Hc as [Hc1 Hc2].
      split_and!; [done|intros; apply Hc2; lia|]. intros ->. left. cbn. split_and!; [apply Hc2; lia|apply S3; lia|apply S4; lia].
    + destruct (Nat.ltb_spec k 5) as [Hlt|Hge]; split_and!; try done; try lia. by rewrite S2.
  - injection Hs as <-. destruct Hp as (Hi & Hst & Hctx). destruct (finished_with_current s) eqn:Hfin.
    + destruct (lookup_lt_is_Some_2 (aps s) i ltac:(lia)) as [x0 Hx0].
      assert (started i x0 /\ ipi s = None) as [Hx1 Hx2].
      { specialize (Hc i x0 ltac:(lia) Hx0). unfold core_ok in Hc. rewrite Hpc in Hc. destruct Hc as (_ & _ & Hw).
        destruct (Hw eq_refl) as [(_ & _ & ?)|[(k & _ & _ & _ & _ & ?)|(? & ? & _)]]; [congruence|congruence|done]. }
      split; cbn; [done|done| |split; [lia|done]]. intros j x Hj Hx. specialize (Hc j x Hj Hx).
      unfold core_ok in *. rewrite Hpc in Hc. destruct Hc as (C1 & C2 & C3). cbn. split; [|intros; apply C2; lia].
      intros Hlt. destruct (decide (j = i)) as [->|]; [by simplify_eq|apply C1; lia].
    + assert (set_spc (SWait i) s = s) as -> by (destruct s; cbn in *; by subst).
      split; try done. by rewrite Hpc.
Qed.

Lemma take_ipi_inv i s s' : take_ipi i s = Some s' -> start_inv s -> start_inv s'.
Proof.
  intros Hs [Hlen Hf Hc Hp]. unfold take_ipi in Hs. destruct (ipi s) as [j|] eqn:Hipi; [|done].
  destruct (aps s !! i) as [[[] r]|] eqn:Ha; try done. destruct (Nat.eqb_spec i j) as [<-|]; [|done]. injection Hs as <-.
  destruct (spc s) as [c|c k|c|] eqn:Hpc; try by destruct_and?; congruence.
  destruct Hp as (Hi & Hst & Hctx). pose proof (lookup_lt_Some _ _ _ Ha) as Hlt.
  assert (i = c) as ->.
  { destruct (lookup_lt_is_Some_2 (aps s) c ltac:(lia)) as [x0 Hx0]. specialize (Hc c x0 ltac:(lia) Hx0).
    unfold core_ok in Hc. rewrite Hpc in Hc. destruct Hc as (_ & _ & Hw).
    destruct (Hw eq_refl) as [(_ & E & _)|[(k & _ & _ & _ & E & _)|(_ & E & _)]]; congruence. }
  split; cbn; [by rewrite length_insert| | |by rewrite Hpc, length_insert].
  - rewrite list_lookup_insert_ne by lia. done.
  - intros j x Hj Hx. destruct (decide (c = j)) as [<-|Hne].
    + rewrite list_lookup_insert_eq in Hx by done. injection Hx as <-. unfold core_ok. cbn. rewrite Hpc.
      split_and!; [lia|lia|]. intros _. right; left. exists 0%nat. specialize (Hc c _ Hj Ha). unfold core_ok in Hc.
      rewrite Hpc in Hc. destruct Hc as (_ & _ & Hw).
      destruct (Hw eq_refl) as [(_ & _ & E)|[(k & E & _)|([[E|E] _] & _)]]; [|done..].
      split_and!; try done; [lia|]. unfold right_at. split_and!; lia.
    + rewrite list_lookup_insert_ne in Hx by done. specialize (Hc j x Hj Hx). unfold core_ok in *. rewrite Hpc in Hc.
      cbn. rewrite Hpc. split_and!; [apply Hc..|congruence].
Qed.

Lemma right_step k i s r :
  (k <= 8)%nat -> stored 4 i s -> contexts s !! i = Some (tls_of i, sp_of i) -> right_at k i r -> right_at (S k) i (ap_set k s r).
Proof.
  intros Hk (V1 & V2 & V3 & V4 & _) Hctx (R1 & R2 & R3 & R4 & R5 & R6 & R7 & R8). unfold right_at.
  destruct (decide (k <= 2)%nat) as [Hle|Hgt].
  - destruct k as [|[|[|k]]]; [..|lia]; cbn; split_and!; intros; try lia; auto with lia.
  - assert (ap_gs r = pcd_of i) as Hgs by (apply R3; lia).
    assert (default (0, 0) (contexts s !! core_at (ap_gs r)) = (tls_of i, sp_of i)) as Hd by (by rewrite Hgs, core_at_pcd, Hctx).
    destruct k as [|[|[|[|[|[|[|[|[|k]]]]]]]]]; try lia; unfold ap_set; rewrite ?Hd; cbn; split_and!; intros; try lia;
      auto with lia. by rewrite Hgs, core_at_pcd.
Qed.

Lemma right_le k k' i r : (k' <= k)%nat -> right_at k i r -> right_at k' i r.
Proof. unfold right_at. intros Hle Hr. destruct_and! Hr. split_and!; auto with lia. Qed.

(** A core that moves is either past the signal or the one that is waited for. *)
Lemma moving_core i k r s :
  start_inv s -> aps s !! i = Some (AAt k, r) ->
  (1 <= i)%nat /\
  ((k = 9%nat /\ started i (AAt k, r)) \/
   ((k <= 8)%nat /\ spc s = SWait i /\ right_at k i r /\ ipi s = None /\ finished_with_current s = false)).
Proof.
  intros [Hlen Hf Hc Hp] Ha. destruct i as [|i']; [by apply Hf in Ha|]. set (i := S i') in *. split; [lia|].
  specialize (Hc i _ ltac:(lia) Ha). unfold core_ok in Hc.
  assert (started i (AAt k, r) -> k = 9%nat) as H9 by (intros [[[= ->]|?] _]; done).
  destruct (spc s) as [c|c m|c|] eqn:Hpc.
  - destruct Hc as [C1 C2]. destruct (decide (i < c)%nat) as [Hlt|]; [left; auto|]. by specialize (C2 ltac:(lia)).
  - destruct Hc as [C1 C2]. destruct (decide (i < c)%nat) as [Hlt|]; [left; auto|]. by specialize (C2 ltac:(lia)).
  - destruct Hc as (C1 & C2 & C3). destruct (decide (i < c)%nat) as [Hlt|]; [left; auto|].
    destruct (decide (c < i)%nat) as [Hlt|]; [by specialize (C2 Hlt)|]. assert (i = c) as Ei by lia.
    destruct (C3 Ei) as [(? & _)|[(m & [= ->] & Hm & Hr & E1 & E2)|[E _]]]; [done| |left; rewrite Ei in *; auto].
    right. rewrite Ei. by split_and!.
  - left. auto.
Qed.

Lemma core_ok_other s s' j x :
  core_ok s j x -> spc s' = spc s -> (spc s = SWait j -> ipi s' = ipi s /\ finished_with_current s' = finished_with_current s) ->
  core_ok s' j x.
Proof.
  intros Hc Hpc Hv. unfold core_ok in *. rewrite Hpc. destruct (spc s) as [c|c m|c|]; try done.
  destruct Hc as (C1 & C2 & C3). split_and!; [done..|]. intros ->. destruct (Hv eq_refl) as [E1 E2].
  specialize (C3 eq_refl). unfold waited in *. by rewrite E1, E2.
Qed.

Lemma ap_inv i s s' : ap_step i s = Some s' -> start_inv s -> start_inv s'.
Proof.
  intros Hs Hinv. unfold ap_step in Hs. destruct (aps s !! i) as [[[|k|] r]|] eqn:Ha; try done.
  destruct (moving_core i k r s Hinv Ha) as [Hi Hk]. destruct Hinv as [Hlen Hf Hc Hp].
  pose proof (lookup_lt_Some _ _ _ Ha) as Hlt.
  assert (forall l v, s' = set_aps (<[i := l]> (aps s)) v ->
    contexts v = contexts s -> spc v = spc s -> ipi v = ipi s ->
    (spc s <> SWait i -> finished_with_current v = finished_with_current s) ->
    (forall c, spc s = SWait c -> stored 4 c v) -> (v = s \/ spc s = SWait i) ->
    core_ok s' i l -> start_inv s') as Hgen.
  { intros l v -> E1 E2 E3 E4 E5 E6 Hl. split; cbn.
    - by rewrite length_insert, E1.
    - rewrite list_lookup_insert_ne by lia. done.
    - intros j x Hj Hx. destruct (decide (i = j)) as [<-|Hne].
      + rewrite list_lookup_insert_eq in Hx by done. by injection Hx as <-.
      + rewrite list_lookup_insert_ne in Hx by done. eapply core_ok_other; [by apply Hc|done|].
        cbn. intros Hw. split; [done|]. apply E4. congruence.
    - rewrite E2, E1, E3, length_insert. destruct E6 as [->|E6]; [done|]. rewrite E6 in *. destruct Hp as (P1 & P2 & P3).
      split_and!; try done; [lia..|]. exact (E5 i eq_refl). }
  destruct Hk as [[-> [_ Hr]]|(Hk & Hpc & Hr & Hipi & Hfin)].
  - injection Hs as <-. eapply (Hgen (AUp, r) s); try done; [intros c E; rewrite E in Hp; apply Hp|by left|].
    specialize (Hc i _ Hi Ha). unfold core_ok in *. cbn.
    assert (forall x : ap_pc * ApRegs, started i x -> started i (AUp, r)) as Hup by (intros _ _; split; [by right|done]).
    destruct (spc s) as [c|c m|c|]; [| |destruct Hc as (C1 & C2 & C3)|by eapply Hup].
    + split; [intros H; eapply Hup; by apply Hc|intros H; by apply Hc in H].
    + split; [intros H; eapply Hup; by apply Hc|intros H; by apply Hc in H].
    + split_and!; [intros H; eapply Hup; by apply C1|intros H; by apply C2 in H|]. intros ->.
      destruct (C3 eq_refl) as [(? & _)|[(m & [= <-] & Hm & _)|(E & E' & E'')]]; [done|lia|].
      right; right. cbn. split; [by eapply Hup|done].
  - rewrite Hpc in Hp. destruct Hp as (P1 & P2 & P3). pose proof (right_step k i s r Hk P2 P3 Hr) as Hr'.
    destruct (Nat.eqb_spec k 8) as [->|Hne].
    + injection Hs as <-. eapply (Hgen _ (set_vars _ _ _ _ _ _)); try reflexivity; try done; [|by right|].
      * intros c E. rewrite Hpc in E. injection E as <-. unfold stored in *. cbn. destruct_and! P2. split_and!; auto with lia.
      * unfold core_ok. cbn. rewrite Hpc. split_and!; [lia|lia|]. intros _. right; right. split; [|done].
        split; [by left|]. by eapply right_le; [|exact Hr']; lia.
    + injection Hs as <-. eapply (Hgen _ s); try reflexivity; try done; [by intros c E; rewrite Hpc in E; injection E as <-|by left|].
      unfold core_ok. cbn -[Nat.ltb]. rewrite Hpc. split_and!; [lia|lia|]. intros _. right; left. exists (S k).
      cbn -[Nat.ltb ap_set]. destruct (Nat.ltb_spec k 9); [|lia]. split_and!; try done. lia.
Qed.

Lemma start_step_inv a s s' : start_step a s = Some s' -> start_inv s -> start_inv s'.
Proof. destruct a; cbn; [apply starter_inv|apply take_ipi_inv|apply ap_inv]. Qed.

Lemma start_run_inv s0 s : start_init s0 -> start_run s0 s -> start_inv s.
Proof. intros H0. induction 1; [by apply start_init_inv|]. by eapply start_step_inv. Qed.

(** *** It comes to an end *)

Lemma start_trans s0 s1 s2 : start_run s0 s1 -> start_run s1 s2 -> start_run s0 s2.
Proof. intros H1 H2. induction H2 as [|a s s' _ IH Hs]; [done|]. by eapply start_next. Qed.

Lemma start_then a s0 s1 s2 : start_step a s0 = Some s1 -> start_run s1 s2 -> start_run s0 s2.
Proof. intros Hs Hr. eapply start_trans; [|done]. by eapply start_next; [apply start_refl|]. Qed.

(** [s'] is reached, satisfies the invariant and has the same cores. *)
Definition reaches (s s' : Start) : Prop := start_run s s' /\ start_inv s' /\ length (aps s') = length (aps s).

Lemma reaches_refl s : start_inv s -> reaches s s.
Proof. intros Hi. split_and!; [apply start_refl|done|done]. Qed.

Lemma reaches_trans s1 s2 s3 : reaches s1 s2 -> reaches s2 s3 -> reaches s1 s3.
Proof. intros (H1 & _ & H2) (H3 & H4 & H5). split_and!; [by eapply start_trans|done|lia]. Qed.

Lemma step_len a s s' : start_step a s = Some s' -> length (aps s') = length (aps s).
Proof.
  destruct a; cbn; unfold starter_step, take_ipi, ap_step; intros Hs.
  - destruct (spc s) as [i|i k|i|]; [destruct (Nat.ltb i _)| | |]; simplify_eq; try done.
    by destruct k as [|[|[|[|[|k]]]]].
  - destruct (ipi s) as [j|]; [|done]. destruct (aps s !! i) as [[[] r]|]; try done.
    destruct (Nat.eqb i j); [|done]. injection Hs as <-. cbn. by rewrite length_insert.
  - destruct (aps s !! i) as [[[|k|] r]|]; try done.
    destruct (Nat.eqb k 8); injection Hs as <-; cbn -[Nat.ltb]; by rewrite length_insert.
Qed.

Lemma reaches_step a s s' : start_inv s -> start_step a s = Some s' -> reaches s s'.
Proof.
  intros Hi Hs. split_and!; [by eapply start_next; [apply start_refl|]|by eapply start_step_inv|by eapply step_len].
Qed.

Lemma ap_finishes i n : forall k r s, start_inv s -> spc s = SWait i -> aps s !! i = Some (AAt k, r) -> (k + n = 8)%nat ->
  exists s', reaches s s' /\ spc s' = SWait i /\ finished_with_current s' = true.
Proof.
  induction n as [|n IH]; intros k r s Hi Hpc Ha Hk.
  - assert (k = 8%nat) as -> by lia.
    destruct (ap_step i s) as [s1|] eqn:Hs; [|unfold ap_step in Hs; by rewrite Ha in Hs].
    exists s1. split; [by apply (reaches_step (Ap i))|]. unfold ap_step in Hs. rewrite Ha in Hs. by injection Hs as <-.
  - destruct (ap_step i s) as [s1|] eqn:Hs; [|unfold ap_step in Hs; rewrite Ha in Hs; by destruct (Nat.eqb k 8)].
    pose proof (reaches_step (Ap i) s s1 Hi Hs) as Hr. pose proof (lookup_lt_Some _ _ _ Ha) as Hlt.
    unfold ap_step in Hs. rewrite Ha in Hs. destruct (Nat.eqb_spec k 8); [lia|]. destruct (Nat.ltb_spec k 9); [|lia].
    injection Hs as <-. destruct (IH (S k) (ap_set k s r) (set_aps (<[i := (AAt (S k), ap_set k s r)]> (aps s)) s))
      as (s' & Hr' & H1 & H2); [apply Hr|done|cbn; by apply list_lookup_insert_eq|lia|].
    exists s'. split; [by eapply reaches_trans|done].
Qed.

Lemma wait_finishes i s : start_inv s -> spc s = SWait i -> exists s', reaches s s' /\ spc s' = SContext (S i).
Proof.
  intros Hi Hpc.
  assert (forall s, start_inv s -> spc s = SWait i -> finished_with_current s = true ->
    exists s', reaches s s' /\ spc s' = SContext (S i)) as Hlast.
  { intros s1 Hi1 Hp1 Hf1. exists (set_spc (SContext (S i)) s1). split; [|done]. apply (reaches_step Starter); [done|].
    cbn. unfold starter_step. by rewrite Hp1, Hf1. }
  pose proof (st_pc s Hi) as Hp. rewrite Hpc in Hp. destruct Hp as (Hb & _).
  destruct (lookup_lt_is_Some_2 (aps s) i ltac:(lia)) as [[pc r] Ha].
  assert (forall k r s, start_inv s -> spc s = SWait i -> aps s !! i = Some (AAt k, r) -> (k <= 8)%nat ->
    exists s', reaches s s' /\ spc s' = SContext (S i)) as Hat.
  { intros k' r' s1 Hi1 Hp1 Ha1 Hk. destruct (ap_finishes i (8 - k') k' r' s1 Hi1 Hp1 Ha1 ltac:(lia)) as (s2 & Hr2 & Hp2 & Hf2).
    destruct (Hlast s2) as (s3 & Hr3 & Hp3); [apply Hr2|done|done|]. exists s3. split; [by eapply reaches_trans|done]. }
  pose proof (st_cores s Hi i _ ltac:(lia) Ha) as Hc. unfold core_ok in Hc. rewrite Hpc in Hc. destruct Hc as (_ & _ & Hw).
  destruct (Hw eq_refl) as [(E1 & E2 & E3)|[(k & E1 & Hk & _)|(_ & _ & E)]]; cbn in *; subst.
  - set (s1 := set_ipi None (set_aps (<[i := (AAt 0, r)]> (aps s)) s)).
    assert (start_step (TakeIpi i) s = Some s1) as Hs by (cbn; unfold take_ipi; by rewrite E2, Ha, Nat.eqb_refl).
    pose proof (reaches_step _ _ _ Hi Hs) as Hr. pose proof (lookup_lt_Some _ _ _ Ha) as Hlt.
    destruct (Hat 0%nat r s1) as (s2 & Hr2 & Hp2); [apply Hr|done|cbn; by apply list_lookup_insert_eq|lia|].
    exists s2. split; [by eapply reaches_trans|done].
  - by eapply Hat.
  - by apply Hlast.
Qed.

Lemma store_finishes i n : forall k s, start_inv s -> spc s = SStore i k -> (k + n = 5)%nat ->
  exists s', reaches s s' /\ spc s' = SContext (S i).
Proof.
  induction n as [|n IH]; intros k s Hi Hpc Hk; (destruct (starter_step s) as [s1|] eqn:Hs;
    [|unfold starter_step in Hs; by rewrite Hpc in Hs]);
    pose proof (reaches_step Starter s s1 Hi Hs) as Hr; unfold starter_step in Hs; rewrite Hpc in Hs;
    injection Hs as <-; destruct (Nat.ltb_spec k 5); try lia.
  - destruct (wait_finishes i (set_spc (SWait i) (init_store i k s))) as (s' & Hr' & Hp'); [apply Hr|done|].
    exists s'. split; [by eapply reaches_trans|done].
  - destruct (IH (S k) (set_spc (SStore i (S k)) (init_store i k s))) as (s' & Hr' & Hp'); [apply Hr|done|lia|].
    exists s'. split; [by eapply reaches_trans|done].
Qed.

Lemma context_finishes n : forall i s, start_inv s -> spc s = SContext i -> (length (aps s) - i < n)%nat ->
  exists s', reaches s s' /\ spc s' = SDone.
Proof.
  induction n as [|n IH]; intros i s Hi Hpc Hn; [lia|]. destruct (starter_step s) as [s1|] eqn:Hs;
    [|unfold starter_step in Hs; rewrite Hpc in Hs; by destruct (Nat.ltb _ _)].
  pose proof (reaches_step Starter s s1 Hi Hs) as Hr. unfold starter_step in Hs. rewrite Hpc in Hs.
  destruct (Nat.ltb_spec i (length (aps s))) as [Hlt|Hge]; injection Hs as <-; [|by eexists].
  destruct (store_finishes i 5 0 _ (proj1 (proj2 Hr)) eq_refl ltac:(lia)) as (s2 & Hr2 & Hp2).
  destruct (IH (S i) s2) as (s' & Hr' & Hp'); [apply Hr2|done|rewrite (proj2 (proj2 Hr2)), (proj2 (proj2 Hr)); lia|].
  exists s'. split; [|done]. eapply reaches_trans; [exact Hr|]. by eapply reaches_trans.
Qed.

(** C24: However the starting core and the cores it starts interleave, a core that is up has
    the control registers of the starting core and its own per-core data, thread-local block,
    stack and task segment; the starting core goes on to the next only when this one no
    longer reads the variables they share; and the start of all cores can always finish. *)
Theorem cores_start_right s0 s :
  start_init s0 -> start_run s0 s ->
  (forall i r, (1 <= i)%nat -> aps s !! i = Some (AUp, r) ->
     r = mkRegs cr0 cr3 cr4 (pcd_of i) (tls_of i) (sp_of i) (TSS_SEG (Z.of_nat i)) idtr) /\
  (forall i c k n r, spc s = SStore c n -> aps s !! i = Some (AAt k, r) -> k = 9%nat) /\
  (spc s = SDone -> forall i x, (1 <= i)%nat -> aps s !! i = Some x -> started i x) /\
  exists s', start_run s s' /\ spc s' = SDone.
Proof.
  intros H0 Hrun. pose proof (start_run_inv s0 s H0 Hrun) as Hi. split_and!.
  - intros i r Hge Ha. assert (started i (AUp, r)) as [_ Hr].
    { pose proof (st_cores s Hi i _ Hge Ha) as Hc. unfold core_ok in Hc.
      destruct (spc s) as [c|c n|c|]; [destruct Hc as [C1 C2]|destruct Hc as [C1 C2]|destruct Hc as (C1 & C2 & C3)|done].
      - destruct (decide (i < c)%nat); [auto|]. by specialize (C2 ltac:(lia)).
      - destruct (decide (i < c)%nat); [auto|]. by specialize (C2 ltac:(lia)).
      - destruct (decide (i < c)%nat); [auto|]. destruct (decide (c < i)%nat) as [H|]; [by specialize (C2 H)|].
        assert (i = c) as -> by lia. by destruct (C3 eq_refl) as [(? & _)|[(k & ? & _)|[? _]]]. }
    destruct r, Hr as (R1 & R2 & R3 & R4 & R5 & R6 & R7 & R8). cbn in *.
    rewrite R1, R2, R3, R4, R5, R6, R7, R8 by lia. done.
  - intros i c k n r Hpc Ha. destruct (moving_core i k r s Hi Ha) as [_ [[-> _]|(_ & E & _)]]; [done|congruence].
  - intros Hpc i x Hge Ha. pose proof (st_cores s Hi i x Hge Ha) as Hc. unfold core_ok in Hc. by rewrite Hpc in Hc.
  - destruct (spc s) as [i|i k|i|] eqn:Hpc.
    + destruct (context_finishes (S (length (aps s) - i)) i s Hi Hpc ltac:(lia)) as (s' & [Hr _] & Hd). by exists s'.
    + pose proof (st_pc s Hi) as Hp. rewrite Hpc in Hp. destruct Hp as (_ & Hk & _).
      destruct (store_finishes i (5 - k) k s Hi Hpc ltac:(lia)) as (s1 & (Hr1 & Hi1 & _) & Hp1).
      destruct (context_finishes (S (length (aps s1) - S i)) (S i) s1 Hi1 Hp1 ltac:(lia)) as (s' & [Hr _] & Hd).
      exists s'. split; [by eapply start_trans|done].
    + destruct (wait_finishes i s Hi Hpc) as (s1 & (Hr1 & Hi1 & _) & Hp1).
      destruct (context_finishes (S (length (aps s1) - S i)) (S i) s1 Hi1 Hp1 ltac:(lia)) as (s' & [Hr _] & Hd).
      exists s'. split; [by eapply start_trans|done].
    + exists s. split; [apply start_refl|done].
Qed.

End Handshake.

(** ** The entry point *)

(** 32-bit and 16-bit operations on a 64-bit register: the first clear the upper half, the
    second leave the rest as it is. *)
Definition or_eax (rax v : Z) : Z := Z.lor (u32 rax) v.
Definition or_ax (rax v : Z) : Z := Z.lor rax v.
Definition and_ax (rax v : Z) : Z := Z.lor (Z.shiftl (Z.shiftr rax 16) 16) (Z.land (u16 rax) v).

(** What [start] does to CR0, CR4 and XCR0. *)
Definition start_cr0 (cr0 : Z) : Z :=
  let cr0 := or_eax cr0 (Z.shiftl 1 16) in
  or_ax (and_ax cr0 0xFFFB) 0x2.

Definition start_cr4 (cr4 : Z) : Z :=
  let cr4 := or_eax cr4 (Z.shiftl 1 16) in
  or_eax cr4 0x40600.

Definition start_xcr0 (xcr0 : Z) : Z := Z.lor (Z.shiftl (Z.shiftr xcr0 32) 32) (or_eax (u32 xcr0) 3).

(** [rep stosq] with 0 in RAX: [n] words from [a] on, in bytes. *)
Fixpoint rep_stosq (n : nat) (a : Z) (m : Z -> Z) : Z -> Z :=
  match n with O => m | S n' => rep_stosq n' (a + 8) (fun b => if (a <=? b) && (b <? a + 8) then 0 else m b) end.

Definition start_clear (first last : Z) (m : Z -> Z) : Z -> Z :=
  rep_stosq (Z.to_nat (Z.shiftr (u64 (last - first)) 3)) first m.

Lemma or_eax_bit rax v i : 0 <= i < 32 -> Z.testbit (or_eax rax v) i = Z.testbit rax i || Z.testbit v i.
Proof. intros Hi. unfold or_eax, u32. rewrite Z.lor_spec, Z.mod_pow2_bits_low by lia. done. Qed.

Lemma and_ax_bit rax v i : 0 <= i < 32 ->
  Z.testbit (and_ax rax v) i = Z.testbit rax i && ((16 <=? i) || Z.testbit v i).
Proof.
  intros Hi. unfold and_ax, u16. rewrite Z.lor_spec, Z.land_spec. destruct (Z.leb_spec 16 i) as [H|H].
  - rewrite Z.shiftl_spec_high, Z.shiftr_spec, Z.mod_pow2_bits_high by lia. replace (i - 16 + 16) with i by lia.
    cbn. by rewrite orb_false_r, andb_true_r.
  - rewrite Z.shiftl_spec_low, Z.mod_pow2_bits_low by lia. done.
Qed.

(** [start] turns on write protection, the monitoring of the coprocessor, the instructions
    for FS and GS, SSE and XSAVE, turns off emulation, and leaves the other low bits. *)
Lemma start_control_bits cr0 cr4 xcr0 i : 0 <= i < 32 ->
  Z.testbit (start_cr0 cr0) i = ((i =? 16) || (i =? 1) || (Z.testbit cr0 i && negb (i =? 2))) /\
  Z.testbit (start_cr4 cr4) i = ((i =? 16) || (i =? 9) || (i =? 10) || (i =? 18) || Z.testbit cr4 i) /\
  Z.testbit (start_xcr0 xcr0) i = ((i =? 0) || (i =? 1) || Z.testbit xcr0 i).
Proof.
  intros Hi.
  assert (forall b : bool, forall P : Z -> Prop, Forall P (seqZ 0 32) -> P i) as Hall.
  { intros _ P HP. rewrite Forall_forall in HP. apply HP, elem_of_seqZ. lia. }
  assert (Z.testbit (start_xcr0 xcr0) i = Z.testbit (or_eax xcr0 3) i) as ->.
  { unfold start_xcr0. rewrite Z.lor_spec, Z.shiftl_spec_low by lia. cbn [orb]. rewrite !or_eax_bit by lia.
    unfold u32. by rewrite Z.mod_pow2_bits_low by lia. }
  unfold start_cr0, start_cr4, or_ax. cbv zeta. rewrite Z.lor_spec, and_ax_bit, !or_eax_bit by lia.
  generalize (Z.testbit cr0 i) (Z.testbit cr4 i) (Z.testbit xcr0 i). intros b0 b4 bx.
  apply (Hall true (fun i => ((b0 || Z.testbit (1 ≪ 16) i) && ((16 <=? i) || Z.testbit 0xFFFB i) || Z.testbit 2 i =
      (i =? 16) || (i =? 1) || b0 && negb (i =? 2)) /\
    (b4 || Z.testbit (1 ≪ 16) i || Z.testbit 0x40600 i = (i =? 16) || (i =? 9) || (i =? 10) || (i =? 18) || b4) /\
    (bx || Z.testbit 3 i = (i =? 0) || (i =? 1) || bx))).
  cbn [seqZ seq Z.to_nat Pos.to_nat Pos.iter_op fmap list_fmap].
  repeat (constructor; [by destruct b0, b4, bx|]). constructor.
Qed.

Lemma rep_stosq_spec n : forall a m b,
  rep_stosq n a m b = if (a <=? b) && (b <? a + 8 * Z.of_nat n) then 0 else m b.
Proof.
  induction n as [|n IH]; intros a m b; cbn [rep_stosq].
  - destruct (Z.leb_spec a b), (Z.ltb_spec b (a + 8 * Z.of_nat 0)); cbn; done || lia.
  - rewrite IH. destruct (Z.leb_spec a b), (Z.leb_spec (a + 8) b), (Z.ltb_spec b (a + 8)),
      (Z.ltb_spec b (a + 8 + 8 * Z.of_nat n)), (Z.ltb_spec b (a + 8 * Z.of_nat (S n))); cbn; done || lia.
Qed.

(** The stack and the BSS are cleared, and nothing else is written. *)
Lemma start_clear_exact first last m b :
  0 <= first <= last -> last < 2 ^ 64 -> (8 | last - first) ->
  start_clear first last m b = if (first <=? b) && (b <? last) then 0 else m b.
Proof.
  intros Hf Hl [q Hq]. unfold start_clear. rewrite u64_small by (unfold is_u64; lia).
  rewrite rep_stosq_spec, Z.shiftr_div_pow2, Hq by lia. change (2 ^ 3) with 8. rewrite Z.div_mul by lia.
  rewrite Z2Nat.id by lia. by replace (first + 8 * q) with last by lia.
Qed.

(** ** Power-off *)

(** [out<T>(value, port)]. *)
Record port_write : Type := mkOut { port : Z; out_value : Z; out_bits : Z }.

(** The writes of [shutdown_generic] before it faults for good. *)
Definition shutdown_generic : list port_write := [mkOut 0x2000 0x604 16; mkOut 0x64 0xFE 8].

(** The power-off register of QEMU, port 0x604, is not among the ports: value and port of
    the first write are in each other's place, so only the reset of the second ends the
    machine. *)
Lemma shutdown_generic_ports : Forall (fun w => port w <> 0x604) shutdown_generic.
Proof. repeat constructor; discriminate. Qed.

(** ** Witnesses *)

Definition two_cores : CoreState := mkCores [mkCore 0 0 4; mkCore 1 0 9] 0xFEE00000.

Lemma trigger_ipi_generic_sends_witness :
  exists a', trigger_ipi_generic 8 3 two_cores 1 0x81 (mkApic 0 0 [] 0) = Done a' /\ sent a' = [(9, 0x81)].
Proof.
  destruct (trigger_ipi_generic_sends 8 3 two_cores 1 0x81 (mkApic 0 0 [] 0)) as (a' & H1 & H2 & _); [lia|lia| |lia|by exists a'].
  repeat constructor; cbn; lia.
Defined.

Definition off_regs : ApRegs := mkRegs 0 0 0 0 0 0 0 0.

Definition start_ex : Start :=
  mkStart 0 0 0 0 false [(0, 0); (0, 0); (0, 0)] [(AUp, off_regs); (AOff, off_regs); (AOff, off_regs)] None (SContext 1).

Lemma cores_start_right_witness :
  exists s', start_run 1 2 3 4096 5 (fun i => 100 + Z.of_nat i) (fun i => 200 + Z.of_nat i) start_ex s' /\ spc s' = SDone.
Proof.
  apply (cores_start_right 1 2 3 4096 5 (fun i => 100 + Z.of_nat i) (fun i => 200 + Z.of_nat i) start_ex start_ex);
    [|apply start_refl]. split_and!; [done..|]. intros i x Hx.
  pose proof (lookup_lt_Some _ _ _ Hx) as Hlt. cbn in Hlt.
  destruct i as [|[|[|i]]]; [injection Hx as <-; done..|lia].
Defined.
