(* ===== verification/Bootloader.v ===== *)
(** * The wrapper of the boot loader for QEMU (bootloader/pure64/emulate.asm)

    Under QEMU the Pure64 loader starts all cores. The wrapper hands its memory map to the
    kernel in the form of the Linux boot protocol, points the loader's interrupt table at itself for the
    cores that are started later, and gives each core its number. The loader is not part
    of the repository: what it leaves in memory is arbitrary here. *)

From S2P Require Import Prelude External Address Heap PageTable PageTableWf PageTableOps PageTableProps.
From S2P Require Import Ownership Isolation Cpu Transition Interrupts Idt.

Definition BootloaderLocalAPICAddress : Z := 0x5A28.
Definition BootloaderE820Entries : Z := 0x6000.
Definition KernelStart : Z := 0x600000.
Definition ZeroPage : Z := 0x101000.
Definition E820Entries : Z := ZeroPage + 0x1e8.
Definition E820Table : Z := ZeroPage + 0x2d0.

(** ** The code *)

(** [.read_e820_entry] and [.process_e820_entry]; [None] when the fuel does not reach
    the entry of size 0. *)
Fixpoint read_e820_entries (fuel : nat) (rsi rdi cl : Z) (m : Z -> Z) : option (Z * (Z -> Z)) :=
  match fuel with
  | O => None
  | S fuel' =>
      let rax := load m rsi 8 in
      let rbx := load m (rsi + 8) 8 in
      let edx := load m (rsi + 16) 4 in
      if rbx =? 0 then Some (cl, m)
      else
        let m := store rdi 8 rax m in
        let m := store (rdi + 8) 8 rbx m in
        let m := store (rdi + 16) 4 edx m in
        read_e820_entries fuel' (rsi + 32) (rdi + 20) (u8 (cl + 1)) m
  end.

(** From [stage0_start] to [.end_e820]. *)
Definition stage0_e820 (fuel : nat) (m : Z -> Z) : option (Z -> Z) :=
  '(cl, m) ← read_e820_entries fuel BootloaderE820Entries E820Table 0 m;
  Some (store E820Entries 1 cl m).

(** The gate of vector 0x81 in the loader's table at [idt]. *)
Definition stage0_gate (idt KernelAPStart : Z) (m : Z -> Z) : Z -> Z :=
  let rdi := idt + 0x81 * 16 in
  let rax := KernelAPStart in
  let m := store rdi 2 rax m in
  let m := store (rdi + 2) 2 8 m in
  let m := store (rdi + 4) 1 0 m in
  let m := store (rdi + 5) 1 0x8e m in
  let rax := Z.shiftr rax 16 in
  let m := store (rdi + 6) 2 rax m in
  let rax := Z.shiftr rax 16 in
  let m := store (rdi + 8) 4 rax m in
  store (rdi + 12) 4 0 m.

(** [.KernelAPStart]: RDI and RSI when the core jumps to [KernelStart]. *)
Definition KernelAPStart_regs (m : Z -> Z) : Z * Z :=
  (Z.shiftr (load m (load m BootloaderLocalAPICAddress 8 + 0x20) 4) 24, ZeroPage).

(** The first two instructions of [start] (main64.asm). *)
Inductive start_target : Type := StartBoot (zero_page : Z) | StartApResetHandler.
Definition start (regs : Z * Z) : start_target :=
  if fst regs =? 0 then StartBoot (snd regs) else StartApResetHandler.

(** ** The map *)

(** Entry [i] of the loader's map; of its 32 bytes the first 20 matter. *)
Definition loader_entry (m : Z -> Z) (i : Z) : E820Entry :=
  mkE820 (load m (BootloaderE820Entries + 32 * i) 8) (load m (BootloaderE820Entries + 32 * i + 8) 8)
    (load m (BootloaderE820Entries + 32 * i + 16) 4).

Definition bytes (m : Z -> Z) : Prop := forall b, 0 <= m b < 256.

Lemma store_bytes a n v m : bytes m -> bytes (store a n v m).
Proof. intros Hm b. unfold store. destruct (_ && _); [apply Z.mod_pos_bound; lia|apply Hm]. Qed.

Lemma load_range m n : bytes m -> forall a, 0 <= load m a n < 2 ^ (8 * Z.of_nat n).
Proof.
  intros Hm. induction n as [|n IH]; intros a; [cbn; lia|]. cbn [load]. specialize (IH (a + 1)). specialize (Hm a).
  replace (8 * Z.of_nat (S n)) with (8 + 8 * Z.of_nat n) by lia. rewrite Z.pow_add_r by lia. change (2 ^ 8) with 256. nia.
Qed.

Lemma read_le_load m n : bytes m -> forall a, read_le m a n = load m a n.
Proof.
  intros Hm. induction n as [|n IH]; intros a; [done|]. cbn [read_le load]. rewrite IH. unfold u8.
  rewrite Z.mod_small; [done|]. apply Hm.
Qed.

(** Entry [j] of the table handed to the kernel. *)
Definition table_entry (m : Z -> Z) (j : Z) : E820Entry :=
  mkE820 (load m (E820Table + 20 * j) 8) (load m (E820Table + 20 * j + 8) 8) (load m (E820Table + 20 * j + 16) 4).

Lemma table_entry_ext m m' j :
  (forall b, E820Table + 20 * j <= b < E820Table + 20 * j + 20 -> m' b = m b) -> table_entry m' j = table_entry m j.
Proof. intros Hm. unfold table_entry. f_equal; apply load_ext; intros b Hb; apply Hm; lia. Qed.

(** One iteration copies an entry. *)
Lemma copy_entry m0 m i :
  bytes m -> 0 <= i -> BootloaderE820Entries + 32 * (i + 1) <= ZeroPage ->
  (forall b, b < ZeroPage -> m b = m0 b) ->
  let e := loader_entry m0 i in
  let rsi := BootloaderE820Entries + 32 * i in
  let rdi := E820Table + 20 * i in
  let m' := store (rdi + 16) 4 (load m (rsi + 16) 4) (store (rdi + 8) 8 (load m (rsi + 8) 8) (store rdi 8 (load m rsi 8) m)) in
  load m (rsi + 8) 8 = e820_size e /\ table_entry m' i = e /\ bytes m' /\
  forall b, ~ rdi <= b < rdi + 20 -> m' b = m b.
Proof.
  intros Hm Hi Hend Hsame e rsi rdi m'. unfold E820Table, BootloaderE820Entries, ZeroPage in *.
  assert (forall o n, 0 <= o -> o + Z.of_nat n <= 20 -> load m (rsi + o) n = load m0 (rsi + o) n) as Hl.
  { intros o n Ho Hn. apply load_ext. intros b Hb. apply Hsame. unfold rsi in *. lia. }
  pose proof (Hl 0 8%nat ltac:(lia) ltac:(lia)) as H0. rewrite !Z.add_0_r in H0.
  split_and!.
  - apply Hl; lia.
  - unfold table_entry, m', E820Table, ZeroPage. fold rdi. read_stores.
    pose proof (load_range m 8 Hm) as R8. pose proof (load_range m 4 Hm) as R4.
    rewrite !Z.mod_small by (apply R8 || apply R4). unfold e, loader_entry, BootloaderE820Entries. fold rsi.
    by rewrite H0, !Hl by lia.
  - unfold m'. by repeat apply store_bytes.
  - intros b Hb. unfold m'. rewrite !store_out by lia. done.
Qed.

Section Loop.
Context (m0 : Z -> Z) (n : nat).
Context (Hsize : forall i, (i < n)%nat -> e820_size (loader_entry m0 (Z.of_nat i)) <> 0).
Context (Hlast : e820_size (loader_entry m0 (Z.of_nat n)) = 0).
Context (Hend : BootloaderE820Entries + 32 * (Z.of_nat n + 1) <= ZeroPage).

Lemma read_e820_loop k : forall i fuel cl m,
  (i + k = n)%nat -> (k < fuel)%nat -> 0 <= cl < 256 -> bytes m -> (forall b, b < ZeroPage -> m b = m0 b) ->
  exists m', read_e820_entries fuel (BootloaderE820Entries + 32 * Z.of_nat i) (E820Table + 20 * Z.of_nat i) cl m =
      Some ((cl + Z.of_nat k) mod 256, m') /\ bytes m' /\
    (forall j, (i <= j < n)%nat -> table_entry m' (Z.of_nat j) = loader_entry m0 (Z.of_nat j)) /\
    forall b, ~ E820Table + 20 * Z.of_nat i <= b < E820Table + 20 * Z.of_nat n -> m' b = m b.
Proof.
  induction k as [|k IH]; intros i fuel cl m Hi Hf Hcl Hm Hsame; (destruct fuel as [|fuel]; [lia|]); cbn [read_e820_entries];
    destruct (copy_entry m0 m (Z.of_nat i) Hm ltac:(lia) ltac:(lia) Hsame) as (Hs & Hcopy & Hm1 & Hout); rewrite Hs.
  - replace i with n by lia. rewrite Hlast. cbn. exists m. rewrite Z.add_0_r, Z.mod_small by lia. split_and!; try done.
    intros j Hj. lia.
  - destruct (Z.eqb_spec (e820_size (loader_entry m0 (Z.of_nat i))) 0) as [Hz|_]; [by destruct (Hsize i ltac:(lia))|].
    set (m1 := store _ _ _ _) in *. destruct (IH (S i) fuel (u8 (cl + 1)) m1) as (m' & Hr & Hb & Ht & Ho);
      [lia|lia|unfold u8; apply Z.mod_pos_bound; lia|done| |].
    { intros b Hb. rewrite Hout; [by apply Hsame|]. unfold E820Table. lia. }
    exists m'. split_and!; [| |intros j Hj|intros b Hb'].
    + replace (BootloaderE820Entries + 32 * Z.of_nat i + 32) with (BootloaderE820Entries + 32 * Z.of_nat (S i)) by lia.
      replace (E820Table + 20 * Z.of_nat i + 20) with (E820Table + 20 * Z.of_nat (S i)) by lia.
      rewrite <- Hs in *. fold m1. rewrite Hr. do 2 f_equal. unfold u8. rewrite Z.add_mod_idemp_l by lia. f_equal. lia.
    + done.
    + destruct (decide (j = i)) as [->|Hne]; [|apply Ht; lia]. rewrite <- Hcopy. apply table_entry_ext.
      intros b Hb'. apply Ho. lia.
    + rewrite Ho by lia. apply Hout. lia.
Qed.

End Loop.

(** The map of the loader, up to the entry of size 0. *)
Definition loader_map (m : Z -> Z) (n : nat) : list E820Entry :=
  map (fun i => loader_entry m (Z.of_nat i)) (seq 0 n).

Lemma e820_table_entries m :
  bytes m -> e820_table m ZeroPage =
    map (fun i => table_entry m (Z.of_nat i)) (seq 0 (Z.to_nat (load m E820Entries 1))).
Proof.
  intros Hm. unfold e820_table. rewrite read_le_load by done. apply map_ext. intros i.
  unfold read_e820_entry. rewrite !read_le_load by done. reflexivity.
Qed.

(** The kernel gets the loader's memory map. If the loader's list ends before the zero
    page, the wrapper comes to its end, the table that the kernel reads from the zero page
    consists of the first n mod 256 of the n entries of the loader, unchanged and in order, and
    no other byte of memory has changed; for fewer than 256 entries the heap is then set up
    from exactly the loader's map. The count has one byte, so a longer map loses entries. *)
Theorem boot_map_handed_over `{SnmallocBits} cfg m n fuel :
  bytes m -> (forall i, (i < n)%nat -> e820_size (loader_entry m (Z.of_nat i)) <> 0) ->
  e820_size (loader_entry m (Z.of_nat n)) = 0 ->
  BootloaderE820Entries + 32 * (Z.of_nat n + 1) <= ZeroPage -> (n < fuel)%nat ->
  exists m', stage0_e820 fuel m = Some m' /\
    e820_table m' ZeroPage = take (n mod 256) (loader_map m n) /\
    (forall b, b <> E820Entries -> ~ E820Table <= b < E820Table + 20 * Z.of_nat n -> m' b = m b) /\
    ((n < 256)%nat -> forall heap_start hr, setup_heap_generic cfg heap_start m' ZeroPage hr =
       let* st := ofold (heap_generic_step cfg heap_start) (loader_map m n) (true, hr) in Done (snd st)).
Proof.
  intros Hm Hs Hl He Hf.
  destruct (read_e820_loop m n Hs Hl He n 0 fuel 0 m) as (m1 & Hr & Hb & Ht & Ho); [lia|done|lia|done|done|].
  change (Z.of_nat 0) with 0 in *. rewrite Z.mul_0_r, !Z.add_0_r in *.
  set (count := Z.of_nat n mod 256) in *.
  assert (0 <= count < 256) as Hc by (apply Z.mod_pos_bound; lia).
  assert (Z.to_nat count = (n mod 256)%nat) as Hcn by (unfold count; change 256 with (Z.of_nat 256); rewrite <- Nat2Z.inj_mod; apply Nat2Z.id).
  assert (e820_table (store E820Entries 1 count m1) ZeroPage = take (n mod 256) (loader_map m n)) as Htab.
  { rewrite e820_table_entries by by apply store_bytes.
    rewrite (load_store E820Entries 1 count m1 ltac:(lia) : load _ _ 1 = _).
    change (2 ^ (8 * 1)) with 256. rewrite (Z.mod_small count), Hcn by lia. unfold loader_map.
    assert (n mod 256 <= n)%nat as Hle by (apply Nat.Div0.mod_le).
    rewrite firstn_map, take_seq, Nat.min_l by done. apply map_ext_in. intros j Hj%in_seq.
    rewrite <- Ht by lia. apply table_entry_ext. intros b Hb'. apply store_out. unfold E820Entries, E820Table in *. lia. }
  exists (store E820Entries 1 count m1). split_and!.
  - unfold stage0_e820. by rewrite Hr.
  - done.
  - intros b Hb' Hb''. rewrite store_out by lia. by apply Ho.
  - intros Hn heap_start hr. unfold setup_heap_generic. rewrite Htab, Nat.mod_small by done.
    rewrite firstn_all2; [done|]. unfold loader_map. by rewrite length_map, length_seq.
Qed.

(** ** The cores *)

(** Vector 0x81 of the loader's table leads to the wrapper, with the loader's code segment
    and without a stack of its own; no other gate changes. *)
Lemma stage0_gate_spec idt target m :
  0 <= target < 2 ^ 64 ->
  gate_at idt (stage0_gate idt target m) 0x81 = mkGate target 8 0 0x8e 0 /\
  forall k, 0 <= k < 256 -> k <> 0x81 -> gate_at idt (stage0_gate idt target m) k = gate_at idt m k.
Proof.
  intros Ht. unfold stage0_gate. cbv zeta. split.
  - unfold gate_at. cbv zeta. set (a := idt + 0x81 * 16). read_stores.
    change (8 * 2) with 16. change (8 * 4) with 32. change (8 * 1) with 8. by rewrite split_address.
  - intros k Hk Hne. apply gate_at_ext. intros b Hb. rewrite !store_out by lia. done.
Qed.

(** Whichever core runs the wrapper, at the start or when it is woken with vector 0x81: it goes
    on with the boot exactly if the identifier of its APIC is 0, and then gets the zero page. *)
Lemma boot_core_is_zero m id low :
  0 <= low < 2 ^ 24 -> load m (load m BootloaderLocalAPICAddress 8 + 0x20) 4 = Z.shiftl id 24 + low ->
  start (KernelAPStart_regs m) = if id =? 0 then StartBoot ZeroPage else StartApResetHandler.
Proof.
  intros Hl Hr. unfold start, KernelAPStart_regs. cbn [fst snd]. rewrite Hr, Z.shiftl_mul_pow2, Z.shiftr_div_pow2 by lia.
  rewrite Z.add_comm, Z.div_add, Z.div_small by lia. done.
Qed.

(** ** Witness *)

(** 640 kB at 0, 1 GB at 1 MB, and the end of the map. *)
Definition example_loader (b : Z) : Z :=
  store 0x6028 8 0x40000000 (store 0x6020 8 0x100000 (store 0x6030 4 1 (store 0x6010 4 1
    (store 0x6008 8 0xa0000 (fun _ => 0))))) b.

Lemma boot_map_handed_over_witness :
  exists m', stage0_e820 8 example_loader = Some m' /\
    e820_table m' ZeroPage = [mkE820 0 0xa0000 1; mkE820 0x100000 0x40000000 1].
Proof.
  destruct (@boot_map_handed_over ref_bits SmallPages example_loader 2 8) as (m' & Hs & Ht & _).
  - intros b. unfold example_loader. repeat apply store_bytes. intros c. lia.
  - intros [|[|i]] Hi; [vm_compute; discriminate|vm_compute; discriminate|lia].
  - vm_compute. reflexivity.
  - vm_compute. discriminate.
  - lia.
  - exists m'. split; [exact Hs|]. rewrite Ht. vm_compute. reflexivity.
Defined.
