(* ===== verification/Libc.v ===== *)
(** * The C library layer (monza-libc, crt/monza_main.cc)

    Page mappings on top of the allocator, the writer behind the standard streams, the
    POSIX thread-specific values, clock, environment and locale, and the order of work
    from the first initialiser to the shutdown. Musl and snmalloc are outside the
    repository: the allocator is a class of operations with laws. *)

From stdpp Require Import strings.
From S2P Require Import Prelude External Address Ownership Compartment Threads.

(** ** Page mappings (mmap.cc, crt/alloc.cc) *)

(** What mmap.cc calls of snmalloc: [calloc] and [free], [external_pointer] and
    [alloc_size] of the thread's allocator, and two helpers on sizes. [live] are the
    blocks handed out with their usable sizes. *)
Class PageAlloc (H : Type) : Type := {
  live : H -> gmap Z Z;
  alloc_wf : H -> Prop;
  calloc : Z -> Z -> H -> Z * H;
  free : Z -> H -> H;
  external_pointer : H -> Z -> Z;
  alloc_size : H -> Z -> Z;
  aligned_size : Z -> Z -> Z;
  is_aligned_block : Z -> Z -> Z -> bool;
}.

(** A block has at least the size asked for, is aligned to a page if whole pages were
    asked for, and is found again by its address. *)
Class PageAllocOk {H} (A : PageAlloc H) (c : page_config) : Prop := {
  calloc_spec : forall n s h p h', alloc_wf h -> calloc n s h = (p, h') -> alloc_wf h' /\
    (p = 0 /\ live h' = live h \/
     p <> 0 /\ live h !! p = None /\ exists sz, n * s <= sz /\ live h' = <[p := sz]> (live h));
  calloc_aligned : forall n s h p h', alloc_wf h -> calloc n s h = (p, h') -> 0 < n * s ->
    (PAGE_SIZE c | n * s) -> (PAGE_SIZE c | p);
  free_spec : forall p h sz, alloc_wf h -> live h !! p = Some sz ->
    alloc_wf (free p h) /\ live (free p h) = delete p (live h);
  external_pointer_spec : forall h p sz, live h !! p = Some sz -> external_pointer h p = p;
  alloc_size_spec : forall h p sz, live h !! p = Some sz -> alloc_size h p = sz;
  aligned_size_spec : forall a s, is_pow2 a -> 0 <= s -> s + a <= 2 ^ 64 ->
    (a | aligned_size a s) /\ s <= aligned_size a s < s + a;
  is_aligned_block_spec : forall a p s, is_pow2 a ->
    is_aligned_block a p s = true <-> (a | p) /\ (a | s);
}.

Definition MAP_PRIVATE : Z := 2.
Definition MAP_ANONYMOUS : Z := 32.
(** [(void* ) -1], what POSIX has [mmap] return on failure. *)
Definition MAP_FAILED : Z := 2 ^ 64 - 1.

Section Mmap.
Context {H : Type} `{A : PageAlloc H} (c : page_config).

(** [get_base_pointer] and [get_alloc_size]. *)
Definition get_base_pointer (h : H) (ptr : Z) : Z := external_pointer h ptr.
Definition get_alloc_size (h : H) (ptr : Z) : Z := alloc_size h ptr.

(** Neither length nor protection is looked at. *)
Definition mprotect (address length prot : Z) : Z :=
  if negb (is_aligned_block (PAGE_SIZE c) address (PAGE_SIZE c)) then -1 else 0.

Definition mmap (address length prot flags : Z) (h : H) : Z * H :=
  if negb (address =? 0) then (0, h)
  else if negb (flags =? Z.lor MAP_ANONYMOUS MAP_PRIVATE) then (0, h)
  else
    let actual_length := aligned_size (PAGE_SIZE c) length in
    let '(alloc, h1) := calloc 1 actual_length h in
    if mprotect alloc actual_length prot =? 0 then (alloc, h1) else (0, h1).

Definition munmap (address length : Z) (h : H) : Z * H :=
  let actual_length := aligned_size (PAGE_SIZE c) length in
  if negb (get_base_pointer h address =? address) || negb (get_alloc_size h address =? actual_length)
  then (-1, h)
  else if negb (mprotect address actual_length 3 =? 0) then (-1, h)
  else (0, free address h).

(** *** Facts *)

Context `{!PageAllocOk A c}.

Lemma mprotect_aligned p length prot : mprotect p length prot = 0 <-> (PAGE_SIZE c | p).
Proof.
  unfold mprotect. destruct (is_aligned_block (PAGE_SIZE c) p (PAGE_SIZE c)) eqn:E; cbn.
  - apply is_aligned_block_spec in E as [? _]; [done|apply page_size_pow2].
  - split; [done|]. intros Hp. apply not_true_iff_false in E. destruct E.
    apply is_aligned_block_spec; [apply page_size_pow2|]. split; [done|apply Z.divide_refl].
Qed.

(** A mapping that was asked for in the supported way. *)
Lemma mmap_supported length prot h : alloc_wf h -> 0 < length -> length + PAGE_SIZE c <= 2 ^ 64 ->
  exists p h', mmap 0 length prot (Z.lor MAP_ANONYMOUS MAP_PRIVATE) h = (p, h') /\ alloc_wf h' /\
    (PAGE_SIZE c | p) /\
    (p = 0 /\ live h' = live h \/
     p <> 0 /\ live h !! p = None /\
     exists sz, aligned_size (PAGE_SIZE c) length <= sz /\ live h' = <[p := sz]> (live h)).
Proof.
  intros Hw Hl Hmax.
  destruct (aligned_size_spec (PAGE_SIZE c) length (page_size_pow2 c) ltac:(lia) Hmax) as [Hd Hs].
  unfold mmap. rewrite Z.eqb_refl. cbn [negb Z.eqb].
  destruct (calloc 1 (aligned_size (PAGE_SIZE c) length) h) as [p h'] eqn:Ec.
  destruct (calloc_spec _ _ _ _ _ Hw Ec) as [Hw' Hp].
  assert (PAGE_SIZE c | p) as Hpa.
  { eapply calloc_aligned; [exact Hw|exact Ec|lia|]. by rewrite Z.mul_1_l. }
  pose proof (proj2 (mprotect_aligned p (aligned_size (PAGE_SIZE c) length) prot) Hpa) as Hm.
  rewrite Hm. cbn. exists p, h'. split_and!; [done..|]. by rewrite Z.mul_1_l in Hp.
Qed.

Lemma munmap_live p length sz h : alloc_wf h -> live h !! p = Some sz -> (PAGE_SIZE c | p) ->
  munmap p length h =
    if sz =? aligned_size (PAGE_SIZE c) length then (0, free p h) else (-1, h).
Proof.
  intros Hw Hp Hd. unfold munmap, get_base_pointer, get_alloc_size.
  rewrite (external_pointer_spec h p sz Hp), (alloc_size_spec h p sz Hp), Z.eqb_refl. cbn.
  destruct (sz =? aligned_size (PAGE_SIZE c) length); [|done]. cbn.
  pose proof (proj2 (mprotect_aligned p (aligned_size (PAGE_SIZE c) length) 3) Hd) as ->. done.
Qed.

(** A mapping of a positive length either fails with a null pointer (never with
    [MAP_FAILED]) and leaves the allocator's blocks alone, as every request with a hint
    or other flags does, or is a new page-aligned block of at least that length. Unmapping
    it with the same length gives the block back exactly when the allocator's block is as
    large as the length rounded up to pages; for a larger size class [munmap] always
    fails and the block stays allocated. *)
Theorem mmap_munmap address length prot flags h :
  alloc_wf h -> 0 < length -> length + PAGE_SIZE c <= 2 ^ 64 ->
  let '(p, h') := mmap address length prot flags h in
  p <> MAP_FAILED /\ (PAGE_SIZE c | p) /\
  (p = 0 -> live h' = live h) /\
  (p <> 0 -> address = 0 /\ flags = Z.lor MAP_ANONYMOUS MAP_PRIVATE /\
    exists sz, live h' = <[p := sz]> (live h) /\ live h !! p = None /\ length <= sz /\
      let '(r, h'') := munmap p length h' in
      if sz =? aligned_size (PAGE_SIZE c) length
      then r = 0 /\ live h'' = live h
      else r = -1 /\ live h'' = live h').
Proof.
  intros Hw Hl Hmax.
  assert (forall p, (PAGE_SIZE c | p) -> p <> MAP_FAILED) as Hnf.
  { intros p [q ->]. unfold MAP_FAILED. destruct (page_size_cases c) as [->| ->]; lia. }
  destruct (decide (address = 0 /\ flags = Z.lor MAP_ANONYMOUS MAP_PRIVATE)) as [[-> ->]|Hbad].
  2:{ assert (mmap address length prot flags h = (0, h)) as ->.
      { unfold mmap. destruct (Z.eqb_spec address 0) as [->|]; [cbn|done].
        destruct (Z.eqb_spec flags (Z.lor MAP_ANONYMOUS MAP_PRIVATE)) as [->|]; [|done]. tauto. }
      split_and!; [done|apply Z.divide_0_r|done|done]. }
  destruct (mmap_supported length prot h Hw Hl Hmax) as (p & h' & -> & Hw' & Hd & Hp).
  split_and!; [by apply Hnf|done|by destruct Hp as [[_ ?]|[? _]]|].
  intros Hp0. destruct Hp as [[? _]|(_ & Hn & sz & Hsz & Hlive)]; [done|]. split_and!; [done..|].
  destruct (aligned_size_spec (PAGE_SIZE c) length (page_size_pow2 c) ltac:(lia) Hmax) as [_ Hs].
  exists sz. split_and!; [done|done|lia|].
  assert (live h' !! p = Some sz) as Hlp by (rewrite Hlive; apply lookup_insert_eq).
  rewrite (munmap_live p length sz h' Hw' Hlp Hd). destruct (sz =? _); [|done].
  split; [done|]. destruct (free_spec p h' sz Hw' Hlp) as [_ ->]. rewrite Hlive. by apply delete_insert_id.
Qed.

End Mmap.

(** *** A reference allocator

    Whole pages one after the other; a block of more than eight pages has an even
    number of them, the way a size class rounds up. *)

Record bump : Type := mkBump { b_live : gmap Z Z; b_next : Z }.

Definition size_class (s : Z) : Z :=
  if s <=? 8 * 4096 then Z.max 16 s else (s + 8191) / 8192 * 8192.

Definition bump_alloc : PageAlloc bump := {|
  live := b_live;
  alloc_wf h := 0 < b_next h /\ (4096 | b_next h) /\ forall p sz, b_live h !! p = Some sz -> p < b_next h;
  calloc n s h := (b_next h, mkBump (<[b_next h := size_class (n * s)]> (b_live h))
                               (b_next h + (size_class (n * s) / 4096 + 1) * 4096));
  free p h := mkBump (delete p (b_live h)) (b_next h);
  external_pointer h p := p;
  alloc_size h p := default 0 (b_live h !! p);
  aligned_size a s := (s + (a - 1)) / a * a;
  is_aligned_block a p s := (p mod a =? 0) && (s mod a =? 0);
|}.

Lemma size_class_le s : s <= size_class s /\ 0 < size_class s.
Proof. unfold size_class. case_if_prop; zlia. Qed.

Lemma bump_alloc_ok : PageAllocOk bump_alloc SmallPages.
Proof.
  split; cbn.
  - intros n s h p h' (Hp & Hd & Hk) [= <- <-]. pose proof (size_class_le (n * s)) as [Hle Hpos].
    pose proof (Z.div_pos (size_class (n * s)) 4096 ltac:(lia) ltac:(lia)) as Hq.
    split; [split_and!; cbn; [lia|by apply Z.divide_add_r; [|apply Z.divide_factor_r]|]|right; split_and!].
    + intros q sz. rewrite lookup_insert_Some. intros [[<- _]|[_ Hl]]; [lia|]. apply Hk in Hl. lia.
    + lia.
    + destruct (b_live h !! b_next h) as [sz|] eqn:E; [|done]. apply Hk in E. lia.
    + by exists (size_class (n * s)).
  - intros n s h p h' (_ & Hd & _) [= <- _] _ _. exact Hd.
  - intros p h sz (Hp & Hd & Hk) Hl. split_and!; [done|done| |done]. intros q sz' [_ Hq]%lookup_delete_Some. by eapply Hk.
  - done.
  - intros h p sz Hl. by rewrite Hl.
  - intros a s Ha Hs _. pose proof (is_pow2_pos a Ha). split; [apply Z.divide_factor_r|].
    pose proof (Z.div_mod (s + (a - 1)) a ltac:(lia)). pose proof (Z.mod_pos_bound (s + (a - 1)) a ltac:(lia)). lia.
  - intros a p s Ha. pose proof (is_pow2_pos a Ha). rewrite andb_true_iff, !Z.eqb_eq, !Z.mod_divide by lia. done.
Qed.

(** Eight pages are unmapped; nine pages lie in a block of ten and are not. *)
Lemma mmap_munmap_witness :
  let h := mkBump ∅ 1048576 in
  let run n := let '(p, h1) := mmap (A := bump_alloc) SmallPages 0 (n * 4096) 3 34 h in
               munmap (A := bump_alloc) SmallPages p (n * 4096) h1 in
  0 <> MAP_FAILED /\ live (PageAlloc := bump_alloc) (snd (run 8)) = ∅ /\ fst (run 9) = -1 /\
  (forall p h', mmap (A := bump_alloc) SmallPages 0 (9 * 4096) 3 34 h = (p, h') -> (4096 | p)).
Proof.
  cbv zeta. split_and!; [done|vm_compute; reflexivity|vm_compute; reflexivity|].
  intros p h' Hm.
  pose proof (mmap_munmap (A := bump_alloc) SmallPages (PageAllocOk0 := bump_alloc_ok)
    0 (9 * 4096) 3 34 (mkBump ∅ 1048576)) as Ht.
  rewrite Hm in Ht. apply Ht.
  - split_and!; [vm_compute; reflexivity|exists 256; reflexivity|]. intros q sz Hq. by destruct (lookup_empty_Some q sz Hq).
  - lia.
  - by vm_compute.
Defined.

(** ** Standard streams (stdio.cc) *)

Section Stdio.
(** The writer of the context: [kwritev_stdout], or the callback a compartment was
    given for [kwritev_stdout_protected]. *)
Context (kwrite : list span -> syscall_result (list Z * Z)).

(** The bytes that reach the output and the count reported to musl. *)
Definition stdio_actual_write (fbuf flen buf len : Z) : syscall_result (list Z * Z) :=
  sbind (kwrite [Span fbuf flen; Span buf len]) (fun r =>
  let '(out, written) := r in
  SysOk (out,
    if written =? u64 (flen + len) then len
    else if written >=? flen then u64 (written - flen)
    else 0)).

End Stdio.

(** [is_compartment()] selects the writer. *)
Definition writer (bits : Z) (is_comp : bool) (mem : Z -> Z) (st : OwnStore) (owner : CompartmentOwner)
  (data_ptr : Z) (data : list span) : syscall_result (list Z * Z) :=
  if is_comp then kwritev_stdout_protected bits mem st owner data_ptr data
  else SysOk (kwritev_stdout mem data).

(** All of both buffers is written and the count is that of the second one, or the
    compartment is stopped; the shorter counts never occur. *)
Theorem stdio_write_all bits is_comp mem st owner data_ptr fbuf flen buf len :
  match stdio_actual_write (writer bits is_comp mem st owner data_ptr) fbuf flen buf len with
  | SysOk (out, n) => n = len /\ out = buffer_bytes mem (Span fbuf flen) ++ buffer_bytes mem (Span buf len)
  | SysAbort => is_comp = true
  end.
Proof.
  set (data := [Span fbuf flen; Span buf len]).
  assert (writer bits is_comp mem st owner data_ptr data = SysOk (kwritev_stdout mem data) \/
          is_comp = true /\ writer bits is_comp mem st owner data_ptr data = SysAbort) as Hw.
  { unfold writer, kwritev_stdout_protected. destruct is_comp; [|by left]. repeat case_match; auto. }
  unfold stdio_actual_write. fold data. destruct Hw as [->|[-> ->]]; [|done]. cbn. rewrite app_nil_r.
  assert (u64 (u64 (0 + flen) + len) = u64 (flen + len)) as -> by by rewrite u64_add_l.
  by rewrite Z.eqb_refl.
Qed.

(** ** Mutexes of one thread (pthread.cc) *)

(** The first word of a [pthread_mutex_t] is a [Spinlock]. [acquire] on a lock that this thread
    holds does not end. *)
Definition pthread_mutex_lock (lock : Z) : outcome (Z * Z) := if lock =? 0 then Done (0, 1) else Hang.
Definition pthread_mutex_unlock (lock : Z) : outcome (Z * Z) := Done (0, 0).
Definition pthread_mutex_init (lock : Z) : outcome (Z * Z) := Done (0, 0).

(** Attributes are accepted and forgotten. *)
Definition pthread_mutexattr_settype (kind : Z) : Z := 0.

Inductive mutex_call : Type := CallLock | CallUnlock | CallInit | CallSettype (kind : Z).

Definition mutex_do (c : mutex_call) (lock : Z) : outcome (Z * Z) :=
  match c with
  | CallLock => pthread_mutex_lock lock
  | CallUnlock => pthread_mutex_unlock lock
  | CallInit => pthread_mutex_init lock
  | CallSettype kind => Done (pthread_mutexattr_settype kind, lock)
  end.

(** Reference: what a POSIX mutex of the default kind makes of the calls of one thread; [None] where
    the thread blocks on itself. *)
Definition held_after (c : mutex_call) (held : bool) : option bool :=
  match c with
  | CallLock => if held then None else Some true
  | CallUnlock | CallInit => Some false
  | CallSettype _ => Some held
  end.

Fixpoint mutex_calls (cs : list mutex_call) (lock : Z) : outcome Z :=
  match cs with [] => Done lock | c :: cs' => let* r := mutex_do c lock in mutex_calls cs' (snd r) end.

(** After [pthread_mutex_init], every sequence of calls of one thread ends with the mutex held or free
    as the reference says, or hangs exactly where the reference blocks: at a second lock, also
    when a recursive mutex was asked for. *)
Theorem pthread_mutex_refines cs kind lock0 :
  mutex_calls (CallSettype kind :: CallInit :: cs) lock0 =
    match foldl (fun h c => match h with Some b => held_after c b | None => None end) (Some false) cs with
    | Some held => Done (if held then 1 else 0)
    | None => Hang
    end.
Proof.
  cbn. change (mutex_calls cs 0) with (mutex_calls cs (if false then 1 else 0)). generalize false. induction cs as [|c cs IH]; intros held; [done|].
  cbn [mutex_calls foldl]. destruct c, held; cbn; try apply (IH true); try apply (IH false).
  clear IH. by induction cs.
Qed.

(** ** Thread-specific values (pthread.cc, __external_threading) *)

(** [__libcpp_tls_create] stores through a [uint16_t*]: of the 32 bits of a
    [pthread_key_t] only the low half is written. *)
Definition pthread_key_create (is_comp : bool) (key : Z) (s : TlsSlots) : Z * Z * TlsSlots :=
  match allocate_tls_slot is_comp s with
  | (Some k, s') => (0, key / 2 ^ 16 * 2 ^ 16 + k, s')
  | (None, s') => (-1, key, s')
  end.

(** The parameter of the slot routines is a [uint16_t]. *)
Definition pthread_getspecific (is_comp : bool) (key : Z) (s : TlsSlots) : Z := get_tls_slot is_comp (u16 key) s.

Definition pthread_setspecific (is_comp : bool) (key value : Z) (s : TlsSlots) : Z * TlsSlots :=
  let '(ok, s') := set_tls_slot is_comp (u16 key) value s in (if ok : bool then 0 else -1, s').

Definition pthread_key_delete (key : Z) : Z := 0.

Lemma created_key key k : 0 <= k < 512 -> u16 (key / 2 ^ 16 * 2 ^ 16 + k) = k.
Proof. intros Hk. unfold u16. rewrite Z.add_comm, Z.mod_add by lia. apply Z.mod_small. lia. Qed.

(** Whatever the key variable held before, a created key reads back the value stored
    under it and leaves the values of the keys that were valid before alone, although
    only half of the variable is written; deleting a key frees nothing, and creation
    fails only when the slots of the context are used up. *)
Theorem pthread_specific_roundtrip is_comp key other value s :
  slots_ok s -> is_slot_valid is_comp s (u16 other) = true ->
  match pthread_key_create is_comp key s with
  | (0, key', s1) =>
      let '(r, s2) := pthread_setspecific is_comp key' value s1 in
      slots_ok s2 /\ r = 0 /\ pthread_getspecific is_comp key' s2 = value /\
      pthread_getspecific is_comp other s2 = pthread_getspecific is_comp other s
  | (_, key', s1) => key' = key /\ s1 = s /\
      (if is_comp then compartment_dynamic_tls_slot s = 511 else current_dynamic_tls_slot s = 255)
  end.
Proof.
  intros Hok Hother. unfold pthread_key_create.
  pose proof (tls_slots_allocated s is_comp (u16 other) Hok) as Halloc.
  destruct (allocate_tls_slot is_comp s) as [[k|] s1] eqn:Ea; [|exact (conj eq_refl Halloc)].
  destruct (allocate_spec s is_comp k s1 Hok Ea) as (Hok1 & _ & Hk & Hv).
  assert (0 <= k < 512) as Hk' by (destruct is_comp; lia).
  assert (0 <= u16 other) as H0 by (unfold u16; apply Z.mod_pos_bound; lia).
  unfold pthread_setspecific, pthread_getspecific. rewrite created_key by done.
  pose proof (tls_slots_stored s1 is_comp k k value Hok1 ltac:(lia) ltac:(lia)) as Hs.
  pose proof (tls_slots_stored s1 is_comp k (u16 other) value Hok1 ltac:(lia) H0) as Ho.
  destruct (set_tls_slot is_comp k value s1) as [ok s2]. destruct Hs as (Hok2 & -> & ->), Ho as (_ & _ & ->).
  rewrite (proj2 (Hv k ltac:(lia))) by by right. rewrite Z.eqb_refl. split_and!; [done..|]. cbn.
  destruct Halloc as (Hnv & Heq). destruct (Z.eqb_spec (u16 other) k) as [E|Hne]; [congruence|]. by apply Heq.
Qed.

Lemma pthread_specific_roundtrip_witness :
  let s := snd (allocate_tls_slot false slots_initial) in
  match pthread_key_create false 3735928559 s with
  | (0, key', s1) => pthread_getspecific false key' (snd (pthread_setspecific false key' 77 s1)) = 77
  | _ => False
  end.
Proof.
  pose proof (pthread_specific_roundtrip false 3735928559 0 77 (snd (allocate_tls_slot false slots_initial))) as Ht.
  assert (slots_ok (snd (allocate_tls_slot false slots_initial))) as Hok
    by (split; vm_compute; try reflexivity; split; discriminate).
  specialize (Ht Hok eq_refl). cbv zeta. revert Ht. vm_compute. tauto.
Defined.

(** ** Clock, environment and locale *)

Definition CLOCK_REALTIME : Z := 0.
Definition CLOCK_MONOTONIC : Z := 1.
Definition CLOCK_PROCESS_CPUTIME_ID : Z := 2.

(** [clock_gettime] with [__clock_gettime]: the return value and what is stored. *)
Definition clock_gettime (tsc_freq now : Z) (t : TimeState) (type : Z) (ts : bool) : Z * option timespec :=
  if negb ts then (-1, None)
  else if (type =? CLOCK_MONOTONIC) || (type =? CLOCK_PROCESS_CPUTIME_ID)
  then (0, Some (get_timespec tsc_freq true now t))
  else if type =? CLOCK_REALTIME then (0, Some (get_timespec tsc_freq false now t))
  else (-1, None).

Definition MILAN_OPENSSL_IA32CAP : string := "0xe6da2203078bfbff:0x400684219c0789".

(** [getenv] and [secure_getenv]; [None] is a null pointer. *)
Definition getenv (is_confidential : bool) (key : string) : option string :=
  if is_confidential then
    if bool_decide (key = "OPENSSL_ia32cap"%string) then Some MILAN_OPENSSL_IA32CAP else None
  else None.

Definition C_LOCALE_NAME : string := "C".
Definition LC_ALL : Z := 6.
Definition LC_ALL_MASK : Z := 2147483647.

(** [abort()] ends the program: [Kabort]. The new object is what [malloc(0)] gives. *)
Definition newlocale (malloc : Z -> Z) (category_mask : Z) (locale : string) (base : Z) : outcome Z :=
  if negb (category_mask =? LC_ALL_MASK) || negb (bool_decide (locale = C_LOCALE_NAME)) || negb (base =? 0)
  then Kabort else Done (malloc 0).

Definition setlocale (category : Z) (locale : option string) : outcome string :=
  if negb (category =? LC_ALL) ||
     match locale with None => false | Some l => negb (bool_decide (l = C_LOCALE_NAME)) end
  then Kabort else Done C_LOCALE_NAME.

(** ** The error number (errno.cc) and functions without an effect *)

(** The variable of the kernel before there is a control block, then the thread's own. *)
Inductive errno_id : Type := GlobalErrno | ThreadErrno (tcb : Z).

#[export] Instance errno_id_eq_dec : EqDecision errno_id.
Proof. solve_decision. Defined.

Definition errno_location (tcb : Z) : errno_id := if tcb =? 0 then GlobalErrno else ThreadErrno tcb.

(** An assignment to [errno] by the thread with this control block. *)
Definition set_errno (tcb value : Z) (e : errno_id -> Z) : errno_id -> Z :=
  fun id => if decide (id = errno_location tcb) then value else e id.

(** What a thread reads is its own last assignment, whatever others assign in between. *)
Lemma errno_of_thread (others : list (Z * Z)) tcb value e :
  Forall (fun w => fst w <> tcb) others ->
  fold_left (fun e w => set_errno (fst w) (snd w) e) others (set_errno tcb value e) (errno_location tcb) = value.
Proof.
  intros Ho. assert (forall e', e' (errno_location tcb) = value ->
    fold_left (fun e w => set_errno (fst w) (snd w) e) others e' (errno_location tcb) = value) as Hf;
    [|apply Hf; unfold set_errno; by rewrite decide_True].
  induction Ho as [|[u v] others Hu _ IH]; intros e' He; [done|]. cbn. apply IH. unfold set_errno. cbn in *.
  rewrite decide_False; [done|]. unfold errno_location. repeat case_if_prop; congruence.
Qed.

Definition sched_yield : Z := 0.
Definition dladdr : Z := 0.
Definition pthread_self (thread_id : Z) : Z := thread_id.
Definition pthread_equal (t1 t2 : Z) : Z := if t1 =? t2 then 1 else 0.

(** ** From the first initialiser to the shutdown (main.cc, exit.cc, monza_main.cc) *)

Inductive life_event : Type :=
| MonzaInit (i : nat) | InitTp | InitFn | InitArray (i : nat) | InitTiming | Main
| FiniArray (i : nat) | FiniFn | FuncsOnExit | StdioExit
| CompartmentExit (status : Z) | LogFinished (status : Z) | Shutdown.

Section Life.
(** Number of entries of the arrays the linker script lays out. *)
Context (monza_inits init_array fini_array : nat) (is_comp : bool).

Definition monza_thread_initializers : list life_event := map MonzaInit (seq 0 monza_inits) ++ [InitTp].

Definition monza_initializers : list life_event :=
  monza_thread_initializers ++ [InitFn] ++ map InitArray (seq 0 init_array).

(** The loop runs down from the last entry. *)
Fixpoint fini_loop (fn : nat) : list life_event :=
  match fn with O => [] | S i => FiniArray i :: fini_loop i end.

Definition monza_finalizers : list life_event := fini_loop fini_array ++ [FiniFn].

(** [monza_exit] does not return. *)
Definition monza_exit (status : Z) : list life_event := [LogFinished status; Shutdown].

Definition Exit (status : Z) : list life_event :=
  if is_comp then [CompartmentExit 127] else monza_exit status.

Definition libc_exit_finalizers : list life_event :=
  if is_comp then [FuncsOnExit; StdioExit] else monza_finalizers.

Definition exit (code : Z) : list life_event := libc_exit_finalizers ++ Exit code.

Definition abort : list life_event := Exit 127.

Definition kabort : list life_event := monza_exit 127.

(** How the program's [main] ends. *)
Inductive main_end : Type := MainReturns (ret : Z) | MainExits (code : Z) | MainAborts.

(** [__libc_start_main] up to the end of [main]. *)
Definition libc_start_main : list life_event := monza_initializers ++ [InitTiming; Main].

(** [monza_main], once the other cores are done. *)
Definition monza_main (m : main_end) : list life_event :=
  libc_start_main ++
  match m with
  | MainReturns ret => monza_exit ret
  | MainExits code => exit code
  | MainAborts => abort
  end.

Lemma fini_loop_rev n : fini_loop n = rev (map FiniArray (seq 0 n)).
Proof.
  induction n as [|n IH]; [done|]. rewrite seq_S, map_app, rev_app_distr. cbn. by rewrite IH.
Qed.

Lemma fini_not_in_init n i : In (FiniArray i) (monza_initializers ++ [InitTiming; Main] ++ monza_exit n) -> False.
Proof.
  unfold monza_initializers, monza_thread_initializers. rewrite !in_app_iff, !in_map_iff. cbn. naive_solver.
Qed.

End Life.

(** The finalisers mirror the initialisers: with as many of them, the kernel's [exit] runs
    one for each entry of the initialiser array, last first, before it shuts down with
    the given status. A program that returns from [main] shuts down without running any
    of them, and a compartment always reports 127. *)
Theorem exit_runs_finalizers monza_inits n code ret :
  exists i o, monza_initializers monza_inits n = i ++ map InitArray (seq 0 n) /\
    monza_main monza_inits n n false (MainExits code) =
      monza_initializers monza_inits n ++ [InitTiming; Main] ++ map FiniArray (rev (seq 0 n)) ++ o /\
    o = [FiniFn; LogFinished code; Shutdown] /\
    (forall j, In (FiniArray j) (monza_main monza_inits n n false (MainReturns ret)) -> False) /\
    exit n true code = [FuncsOnExit; StdioExit; CompartmentExit 127].
Proof.
  exists (monza_thread_initializers monza_inits ++ [InitFn]), [FiniFn; LogFinished code; Shutdown].
  split_and!; [|unfold monza_main, libc_start_main, exit; rewrite <- app_assoc; cbn|done|intros j; unfold monza_main, libc_start_main; rewrite <- app_assoc; apply fini_not_in_init|done].
  - unfold monza_initializers. by rewrite <- app_assoc.
  - unfold monza_finalizers. rewrite fini_loop_rev, map_rev. by rewrite <- app_assoc.
Qed.
