(* ===== verification/Boot.v ===== *)
(** * Detection of the platform and the boot sequence

    arch/x86_64/hypervisor.cc, kvm.cc, hv.cc (initialisation), hv_sev.cc (the
    function pointers, the second stage, shutdown), gdt.cc, compartment.cc, shared.cc,
    confidential.cc, serial.cc and main64.cc. A function pointer of the runtime is a
    member of [Hooks] that says whose implementation is installed. The processor's
    answers ([cpuid], model-specific registers, ports) are parameters. *)

From S2P Require Import Prelude External Address Heap Sev SevHeap Ghcb Cpu SharedMemory.
From stdpp Require Import strings.
Open Scope Z_scope.

(** ** Function pointers *)

Inductive impl : Type := Generic | HyperV | Sev.

#[export] Instance impl_eq_dec : EqDecision impl.
Proof. solve_decision. Defined.

Record Hooks : Type := mkHooks {
  setup_heap : impl; setup_cores : impl; setup_hypervisor_stage2 : impl; setup_idt : impl;
  setup_pagetable : impl; uartputc : impl; notify_using_memory : impl; write_msr_virt : impl;
  shutdown : impl; init_cpu : impl; trigger_ipi : impl; ap_init : impl; allocate_visible : impl;
  generate_attestation_report : impl; call_hv : impl; call_hv_fast : impl;
}.

(** The initial values; the hypercalls are Hyper-V's from the start. *)
Definition generic_hooks : Hooks :=
  mkHooks Generic Generic Generic Generic Generic Generic Generic Generic Generic Generic Generic
    Generic Generic Generic HyperV HyperV.

(** What [init_hyperv] installs. *)
Definition install_hyperv (h : Hooks) : Hooks :=
  mkHooks (setup_heap h) (setup_cores h) HyperV (setup_idt h) (setup_pagetable h) (uartputc h)
    (notify_using_memory h) (write_msr_virt h) (shutdown h) HyperV (trigger_ipi h) HyperV
    (allocate_visible h) (generate_attestation_report h) (call_hv h) (call_hv_fast h).

(** What [init_hyperv_sev] installs: everything but the interrupt table. *)
Definition install_sev (h : Hooks) : Hooks :=
  mkHooks Sev Sev Sev (setup_idt h) Sev Sev Sev Sev Sev Sev Sev Sev Sev Sev Sev Sev.

(** ** Machine state of the detection *)

Record BootState : Type := mkBoot {
  hooks : Hooks;
  tsc_freq : Z;
  is_environment_confidential : bool;
  vtl : Z;
  hv_call_target : Z;
  msr_writes : list (Z * Z); (** in order *)
  sev_state : SevState;
}.

Definition boot_initial (s : SevState) : BootState :=
  mkBoot generic_hooks 2000000000 false 0 0 [] s.

(** The processor and the hypervisor as they present themselves. *)
Record machine : Type := mkMachine {
  read_msr : Z -> Z;
  cpuid : Z -> Z * Z * Z * Z; (** eax, ebx, ecx, edx of a leaf *)
}.

Definition SEV_MSR_SEV_FEATURES : Z := 0xC0010131.
Definition CPUID_HYPERVISOR_ENABLED_LEAF : Z := 1.
Definition CPUID_HYPERVISOR_ENABLED_FLAG : Z := Z.shiftl 1 31.
Definition CPUID_HYPERVISOR_MAXLEAF_LEAF : Z := 0x40000000.
Definition HV_CPUID_MIN_MAXLEAF : Z := 0x40000005.
Definition HV_CPUID_FEATURES : Z := 0x40000003.
Definition KVM_X64_CPUID_TIMING : Z := 0x40000010.
Definition HV_X64_MSR_HYPERCALL : Z := 0x40000001.
Definition HV_X64_MSR_TSC_FREQ : Z := 0x40000022.

(** "Microsoft Hv" and "KVMKVMKVM" with three zero bytes. *)
Definition HV_SIGNATURE : list Z := [77; 105; 99; 114; 111; 115; 111; 102; 116; 32; 72; 118].
Definition KVM_SIGNATURE : list Z := [75; 86; 77; 75; 86; 77; 75; 86; 77; 0; 0; 0].

(** The 32-bit word at byte [4 * i] of the expected signature. *)
Definition signature_word (sig : list Z) (i : Z) : Z :=
  read_le (fun a => nth (Z.to_nat a) sig 0) (4 * i) 4.

Definition verify_hypervisor_signature (cpuid_signature : Z * Z * Z) (sig : list Z) : bool :=
  let '(s0, s1, s2) := cpuid_signature in
  (s0 =? signature_word sig 0) && (s1 =? signature_word sig 1) && (s2 =? signature_word sig 2).

(** [init_kvm]: the product is computed in 32 bits. *)
Definition init_kvm (m : machine) (maxleaf : Z) (st : BootState) : BootState :=
  if maxleaf >=? KVM_X64_CPUID_TIMING then
    let '(tsc_freq_khz, _, _, _) := cpuid m KVM_X64_CPUID_TIMING in
    mkBoot (hooks st) (u32 (tsc_freq_khz * 1000)) (is_environment_confidential st) (vtl st)
      (hv_call_target st) (msr_writes st) (sev_state st)
  else st.

(** *** Features of the partition *)

(** The members of [PartitionPriviledge] with their widths. *)
Definition PartitionPriviledge : list (string * Z) :=
  [("AccessVpRunTimeReg", 1); ("AccessPartitionReferenceCounter", 1); ("AccessSynicRegs", 1);
   ("AccessSyntheticTimerRegs", 1); ("AccessIntrCtrlRegs", 1); ("AccessHypercallMsrs", 1);
   ("AccessVpIndex", 1); ("AccessResetReg", 1); ("AccessStatsReg", 1);
   ("AccessPartitionReferenceTsc", 1); ("AccessGuestIdleReg", 1); ("AccessFrequencyRegs", 1);
   ("AccessDebugRegs", 1); ("AccessReenlightenmentControls", 1); ("Reserved1", 18);
   ("CreatePartitions", 1); ("AccessPartitionId", 1); ("AccessMemoryPool", 1); ("Reserved2", 1);
   ("PostMessages", 1); ("SignalEvents", 1); ("CreatePort", 1); ("ConnectPort", 1);
   ("AccessStats", 1); ("Reserved3", 2); ("Debugging", 1); ("CpuManagement", 1); ("Reserved4", 1);
   ("Reserved5", 1); ("Reserved6", 1); ("AccessVSM", 1); ("AccessVpRegisters", 1);
   ("Reserved7", 1); ("Reserved8", 1); ("EnableExtendedHypercalls", 1);
   ("StartVirtualProcessor", 1); ("Reserved9", 10)]%string.

(** The first bit of a member. *)
Fixpoint privilege_bit (name : string) (l : list (string * Z)) (at_ : Z) : option Z :=
  match l with
  | [] => None
  | (n, w) :: l' => if String.eqb n name then Some at_ else privilege_bit name l' (at_ + w)
  end.

Definition has_privilege (name : string) (v : Z) : bool :=
  match privilege_bit name PartitionPriviledge 0 with Some i => Z.testbit v i | None => false end.

(** [check_features]: the warnings that are logged. *)
Definition check_features (m : machine) : list string :=
  let '(eax, ebx, _, _) := cpuid m HV_CPUID_FEATURES in
  let merged_result := Z.lor eax (u64 (Z.shiftl ebx 32)) in
  (if has_privilege "AccessVpRegisters" merged_result then []
   else ["Missing AccessVpRegisters partition priviledge."%string]) ++
  (if has_privilege "StartVirtualProcessor" merged_result then []
   else ["Missing StartVirtualProcessor partition priviledge."%string]).

Definition guest_os_id : Z := Z.lor (Z.lor (u64 (Z.shiftl MONZA_ID 48)) (u64 (Z.shiftl KERNEL_VERSION 16))) BUILD_ID.

(** [init_hyperv]; [codepage] is the page in the image for the hypercall code. *)
Definition init_hyperv (codepage : Z) (m : machine) (st : BootState) : BootState :=
  let '(target, write) := init_hypercall_page codepage (read_msr m HV_X64_MSR_HYPERCALL) in
  mkBoot (install_hyperv (hooks st)) (read_msr m HV_X64_MSR_TSC_FREQ)
    (is_environment_confidential st) (vtl st) target
    (msr_writes st ++ [(HV_X64_MSR_GUEST_OS_ID, guest_os_id)] ++
       match write with Some v => [(HV_X64_MSR_HYPERCALL, v)] | None => [] end)
    (sev_state st).

Section Detect.
Context `{SnmallocBits} (cfg : page_config) (host : list SevEvent -> Z -> Z).
Context (codepage unloaded_start heap_start tsc_msr : Z).

(** [init_hyperv_sev] whole: its effects on memory and the host, and the pointers. *)
Definition init_sev (st : BootState) : outcome BootState :=
  let* (s, freq) := init_hyperv_sev cfg host unloaded_start heap_start tsc_msr (sev_state st) in
  Done (mkBoot (install_sev (hooks st)) freq true 0 (hv_call_target st) (msr_writes st) s).

Definition setup_hypervisor (m : machine) (st : BootState) : outcome BootState :=
  let sev_features := read_msr m SEV_MSR_SEV_FEATURES in
  if negb (sev_features =? 0) then init_sev st else
  let '(_, _, result, _) := cpuid m CPUID_HYPERVISOR_ENABLED_LEAF in
  if Z.land result CPUID_HYPERVISOR_ENABLED_FLAG =? 0 then Done st else
  let '(hypervisor_maxleaf, s0, s1, s2) := cpuid m CPUID_HYPERVISOR_MAXLEAF_LEAF in
  if verify_hypervisor_signature (s0, s1, s2) HV_SIGNATURE && (hypervisor_maxleaf >=? HV_CPUID_MIN_MAXLEAF)
  then Done (init_hyperv codepage m st)
  else if verify_hypervisor_signature (s0, s1, s2) KVM_SIGNATURE then Done (init_kvm m hypervisor_maxleaf st)
  else Done st.

End Detect.

(** ** The second stage *)

(** [setup_hypervisor_stage2_generic] and Hyper-V's (also SEV's): the shared range. *)
Definition stage2_shared (i : impl) (hr : HeapRanges) : span :=
  match i with
  | Generic => io_shared_range (2 ^ 40 - IO_SHARED_MEMORY_SIZE)
  | HyperV | Sev => io_shared_range (u64 (largest_valid_address hr + 1))
  end.

(** [uartputc_generic]: polls the line status of the port, then writes; [status] gives
    the successive values of the status register. The ports written are returned. *)
Definition uartputc_generic (fuel : nat) (status : nat -> Z) (c : Z) : outcome (list (Z * Z)) :=
  let* _ := while_loop fuel (fun i => Z.land (status i) (Z.shiftl 1 5) =? 0) (fun i => Done (S i)) 0%nat in
  Done [(COM1, c)].

(** [shutdown_sev]: the request, then an endless loop, as the host may refuse it. *)
Definition shutdown_sev (host : list SevEvent -> Z -> Z) (s : SevState) : SevState :=
  vmgexit host (write_ghcb_msr (TerminationRequest_raw 0) s).

(** ** Interrupt stacks (gdt.cc) *)

Definition INTERRUPT_STACK_SIZE : Z := 64 * 1024.

(** [setup_gdt]: the size to allocate, the [ist1] of each core, and the range that is
    mapped for interrupts, once the allocator has returned [base]. *)
Definition interrupt_stack_size `{SnmallocBits} (cfg : page_config) (num_cores : Z) : Z :=
  align_up (u64 (num_cores * INTERRUPT_STACK_SIZE)) (PAGE_SIZE cfg).

Definition interrupt_stack_tops (base : Z) (num_cores : nat) : list Z :=
  map (fun i => u64 (base + (Z.of_nat i + 1) * INTERRUPT_STACK_SIZE)) (seq 0 num_cores).

Definition interrupt_stack_map (base size : Z) : AddressRange := range_of_span (Span base size).

(** ** System calls (arch/x86_64/compartment.cc) *)

Definition MSR_IA32_EFER : Z := 0xC0000080.
Definition MSR_IA32_STAR : Z := 0xC0000081.
Definition MSR_IA32_LSTAR : Z := 0xC0000082.
Definition MSR_IA32_SFMASK : Z := 0xC0000084.

Definition star_value : Z := Z.lor (u64 (Z.shiftl COMPARTMENT_CS32 48)) (u64 (Z.shiftl KERNEL_CS 32)).

(** The registers written, in order. *)
Definition setup_compartments (m : machine) (kernel_enter : Z) : list (Z * Z) :=
  [(MSR_IA32_EFER, Z.lor (read_msr m MSR_IA32_EFER) (Z.shiftl 1 0)); (MSR_IA32_STAR, star_value);
   (MSR_IA32_LSTAR, kernel_enter); (MSR_IA32_SFMASK, 0)].

(** What the processor makes of the register: selectors of [syscall] and 64-bit
    [sysret]. *)
Definition syscall_cs (star : Z) : Z := Z.land (bitfield 32 16 star) 0xFFFC.
Definition syscall_ss (star : Z) : Z := bitfield 32 16 star + 8.
Definition sysret_cs (star : Z) : Z := Z.lor (bitfield 48 16 star + 16) 3.
Definition sysret_ss (star : Z) : Z := Z.lor (bitfield 48 16 star + 8) 3.

(** ** [startcc] *)

Inductive boot_call : Type :=
| SetupHeap (i : impl) | InitAllocator | SetupCores (i : impl) | ApInit (i : impl) | Stage2 (i : impl)
| SetupGdt | SetupCompartments | SetupPagetable (i : impl) | AddRanges | SetupIdt (i : impl) | MonzaMain
| ShutdownCall (i : impl).

Definition startcc (h : Hooks) : list boot_call :=
  [SetupHeap (setup_heap h); InitAllocator; SetupCores (setup_cores h); ApInit (ap_init h);
   Stage2 (setup_hypervisor_stage2 h); SetupGdt; SetupCompartments; SetupPagetable (setup_pagetable h);
   AddRanges; SetupIdt (setup_idt h); MonzaMain; ShutdownCall (shutdown h)].

(** What a step of the boot relies on: the heap ranges, the allocator, the per-core
    data, the GHCB of the first core (under SEV its registers are written through it)
    and the interrupt stacks, which the tables must map. *)
Definition boot_needs (c : boot_call) (before : list boot_call) : bool :=
  let has f := existsb f before in
  match c with
  | InitAllocator => has (fun b => match b with SetupHeap _ => true | _ => false end)
  | SetupCores _ => has (fun b => match b with InitAllocator => true | _ => false end)
  | ApInit _ => has (fun b => match b with SetupCores _ => true | _ => false end)
  | Stage2 _ => has (fun b => match b with SetupHeap _ => true | _ => false end) &&
                has (fun b => match b with ApInit _ => true | _ => false end)
  | SetupGdt => has (fun b => match b with SetupCores _ => true | _ => false end)
  | SetupPagetable _ => has (fun b => match b with SetupGdt => true | _ => false end) &&
                        has (fun b => match b with Stage2 _ => true | _ => false end)
  | AddRanges => has (fun b => match b with SetupPagetable _ => true | _ => false end)
  | SetupIdt _ => has (fun b => match b with SetupGdt => true | _ => false end)
  | MonzaMain => has (fun b => match b with SetupIdt _ => true | _ => false end)
  | _ => true
  end.

Fixpoint boot_ordered (before todo : list boot_call) : bool :=
  match todo with [] => true | c :: todo' => boot_needs c before && boot_ordered (before ++ [c]) todo' end.

Lemma startcc_ordered h : boot_ordered [] (startcc h) = true.
Proof. by destruct h. Qed.

(** ** Detection *)

Lemma read_word_bytes sig i : (length sig = 12)%nat -> Forall (fun c => 0 <= c < 256) sig ->
  (i < 3)%nat ->
  signature_word sig (Z.of_nat i) =
    nth (4 * i) sig 0 + 256 * (nth (4 * i + 1) sig 0 + 256 * (nth (4 * i + 2) sig 0 + 256 * nth (4 * i + 3) sig 0)).
Proof.
  intros Hl Hf Hi. unfold signature_word. cbn [read_le]. unfold u8.
  replace (Z.to_nat (4 * Z.of_nat i)) with (4 * i)%nat by lia.
  replace (Z.to_nat (4 * Z.of_nat i + 1)) with (4 * i + 1)%nat by lia.
  replace (Z.to_nat (4 * Z.of_nat i + 1 + 1)) with (4 * i + 2)%nat by lia.
  replace (Z.to_nat (4 * Z.of_nat i + 1 + 1 + 1)) with (4 * i + 3)%nat by lia.
  assert (forall k, (k < 12)%nat -> 0 <= nth k sig 0 < 256) as Hb.
  { intros k Hk. rewrite Forall_forall in Hf. apply Hf, list_elem_of_In, nth_In. lia. }
  rewrite !Z.mod_small by (change (2 ^ 8) with 256; apply Hb; lia). lia.
Qed.

(** The registers spell the signature exactly when their bytes do. *)
Lemma verify_signature_exact s0 s1 s2 sig :
  (length sig = 12)%nat -> Forall (fun c => 0 <= c < 256) sig ->
  0 <= s0 < 2 ^ 32 -> 0 <= s1 < 2 ^ 32 -> 0 <= s2 < 2 ^ 32 ->
  verify_hypervisor_signature (s0, s1, s2) sig = true <->
  le_bytes 4 s0 ++ le_bytes 4 s1 ++ le_bytes 4 s2 = sig.
Proof.
  intros Hl Hf H0 H1 H2. unfold verify_hypervisor_signature.
  rewrite !andb_true_iff, !Z.eqb_eq.
  change (signature_word sig 0) with (signature_word sig (Z.of_nat 0)).
  change (signature_word sig 1) with (signature_word sig (Z.of_nat 1)).
  change (signature_word sig 2) with (signature_word sig (Z.of_nat 2)).
  rewrite (read_word_bytes sig 0), (read_word_bytes sig 1), (read_word_bytes sig 2) by (done || lia).
  do 12 (destruct sig as [|? sig]; [done|]). destruct sig; [|done].
  rewrite !Forall_cons in Hf. cbn -[Z.mul Z.add Z.pow Z.div Z.modulo]. change (2 ^ 8) with 256. split.
  - intros [[-> ->] ->]. repeat f_equal; zlia.
  - intros [= <- <- <- <- <- <- <- <- <- <- <- <-]. split_and!; zlia.
Qed.

Definition sev_hooks : Hooks := install_sev generic_hooks.
Definition hyperv_hooks : Hooks := install_hyperv generic_hooks.

(** The machine reports Hyper-V. *)
Definition reports_hyperv (m : machine) : Prop :=
  let '(_, _, flags, _) := cpuid m CPUID_HYPERVISOR_ENABLED_LEAF in
  let '(maxleaf, s0, s1, s2) := cpuid m CPUID_HYPERVISOR_MAXLEAF_LEAF in
  Z.testbit flags 31 = true /\ le_bytes 4 s0 ++ le_bytes 4 s1 ++ le_bytes 4 s2 = HV_SIGNATURE /\
  HV_CPUID_MIN_MAXLEAF <= maxleaf.

(** Registers are 32 bits wide. *)
Definition machine_ok (m : machine) : Prop :=
  forall leaf, let '(a, b, c, d) := cpuid m leaf in
    0 <= a < 2 ^ 32 /\ 0 <= b < 2 ^ 32 /\ 0 <= c < 2 ^ 32 /\ 0 <= d < 2 ^ 32.

Lemma land_bit31 r : 0 <= r < 2 ^ 32 -> (Z.land r CPUID_HYPERVISOR_ENABLED_FLAG =? 0) = negb (Z.testbit r 31).
Proof.
  intros Hr. unfold CPUID_HYPERVISOR_ENABLED_FLAG. destruct (Z.testbit r 31) eqn:E; cbn [negb].
  - apply Z.eqb_neq. intros H. assert (Z.testbit (Z.land r (Z.shiftl 1 31)) 31 = false) as H31 by (by rewrite H).
    rewrite Z.land_spec, E in H31. done.
  - apply Z.eqb_eq. apply Z.bits_inj'. intros i Hi. rewrite Z.land_spec, Z.bits_0.
    destruct (Z.eq_dec i 31) as [->|Hne]; [by rewrite E|].
    rewrite Z.shiftl_spec by done. destruct (Z.lt_ge_cases i 31).
    + rewrite (Z.testbit_neg_r 1) by lia. apply andb_false_r.
    + rewrite (Z.bits_above_log2 1) by (cbn; lia). apply andb_false_r.
Qed.

Lemma hv_signature_bytes : Forall (fun c => 0 <= c < 256) HV_SIGNATURE.
Proof. repeat constructor; lia. Qed.

(** The platform is found and installed as a whole. Where the processor reports
    SEV, whatever the host answers, boot stops or every function pointer but the
    interrupt table's is the confidential one and the environment is marked
    confidential; where it does not, nothing is confidential, the host is not asked
    anything, and Hyper-V's functions are installed exactly if the hypervisor bit, the
    twelve signature bytes and the leaf count say Hyper-V, otherwise the generic ones
    stay. *)
Theorem setup_hypervisor_installs `{SnmallocBits} cfg host codepage unloaded_start heap_start tsc_msr m s :
  machine_ok m ->
  let r := setup_hypervisor cfg host codepage unloaded_start heap_start tsc_msr m (boot_initial s) in
  (read_msr m SEV_MSR_SEV_FEATURES <> 0 ->
   forall st, r = Done st -> hooks st = sev_hooks /\ is_environment_confidential st = true /\ vtl st = 0) /\
  (read_msr m SEV_MSR_SEV_FEATURES = 0 -> exists st, r = Done st /\
   is_environment_confidential st = false /\ sev_state st = s /\
   (reports_hyperv m -> hooks st = hyperv_hooks) /\ (~ reports_hyperv m -> hooks st = generic_hooks)).
Proof.
  intros Hm r. unfold r, setup_hypervisor. split; intros Hf.
  - rewrite (proj2 (Z.eqb_neq _ _) Hf). cbn [negb]. unfold init_sev. intros st Hd.
    apply obind_done in Hd as ([s' freq] & _ & Hd). by injection Hd as <-.
  - rewrite Hf. cbn [Z.eqb negb]. unfold reports_hyperv.
    pose proof (Hm CPUID_HYPERVISOR_ENABLED_LEAF) as H1.
    pose proof (Hm CPUID_HYPERVISOR_MAXLEAF_LEAF) as H2.
    destruct (cpuid m CPUID_HYPERVISOR_ENABLED_LEAF) as [[[a1 b1] flags] d1].
    destruct (cpuid m CPUID_HYPERVISOR_MAXLEAF_LEAF) as [[[maxleaf s0] s1] s2].
    rewrite land_bit31 by apply H1. destruct (Z.testbit flags 31); cbn [negb].
    2:{ eexists. split; [done|]. split_and!; try done. by intros (? & _). }
    assert (verify_hypervisor_signature (s0, s1, s2) HV_SIGNATURE = true <->
      le_bytes 4 s0 ++ le_bytes 4 s1 ++ le_bytes 4 s2 = HV_SIGNATURE) as Hv
      by (apply verify_signature_exact; [done|apply hv_signature_bytes|apply H2..]).
    destruct (verify_hypervisor_signature (s0, s1, s2) HV_SIGNATURE && (maxleaf >=? HV_CPUID_MIN_MAXLEAF)) eqn:E.
    + apply andb_true_iff in E as [E1 E2]. apply Z.geb_le in E2. apply Hv in E1.
      unfold init_hyperv. destruct (init_hypercall_page _ _). eexists. split; [done|].
      split_and!; try done. intros Hn. by destruct Hn.
    + assert (~ (true = true /\ le_bytes 4 s0 ++ le_bytes 4 s1 ++ le_bytes 4 s2 = HV_SIGNATURE /\
        HV_CPUID_MIN_MAXLEAF <= maxleaf)) as Hn.
      { intros (_ & Hs & Hl). apply Hv in Hs. rewrite Hs in E. cbn in E. apply Z.geb_le in Hl. congruence. }
      destruct (verify_hypervisor_signature (s0, s1, s2) KVM_SIGNATURE); [|by eexists].
      unfold init_kvm. destruct (maxleaf >=? KVM_X64_CPUID_TIMING); [|by eexists].
      destruct (cpuid m KVM_X64_CPUID_TIMING) as [[[khz ?] ?] ?]. by eexists.
Qed.

Definition hyperv_machine : machine :=
  mkMachine (fun _ => 0) (fun leaf => if leaf =? 1 then (0, 0, 2 ^ 31, 0)
    else if leaf =? 0x40000000 then (0x40000006, 0x7263694D, 0x666F736F, 0x76482074) else (0, 0, 0, 0)).

Lemma setup_hypervisor_installs_witness :
  exists st, @setup_hypervisor ref_bits SmallPages (fun _ _ => 0) 4096 0 0 0 hyperv_machine
    (boot_initial (mkSev 0 [])) = Done st /\ hooks st = hyperv_hooks.
Proof.
  destruct (@setup_hypervisor_installs ref_bits SmallPages (fun _ _ => 0) 4096 0 0 0 hyperv_machine (mkSev 0 []))
    as [_ H].
  - intros leaf. unfold hyperv_machine, cpuid. repeat case_if_prop; lia.
  - destruct (H eq_refl) as (st & Hst & _ & _ & Hh & _). exists st. split; [exact Hst|].
    apply Hh. vm_compute. split; [reflexivity|]. split; [reflexivity|]. discriminate.
Defined.

(** The frequency under KVM is the one reported only below 4294968 kHz: the product
    with 1000 is computed in 32 bits. *)
Theorem init_kvm_frequency m maxleaf st khz b c d :
  KVM_X64_CPUID_TIMING <= maxleaf -> cpuid m KVM_X64_CPUID_TIMING = (khz, b, c, d) -> 0 <= khz < 2 ^ 32 ->
  (tsc_freq (init_kvm m maxleaf st) = khz * 1000 <-> khz <= 4294967) /\
  hooks (init_kvm m maxleaf st) = hooks st.
Proof.
  intros Hl Hc Hk. unfold init_kvm. rewrite (proj2 (Z.geb_le _ _) Hl), Hc. cbn. split; [|done].
  unfold u32. split; intros H.
  - destruct (Z.le_gt_cases khz 4294967); [done|].
    pose proof (Z.mod_pos_bound (khz * 1000) (2 ^ 32) ltac:(lia)). lia.
  - apply Z.mod_small. lia.
Qed.

Lemma init_kvm_frequency_witness :
  tsc_freq (init_kvm (mkMachine (fun _ => 0) (fun _ => (5000000, 0, 0, 0))) KVM_X64_CPUID_TIMING
    (boot_initial (mkSev 0 []))) <> 5000000 * 1000.
Proof.
  intros H. apply (init_kvm_frequency _ _ _ 5000000 0 0 0) in H; [lia|lia|reflexivity|lia].
Defined.

(** The end of the heap's last range. *)
Definition heap_end (hr : HeapRanges) : Z :=
  match last (additional hr) with
  | Some s => span_data s + span_size s
  | None => span_data (first_range hr) + span_size (first_range hr)
  end.

Lemma stage2_shared_eq `{SnmallocBits, !SnmallocBitsOk} cfg i hr :
  heap_wf cfg hr -> first_range hr <> Span 0 0 -> 0 <= heap_end hr < 2 ^ 64 ->
  stage2_shared i hr = io_shared_range (match i with Generic => SHMEM_START | _ => heap_end hr end).
Proof.
  intros Hw Hf He. destruct i; [done|..]; unfold stage2_shared;
    rewrite (largest_valid_address_eq cfg hr Hw Hf); by rewrite u64_small.
Qed.

(** C27: from host to guest. Let the host's region be where the guest's platform looks for
    it: below 1 TB for QEMU, and on Hyper-V right behind the guest's heap. Given room,
    the constructor of the host's ring buffer guest succeeds, its rings and their
    offsets lie apart, behind the initializer and inside the region, the rings are
    zero and the offsets hold what their constructor wrote; and the guest, after the
    second stage of its boot, builds its circuit from exactly these bytes. *)
Theorem ringbuffer_handover `{SnmallocBits, !SnmallocBitsOk} cfg i hr what Offsets BUFFER_SIZE m :
  heap_wf cfg hr -> first_range hr <> Span 0 0 -> 0 <= heap_end hr -> heap_end hr + SHMEM_SIZE < 2 ^ 64 ->
  type_ok Offsets -> 0 < BUFFER_SIZE ->
  SIZEOF_INITIALIZER + 2 * (BUFFER_SIZE + sizeof Offsets + alignof Offsets) < SHMEM_SIZE ->
  let base := match i with Generic => SHMEM_START | _ => heap_end hr end in
  exists s g s', reserve_initializer what base SIZEOF_INITIALIZER m = HOk s /\
    ringbuffer_guest Offsets BUFFER_SIZE s = HOk (g, s') /\
    guest_main (sizeof Offsets) (guest_view base (shmem_bytes s')) (stage2_shared i hr) =
      GOk (guest_def base (to_guest_def g), guest_def base (from_guest_def g)) /\
    ranges_apart ((0, SIZEOF_INITIALIZER) :: guest_ranges (sizeof Offsets) g ++ [(SHMEM_SIZE, 0)]) /\
    (forall d i, d = to_guest_def g \/ d = from_guest_def g ->
      def_size d = BUFFER_SIZE /\
      (0 <= i < BUFFER_SIZE -> shmem_bytes s' (def_data d + i) = 0) /\
      (0 <= i < sizeof Offsets ->
       shmem_bytes s' (def_offsets d + i) = bytes_at (constructed Offsets) i)).
Proof.
  intros Hw Hf Hz Ht HT HB Hroom base.
  rewrite (stage2_shared_eq cfg i hr Hw Hf) by (unfold SHMEM_SIZE in Ht; lia).
  apply ringbuffer_accepted; try done; unfold base, SHMEM_START, SHMEM_SIZE in *; destruct i; lia.
Qed.

(** A heap of one range that ends at 1 GB. *)
Definition gigabyte_heap : HeapRanges :=
  mkHeap (Span 0x2000000 (2 ^ 30 - 0x2000000)) (additional_ranges heap_initial) 0.

Lemma ringbuffer_handover_witness :
  exists s g s', reserve_initializer EmptyString (2 ^ 30) SIZEOF_INITIALIZER (fun _ => 255) = HOk s /\
    ringbuffer_guest (mkType 24 8 (replicate 24 0)) (2 * 1024 * 1024) s = HOk (g, s') /\
    guest_main 24 (guest_view (2 ^ 30) (shmem_bytes s')) (stage2_shared HyperV gigabyte_heap) =
      GOk (guest_def (2 ^ 30) (to_guest_def g), guest_def (2 ^ 30) (from_guest_def g)).
Proof.
  destruct (@ringbuffer_handover ref_bits ref_bits_ok SmallPages HyperV gigabyte_heap EmptyString
    (mkType 24 8 (replicate 24 0)) (2 * 1024 * 1024) (fun _ => 255)) as (s & g & s' & H1 & H2 & H3 & _).
  - split; [unfold MAX_RANGE_COUNT; cbn; lia|done| |constructor].
    right. unfold span_wf. cbn -[Z.pow]. split_and!; try lia. by exists (2 ^ 18).
  - done.
  - vm_compute. discriminate.
  - unfold SHMEM_SIZE. vm_compute. reflexivity.
  - unfold type_ok. cbn. lia.
  - lia.
  - unfold SIZEOF_INITIALIZER, SHMEM_SIZE. cbn. lia.
  - by exists s, g, s'.
Defined.

(** ** Interrupt stacks and segments *)

(** Every core has an interrupt stack of its own. For any number of cores, the
    stack below each core's top lies in the range mapped for interrupt stacks, and
    the stacks of two cores do not meet. *)
Theorem interrupt_stacks_apart `{SnmallocBits, !SnmallocBitsOk} cfg num_cores base :
  (0 < num_cores <= 256)%nat -> 0 <= base ->
  let size := interrupt_stack_size cfg (Z.of_nat num_cores) in
  base + size < 2 ^ 64 ->
  forall k top, interrupt_stack_tops base num_cores !! k = Some top ->
    top = base + (Z.of_nat k + 1) * INTERRUPT_STACK_SIZE /\
    range_subset (mkRange (top - INTERRUPT_STACK_SIZE) top) (interrupt_stack_map base size) /\
    forall j top', interrupt_stack_tops base num_cores !! j = Some top' -> j <> k ->
      range_disjoint (mkRange (top - INTERRUPT_STACK_SIZE) top) (mkRange (top' - INTERRUPT_STACK_SIZE) top').
Proof.
  intros Hn Hb size Hs.
  assert (Z.of_nat num_cores * INTERRUPT_STACK_SIZE <= size) as Hsize.
  { unfold size, interrupt_stack_size. unfold INTERRUPT_STACK_SIZE.
    rewrite u64_small by (unfold is_u64; lia).
    pose proof (page_size_bounds cfg).
    destruct (align_up_spec (Z.of_nat num_cores * (64 * 1024)) (PAGE_SIZE cfg)) as [_ ?];
      [apply page_size_pow2|lia|lia|lia]. }
  assert (forall k top, interrupt_stack_tops base num_cores !! k = Some top ->
    (k < num_cores)%nat /\ top = base + (Z.of_nat k + 1) * INTERRUPT_STACK_SIZE) as Htop.
  { intros k top Hk. unfold interrupt_stack_tops in Hk. rewrite list_lookup_fmap in Hk.
    destruct (seq 0 num_cores !! k) as [i|] eqn:Ei; [|done]. apply lookup_seq in Ei as [-> Hlt].
    cbn in Hk. injection Hk as <-. split; [done|].
    rewrite u64_small; [done|]. unfold is_u64, INTERRUPT_STACK_SIZE in *. nia. }
  intros k top Hk. destruct (Htop k top Hk) as [Hlt ->]. split; [done|]. split.
  - unfold interrupt_stack_map. rewrite range_of_span_wf by (cbn; unfold INTERRUPT_STACK_SIZE in *; lia).
    intros a Ha. unfold in_range in *. cbn in *. unfold INTERRUPT_STACK_SIZE in *. nia.
  - intros j top' Hj Hne. destruct (Htop j top' Hj) as [_ ->]. intros a Ha Ha'.
    unfold in_range in *. cbn in *. unfold INTERRUPT_STACK_SIZE in *. nia.
Qed.

Lemma interrupt_stacks_apart_witness :
  range_disjoint (mkRange 0x100000 0x110000) (mkRange 0x110000 0x120000).
Proof.
  refine (proj2 (proj2 (@interrupt_stacks_apart ref_bits ref_bits_ok SmallPages 2 0x100000 _ _ _ 0%nat 0x110000 _))
    1%nat 0x120000 _ _); try reflexivity; lia.
Defined.

(** The selectors the processor derives from the STAR register name the kernel's
    64-bit code and data segments on [syscall], and on [sysret] the 64-bit code and
    the data segment of ring 3, present in the descriptor table. *)
Lemma star_selectors :
  syscall_cs star_value = KERNEL_CS /\ syscall_ss star_value = KERNEL_DS /\
  sysret_cs star_value = COMPARTMENT_CS /\
  segments gdt_initial !! Z.to_nat (syscall_cs star_value / 8) = Some (CodeSegment64 0) /\
  segments gdt_initial !! Z.to_nat (syscall_ss star_value / 8) = Some (DataSegment64 0) /\
  segments gdt_initial !! Z.to_nat (sysret_cs star_value / 8) = Some (CodeSegment64 3) /\
  segments gdt_initial !! Z.to_nat (sysret_ss star_value / 8) = Some (DataSegment64 3) /\
  sysret_ss star_value mod 4 = 3.
Proof. by vm_compute. Qed.

(** The serial port gets the character once, after the first ready status. *)
Lemma uartputc_generic_ready fuel status c n :
  (n < fuel)%nat -> Z.testbit (status n) 5 = true -> uartputc_generic fuel status c = Done [(COM1, c)].
Proof.
  intros Hn Hr. unfold uartputc_generic.
  destruct (while_progress (fun i => Z.land (status i) (Z.shiftl 1 5) =? 0) (fun i => Done (S i))
    (fun i => (i <= n)%nat) (fun i => (n - i)%nat) fuel 0%nat) as [i ->]; [|lia|lia|done].
  intros i Hi Hc. exists (S i). split; [done|].
  assert (i <> n); [|lia]. intros ->. apply Z.eqb_eq in Hc.
  assert (Z.testbit (Z.land (status n) (Z.shiftl 1 5)) 5 = false) as H5 by (by rewrite Hc).
  by rewrite Z.land_spec, Hr in H5.
Qed.
