(* ===== verification/Platform.v ===== *)
(** * What the allocator and the runtime call of the platform

    The hooks of snmalloc ([MonzaNoNotificationPal], [MonzaPal] and the pools of include/public/snmalloc/snmalloc.h,
    crt/snmalloc.cc, crt/early_alloc.cc), and the functions behind the pointers that [Boot] installs: host-visible
    memory and attestation reports of the generic platform (arch/x86_64/hypervisor.cc, confidential.cc), and the
    preparation of each core under Hyper-V (hv.cc). snmalloc itself is a parameter. *)

From S2P Require Import Prelude External Address Heap Sev SevHeap Compartment Threads CompartmentCalls Logging Console.
From S2P Require Import Ownership PageTable Cpu Boot.

(** ** Hooks of the allocator *)

(** [get_tid]: a number that is not 0 and differs between threads; [tcb] is the address of the control block, 0 where there is none. *)
Definition get_tid (tcb : Z) : Z := if tcb =? 0 then 1 else tcb.

Section Messages.
Context (N : Z) (current : LogLevel) (putc : Z -> ConsoleState -> outcome ConsoleState).

Definition SNMALLOC_text : list Z := [83; 78; 77; 65; 76; 76; 79; 67].

Definition pal_message (str : list Z) (s : ConsoleState) : outcome ConsoleState :=
  ofold (console_log N putc) (LOG_MOD current ERROR SNMALLOC_text [LogStr str]) s.

Definition pal_error (str : list Z) (s : ConsoleState) : outcome ConsoleState :=
  let* _ := pal_message str s in Kabort.

End Messages.

Definition zero (p size : Z) (mem : Z -> Z) : Z -> Z := memset p size mem.

(** [MonzaNoNotificationPal::notify_using]. *)
Definition notify_using_plain (yes_zero : bool) (p size : Z) (mem : Z -> Z) : Z -> Z :=
  if yes_zero then zero p size mem else mem.

(** [notify_using_memory] of the platform: an empty function on each of them. *)
Definition notify_using_hook (i : impl) (range : span) (mem : Z -> Z) : Z -> Z :=
  match i with Generic | HyperV => mem | Sev => mem end.

(** [MonzaPal::notify_using]. *)
Definition notify_using (h : Hooks) (yes_zero : bool) (p size : Z) (mem : Z -> Z) : Z -> Z :=
  notify_using_plain yes_zero p size (notify_using_hook (notify_using_memory h) (Span p size) mem).

Definition notify_not_using (p size : Z) (mem : Z -> Z) : Z -> Z := mem.
Definition get_entropy64 : Z := 0.

(** ** Pools of allocators *)

(** [alloc_pool] of the kernel, or the thread-local [compartment_alloc_pool] in a block of thread-local memory. *)
Inductive pool_id : Type := AllocPool | CompartmentPool (tls : Z).

#[export] Instance pool_id_eq_dec : EqDecision pool_id.
Proof. solve_decision. Defined.

(** [MonzaGlobals::pool()]. *)
Definition globals_pool (t : option TCB) : pool_id :=
  if is_compartment t then CompartmentPool (match t with Some b => self_ptr b | None => 0 end) else AllocPool.

(** [MonzaCompartmentGlobals::pool()]. *)
Definition compartment_globals_pool (b : TCB) : pool_id := CompartmentPool (self_ptr b).

(** No allocator is shared between the kernel and a compartment, or between the threads of compartments. *)
Lemma pools_apart (a b : option TCB) :
  globals_pool a = globals_pool b <->
  is_compartment a = false /\ is_compartment b = false \/
  is_compartment a = true /\ is_compartment b = true /\ option_map self_ptr a = option_map self_ptr b.
Proof.
  unfold globals_pool. destruct a as [a|], b as [b|]; unfold is_compartment; cbn;
    repeat (destruct (_ =? null_owner)); cbn; intuition congruence.
Qed.

(** A message is printed or the machine stops; an error always stops it. *)
Lemma pal_error_stops N current putc str s s' : pal_error N current putc str s <> Done s'.
Proof. unfold pal_error. by destruct (pal_message _ _ _ _ _). Qed.

(** Memory put to use with zeroing is zero, whatever the platform, and nothing else changes. *)
Lemma notify_using_zeroes h p size mem a :
  notify_using h true p size mem a = (if (p <=? a) && (a <? p + size) then 0 else mem a) /\
  notify_using h false p size mem a = mem a.
Proof. by destruct (notify_using_memory h) eqn:E; unfold notify_using, notify_using_hook; rewrite E. Qed.

(** ** Memory of the kernel's allocator *)

(** [alloc<YesZero>] and [dealloc] of the allocator of the thread; [kh_live] are the blocks handed out. *)
Class KernelHeap (H : Type) : Type := {
  kh_live : H -> gmap Z Z;
  kh_bytes : H -> Z -> Z;
  kh_wf : H -> Prop;
  kh_alloc_zero : Z -> H -> outcome (Z * H);
  kh_dealloc : Z -> H -> H;
}.

(** Blocks do not overlap, are at multiples of their size where that is a power of two, and are
    zero; the rest of memory stays. *)
Class KernelHeapOk {H} (K : KernelHeap H) : Prop := {
  kh_alloc_spec : forall size h p h', kh_wf h -> 0 < size -> kh_alloc_zero size h = Done (p, h') ->
    kh_wf h' /\ 0 < p /\ p + size < 2 ^ 64 /\ kh_live h' = <[p := size]> (kh_live h) /\ (is_pow2 size -> (size | p)) /\
    (forall q n, kh_live h !! q = Some n -> p + size <= q \/ q + n <= p) /\
    forall a, kh_bytes h' a = if (p <=? a) && (a <? p + size) then 0 else kh_bytes h a;
}.

Section Visible.
Context {H : Type} {K : KernelHeap H}.

Definition early_alloc_zero (size : Z) (h : H) : outcome (Z * H) := kh_alloc_zero size h.
Definition early_free (ptr : Z) (h : H) : H := kh_dealloc ptr h.

Definition allocate_visible_generic (size : Z) (h : H) : outcome (Z * H) := early_alloc_zero size h.

(** ** Descriptor tables and interrupt stacks (gdt.cc) *)

(** [gdt], [ist1] of each entry of [per_core_tss], and [interrupt_stack_map]. *)
Record Descriptors : Type := mkDescriptors { ds_gdt : GDT; ds_ist1 : list Z; ds_stack_map : list MapEntry }.

(** [setup_gdt] up to the instructions that load the table; [tss_address] is that of [per_core_tss]. *)
Definition setup_gdt `{SnmallocBits} (cfg : page_config) (tss_address : Z) (num_cores : nat) (d : Descriptors) (h : H)
  : outcome (Descriptors * H) :=
  let g := fill_tss tss_address (ds_gdt d) in
  let interrupt_stack_allocation_size := interrupt_stack_size cfg (Z.of_nat num_cores) in
  let* r := early_alloc_zero interrupt_stack_allocation_size h in
  Done (mkDescriptors g (interrupt_stack_tops (fst r) num_cores ++ drop num_cores (ds_ist1 d))
          [mkMapEntry (interrupt_stack_map (fst r) interrupt_stack_allocation_size) PT_FORCE_KERNEL_WRITE], snd r).

(** ** Cores under Hyper-V *)

(** The register 0xf0 of the local APIC and [hypervisor_input_page] of each core, by number. *)
Record HvCores : Type := mkHvCores { hc_spurious : nat -> Z; hc_input_page : nat -> Z; hc_heap : H }.

Definition ap_init_hyperv (s : HvCores) (core : nat) : outcome HvCores :=
  let spurious := fun c => if decide (c = core) then Z.lor (hc_spurious s c) 0x100 else hc_spurious s c in
  let* r := allocate_visible_generic HV_PAGE_SIZE (hc_heap s) in
  Done (mkHvCores spurious (fun c => if decide (c = core) then fst r else hc_input_page s c) (snd r)).

Definition page_of (s : HvCores) (c : nat) : Prop := kh_live (hc_heap s) !! hc_input_page s c = Some HV_PAGE_SIZE.

End Visible.
Arguments HvCores : clear implicits.

(** ** Reports *)

Definition generate_attestation_report_generic (user_data : list Z) : list Z := user_data.

Definition is_confidential (st : BootState) : bool := is_environment_confidential st.

(** [get_attestation_report]; [sev] is [generate_attestation_report_sev]. *)
Definition get_attestation_report (sev : list Z -> outcome (list Z)) (h : Hooks) (user_data : list Z) : outcome (list Z) :=
  match generate_attestation_report h with
  | Sev => sev user_data
  | Generic | HyperV => Done (generate_attestation_report_generic user_data)
  end.

(** A report that only repeats the data of the user is given exactly where [is_confidential] says so: after
    any boot, whatever the host answers, a confidential environment asks the processor. *)
Theorem reports_genuine `{SnmallocBits} cfg host codepage unloaded_start heap_start tsc_msr m s st sev user_data :
  machine_ok m ->
  setup_hypervisor cfg host codepage unloaded_start heap_start tsc_msr m (boot_initial s) = Done st ->
  get_attestation_report sev (hooks st) user_data =
    if is_confidential st then sev user_data else Done user_data.
Proof.
  intros Hm Hst. unfold is_confidential.
  destruct (setup_hypervisor_installs cfg host codepage unloaded_start heap_start tsc_msr m s Hm) as [Hsev Hno].
  destruct (Z.eq_dec (read_msr m SEV_MSR_SEV_FEATURES) 0) as [E|E].
  - destruct (Hno E) as (st' & Hst' & Hc & _ & Hh & Hg). assert (st' = st) as -> by congruence. rewrite Hc.
    unfold get_attestation_report. destruct (generate_attestation_report (hooks st)) eqn:Er; [done|done|].
    exfalso. assert (hooks st = hyperv_hooks \/ hooks st = generic_hooks) as [Eh|Eh]; [|rewrite Eh in Er; discriminate..].
    unfold reports_hyperv in *. destruct (cpuid m CPUID_HYPERVISOR_ENABLED_LEAF) as [[[? ?] fl] ?].
    destruct (cpuid m CPUID_HYPERVISOR_MAXLEAF_LEAF) as [[[ml s0] s1] s2].
    destruct (decide (Z.testbit fl 31 = true /\ le_bytes 4 s0 ++ le_bytes 4 s1 ++ le_bytes 4 s2 = HV_SIGNATURE /\
      HV_CPUID_MIN_MAXLEAF <= ml)) as [Hd|Hd]; [left; by apply Hh|right; by apply Hg].
  - destruct (Hsev E st Hst) as (Hh & -> & _). unfold get_attestation_report. by rewrite Hh.
Qed.

(** ** Pages of the cores *)

Section Cores.
Context {H : Type} {K : KernelHeap H} {Hok : KernelHeapOk K}.

Lemma hv_page_pow2 : is_pow2 HV_PAGE_SIZE.
Proof. exists 12. split; [lia|reflexivity]. Qed.

(** What holds of the cores that have run. *)
Record cores_ok (spurious0 : nat -> Z) (pages0 : nat -> Z) (ran : list nat) (s : HvCores H) : Prop := {
  co_wf : kh_wf (hc_heap s);
  co_ran : forall c, c ∈ ran -> page_of s c /\ 0 < hc_input_page s c /\ (HV_PAGE_SIZE | hc_input_page s c) /\
    hc_spurious s c = Z.lor (spurious0 c) 0x100;
  co_zero : forall c a, c ∈ ran -> hc_input_page s c <= a < hc_input_page s c + HV_PAGE_SIZE -> kh_bytes (hc_heap s) a = 0;
  co_apart : forall c d, c ∈ ran -> d ∈ ran -> c <> d ->
    hc_input_page s c + HV_PAGE_SIZE <= hc_input_page s d \/ hc_input_page s d + HV_PAGE_SIZE <= hc_input_page s c;
  co_others : forall c, c ∉ ran -> hc_spurious s c = spurious0 c /\ hc_input_page s c = pages0 c;
}.

Lemma ap_init_hyperv_ok spurious0 pages0 ran s core s' :
  cores_ok spurious0 pages0 ran s -> core ∉ ran -> ap_init_hyperv s core = Done s' -> cores_ok spurious0 pages0 (core :: ran) s'.
Proof.
  intros [Kw Kr Kz Ka Ko] Hc Hs. unfold ap_init_hyperv in Hs. apply obind_done in Hs as ([p h'] & Ha & Hs). injection Hs as <-.
  destruct (kh_alloc_spec HV_PAGE_SIZE (hc_heap s) p h' Kw ltac:(done) Ha) as (Hw & Hp & _ & Hl & Hal & Hd & Hb).
  specialize (Hal hv_page_pow2).
  assert (forall c, c ∈ ran -> p + HV_PAGE_SIZE <= hc_input_page s c \/ hc_input_page s c + HV_PAGE_SIZE <= p) as Hfar
    by (intros c Hin; apply Hd, Kr, Hin).
  assert (forall c, c ∈ ran -> c <> core) as Hne by congruence.
  split; cbn [hc_heap hc_spurious hc_input_page fst snd]; unfold page_of; cbn [hc_heap hc_input_page fst snd].
  - done.
  - intros c [->|Hin]%elem_of_cons.
    + rewrite !decide_True, Hl, lookup_insert_eq by done. split_and!; try done. by rewrite (proj1 (Ko core Hc)).
    + assert (p <> hc_input_page s c) as Hpc by (intros E; destruct (Hfar c Hin); unfold HV_PAGE_SIZE in *; lia).
      rewrite !decide_False, Hl, lookup_insert_ne by (done || by apply Hne). by apply Kr.
  - intros c a [->|Hin]%elem_of_cons Hin'; rewrite Hb.
    + rewrite decide_True in Hin' by done. rewrite (proj2 (Z.leb_le _ _)), (proj2 (Z.ltb_lt _ _)) by lia. done.
    + rewrite decide_False in Hin' by (by apply Hne). case_match; [done|]. by apply (Kz c).
  - intros c d [->|Hin]%elem_of_cons [->|Hind]%elem_of_cons Hcd; [done|..];
      rewrite ?(decide_True (P := core = core)), ?decide_False by (done || by apply Hne); auto.
    destruct (Hfar c Hin); auto.
  - intros c [Hnc Hin]%not_elem_of_cons. rewrite !decide_False by done. by apply Ko.
Qed.

Lemma ap_inits_ok spurious0 pages0 cores : forall ran s s',
  cores_ok spurious0 pages0 ran s -> NoDup (cores ++ ran) -> ofold ap_init_hyperv cores s = Done s' ->
  cores_ok spurious0 pages0 (rev cores ++ ran) s'.
Proof.
  induction cores as [|c cores IH]; intros ran s s' Hk Hnd Hs; [by injection Hs as <-|].
  cbn [ofold] in Hs. apply obind_done in Hs as (s1 & Hc & Hs). cbn [app] in Hnd. apply NoDup_cons in Hnd as [Hin Hnd].
  rewrite elem_of_app in Hin. cbn [rev]. rewrite <- app_assoc. cbn [app]. apply (IH (c :: ran) s1 s').
  - apply (ap_init_hyperv_ok _ _ ran s); [done|tauto|done].
  - rewrite <- Permutation_middle. apply NoDup_cons. rewrite elem_of_app. tauto.
  - done.
Qed.

End Cores.

(** Each core under Hyper-V has a page for hypercalls of its own. In whatever order the cores run [ap_init], once each:
    the pages are whole pages of the kernel's heap, zero and apart from each other, the local APIC of each of these cores is enabled with
    the rest of its register as it was, and the other cores are as before. *)
Theorem hyperv_cores_apart {H} {K : KernelHeap H} {Hok : KernelHeapOk K} (cores : list nat) (s s' : HvCores H) :
  kh_wf (hc_heap s) -> NoDup cores -> ofold ap_init_hyperv cores s = Done s' ->
  (forall c, c ∈ cores -> 0 < hc_input_page s' c /\ (HV_PAGE_SIZE | hc_input_page s' c) /\
     Z.testbit (hc_spurious s' c) 8 = true /\
     (forall i, i <> 8 -> Z.testbit (hc_spurious s' c) i = Z.testbit (hc_spurious s c) i) /\
     (forall a, hc_input_page s' c <= a < hc_input_page s' c + HV_PAGE_SIZE -> kh_bytes (hc_heap s') a = 0) /\
     forall d, d ∈ cores -> d <> c ->
       hc_input_page s' c + HV_PAGE_SIZE <= hc_input_page s' d \/ hc_input_page s' d + HV_PAGE_SIZE <= hc_input_page s' c) /\
  forall c, c ∉ cores -> hc_spurious s' c = hc_spurious s c /\ hc_input_page s' c = hc_input_page s c.
Proof.
  intros Hw Hnd Hs.
  assert (cores_ok (hc_spurious s) (hc_input_page s) [] s) as H0
    by (split; try done; intros c; [by intros ?%elem_of_nil|intros ? ?%elem_of_nil; done|intros ? ?%elem_of_nil; done]).
  destruct (ap_inits_ok _ _ cores [] s s' H0) as [_ Kr Kz Ka Ko]; [by rewrite app_nil_r|done|].
  rewrite app_nil_r in Kr, Kz, Ka, Ko. assert (forall c, c ∈ cores <-> c ∈ rev cores) as Hrev
    by (intros c; by rewrite !list_elem_of_In, <- in_rev).
  split.
  - intros c Hc. apply Hrev in Hc. destruct (Kr c Hc) as (_ & Hp & Hal & Hsp). split_and!; [done|done| | |intros a Ha; by apply (Kz c)|].
    + by rewrite Hsp, Z.lor_spec, orb_true_r.
    + intros i Hi. rewrite Hsp, Z.lor_spec. replace (Z.testbit 0x100 i) with false; [by rewrite orb_false_r|].
      change 0x100 with (2 ^ 8). symmetry. apply Z.pow2_bits_false. lia.
    + intros d Hd Hne. apply Hrev in Hd. apply Ka; congruence.
  - intros c Hc. apply Ko. by rewrite <- Hrev.
Qed.

(** Interrupt stacks of the cores. After [setup_gdt] every core enters its handlers on a stack of its own: 64 kB of zeros below
    [ist1], inside the one range that compartments' tables map for the kernel only, apart from the stacks of all other cores and from every
    block that the heap had handed out before. *)
Theorem setup_gdt_stacks {H} {K : KernelHeap H} {Hok : KernelHeapOk K} `{SnmallocBits, !SnmallocBitsOk}
  cfg tss_address num_cores d h d' h' :
  kh_wf h -> (0 < num_cores <= 256)%nat -> setup_gdt cfg tss_address num_cores d h = Done (d', h') ->
  exists r, ds_stack_map d' = [mkMapEntry r PT_FORCE_KERNEL_WRITE] /\
    (forall q n, kh_live h !! q = Some n -> 0 < n -> range_disjoint (mkRange q (q + n)) r) /\
    forall k, (k < num_cores)%nat -> exists top, ds_ist1 d' !! k = Some top /\
      range_subset (mkRange (top - INTERRUPT_STACK_SIZE) top) r /\
      (forall a, top - INTERRUPT_STACK_SIZE <= a < top -> kh_bytes h' a = 0) /\
      forall j top', (j < num_cores)%nat -> ds_ist1 d' !! j = Some top' -> j <> k ->
        range_disjoint (mkRange (top - INTERRUPT_STACK_SIZE) top) (mkRange (top' - INTERRUPT_STACK_SIZE) top').
Proof.
  intros Hw Hn Hs. unfold setup_gdt in Hs. set (size := interrupt_stack_size cfg (Z.of_nat num_cores)) in *.
  apply obind_done in Hs as ([base h1] & Ha & Hs). injection Hs as <- <-. cbn [ds_stack_map ds_ist1 fst snd].
  assert (0 < size) as Hsize.
  { unfold size, interrupt_stack_size. pose proof (page_size_bounds cfg).
    rewrite u64_small by (unfold is_u64, INTERRUPT_STACK_SIZE; lia).
    enough (Z.of_nat num_cores * INTERRUPT_STACK_SIZE <= align_up (Z.of_nat num_cores * INTERRUPT_STACK_SIZE) (PAGE_SIZE cfg))
      by (unfold INTERRUPT_STACK_SIZE in *; lia).
    apply align_up_spec; [apply page_size_pow2|unfold INTERRUPT_STACK_SIZE; lia..]. }
  destruct (kh_alloc_spec size h base h1 Hw Hsize Ha) as (_ & Hb & Hlt & _ & _ & Hd & Hz).
  pose proof (interrupt_stacks_apart cfg num_cores base Hn ltac:(lia) Hlt) as Hap. fold size in Hap. cbv zeta in Hap.
  assert (interrupt_stack_map base size = mkRange base (base + size)) as Hr
    by (unfold interrupt_stack_map; rewrite range_of_span_wf; cbn; [done|lia..]).
  exists (interrupt_stack_map base size). split; [done|]. split.
  { intros q n Hq Hn0 a Ha1 Ha2. rewrite Hr in Ha2. unfold in_range in *. cbn in *. destruct (Hd q n Hq); lia. }
  assert (length (interrupt_stack_tops base num_cores) = num_cores) as Hlen
    by (unfold interrupt_stack_tops; by rewrite length_map, length_seq).
  intros k Hk. destruct (lookup_lt_is_Some_2 (interrupt_stack_tops base num_cores) k) as [top Htop]; [lia|].
  exists top. rewrite lookup_app_l by lia. destruct (Hap k top Htop) as (_ & Hsub & Hdis). split_and!; [done|done| |].
  - intros a Ha'. rewrite Hz. specialize (Hsub a). rewrite Hr in Hsub. unfold in_range in Hsub. cbn in Hsub.
    specialize (Hsub Ha'). rewrite (proj2 (Z.leb_le _ _)), (proj2 (Z.ltb_lt _ _)) by lia. done.
  - intros j top' Hj Htop' Hne. rewrite lookup_app_l in Htop' by lia. by apply (Hdis j).
Qed.

(** ** Witnesses *)

(** A heap that hands out pages one after the other. *)
Record page_heap : Type := mkPages { ph_live : gmap Z Z; ph_next : Z; ph_bytes : Z -> Z }.

#[export] Instance page_heap_ops : KernelHeap page_heap := {|
  kh_live := ph_live;
  kh_bytes := ph_bytes;
  kh_wf := fun h => 0 < ph_next h /\ forall q n, ph_live h !! q = Some n -> q + n <= ph_next h;
  kh_alloc_zero := fun size h =>
    let p := (ph_next h / size + 1) * size in
    if p + size <? 2 ^ 64 then Done (p, mkPages (<[p := size]> (ph_live h)) (p + size) (memset p size (ph_bytes h))) else Kabort;
  kh_dealloc := fun p h => mkPages (delete p (ph_live h)) (ph_next h) (ph_bytes h);
|}.

#[export] Instance page_heap_ok : KernelHeapOk page_heap_ops.
Proof.
  split. intros size h p h' [Hn Hl] Hs Ha. cbn in Ha. case_match eqn:E; [|done]. apply Z.ltb_lt in E. injection Ha as <- <-. cbn.
  assert (ph_next h < (ph_next h / size + 1) * size) as Hlt by (pose proof (Z.mul_succ_div_gt (ph_next h) size Hs); lia).
  split_and!; [lia| |lia|lia|done| | |done].
  - intros q n [[<- <-]|[_ Hq]]%lookup_insert_Some; [lia|]. apply Hl in Hq. lia.
  - intros _. by exists (ph_next h / size + 1).
  - intros q n Hq. apply Hl in Hq. lia.
Qed.

Definition two_cores : HvCores page_heap := mkHvCores (fun _ => 0xff) (fun _ => 0) (mkPages ∅ 0x10000 (fun _ => 7)).

Lemma hyperv_cores_apart_witness :
  exists s', ofold ap_init_hyperv [0; 1]%nat two_cores = Done s' /\
    (hc_input_page s' 0%nat + HV_PAGE_SIZE <= hc_input_page s' 1%nat \/ hc_input_page s' 1%nat + HV_PAGE_SIZE <= hc_input_page s' 0%nat).
Proof.
  run_done (ofold ap_init_hyperv [0; 1]%nat two_cores) E. rename a into s'. exists s'.
  destruct (hyperv_cores_apart [0; 1]%nat two_cores s') as [Hc _]; [|repeat constructor; set_solver|exact E|].
  { split; [cbn; lia|]. intros q n Hq. cbn in Hq. by rewrite lookup_empty in Hq. }
  destruct (Hc 0%nat) as (_ & _ & _ & _ & _ & Hd); [set_solver|].
  split; [reflexivity|]. apply (Hd 1%nat); [set_solver|done].
Defined.

Lemma reports_genuine_witness :
  exists st, @setup_hypervisor ref_bits SmallPages (fun _ _ => 0) 4096 0 0 0 hyperv_machine (boot_initial (mkSev 0 [])) = Done st /\
    get_attestation_report (fun _ => Kabort) (hooks st) [1; 2] = Done [1; 2].
Proof.
  run_done (@setup_hypervisor ref_bits SmallPages (fun _ _ => 0) 4096 0 0 0 hyperv_machine (boot_initial (mkSev 0 []))) E.
  rename a into st. exists st. split; [reflexivity|].
  assert (is_confidential st = false) as Hc by (vm_compute in E; injection E as <-; reflexivity).
  rewrite (@reports_genuine ref_bits SmallPages (fun _ _ => 0) 4096 0 0 0 hyperv_machine (mkSev 0 []) st (fun _ => Kabort) [1; 2]); [by rewrite Hc| |exact E].
  intros leaf. unfold hyperv_machine, cpuid. repeat case_if_prop; lia.
Defined.

(** Two cores on the same heap. *)
Lemma setup_gdt_stacks_witness :
  exists d' h', @setup_gdt page_heap page_heap_ops ref_bits SmallPages 0x400000 2 (mkDescriptors gdt_initial (replicate 256 0) [])
      (mkPages ∅ 0x10000 (fun _ => 7)) = Done (d', h') /\
    exists top, ds_ist1 d' !! 1%nat = Some top /\ kh_bytes h' (top - 1) = 0.
Proof.
  run_done (@setup_gdt page_heap page_heap_ops ref_bits SmallPages 0x400000 2 (mkDescriptors gdt_initial (replicate 256 0) [])
      (mkPages ∅ 0x10000 (fun _ => 7))) E. destruct a as [d' h']. exists d', h'. split; [reflexivity|].
  destruct (@setup_gdt_stacks page_heap page_heap_ops page_heap_ok ref_bits ref_bits_ok SmallPages 0x400000 2
    (mkDescriptors gdt_initial (replicate 256 0) []) (mkPages ∅ 0x10000 (fun _ => 7)) d' h') as (r & _ & _ & Hk); [|lia|exact E|].
  { split; [cbn; lia|]. intros q n Hq. cbn in Hq. by rewrite lookup_empty in Hq. }
  destruct (Hk 1%nat) as (top & Htop & _ & Hz & _); [lia|]. exists top. split; [exact Htop|].
  apply Hz. unfold INTERRUPT_STACK_SIZE. lia.
Defined.
